(** * CellCarto viewer: data access layer and filter engine of [app.js]

    A shallow embedding of the column loader, the sparse gene resolver, the
    coordinate loader, the filter pipeline and the sampling step of
    [src/app.js], with the properties of the specification stated over it. *)

From Stdlib Require Import ZArith QArith Qround Lia.
From stdpp Require Import gmap strings list sorting pretty.

Open Scope Z_scope.

(** ** JavaScript numbers

    A finite number is the rational it denotes ([Fin]); arithmetic rounds the
    exact result to the nearest binary64 value, ties to even.  Signed zeros
    are identified (no expression of the modelled code tells them apart). *)

Inductive number : Type :=
| NaN
| PosInf
| NegInf
| Fin (q : Q).

Definition num_of_Z (z : Z) : number := Fin (inject_Z z).

Definition num_neg (x : number) : number :=
  match x with
  | NaN => NaN
  | PosInf => NegInf
  | NegInf => PosInf
  | Fin q => Fin (Qred (- q))
  end.

(** [2 ^ e] for any integer exponent. *)
Definition Qpow2 (e : Z) : Q :=
  match e with
  | Z0 => 1%Q
  | Zpos p => inject_Z (2 ^ Zpos p)
  | Zneg p => Qmake 1 (2 ^ p)%positive
  end.

(** [floor (log2 q)] for [q > 0]. *)
Definition floor_log2 (q : Q) : Z :=
  let e0 := Z.log2 (Qnum q) - Z.log2 (Zpos (Qden q)) in
  if Qle_bool (Qpow2 e0) q then e0 else e0 - 1.

(** Nearest integer, ties to the even one. *)
Definition round_half_even (q : Q) : Z :=
  let f := Qfloor q in
  match Qcompare (q - inject_Z f) (1 # 2) with
  | Lt => f
  | Gt => f + 1
  | Eq => if Z.even f then f else f + 1
  end.

(** Round a positive rational to the binary format with [prec] bits of
    precision and exponents between [emin] and [emax]. *)
Definition round_pos (prec emin emax : Z) (q : Q) : number :=
  let e := Z.max (floor_log2 q) emin in
  let ulp := Qpow2 (e - (prec - 1)) in
  let r := (inject_Z (round_half_even (q / ulp)) * ulp)%Q in
  if Qle_bool (Qpow2 (emax + 1)) r then PosInf else Fin (Qred r).

Definition round_binary (prec emin emax : Z) (q : Q) : number :=
  match Qnum q with
  | Z0 => Fin 0
  | Zpos _ => round_pos prec emin emax q
  | Zneg _ => num_neg (round_pos prec emin emax (- q))
  end.

(** binary64, the format of every JavaScript number. *)
Definition round64 : Q -> number := round_binary 53 (-1022) 1023.

(** binary32, the element format of a [Float32Array] ([Math.fround]). *)
Definition fround (x : number) : number :=
  match x with
  | Fin q => round_binary 24 (-126) 127 q
  | _ => x
  end.

Definition isNaN (x : number) : bool :=
  match x with NaN => true | _ => false end.

(** [a < b] and [a <= b]; every comparison with [NaN] is false. *)
Definition num_lt (a b : number) : bool :=
  match a, b with
  | NaN, _ | _, NaN => false
  | _, NegInf => false
  | NegInf, _ => true
  | PosInf, _ => false
  | Fin _, PosInf => true
  | Fin p, Fin q => negb (Qle_bool q p)
  end.

Definition num_le (a b : number) : bool :=
  match a, b with
  | NaN, _ | _, NaN => false
  | NegInf, _ => true
  | _, PosInf => true
  | _, NegInf => false
  | PosInf, _ => false
  | Fin p, Fin q => Qle_bool p q
  end.

Definition num_gt (a b : number) : bool := num_lt b a.
Definition num_ge (a b : number) : bool := num_le b a.

(** [Math.min] and [Math.max]: [NaN] if an argument is. *)
Definition Math_min (a b : number) : number :=
  match a, b with
  | NaN, _ | _, NaN => NaN
  | _, _ => if num_le a b then a else b
  end.

Definition Math_max (a b : number) : number :=
  match a, b with
  | NaN, _ | _, NaN => NaN
  | _, _ => if num_le b a then a else b
  end.

Definition Math_floor (x : number) : number :=
  match x with
  | Fin q => num_of_Z (Qfloor q)
  | _ => x
  end.

Definition is_zero (x : number) : bool :=
  match x with Fin q => Qeq_bool q 0 | _ => false end.

(** [a * b] and [a / b]. *)
Definition num_mul (a b : number) : number :=
  match a, b with
  | NaN, _ | _, NaN => NaN
  | Fin p, Fin q => round64 (p * q)
  | _, _ =>
      if is_zero a || is_zero b then NaN
      else if Bool.eqb (num_lt a (Fin 0)) (num_lt b (Fin 0)) then PosInf else NegInf
  end.

Definition num_div (a b : number) : number :=
  match a, b with
  | NaN, _ | _, NaN => NaN
  | Fin p, Fin q =>
      if Qeq_bool q 0 then
        (if Qeq_bool p 0 then NaN else if Qle_bool 0 p then PosInf else NegInf)
      else round64 (p / q)
  | Fin _, _ => Fin 0
  | _, Fin q => if Bool.eqb (num_lt a (Fin 0)) (negb (Qle_bool 0 q)) then PosInf else NegInf
  | _, _ => NaN
  end.

(** ** JavaScript values

    The values that reach the modelled code: [undefined], [null], numbers and
    strings (the elements of the arrays the store returns, and the fields of
    the row records). *)

Inductive value : Type :=
| VUndefined
| VNull
| VNum (x : number)
| VStr (s : string).

(** The string primitives of the language are not interpreted; the
    development is parametric in them. *)
Class Builtins : Type := {
  parseFloat : string -> number;          (* parseFloat(s) *)
  ToNumber : string -> number;            (* Number(s), the coercion of s in s >= n *)
  NumberToString : number -> string;      (* String(n) *)
  ArrayIndex : string -> option nat;      (* the array index a property key denotes *)
  StringLess : string -> string -> bool   (* s < t on two strings *)
}.

Section Values.
Context `{Builtins}.

(** Truthiness, and [a || b]. *)
Definition truthy (v : value) : bool :=
  match v with
  | VUndefined | VNull => false
  | VNum x => negb (isNaN x || is_zero x)
  | VStr s => negb (String.eqb s "")
  end.

Definition js_or (a b : value) : value := if truthy a then a else b.

(** [String(v)]. *)
Definition String_of (v : value) : string :=
  match v with
  | VUndefined => "undefined"
  | VNull => "null"
  | VNum x => NumberToString x
  | VStr s => s
  end.

(** [parseFloat(v)]: the argument is first converted to a string. *)
Definition parseFloat_of (v : value) : number :=
  match v with
  | VStr s => parseFloat s
  | v => parseFloat (String_of v)
  end.

(** The numeric coercion applied by the relational operators. *)
Definition to_number (v : value) : number :=
  match v with
  | VUndefined => NaN
  | VNull => Fin 0
  | VNum x => x
  | VStr s => ToNumber s
  end.

(** [a < b], [a <= b], [a > b], [a >= b] on values. *)
Definition js_lt (a b : value) : bool :=
  match a, b with
  | VStr s, VStr t => StringLess s t
  | _, _ => num_lt (to_number a) (to_number b)
  end.

Definition js_le (a b : value) : bool :=
  match a, b with
  | VStr s, VStr t => negb (StringLess t s)
  | _, _ => num_le (to_number a) (to_number b)
  end.

Definition js_gt (a b : value) : bool := js_lt b a.
Definition js_ge (a b : value) : bool := js_le b a.

(** The array index denoted by a value used as a property key. *)
Definition index_of_value (v : value) : option nat :=
  match v with
  | VNum (Fin q) =>
      if Qeq_bool q (inject_Z (Qfloor q)) && (0 <=? Qfloor q)
      then Some (Z.to_nat (Qfloor q)) else None
  | VStr s => ArrayIndex s
  | _ => None
  end.

(** [arr[k]] on an array: [undefined] outside it. *)
Definition array_get (arr : list value) (k : value) : value :=
  match index_of_value k with
  | Some i => default VUndefined (arr !! i)
  | None => VUndefined
  end.

End Values.

(** ** Exceptions and the chunked store *)

Inductive error : Type :=
| NotFoundError (path : string)     (* the store has no array at the path *)
| FetchError (path : string)        (* the chunks of the array cannot be read *)
| ReferenceError (ident : string)   (* an identifier that is not in scope *)
| TypeError (what : string)
| Error (message : string).

(** The result of running a piece of code: a value, an exception, or a loop
    that was cut off ([OutOfFuel] is not an exception: no handler sees it). *)
Inductive outcome (A : Type) : Type :=
| Ok (a : A)
| Throw (e : error)
| OutOfFuel.
Arguments Ok {A} a.
Arguments Throw {A} e.
Arguments OutOfFuel {A}.

(** An array of the store: its shape, and its elements in row-major order
    ([None] when reading its chunks fails). *)
Record zarr_array : Type := {
  za_shape : list nat;
  za_data : option (list value)
}.

(** The store maps a path to the array found there. *)
Abbreviation store := (gmap string zarr_array).

(** [zarr.open] returns a handle: the array with the path it was opened at. *)
Record handle : Type := {
  h_path : string;
  h_array : zarr_array
}.

(** What was asked of the store, latest first. *)
Inductive fetch_event : Type :=
| Opened (path : string)
| Got (path : string)
| GotSlice (path : string) (start stop : value)
| GotColumn (path : string) (col : nat).

(** ** The module state of [app.js] *)

Record col_meta : Type := {
  cm_type : string;           (* 'categorical' | 'continuous' *)
  cm_encodingType : string;
  cm_path : string
}.

Record range : Type := {
  range_min : number;
  range_max : number
}.

Inductive filter_type : Type := continuous | categorical.

(** A filter object: [{ id, attribute, type, values, range }]; [None] is [null]. *)
Record Filter : Type := {
  f_id : string;
  f_attribute : string;
  f_type : option filter_type;
  f_values : option (gset string);
  f_range : option range
}.

Record cached_arrays : Type := {
  ca_indptr : list value;
  ca_indicesArr : handle;
  ca_dataArr : handle
}.

Record sparse_matrix : Type := {
  sm_shape : option (list nat);
  sm_geneNames : option (list string)
}.

Record session : Type := {
  zarrRoot : option store;
  cachedZarrArrays : option cached_arrays;
  sparseMatrix : sparse_matrix;
  columnMetadata : gmap string col_meta;
  loadedColumns : gset string;
  allData : list (gmap string value);
  attributeValues : gmap string (gset string);
  continuousRanges : gmap string range;
  activeFilters : list Filter;
  visibleIndices : option (list Z);
  fetchLog : list fetch_event
}.

Definition set_cachedZarrArrays (c : option cached_arrays) (st : session) : session :=
  {| zarrRoot := zarrRoot st; cachedZarrArrays := c; sparseMatrix := sparseMatrix st;
     columnMetadata := columnMetadata st; loadedColumns := loadedColumns st;
     allData := allData st; attributeValues := attributeValues st;
     continuousRanges := continuousRanges st; activeFilters := activeFilters st;
     visibleIndices := visibleIndices st; fetchLog := fetchLog st |}.

Definition set_loadedColumns (l : gset string) (st : session) : session :=
  {| zarrRoot := zarrRoot st; cachedZarrArrays := cachedZarrArrays st;
     sparseMatrix := sparseMatrix st;
     columnMetadata := columnMetadata st; loadedColumns := l;
     allData := allData st; attributeValues := attributeValues st;
     continuousRanges := continuousRanges st; activeFilters := activeFilters st;
     visibleIndices := visibleIndices st; fetchLog := fetchLog st |}.

Definition set_allData (d : list (gmap string value)) (st : session) : session :=
  {| zarrRoot := zarrRoot st; cachedZarrArrays := cachedZarrArrays st;
     sparseMatrix := sparseMatrix st;
     columnMetadata := columnMetadata st; loadedColumns := loadedColumns st;
     allData := d; attributeValues := attributeValues st;
     continuousRanges := continuousRanges st; activeFilters := activeFilters st;
     visibleIndices := visibleIndices st; fetchLog := fetchLog st |}.

Definition set_attributeValues (a : gmap string (gset string)) (st : session) : session :=
  {| zarrRoot := zarrRoot st; cachedZarrArrays := cachedZarrArrays st;
     sparseMatrix := sparseMatrix st;
     columnMetadata := columnMetadata st; loadedColumns := loadedColumns st;
     allData := allData st; attributeValues := a;
     continuousRanges := continuousRanges st; activeFilters := activeFilters st;
     visibleIndices := visibleIndices st; fetchLog := fetchLog st |}.

Definition set_continuousRanges (r : gmap string range) (st : session) : session :=
  {| zarrRoot := zarrRoot st; cachedZarrArrays := cachedZarrArrays st;
     sparseMatrix := sparseMatrix st;
     columnMetadata := columnMetadata st; loadedColumns := loadedColumns st;
     allData := allData st; attributeValues := attributeValues st;
     continuousRanges := r; activeFilters := activeFilters st;
     visibleIndices := visibleIndices st; fetchLog := fetchLog st |}.

Definition set_activeFilters (f : list Filter) (st : session) : session :=
  {| zarrRoot := zarrRoot st; cachedZarrArrays := cachedZarrArrays st;
     sparseMatrix := sparseMatrix st;
     columnMetadata := columnMetadata st; loadedColumns := loadedColumns st;
     allData := allData st; attributeValues := attributeValues st;
     continuousRanges := continuousRanges st; activeFilters := f;
     visibleIndices := visibleIndices st; fetchLog := fetchLog st |}.

Definition set_visibleIndices (v : option (list Z)) (st : session) : session :=
  {| zarrRoot := zarrRoot st; cachedZarrArrays := cachedZarrArrays st;
     sparseMatrix := sparseMatrix st;
     columnMetadata := columnMetadata st; loadedColumns := loadedColumns st;
     allData := allData st; attributeValues := attributeValues st;
     continuousRanges := continuousRanges st; activeFilters := activeFilters st;
     visibleIndices := v; fetchLog := fetchLog st |}.

Definition log_fetch (e : fetch_event) (st : session) : session :=
  {| zarrRoot := zarrRoot st; cachedZarrArrays := cachedZarrArrays st;
     sparseMatrix := sparseMatrix st;
     columnMetadata := columnMetadata st; loadedColumns := loadedColumns st;
     allData := allData st; attributeValues := attributeValues st;
     continuousRanges := continuousRanges st; activeFilters := activeFilters st;
     visibleIndices := visibleIndices st; fetchLog := e :: fetchLog st |}.

(** ** Code that reads and writes the module state and may throw *)

Definition M (A : Type) : Type := session -> outcome A * session.

Definition ret {A} (a : A) : M A := fun st => (Ok a, st).

Definition bind {A B} (m : M A) (k : A -> M B) : M B := fun st =>
  match m st with
  | (Ok a, st') => k a st'
  | (Throw e, st') => (Throw e, st')
  | (OutOfFuel, st') => (OutOfFuel, st')
  end.

Definition throw {A} (e : error) : M A := fun st => (Throw e, st).

(** [try { m } catch (e) { h e }]: the writes of [m] before the exception stay. *)
Definition try_catch {A} (m : M A) (h : error -> M A) : M A := fun st =>
  match m st with
  | (Throw e, st') => h e st'
  | r => r
  end.

Definition modify (f : session -> session) : M unit := fun st => (Ok tt, f st).

Declare Scope js_scope.
Delimit Scope js_scope with js.
Notation "x <- m ;; k" := (bind m (fun x => k))
  (at level 100, m at next level, right associativity) : js_scope.
Notation "m ;;; k" := (bind m (fun _ => k))
  (at level 100, right associativity) : js_scope.
Open Scope js_scope.

(** [for (let i = 0; i < n; i++) body(i)], the counter starting at [i]. *)
Fixpoint for_from (i n : nat) (body : nat -> M unit) : M unit :=
  match n with
  | O => ret tt
  | S n' => body i ;;; for_from (S i) n' body
  end.

Definition for_range (n : nat) (body : nat -> M unit) : M unit := for_from 0 n body.

(** [zarr.open(root.resolve(path), { kind: 'array' })]. *)
Definition zarr_open (root : store) (path : string) : M handle :=
  modify (log_fetch (Opened path)) ;;;
  match root !! path with
  | Some a => ret {| h_path := path; h_array := a |}
  | None => throw (NotFoundError path)
  end.

(** [zarr.get(arr)]: the whole array; the result's [.data]. *)
Definition zarr_get (arr : handle) : M (list value) :=
  modify (log_fetch (Got (h_path arr))) ;;;
  match za_data (h_array arr) with
  | Some d => ret d
  | None => throw (FetchError (h_path arr))
  end.

(** [for (const x of xs) body(x)]. *)
Fixpoint for_each {A} (xs : list A) (body : A -> M unit) : M unit :=
  match xs with
  | [] => ret tt
  | x :: xs' => body x ;;; for_each xs' body
  end.

Section Loader.
Context `{Builtins}.

(** ** Chunked array accessor *)

(** [loadCategoricalColumn(root, basePath)]: the loop
    [result[i] = categories.data[codes.data[i]]] over the codes. *)
Definition loadCategoricalColumn (root : store) (basePath : string) : M (list value) :=
  codesArr <- zarr_open root (basePath +:+ "/codes") ;;
  catsArr <- zarr_open root (basePath +:+ "/categories") ;;
  codes <- zarr_get codesArr ;;
  categories <- zarr_get catsArr ;;
  ret (map (fun code => array_get categories code) codes).

(** [loadZarrArray(root, path)]: the handler logs and throws the error again. *)
Definition loadZarrArray (root : store) (path : string) : M (list value) :=
  try_catch (arr <- zarr_open root path ;; zarr_get arr) (fun error => throw error).

(** ** Lazy column loader *)

(** [allData[i][colName] = v]; [i] is below [allData.length] at every use. *)
Definition set_cell (i : nat) (colName : string) (v : value) (st : session) : session :=
  set_allData (alter (insert colName v) i (allData st)) st.

Definition initial_range : range := {| range_min := PosInf; range_max := NegInf |}.

(** One round of the numeric loop of [ensureColumnLoaded]. *)
Definition numeric_step (colName : string) (values : list value) (i : nat)
    (st : session) : session :=
  let rawVal := default VUndefined (values !! i) in
  let val := match rawVal with VNum x => x | _ => parseFloat_of rawVal end in
  let st := set_cell i colName (VNum val) st in
  if negb (isNaN val) then
    set_continuousRanges
      (alter (fun r => {| range_min := Math_min (range_min r) val;
                          range_max := Math_max (range_max r) val |})
             colName (continuousRanges st)) st
  else st.

(** One round of the categorical loop of [ensureColumnLoaded]. *)
Definition categorical_step (colName : string) (values : list value) (i : nat)
    (st : session) : session :=
  let val := String_of (js_or (default VUndefined (values !! i)) (VStr "")) in
  let st := set_cell i colName (VStr val) st in
  if negb (String.eqb val "") then
    set_attributeValues (alter (fun s => {[ val ]} ∪ s) colName (attributeValues st)) st
  else st.

(** [if (!continuousRanges[colName]) continuousRanges[colName] = { min: Infinity, max: -Infinity }]. *)
Definition init_range (colName : string) (st : session) : session :=
  match continuousRanges st !! colName with
  | Some _ => st
  | None => set_continuousRanges (<[colName := initial_range]> (continuousRanges st)) st
  end.

(** [if (!attributeValues[colName]) attributeValues[colName] = new Set()]. *)
Definition init_values (colName : string) (st : session) : session :=
  match attributeValues st !! colName with
  | Some _ => st
  | None => set_attributeValues (<[colName := ∅]> (attributeValues st)) st
  end.

Definition add_loaded (colName : string) (st : session) : session :=
  set_loadedColumns ({[ colName ]} ∪ loadedColumns st) st.

(** The [let] and [const] declarations of the [try] block of
    [ensureColumnLoaded] are scoped to that block; the [catch] block cannot
    see them, and the module declares neither name. *)
Definition try_block_bindings : list string := ["values"; "isNumericData"].

(** Reading the identifier [ident] in the [catch] block; [v] is the value it
    would have had in the [try] block. *)
Definition read_in_catch {A} (ident : string) (v : A) : M A :=
  if bool_decide (ident ∈ try_block_bindings)
  then throw (ReferenceError ident) else ret v.

Definition ensureColumnLoaded (colName : string) : M unit := fun st =>
  if bool_decide (colName ∈ loadedColumns st) then ret tt st
  else
    match zarrRoot st, columnMetadata st !! colName with
    | Some root, Some metadata =>
        let nCells := length (allData st) in
        let isNumericData := String.eqb (cm_type metadata) "continuous" in
        try_catch
          (values <-
             (if String.eqb (cm_encodingType metadata) "categorical"
              then loadCategoricalColumn root ("obs/" +:+ colName)
              else
                try_catch (loadZarrArray root ("obs/" +:+ colName))
                  (fun numError =>
                     ret (replicate nCells
                            (if isNumericData then VNum (Fin 0) else VStr "")))) ;;
           (if isNumericData then
              modify (init_range colName) ;;;
              for_range nCells (fun i => modify (numeric_step colName values i))
            else
              modify (init_values colName) ;;;
              for_range nCells (fun i => modify (categorical_step colName values i))) ;;;
           modify (add_loaded colName))
          (fun error =>
             for_range nCells (fun i =>
               isNumericData' <- read_in_catch "isNumericData" isNumericData ;;
               modify (set_cell i colName
                         (if isNumericData' : bool then VNum (Fin 0) else VStr ""))) ;;;
             modify (add_loaded colName))
          st
    | _, _ => ret tt st
    end.

(** [ensureColumnsLoaded(colNames)]: the columns not yet loaded, one after
    the other. *)
Definition ensureColumnsLoaded (colNames : list string) : M unit := fun st =>
  let toLoad := filter (fun col => col ∉ loadedColumns st) colNames in
  match toLoad with
  | [] => ret tt st
  | _ => for_each toLoad ensureColumnLoaded st
  end.

End Loader.

(** ** Filter pipeline *)

Section FilterPipeline.
Context `{Builtins}.

(** The element conversion of a [Uint32Array]. *)
Definition to_uint32 (z : Z) : Z := z mod 2 ^ 32.

(** [0, 1, ..., n - 1]. *)
Definition all_indices (n : nat) : list Z := map Z.of_nat (seq 0 n).

(** [allData[idx][attribute]]; [idx] is a row index at every use. *)
Definition row_value (rows : list (gmap string value)) (idx : Z) (attribute : string) : value :=
  match rows !! Z.to_nat idx with
  | Some point => default VUndefined (point !! attribute)
  | None => VUndefined
  end.

(** [value !== null && value !== undefined && value >= minVal && value <= maxVal]. *)
Definition continuous_pass (r : range) (v : value) : bool :=
  match v with
  | VNull | VUndefined => false
  | _ => js_ge v (VNum (range_min r)) && js_le v (VNum (range_max r))
  end.

(** [filter.values.has(v)] on a set of strings. *)
Definition set_has (s : gset string) (v : value) : bool :=
  match v with
  | VStr x => bool_decide (x ∈ s)
  | _ => false
  end.

(** [filter.values.has(point[filter.attribute] || '')]. *)
Definition categorical_pass (s : gset string) (v : value) : bool :=
  set_has s (js_or v (VStr "")).

(** One round of the loop over [activeFilters]: the next [candidateIndices]. *)
Definition apply_filter (rows : list (gmap string value)) (f : Filter)
    (candidateIndices : list Z) : list Z :=
  if String.eqb (f_attribute f) "" then candidateIndices
  else
    match f_type f with
    | None => candidateIndices
    | Some continuous =>
        match f_range f with
        | Some r =>
            filter (fun idx => continuous_pass r (row_value rows idx (f_attribute f)))
                   candidateIndices
        | None => candidateIndices
        end
    | Some categorical =>
        match f_values f with
        | Some s =>
            if (0 <? size s)%nat then
              filter (fun idx => categorical_pass s (row_value rows idx (f_attribute f)))
                     candidateIndices
            else candidateIndices
        | None => candidateIndices
        end
    end.

(** The loop over [activeFilters], started from all the row indices. *)
Definition recompute (rows : list (gmap string value)) (filters : list Filter) : list Z :=
  fold_left (fun candidateIndices f => apply_filter rows f candidateIndices)
            filters (all_indices (length rows)).

(** [updateFilter()] up to the assignment of [visibleIndices]: the loading
    of the filter columns and the filter loop.  The call of
    [createPointCloud] that ends it redraws the points; it may load the
    colour-by column or the selected gene, and fail doing so, but it assigns
    neither [visibleIndices] nor [activeFilters].  The outcome is that of
    the part before the redraw. *)
Definition updateFilter : M unit := fun st =>
  match activeFilters st with
  | [] =>
      modify (set_visibleIndices
                (Some (map to_uint32 (all_indices (length (allData st)))))) st
  | _ =>
      let filterColumns :=
        map f_attribute
            (filter (fun f => f_attribute f ≠ "" ∧ is_Some (f_type f)) (activeFilters st)) in
      (ensureColumnsLoaded filterColumns ;;;
       modify (fun st =>
                 set_visibleIndices
                   (Some (map to_uint32 (recompute (allData st) (activeFilters st)))) st))
        st
  end.

(** The assignment at the end of [loadData]: every row is visible. *)
Definition init_visibleIndices (st : session) : session :=
  set_visibleIndices (Some (map to_uint32 (all_indices (length (allData st))))) st.

End FilterPipeline.

(** ** Sampling *)

Definition MAX_POINTS : number := num_of_Z 1000000.

(** [Math.max(0.01, Math.min(1, parseInt(...) / 100))]; [percent] is the
    result of [parseInt]. *)
Definition sampleRate_of (percent : number) : number :=
  Math_max (round64 (1 # 100)) (Math_min (Fin 1) (num_div percent (Fin 100))).

Definition Qtrunc (q : Q) : Z :=
  if Qle_bool 0 q then Qfloor q else - Qfloor (- q).

(** [arr.slice(0, stop)]. *)
Definition slice_0 {A} (stop : number) (arr : list A) : list A :=
  match stop with
  | NaN | NegInf => []
  | PosInf => arr
  | Fin q =>
      let t := Qtrunc q in
      if t <? 0 then take (Z.to_nat (Z.of_nat (length arr) + t)) arr
      else take (Z.to_nat t) arr
  end.

Section Sampling.

(** [random_index i k] is the value of [Math.floor(Math.random() * k)] in
    round [i] of the shuffle; [Math.random()] being at least 0 and below 1,
    it is an integer below [k]. *)
Variable random_index : nat -> nat -> nat.

(** [[arr[i], arr[j]] = [arr[j], arr[i]]] with both indices inside [arr];
    [None] when an index is outside. *)
Definition swap (i j : nat) (arr : list Z) : option (list Z) :=
  match arr !! i, arr !! j with
  | Some ai, Some aj => Some (<[j := ai]> (<[i := aj]> arr))
  | _, _ => None
  end.

(** The shuffle loop, [for (let i = 0; i < targetCount && i < arr.length; i++)],
    from round [i]; it has at most [arr.length] rounds. *)
Fixpoint shuffle_from (rounds : nat) (i : nat) (targetCount : number) (arr : list Z) :
    option (list Z) :=
  match rounds with
  | O => Some arr
  | S rounds' =>
      if num_lt (num_of_Z (Z.of_nat i)) targetCount && (i <? length arr)%nat then
        let j := (i + random_index i (length arr - i))%nat in
        arr' ← swap i j arr;
        shuffle_from rounds' (S i) targetCount arr'
      else Some arr
  end.

Definition targetCount_of (visibleCount : nat) (sampleRate maxPoints : number) : number :=
  Math_min (Math_floor (num_mul (num_of_Z (Z.of_nat visibleCount)) sampleRate)) maxPoints.

(** The sampling step of [createPointCloud]: the value of [indicesToRender]
    ([None] when a swap of the shuffle leaves the array). *)
Definition indicesToRender (visibleIndices : list Z) (sampleRate maxPoints : number) :
    option (list Z) :=
  let visibleCount := length visibleIndices in
  let targetCount := targetCount_of visibleCount sampleRate maxPoints in
  if num_ge targetCount (num_of_Z (Z.of_nat visibleCount)) then Some visibleIndices
  else
    allVisibleIndices ← shuffle_from visibleCount 0 targetCount visibleIndices;
    Some (slice_0 targetCount allVisibleIndices).

End Sampling.

(** ** Coordinate source catalog: loading the values *)

(** A coordinate source descriptor; [cs_columnName = None] is [null]. *)
Record coord_source : Type := {
  cs_source : string;
  cs_path : string;
  cs_embedding : string;
  cs_columnIndex : nat;
  cs_columnName : option string
}.

Section Coordinates.
Context `{Builtins}.

(** [zarr.get(arr, [zarr.slice(null, null), zarr.slice(col, col + 1)])] on a
    two-dimensional array: column [col]; when the array has no such column
    the selection is empty and the library throws. *)
Definition zarr_get_column (arr : handle) (col : nat) : M (list value) :=
  modify (log_fetch (GotColumn (h_path arr) col)) ;;;
  match za_data (h_array arr), za_shape (h_array arr) with
  | Some d, [rows; cols] =>
      if (col <? cols)%nat
      then ret (map (fun i => default VUndefined (d !! (i * cols + col)%nat)) (seq 0 rows))
      else throw (Error "empty selection")
  | Some d, _ => ret d
  | None, _ => throw (FetchError (h_path arr))
  end.

(** The path of chunk [chunkIdx] of dimension [colIdx] of an embedding:
    [`obsm/${embName}/${colIdx}.${chunkIdx}`]. *)
Definition chunk_path (embName : string) (colIdx chunkIdx : nat) : string :=
  "obsm/" +:+ embName +:+ "/" +:+ pretty colIdx +:+ "." +:+ pretty chunkIdx.

(** The loop that loads the chunks [colIdx.0], [colIdx.1], ... of an
    embedding until [nCells] values are there or a chunk is missing. *)
Fixpoint load_chunks (fuel : nat) (root : store) (embName : string) (colIdx nCells : nat)
    (chunkIdx : nat) (result : list value) : M (list value) :=
  if (length result <? nCells)%nat then
    match fuel with
    | O => fun st => (OutOfFuel, st)
    | S fuel' =>
        chunk <- try_catch
                   (c <- loadZarrArray root (chunk_path embName colIdx chunkIdx) ;;
                    ret (Some c))
                   (fun e => ret None) ;;
        match chunk with
        | Some c => load_chunks fuel' root embName colIdx nCells (S chunkIdx) (result ++ c)
        | None => ret result
        end
    end
  else ret result.

Definition zeros (nCells : nat) : list value := replicate nCells (VNum (Fin 0)).

(** The three blocks of the [obsm] branch of [loadCoordinateValues].  A
    [return] inside a [try] block is the [Some] of an option, [None] meaning
    that control falls through to the next block. *)

(** Loading by column name. *)
Definition load_by_name (root : store) (embName : string) (columnName : option string) :
    M (option (list value)) :=
  match columnName with
  | Some columnName =>
      if negb (String.eqb columnName "") then
        try_catch
          (colArray <- zarr_open root ("obsm/" +:+ embName +:+ "/" +:+ columnName) ;;
           colData <- zarr_get colArray ;;
           ret (Some colData))
          (fun e => ret None)
      else ret None
  | None => ret None
  end.

(** Loading column [colIdx] of the embedding stored as one 2D array. *)
Definition load_as_array (root : store) (embName : string) (colIdx : nat) :
    M (option (list value)) :=
  try_catch
    (fullArray <- zarr_open root ("obsm/" +:+ embName) ;;
     match za_shape (h_array fullArray) with
     | [rows; _] =>
         colData <- zarr_get_column fullArray colIdx ;;
         ret (Some (map (fun i => default VUndefined (colData !! i)) (seq 0 rows)))
     | _ => ret None
     end)
    (fun e => ret None).

(** Chunk-based loading: the chunks in order, then cut or padded with zeros
    to [nCells] values. *)
Definition assemble_chunks (fuel : nat) (root : store) (embName : string)
    (colIdx nCells : nat) : M (list value) :=
  result <- load_chunks fuel root embName colIdx nCells 0 [] ;;
  if (nCells <=? length result)%nat then ret (take nCells result)
  else if (0 <? length result)%nat then
    ret (result ++ replicate (nCells - length result) (VNum (Fin 0)))
  else throw (Error "Could not load any chunks").

(** [loadCoordinateValues(root, coordSource, nCells)]; [fuel] bounds the
    rounds of the chunk loop. *)
Definition loadCoordinateValues (fuel : nat) (root : store) (coordSource : coord_source)
    (nCells : nat) : M (list value) :=
  if String.eqb (cs_source coordSource) "obs" then
    try_catch (loadZarrArray root ("obs/" +:+ cs_path coordSource))
              (fun e => ret (zeros nCells))
  else if String.eqb (cs_source coordSource) "obsm" then
    try_catch
      (let embName := cs_embedding coordSource in
       let colIdx := cs_columnIndex coordSource in
       byName <- load_by_name root embName (cs_columnName coordSource) ;;
       match byName with
       | Some values => ret values
       | None =>
           try_catch
             (asArray <- load_as_array root embName colIdx ;;
              match asArray with
              | Some values => ret values
              | None => assemble_chunks fuel root embName colIdx nCells
              end)
             (fun e => ret (zeros nCells))
       end)
      (fun e => ret (zeros nCells))
  else ret (zeros nCells).

End Coordinates.

(** ** Sparse gene expression resolver *)

Section GeneExpression.
Context `{Builtins}.

(** [zarr.get(arr, [zarr.slice(start, stop)])] on a one-dimensional array;
    the bounds are array indices at every use. *)
Definition zarr_get_slice (arr : handle) (start stop : value) : M (list value) :=
  modify (log_fetch (GotSlice (h_path arr) start stop)) ;;;
  match za_data (h_array arr), index_of_value start, index_of_value stop with
  | Some d, Some a, Some b => ret (take (b - a) (drop a d))
  | Some _, _, _ => throw (TypeError "slice")
  | None, _, _ => throw (FetchError (h_path arr))
  end.

(** [geneNames.indexOf(geneName)]; [None] is [-1]. *)
Fixpoint indexOf (geneNames : list string) (geneName : string) : option nat :=
  match geneNames with
  | [] => None
  | g :: rest =>
      if String.eqb g geneName then Some O
      else option_map S (indexOf rest geneName)
  end.

(** [result[k] = v] on a [Float32Array]: the value is converted to binary32,
    and a key that is no index of the array is ignored. *)
Definition f32_set (result : list number) (k v : value) : list number :=
  match index_of_value k with
  | Some i => <[i := fround (to_number v)]> result
  | None => result
  end.

(** The loop [result[geneIndices.data[i]] = geneData.data[i]]. *)
Definition scatter (geneIndices geneData : list value) (result : list number) : list number :=
  fold_left
    (fun result i =>
       f32_set result (default VUndefined (geneIndices !! i))
                      (default VUndefined (geneData !! i)))
    (seq 0 (length geneIndices)) result.

(** The block [if (!cachedZarrArrays) { ... }] of [getGeneExpression]: the
    handles of the three arrays and the whole of [indptr], fetched on the
    first call only. *)
Definition ensure_cached (root : store) : M cached_arrays := fun st =>
  match cachedZarrArrays st with
  | Some c => ret c st
  | None =>
      (indptrArr <- zarr_open root "X/indptr" ;;
       indicesArr <- zarr_open root "X/indices" ;;
       dataArr <- zarr_open root "X/data" ;;
       indptr <- zarr_get indptrArr ;;
       let c := {| ca_indptr := indptr; ca_indicesArr := indicesArr;
                   ca_dataArr := dataArr |} in
       modify (set_cachedZarrArrays (Some c)) ;;;
       ret c) st
  end.

(** [getGeneExpression(geneName)]; [None] is [null]. *)
Definition getGeneExpression (geneName : string) : M (option (list number)) := fun st =>
  match sm_geneNames (sparseMatrix st), zarrRoot st with
  | Some geneNames, Some root =>
      match indexOf geneNames geneName with
      | None => ret None st
      | Some geneIdx =>
          match sm_shape (sparseMatrix st) with
          | None => throw (TypeError "sparseMatrix.shape") st
          | Some shape =>
              let nCells := default O (shape !! O) in
              let result := replicate nCells (Fin 0) in
              (cached <- ensure_cached root ;;
               let start := default VUndefined (ca_indptr cached !! geneIdx) in
               let stop := default VUndefined (ca_indptr cached !! S geneIdx) in
               if js_gt stop start then
                 geneIndices <- zarr_get_slice (ca_indicesArr cached) start stop ;;
                 geneData <- zarr_get_slice (ca_dataArr cached) start stop ;;
                 ret (Some (scatter geneIndices geneData result))
               else ret (Some result)) st
          end
      end
  | _, _ => ret None st
  end.

End GeneExpression.

(** ** Derived notions used in the statements *)

Section UpdateFilterNotions.
Context `{Builtins}.

(** The columns that [updateFilter] asks the loader for. *)
Definition filterColumns_of (filters : list Filter) : list string :=
  map f_attribute (filter (fun f => f_attribute f ≠ "" ∧ is_Some (f_type f)) filters).

End UpdateFilterNotions.

Section FilterNotions.
Context `{Builtins}.

(** The test that filter [f] applies to row [idx]; a filter without
    attribute, type, range or selected values tests nothing. *)
Definition filter_test (rows : list (gmap string value)) (f : Filter) (idx : Z) : bool :=
  if String.eqb (f_attribute f) "" then true
  else
    match f_type f with
    | None => true
    | Some continuous =>
        match f_range f with
        | Some r => continuous_pass r (row_value rows idx (f_attribute f))
        | None => true
        end
    | Some categorical =>
        match f_values f with
        | Some s =>
            if (0 <? size s)%nat
            then categorical_pass s (row_value rows idx (f_attribute f))
            else true
        | None => true
        end
    end.

(** A visible index set over [n] rows: strictly increasing row indices,
    hence without duplicates. *)
Definition visible_ok (n : nat) (v : option (list Z)) : Prop :=
  exists l, v = Some l /\ StronglySorted Z.lt l /\
            Forall (fun i => 0 <= i < Z.of_nat n) l /\ NoDup l.

(** The number that a row field stands for in a comparison; a missing field
    ([undefined] or [null]) stands for none. *)
Definition numeric_view (v : value) : option number :=
  match v with
  | VUndefined | VNull => None
  | VNum x => Some x
  | VStr s => Some (ToNumber s)
  end.

(** Inclusive membership of a row field in [[min, max]]: the field stands for
    a number that is not [NaN] and lies between the bounds. *)
Definition within_range (r : range) (v : value) : Prop :=
  exists x, numeric_view v = Some x /\ x <> NaN /\
            num_le (range_min r) x = true /\ num_le x (range_max r) = true.

(** Membership of a row field in the selected values: the field is a string
    of the set, or it is missing (or another falsy value) and the empty
    string is in the set. *)
Definition selected (s : gset string) (v : value) : Prop :=
  match v with
  | VStr x => x ∈ s
  | VNum x => (isNaN x || is_zero x = true) /\ "" ∈ s
  | VUndefined | VNull => "" ∈ s
  end.

(** Every column that a configured filter refers to is loaded. *)
Definition filters_loaded (st : session) : Prop :=
  Forall (fun col => col ∈ loadedColumns st) (filterColumns_of (activeFilters st)).

End FilterNotions.

Section LoaderNotions.
Context `{Builtins}.

(** The state after the fetches [evs] (latest first) and nothing else. *)
Definition add_log (evs : list fetch_event) (st : session) : session :=
  foldr log_fetch st evs.

(** What reading the whole array at [path] yields, if it can be read. *)
Definition store_read (root : store) (path : string) : option (list value) :=
  root !! path ≫= za_data.

(** What decoding the categorical column at [basePath] yields, if its two
    arrays can be read. *)
Definition cat_read (root : store) (basePath : string) : option (list value) :=
  match root !! (basePath +:+ "/codes"), root !! (basePath +:+ "/categories") with
  | Some codesArr, Some catsArr =>
      match za_data codesArr, za_data catsArr with
      | Some codes, Some categories => Some (map (fun code => array_get categories code) codes)
      | _, _ => None
      end
  | _, _ => None
  end.

(** The field that the numeric loop, and the categorical loop, write in row [i]. *)
Definition numeric_cell (values : list value) (i : nat) : value :=
  VNum (match default VUndefined (values !! i) with
        | VNum x => x
        | v => parseFloat_of v
        end).

Definition categorical_cell (values : list value) (i : nat) : value :=
  VStr (String_of (js_or (default VUndefined (values !! i)) (VStr ""))).

(** Every row gets the field [colName], row [i] with value [cell i]. *)
Definition write_column (colName : string) (cell : nat -> value)
    (rows : list (gmap string value)) : list (gmap string value) :=
  imap (fun i row => <[colName := cell i]> row) rows.

(** How a call of [ensureColumnLoaded] proceeds in a given state. *)
Inductive load_plan : Type :=
| AlreadyLoaded                (* first early return *)
| NoMetadata                   (* second early return *)
| LoadCells (cell : nat -> value)   (* the try block runs to its end *)
| FetchFailed.                 (* the categorical fetch throws: the catch block runs *)

Definition load_plan_of (st : session) (colName : string) : load_plan :=
  if bool_decide (colName ∈ loadedColumns st) then AlreadyLoaded
  else
    match zarrRoot st, columnMetadata st !! colName with
    | Some root, Some metadata =>
        let nCells := length (allData st) in
        let isNumericData := String.eqb (cm_type metadata) "continuous" in
        let cell_of values :=
          if isNumericData then numeric_cell values else categorical_cell values in
        if String.eqb (cm_encodingType metadata) "categorical" then
          match cat_read root ("obs/" +:+ colName) with
          | Some values => LoadCells (cell_of values)
          | None => FetchFailed
          end
        else
          LoadCells
            (cell_of
               (default (replicate nCells (if isNumericData then VNum (Fin 0) else VStr ""))
                        (store_read root ("obs/" +:+ colName))))
    | _, _ => NoMetadata
    end.

(** The state after the numeric loop, and after the categorical loop, over
    [nCells] rows. *)
Definition numeric_loop (colName : string) (values : list value) (nCells : nat)
    (st : session) : session :=
  fold_left (fun s k => numeric_step colName values k s) (seq 0 nCells) st.

Definition categorical_loop (colName : string) (values : list value) (nCells : nat)
    (st : session) : session :=
  fold_left (fun s k => categorical_step colName values k s) (seq 0 nCells) st.

(** The state at the end of the try block of [ensureColumnLoaded], from the
    state [st] in which the values have just been fetched. *)
Definition stored (colName : string) (isNumericData : bool) (values : list value)
    (st : session) : session :=
  let nCells := length (allData st) in
  add_loaded colName
    (if isNumericData
     then numeric_loop colName values nCells (init_range colName st)
     else categorical_loop colName values nCells (init_values colName st)).

(** The parts of the state that loading columns leaves alone. *)
Definition same_frame (st st' : session) : Prop :=
  zarrRoot st' = zarrRoot st /\
  cachedZarrArrays st' = cachedZarrArrays st /\
  sparseMatrix st' = sparseMatrix st /\
  columnMetadata st' = columnMetadata st /\
  activeFilters st' = activeFilters st /\
  visibleIndices st' = visibleIndices st /\
  length (allData st') = length (allData st).

End LoaderNotions.

Arguments add_log : simpl never.
Arguments stored : simpl never.

Section LoadPlans.
Context `{Builtins}.

(** What a call of [ensureColumnLoaded] that follows [plan] returns, the row
    table it leaves, and the columns it leaves marked as loaded, from the
    row table [rows] and the loaded columns [loaded] it starts with. *)
Definition plan_outcome (plan : load_plan) (rows : list (gmap string value)) : outcome unit :=
  match plan with
  | FetchFailed =>
      match rows with
      | [] => Ok tt
      | _ :: _ => Throw (ReferenceError "isNumericData")
      end
  | _ => Ok tt
  end.

Definition plan_rows (colName : string) (plan : load_plan)
    (rows : list (gmap string value)) : list (gmap string value) :=
  match plan with
  | LoadCells cell => write_column colName cell rows
  | _ => rows
  end.

Definition plan_loaded (colName : string) (plan : load_plan)
    (rows : list (gmap string value)) (loaded : gset string) : gset string :=
  match plan with
  | LoadCells _ => {[ colName ]} ∪ loaded
  | FetchFailed =>
      match rows with
      | [] => {[ colName ]} ∪ loaded
      | _ :: _ => loaded
      end
  | _ => loaded
  end.

(** A loop body that writes field [colName] of row [k] and leaves the frame
    and the set of loaded columns alone. *)
Definition writes_cell (colName : string) (cell : nat -> value)
    (f : nat -> session -> session) : Prop :=
  forall k s,
    allData (f k s) = alter (insert colName (cell k)) k (allData s) /\
    loadedColumns (f k s) = loadedColumns s /\
    same_frame s (f k s).

End LoadPlans.

(** Two states with the same store, column metadata, row table and loaded
    columns: a call of the column loader proceeds alike in both. *)
Definition same_rows (st1 st2 : session) : Prop :=
  zarrRoot st2 = zarrRoot st1 /\
  columnMetadata st2 = columnMetadata st1 /\
  allData st2 = allData st1 /\
  loadedColumns st2 = loadedColumns st1.

(** Two runs that end alike for the filter pipeline: both with an exception,
    or both normally and in states with the same rows. *)
Definition alike {A} (r1 r2 : outcome A * session) : Prop :=
  match r1.1, r2.1 with
  | Ok _, Ok _ => same_rows r1.2 r2.2
  | Throw _, Throw _ => True
  | _, _ => False
  end.

(** The range summary [{ min: 0, max: 0 }]. *)
Definition zero_range : range := {| range_min := Fin 0; range_max := Fin 0 |}.

(** The default that fills a column without data: [0] for a numeric column,
    the empty string for a categorical one. *)
Definition default_value (isNumericData : bool) : value :=
  if isNumericData then VNum (Fin 0) else VStr "".

Section CoordinateNotions.
Context `{Builtins}.

(** What loading by column name yields: the named column, if it can be read. *)
Definition read_by_name (root : store) (embName : string) (columnName : option string) :
    option (list value) :=
  match columnName with
  | Some columnName =>
      if negb (String.eqb columnName "")
      then store_read root ("obsm/" +:+ embName +:+ "/" +:+ columnName)
      else None
  | None => None
  end.

(** What loading from one two-dimensional array yields: its column
    [colIdx], one entry per row of the array, when the array has that
    column. *)
Definition read_as_array (root : store) (embName : string) (colIdx : nat) :
    option (list value) :=
  match root !! ("obsm/" +:+ embName) with
  | Some a =>
      match za_shape a, za_data a with
      | [rows; cols], Some d =>
          if (colIdx <? cols)%nat then
            let column :=
              map (fun i => default VUndefined (d !! (i * cols + colIdx)%nat))
                  (seq 0 rows) in
            Some (map (fun i => default VUndefined (column !! i)) (seq 0 rows))
          else None
      | _, _ => None
      end
  | None => None
  end.


(** [chunks] are the chunks of dimension [colIdx] that the chunk loop reads
    for [nCells] cells: the chunks [colIdx.0], [colIdx.1], ... in order, up
    to the point where [nCells] values are there or the next chunk cannot
    be read. *)
Definition chunks_read (root : store) (embName : string) (colIdx nCells : nat)
    (chunks : list (list value)) : Prop :=
  (forall j c, chunks !! j = Some c ->
     store_read root (chunk_path embName colIdx j) = Some c) /\
  ((length (concat chunks) < nCells)%nat ->
   store_read root (chunk_path embName colIdx (length chunks)) = None).

End CoordinateNotions.

Section GeneNotions.
Context `{Builtins}.

(** A value of a [Float32Array]: a number that binary32 represents. *)
Definition is_float32 (x : number) : Prop := fround x = x.

Definition is_slice_fetch (ev : fetch_event) : Prop :=
  match ev with
  | GotSlice _ _ _ => True
  | _ => False
  end.

(** The three arrays of the CSC matrix in the store, [indptr] an [Int32Array]
    read in full, and the cache of [getGeneExpression] either empty or
    holding them. *)
Definition matrix_arrays (st : session) (root : store)
    (indptr indices data : list value) : Prop :=
  exists ip ia da,
    root !! "X/indptr" = Some ip /\ za_data ip = Some indptr /\
    root !! "X/indices" = Some ia /\ za_data ia = Some indices /\
    root !! "X/data" = Some da /\ za_data da = Some data /\
    (cachedZarrArrays st = None \/
     cachedZarrArrays st
     = Some {| ca_indptr := indptr;
               ca_indicesArr := {| h_path := "X/indices"; h_array := ia |};
               ca_dataArr := {| h_path := "X/data"; h_array := da |} |}).

(** The column of gene [geneIdx] in a well-formed CSC matrix over [nCells]
    cells: the entries [start .. stop - 1] of [indices] are the cells
    [cells], different from each other and below [nCells], and those of
    [data] are the values [vals]. *)
Definition gene_column (indptr indices data : list value) (geneIdx nCells : nat)
    (start stop : Z) (cells : list Z) (vals : list number) : Prop :=
  indptr !! geneIdx = Some (VNum (num_of_Z start)) /\
  indptr !! S geneIdx = Some (VNum (num_of_Z stop)) /\
  0 <= start <= stop /\
  take (Z.to_nat stop - Z.to_nat start) (drop (Z.to_nat start) indices)
  = map (fun c => VNum (num_of_Z c)) cells /\
  take (Z.to_nat stop - Z.to_nat start) (drop (Z.to_nat start) data) = map VNum vals /\
  length vals = length cells /\
  NoDup cells /\
  Forall (fun c => 0 <= c < Z.of_nat nCells) cells.

End GeneNotions.

(** ** An interpretation of the string primitives

    Exact on unsigned decimal integers, which is all the examples use. *)

Definition digit_of (c : Ascii.ascii) : option N :=
  let n := Ascii.N_of_ascii c in
  if (48 <=? n)%N && (n <=? 57)%N then Some (n - 48)%N else None.

Fixpoint decimal_from (acc : N) (s : string) : option N :=
  match s with
  | EmptyString => Some acc
  | String c rest =>
      match digit_of c with
      | Some dgt => decimal_from (acc * 10 + dgt) rest
      | None => None
      end
  end.

Definition decimal (s : string) : option N :=
  match s with
  | EmptyString => None
  | _ => decimal_from 0 s
  end.

Definition decimal_number (s : string) : number :=
  match decimal s with
  | Some n => num_of_Z (Z.of_N n)
  | None => NaN
  end.

Definition integer_string (x : number) : string :=
  match x with
  | NaN => "NaN"
  | PosInf => "Infinity"
  | NegInf => "-Infinity"
  | Fin q => pretty (Qfloor q)
  end.

Definition decimal_builtins : Builtins := {|
  parseFloat := decimal_number;
  ToNumber := decimal_number;
  NumberToString := integer_string;
  ArrayIndex := fun s => option_map N.to_nat (decimal s);
  StringLess := String.ltb
|}.

(** ** The datasets of the examples *)

Definition ints (l : list Z) : list value := map (fun z => VNum (num_of_Z z)) l.
Definition strs (l : list string) : list value := map VStr l.

Definition array1 (d : list value) : zarr_array :=
  {| za_shape := [length d]; za_data := Some d |}.

(** A store with a numeric column [age], a string column [kind], a
    categorical column [cluster] whose codes cannot be read, a categorical
    column [phase] with a code outside its categories, an embedding
    [Global_Spatial] with a named column of three values, and an embedding
    [X_umap] whose first dimension is stored in two chunks. *)
Definition example_store : store :=
  {[ "obs/age" := array1 (ints [1; 2; 3; 4; 5; 6]);
     "obs/kind" := array1 (strs ["A"; "C"; "B"; "A"]);
     "obs/cluster/categories" := array1 (strs ["T"; "B"]);
     "obs/phase/codes" := array1 (ints [0; 5; 1]);
     "obs/phase/categories" := array1 (strs ["T"; "B"]);
     "obsm/Global_Spatial/global_x" := array1 (ints [10; 20; 30]);
     "obsm/X_umap/0.0" := array1 (ints [7; 8]);
     "obsm/X_umap/0.1" := array1 (ints [9]) ]}.

Definition example_metadata : gmap string col_meta :=
  {[ "age" := {| cm_type := "continuous"; cm_encodingType := "array"; cm_path := "age" |};
     "kind" := {| cm_type := "categorical"; cm_encodingType := "array"; cm_path := "kind" |};
     "cluster" := {| cm_type := "categorical"; cm_encodingType := "categorical";
                     cm_path := "cluster" |};
     "depth" := {| cm_type := "continuous"; cm_encodingType := "array"; cm_path := "depth" |} ]}.

(** The state after [loadData] for [nCells] cells, with the given filters. *)
Definition example_session (nCells : nat) (filters : list Filter) : session :=
  {| zarrRoot := Some example_store;
     cachedZarrArrays := None;
     sparseMatrix := {| sm_shape := None; sm_geneNames := None |};
     columnMetadata := example_metadata;
     loadedColumns := ∅;
     allData := replicate nCells ∅;
     attributeValues := {[ "kind" := ∅; "cluster" := ∅ ]};
     continuousRanges := {[ "age" := initial_range; "depth" := initial_range ]};
     activeFilters := filters;
     visibleIndices := Some (map to_uint32 (all_indices nCells));
     fetchLog := [] |}.

Definition range_filter (attribute : string) (lo hi : Z) : Filter :=
  {| f_id := "filter_1"; f_attribute := attribute; f_type := Some continuous;
     f_values := None;
     f_range := Some {| range_min := num_of_Z lo; range_max := num_of_Z hi |} |}.

Definition values_filter (attribute : string) (selected : list string) : Filter :=
  {| f_id := "filter_2"; f_attribute := attribute; f_type := Some categorical;
     f_values := Some (list_to_set selected); f_range := None |}.

(** A matrix of two genes over ten cells: the first gene is expressed in
    cell 3 (1.5) and cell 7 (2.0), the second in no cell. *)
Definition gene_store : store :=
  {[ "X/indptr" := array1 (ints [0; 2; 2]);
     "X/indices" := array1 (ints [3; 7]);
     "X/data" := array1 [VNum (Fin (3 # 2)); VNum (Fin 2)] ]}.

Definition gene_session : session :=
  {| zarrRoot := Some gene_store;
     cachedZarrArrays := None;
     sparseMatrix := {| sm_shape := Some [10; 2]%nat; sm_geneNames := Some ["Gdf9"; "Amh"] |};
     columnMetadata := ∅;
     loadedColumns := ∅;
     allData := replicate 10 ∅;
     attributeValues := ∅;
     continuousRanges := ∅;
     activeFilters := [];
     visibleIndices := Some (map to_uint32 (all_indices 10));
     fetchLog := [] |}.

(** The same matrix with a value that binary32 does not represent: the first
    gene has 16777217 (that is [2 ^ 24 + 1]) in cell 3. *)
Definition wide_gene_store : store :=
  {[ "X/indptr" := array1 (ints [0; 2; 2]);
     "X/indices" := array1 (ints [3; 7]);
     "X/data" := array1 (ints [16777217; 2]) ]}.

Definition wide_gene_session : session :=
  {| zarrRoot := Some wide_gene_store;
     cachedZarrArrays := None;
     sparseMatrix := {| sm_shape := Some [10; 2]%nat; sm_geneNames := Some ["Gdf9"; "Amh"] |};
     columnMetadata := ∅;
     loadedColumns := ∅;
     allData := replicate 10 ∅;
     attributeValues := ∅;
     continuousRanges := ∅;
     activeFilters := [];
     visibleIndices := Some (map to_uint32 (all_indices 10));
     fetchLog := [] |}.

(** An embedding stored as one two-dimensional array of three rows and two
    columns, and the source of its column [colIdx]. *)
Definition array_store : store :=
  {[ "obsm/X_pca" := {| za_shape := [3; 2]%nat;
                        za_data := Some (ints [1; 2; 3; 4; 5; 6]) |} ]}.

Definition array_source (colIdx : nat) : coord_source :=
  {| cs_source := "obsm"; cs_path := ""; cs_embedding := "X_pca";
     cs_columnIndex := colIdx; cs_columnName := None |}.

(** Two coordinate sources of the example store: a named column, and a
    dimension stored in chunks. *)
Definition named_source : coord_source :=
  {| cs_source := "obsm"; cs_path := ""; cs_embedding := "Global_Spatial";
     cs_columnIndex := 0; cs_columnName := Some "global_x" |}.

Definition chunked_source : coord_source :=
  {| cs_source := "obsm"; cs_path := ""; cs_embedding := "X_umap";
     cs_columnIndex := 0; cs_columnName := None |}.

(** A random source for the examples. *)
Definition example_random (i k : nat) : nat := ((i * 7 + 3) mod k)%nat.

(** * Further notions: the column loader seen from its callers *)

Section ColumnNotions.
Context `{Builtins}.

(** The values that the try block of [ensureColumnLoaded] gets for a column:
    the decoded codes of a categorical-encoded column ([None] when its fetch
    throws), the array of another column, or the made-up defaults when that
    array cannot be read. *)
Definition column_values (root : store) (metadata : col_meta) (colName : string)
    (nCells : nat) : option (list value) :=
  if String.eqb (cm_encodingType metadata) "categorical"
  then cat_read root ("obs/" +:+ colName)
  else Some (default (replicate nCells
                        (default_value (String.eqb (cm_type metadata) "continuous")))
                     (store_read root ("obs/" +:+ colName))).

(** The number that the numeric loop stores for row [i], and the string that
    the categorical loop stores for it. *)
Definition numeric_value (values : list value) (i : nat) : number :=
  match default VUndefined (values !! i) with
  | VNum x => x
  | v => parseFloat_of v
  end.

Definition categorical_value (values : list value) (i : nat) : string :=
  String_of (js_or (default VUndefined (values !! i)) (VStr "")).

(** A call of [ensureColumnLoaded] that returns at once: the column is
    marked as loaded, or there is nothing to load it from. *)
Definition skipped (st : session) (colName : string) : Prop :=
  load_plan_of st colName = AlreadyLoaded \/ load_plan_of st colName = NoMetadata.

End ColumnNotions.

(** * The filter controls

    The listeners that [attachFilterEventListeners] and [setupEventListeners]
    attach to the filter panel.  Each one changes [activeFilters] and then
    schedules a run of [updateFilter] ([throttleFilterUpdate]); redrawing
    the panel ([renderFilters]) writes no module state. *)

(** The filter object that the "Add filter" button creates: no attribute, no
    type, no values, no range. *)
Definition new_filter (filterId : string) : Filter :=
  {| f_id := filterId; f_attribute := ""; f_type := None; f_values := None;
     f_range := None |}.

Section FilterControls.
Context `{Builtins}.

(** [activeFilters.find(f => f.id === filterId)]: the first filter with the
    id, and its place in the list. *)
Definition find_filter (filterId : string) (st : session) : option (nat * Filter) :=
  list_find (fun f => f_id f = filterId) (activeFilters st).

(** An assignment to fields of the filter object at place [i] of the list:
    the list holds the object, so it sees the change. *)
Definition assign_filter (i : nat) (g : Filter -> Filter) (st : session) : session :=
  set_activeFilters (alter g i (activeFilters st)) st.

(** The click listener of the "Add filter" button; [filterId] is the id made
    from the clock and a random number. *)
Definition addFilter (filterId : string) (st : session) : session :=
  set_activeFilters (activeFilters st ++ [new_filter filterId]) st.

(** The click listener of a filter's remove button. *)
Definition on_remove_filter (filterId : string) (st : session) : session :=
  set_activeFilters (filter (fun f => f_id f ≠ filterId) (activeFilters st)) st.

(** The change listener of a filter's attribute selector; [attribute] is the
    selected option.  The two lists of column names are those that
    [loadData] made. *)
Definition on_attribute_change (column_names_categorical column_names_continuous : list string)
    (filterId attribute : string) : M unit := fun st =>
  match find_filter filterId st with
  | Some (i, _) =>
      if negb (String.eqb attribute "") then
        (modify (assign_filter i (fun flt =>
                   {| f_id := f_id flt; f_attribute := attribute; f_type := f_type flt;
                      f_values := f_values flt; f_range := f_range flt |})) ;;;
         ensureColumnLoaded attribute ;;;
         modify (fun st =>
           if bool_decide (attribute ∈ column_names_continuous) then
             assign_filter i (fun flt =>
               {| f_id := f_id flt; f_attribute := f_attribute flt;
                  f_type := Some continuous;
                  f_values := None;
                  f_range :=
                    Some (match continuousRanges st !! attribute with
                          | Some range => {| range_min := range_min range;
                                             range_max := range_max range |}
                          | None => {| range_min := Fin 0; range_max := Fin 1 |}
                          end) |}) st
           else if bool_decide (attribute ∈ column_names_categorical) then
             assign_filter i (fun flt =>
               {| f_id := f_id flt; f_attribute := f_attribute flt;
                  f_type := Some categorical;
                  f_values := Some (default ∅ (attributeValues st !! attribute));
                  f_range := None |}) st
           else
             assign_filter i (fun flt =>
               {| f_id := f_id flt; f_attribute := f_attribute flt;
                  f_type := None; f_values := None; f_range := None |}) st)) st
      else ret tt st
  | None => ret tt st
  end.

(** [filter.range = r]. *)
Definition with_range (r : range) (flt : Filter) : Filter :=
  {| f_id := f_id flt; f_attribute := f_attribute flt; f_type := f_type flt;
     f_values := f_values flt; f_range := Some r |}.

(** [filter.values] holds exactly the strings of [s] (after [clear] and the
    [add]s). *)
Definition with_values (s : gset string) (flt : Filter) : Filter :=
  {| f_id := f_id flt; f_attribute := f_attribute flt; f_type := f_type flt;
     f_values := Some s; f_range := f_range flt |}.

(** The input listener of the lower slider of a range filter; [value] is
    the slider's value. *)
Definition on_min_input (filterId value : string) (st : session) : session :=
  let minVal := parseFloat value in
  match find_filter filterId st with
  | Some (i, flt) =>
      match f_range flt with
      | Some range =>
          let range :=
            if num_gt minVal (range_max range)
            then {| range_min := range_min range; range_max := minVal |} else range in
          assign_filter i (with_range {| range_min := minVal; range_max := range_max range |}) st
      | None => st
      end
  | None => st
  end.

(** The input listener of the upper slider. *)
Definition on_max_input (filterId value : string) (st : session) : session :=
  let maxVal := parseFloat value in
  match find_filter filterId st with
  | Some (i, flt) =>
      match f_range flt with
      | Some range =>
          let range :=
            if num_lt maxVal (range_min range)
            then {| range_min := maxVal; range_max := range_max range |} else range in
          assign_filter i (with_range {| range_min := range_min range; range_max := maxVal |}) st
      | None => st
      end
  | None => st
  end.

(** The change listener of a checkbox of a categorical filter;
    [allCheckboxes] are the checkboxes of the filter in the panel, each with
    its value and whether it is checked. *)
Definition on_checkbox_change (filterId : string) (allCheckboxes : list (string * bool))
    (st : session) : session :=
  match find_filter filterId st with
  | Some (i, flt) =>
      match f_values flt with
      | Some _ =>
          assign_filter i
            (with_values (list_to_set (map fst (filter (fun cb => Is_true (snd cb))
                                                       allCheckboxes)))) st
      | None => st
      end
  | None => st
  end.

(** The click listeners of "Select All" and "Deselect All". *)
Definition on_select_all (filterId : string) (allCheckboxes : list (string * bool))
    (st : session) : session :=
  match find_filter filterId st with
  | Some (i, flt) =>
      match f_values flt with
      | Some _ => assign_filter i (with_values (list_to_set (map fst allCheckboxes))) st
      | None => st
      end
  | None => st
  end.

Definition on_deselect_all (filterId : string) (st : session) : session :=
  match find_filter filterId st with
  | Some (i, flt) =>
      match f_values flt with
      | Some _ => assign_filter i (with_values ∅) st
      | None => st
      end
  | None => st
  end.

End FilterControls.

(** * Coordinates: the default selection, and the fields [x], [y], [z] *)

Section CoordinateSelection.
Context `{Builtins}.

(** [c.columnName === name]. *)
Definition columnName_is (c : coord_source) (name : string) : bool :=
  bool_decide (cs_columnName c = Some name).

(** The default selection of [loadData]: the sources of x and y, chosen
    when one of the two is not selected yet; [obsm] is
    [availableCoordinateSources.obsm]. *)
Definition default_coordinates (obsm : list coord_source)
    (selectedXCoord selectedYCoord : option coord_source) :
    outcome (coord_source * coord_source) :=
  match selectedXCoord, selectedYCoord with
  | Some x, Some y => Ok (x, y)
  | _, _ =>
      let globalX := List.find (fun c => String.eqb (cs_embedding c) "Global_Spatial"
                                         && columnName_is c "global_x") obsm in
      let globalY := List.find (fun c => String.eqb (cs_embedding c) "Global_Spatial"
                                         && columnName_is c "global_y") obsm in
      match globalX, globalY with
      | Some x, Some y => Ok (x, y)
      | _, _ =>
          let spatialX := List.find (fun c => String.eqb (cs_embedding c) "spatial"
                                              && (columnName_is c "x"
                                                  || (cs_columnIndex c =? 0)%nat)) obsm in
          let spatialY := List.find (fun c => String.eqb (cs_embedding c) "spatial"
                                              && (columnName_is c "y"
                                                  || (cs_columnIndex c =? 1)%nat)) obsm in
          match spatialX, spatialY with
          | Some x, Some y => Ok (x, y)
          | _, _ =>
              match obsm with
              | x :: y :: _ => Ok (x, y)
              | _ => Throw (Error "No obsm coordinate sources found. Please check the zarr file structure.")
              end
          end
      end
  end.

(** One round of the loop that maps the loaded values to the fields [x],
    [y] and [z] of row [i]; [zValues] is [None] ([null]) when no source is
    selected for z. *)
Definition assign_xyz (xValues yValues : list value) (zValues : option (list value))
    (i : nat) (st : session) : session :=
  let st := set_cell i "x" (js_or (default VUndefined (xValues !! i)) (VNum (Fin 0))) st in
  let st := set_cell i "y" (js_or (default VUndefined (yValues !! i)) (VNum (Fin 0))) st in
  set_cell i "z"
    (match zValues with
     | Some zValues => js_or (default VUndefined (zValues !! i)) (VNum (Fin 0))
     | None => VNum (Fin 0)
     end) st.

(** Loading the selected coordinates into the rows, as [handleCoordinateChange]
    does once the selection is made (and [loadData] for the first
    selection); [fuel] bounds the chunk loops. *)
Definition load_coordinates (fuel : nat) (root : store)
    (selectedXCoord selectedYCoord : coord_source) (selectedZCoord : option coord_source) :
    M unit := fun st =>
  let nCells := length (allData st) in
  (xValues <- loadCoordinateValues fuel root selectedXCoord nCells ;;
   yValues <- loadCoordinateValues fuel root selectedYCoord nCells ;;
   zValues <- match selectedZCoord with
              | Some z => zValues <- loadCoordinateValues fuel root z nCells ;;
                          ret (Some zValues)
              | None => ret None
              end ;;
   for_range nCells (fun i => modify (assign_xyz xValues yValues zValues i))) st.

(** Code whose result depends on the store only, and whose only effect is
    on the fetch log. *)
Definition reads_store_only {A} (m : M A) : Prop :=
  exists o evs, forall st, m st = (o, add_log evs st).

(** The three coordinate fields that the loop gives row [i]. *)
Definition with_xyz (xValues yValues : list value) (zValues : option (list value))
    (i : nat) (row : gmap string value) : gmap string value :=
  <["z" := match zValues with
           | Some zValues => js_or (default VUndefined (zValues !! i)) (VNum (Fin 0))
           | None => VNum (Fin 0)
           end]>
    (<["y" := js_or (default VUndefined (yValues !! i)) (VNum (Fin 0))]>
       (<["x" := js_or (default VUndefined (xValues !! i)) (VNum (Fin 0))]> row)).

(** A coordinate that can be drawn: not [undefined], [null], [NaN] or the
    empty string. *)
Definition usable_coordinate (v : value) : Prop :=
  truthy v = true \/ v = VNum (Fin 0).

End CoordinateSelection.

(** * The gene statistics: the var columns *)

(** An entry of [varColumnMetadata]. *)
Record var_meta : Type := {
  vm_encodingType : string;
  vm_path : string
}.

(** The module state behind the gene table: [varColumnMetadata] as the list
    of its entries, in the order of [Object.keys]; the flag
    [varColumnsLoaded]; [geneStats]; and [window.varFieldNameMapping]
    ([None] while it is not set). *)
Record var_state : Type := {
  varColumnMetadata : list (string * var_meta);
  varColumnsLoaded : bool;
  geneStats : list (gmap string value);
  varFieldNameMapping : option (gmap string string)
}.

(** [colName.replace(/\./g, '_')]: every dot becomes an underscore. *)
Fixpoint replace_dots (colName : string) : string :=
  match colName with
  | EmptyString => EmptyString
  | String c rest =>
      (if String.eqb (String c EmptyString) "." then "_" else String c EmptyString)
      +:+ replace_dots rest
  end.

Section VarColumns.
Context `{Builtins}.

(** [obj[key]] on an object given by its entries. *)
Definition object_get {A} (obj : list (string * A)) (key : string) : option A :=
  snd <$> List.find (fun entry => String.eqb (fst entry) key) obj.

(** One round of the loading loop of [ensureVarColumnsLoaded]: the column
    found is stored in [varColumnData]; a column that cannot be loaded is
    left out.  ([varColumnTypes] is written and never read.) *)
Definition load_var_column (root : store) (metadata_of : list (string * var_meta))
    (colName : string) (varColumnData : gmap string (list value)) :
    M (gmap string (list value)) :=
  try_catch
    (match object_get metadata_of colName with
     | Some metadata =>
         if String.eqb (vm_encodingType metadata) "categorical" then
           catData <- loadCategoricalColumn root ("var/" +:+ colName) ;;
           ret (<[colName := catData]> varColumnData)
         else
           colData <- loadZarrArray root ("var/" +:+ colName) ;;
           ret (<[colName := colData]> varColumnData)
     | None => throw (TypeError "metadata is undefined")
     end)
    (fun colError => ret varColumnData).

Fixpoint load_var_columns (root : store) (metadata_of : list (string * var_meta))
    (varColumnOrder : list string) (varColumnData : gmap string (list value)) :
    M (gmap string (list value)) :=
  match varColumnOrder with
  | [] => ret varColumnData
  | colName :: rest =>
      varColumnData <- load_var_column root metadata_of colName varColumnData ;;
      load_var_columns root metadata_of rest varColumnData
  end.

(** The value that row [i] of [geneStats] gets for a column: its value in
    the loaded column, [null] when the column was not loaded or has no
    value there. *)
Definition var_cell (varColumnData : gmap string (list value)) (colName : string)
    (i : nat) : value :=
  match varColumnData !! colName with
  | Some column =>
      match default VUndefined (column !! i) with
      | VUndefined => VNull
      | v => v
      end
  | None => VNull
  end.

(** The entry of [geneStats] for gene [i]. *)
Definition gene_stats_row (varColumnOrder : list string)
    (varColumnData : gmap string (list value)) (i : nat) (name : string) :
    gmap string value :=
  fold_left (fun stats colName =>
               <[replace_dots colName := var_cell varColumnData colName i]> stats)
            varColumnOrder {[ "gene" := VStr name ]}.

(** [ensureVarColumnsLoaded()]. *)
Definition ensureVarColumnsLoaded (vs : var_state) : M var_state := fun st =>
  if varColumnsLoaded vs then ret vs st
  else
    match zarrRoot st, sm_geneNames (sparseMatrix st) with
    | Some root, Some geneNames =>
        if (length (varColumnMetadata vs) =? 0)%nat then ret vs st
        else
          (let varColumnOrder := map fst (varColumnMetadata vs) in
           varColumnData <- load_var_columns root (varColumnMetadata vs) varColumnOrder ∅ ;;
           ret {| varColumnMetadata := varColumnMetadata vs;
                  varColumnsLoaded := true;
                  geneStats := imap (gene_stats_row varColumnOrder varColumnData) geneNames;
                  varFieldNameMapping :=
                    Some (fold_left (fun fieldNameMapping colName =>
                                       <[replace_dots colName := colName]> fieldNameMapping)
                                    varColumnOrder ∅) |}) st
    | _, _ => ret vs st
    end.

(** What loading a var column yields, if it can be loaded. *)
Definition var_column (root : store) (metadata : var_meta) (colName : string) :
    option (list value) :=
  if String.eqb (vm_encodingType metadata) "categorical"
  then cat_read root ("var/" +:+ colName)
  else store_read root ("var/" +:+ colName).

(** The value of gene [i] in a var column of the store, [null] when there is
    none. *)
Definition var_value (root : store) (metadata : var_meta) (colName : string) (i : nat) :
    value :=
  match var_column root metadata colName with
  | Some column =>
      match default VUndefined (column !! i) with
      | VUndefined => VNull
      | v => v
      end
  | None => VNull
  end.

(** The columns in [varColumnData] after the loop over [cols]. *)
Definition loaded_var_columns (root : store) (metadata_of : list (string * var_meta))
    (cols : list string) (data : gmap string (list value)) : gmap string (list value) :=
  fold_left (fun data colName =>
               match object_get metadata_of colName with
               | Some metadata =>
                   match var_column root metadata colName with
                   | Some column => <[colName := column]> data
                   | None => data
                   end
               | None => data
               end) cols data.

End VarColumns.

(** * The gene table: the order of its columns *)

(** [priorityColumns] of [initGeneTable]. *)
Definition priorityColumns : list string :=
  ["gene"; "highly_variable"; "dispersions_norm"; "dispersions"; "means"; "mt";
   "highly_variable_intersection"; "highly_variable_nbatches"].

(** [columnOrder] of [initGeneTable]: the priority columns that exist, in
    their order, then the remaining columns; [allColumns] are the keys of the
    first entry of [geneStats] (none when [geneStats] is empty). *)
Definition columnOrder_of (allColumns : list string) : list string :=
  let prioritized := filter (fun col => col ∈ allColumns) priorityColumns in
  let usedColumns : gset string := list_to_set prioritized in
  prioritized ++ filter (fun col => col ∉ usedColumns ∧ col ≠ "gene") allColumns.

(** [initialSortColumn] of [initGeneTable]. *)
Definition initialSortColumn_of (columnOrder : list string) : string :=
  if bool_decide ("dispersions_norm" ∈ columnOrder) then "dispersions_norm"
  else if bool_decide ("highly_variable" ∈ columnOrder) then "highly_variable"
  else if bool_decide ("means" ∈ columnOrder) then "means"
  else "gene".

(** * The gene search box *)

(** [s.startsWith(searchString)] and [s.includes(searchString)]. *)
Definition startsWith (s searchString : string) : bool := String.prefix searchString s.

Fixpoint includes (s searchString : string) : bool :=
  String.prefix searchString s ||
  match s with
  | EmptyString => false
  | String _ rest => includes rest searchString
  end.

(** The state of the search box: [selectedIndex] and [currentSuggestions] of
    [setupGeneAutocomplete], the [display] style of the suggestion list,
    and the global [selectedGene]. *)
Record gene_search : Type := {
  selectedIndex : Z;
  currentSuggestions : list string;
  suggestions_display : string;
  selectedGene : option string
}.

Section GeneSearch.
(** [String.prototype.toLowerCase]. *)
Variable toLowerCase : string -> string.
(** The gene names that [setupGeneAutocomplete] was given. *)
Variable geneNames : list string.

(** [showSuggestions(query)]. *)
Definition showSuggestions (query : string) (gs : gene_search) : gene_search :=
  if String.eqb query "" then
    {| selectedIndex := selectedIndex gs; currentSuggestions := currentSuggestions gs;
       suggestions_display := "none"; selectedGene := selectedGene gs |}
  else
    let queryLower := toLowerCase query in
    let startsWithMatches :=
      filter (fun g => Is_true (startsWith (toLowerCase g) queryLower)) geneNames in
    let containsMatches :=
      filter (fun g => Is_true (negb (startsWith (toLowerCase g) queryLower)
                                && includes (toLowerCase g) queryLower)) geneNames in
    let suggestions := take 20 (startsWithMatches ++ containsMatches) in
    if (length suggestions =? 0)%nat then
      {| selectedIndex := selectedIndex gs; currentSuggestions := suggestions;
         suggestions_display := "block"; selectedGene := selectedGene gs |}
    else
      {| selectedIndex := -1; currentSuggestions := suggestions;
         suggestions_display := "block"; selectedGene := selectedGene gs |}.

(** [selectGene(geneName)], as far as the state of the search box goes (the
    redraw of the points and of the legend that follows is left out). *)
Definition selectGene (geneName : value) (gs : gene_search) : gene_search :=
  match geneName with
  | VStr name =>
      if negb (truthy geneName) || negb (bool_decide (name ∈ geneNames)) then gs
      else {| selectedIndex := selectedIndex gs; currentSuggestions := currentSuggestions gs;
              suggestions_display := "none"; selectedGene := Some name |}
  | _ => gs
  end.

(** [currentSuggestions[i]]. *)
Definition suggestion_at (gs : gene_search) (i : Z) : value :=
  if (0 <=? i)%Z then default VUndefined (VStr <$> currentSuggestions gs !! Z.to_nat i)
  else VUndefined.

(** The keydown listener of the search box. *)
Definition on_keydown (key : string) (gs : gene_search) : gene_search :=
  let n := Z.of_nat (length (currentSuggestions gs)) in
  if negb (String.eqb (suggestions_display gs) "block") || (n =? 0)%Z then gs
  else if String.eqb key "ArrowDown" then
    {| selectedIndex := Z.min (selectedIndex gs + 1) (n - 1);
       currentSuggestions := currentSuggestions gs;
       suggestions_display := suggestions_display gs; selectedGene := selectedGene gs |}
  else if String.eqb key "ArrowUp" then
    {| selectedIndex := Z.max (selectedIndex gs - 1) 0;
       currentSuggestions := currentSuggestions gs;
       suggestions_display := suggestions_display gs; selectedGene := selectedGene gs |}
  else if String.eqb key "Enter" then
    if (0 <=? selectedIndex gs)%Z && (selectedIndex gs <? n)%Z
    then selectGene (suggestion_at gs (selectedIndex gs)) gs
    else if (0 <? n)%Z then selectGene (suggestion_at gs 0) gs
    else gs
  else if String.eqb key "Escape" then
    {| selectedIndex := selectedIndex gs; currentSuggestions := currentSuggestions gs;
       suggestions_display := "none"; selectedGene := selectedGene gs |}
  else gs.

(** A gene name matches a query when, both in lower case, the query occurs
    in the name. *)
Definition matches_query (query g : string) : Prop :=
  exists before after, toLowerCase g = before +:+ toLowerCase query +:+ after.

Definition starts_with_query (query g : string) : Prop :=
  exists after, toLowerCase g = toLowerCase query +:+ after.

End GeneSearch.

(** * Column discovery in [loadData] *)

Definition set_columnMetadata (m : gmap string col_meta) (st : session) : session :=
  {| zarrRoot := zarrRoot st; cachedZarrArrays := cachedZarrArrays st;
     sparseMatrix := sparseMatrix st; columnMetadata := m;
     loadedColumns := loadedColumns st; allData := allData st;
     attributeValues := attributeValues st; continuousRanges := continuousRanges st;
     activeFilters := activeFilters st; visibleIndices := visibleIndices st;
     fetchLog := fetchLog st |}.

(** The two lists of column names that [loadData] makes for the controls. *)
Record column_names : Type := {
  names_categorical : list string;     (* column_names_categorical *)
  names_continuous : list string       (* column_names_continuous *)
}.

(** [numericColumns] of [loadData]. *)
Definition numericColumns : list string := ["global_x"; "global_y"; "global_z"].

Section ColumnDiscovery.
(** [encodingType] as the loop of [loadData] gets it for a column: the
    attribute [encoding-type] of [obs/<column>/.zattrs], a string when the
    store has it; [None] stands for [null] and [undefined] (the request
    fails or is refused, the file cannot be parsed, or it has no such
    attribute). *)
Variable encoding_type : string -> option string.

Definition isNumeric_of (colName : string) : bool :=
  bool_decide (encoding_type colName = Some "array")
  || bool_decide (colName ∈ numericColumns).

(** [encodingType || 'array']. *)
Definition encodingType_or_array (encodingType : option string) : string :=
  match encodingType with
  | Some e => if String.eqb e "" then "array" else e
  | None => "array"
  end.

(** One round of the discovery loop. *)
Definition discover_column (acc : session * column_names) (colName : string) :
    session * column_names :=
  let st := acc.1 in
  let names := acc.2 in
  let encodingType := encoding_type colName in
  let isNumeric := isNumeric_of colName in
  let st :=
    set_columnMetadata
      (<[colName := {| cm_type := if isNumeric then "continuous" else "categorical";
                       cm_encodingType := encodingType_or_array encodingType;
                       cm_path := colName |}]> (columnMetadata st)) st in
  if isNumeric then
    (set_continuousRanges (<[colName := initial_range]> (continuousRanges st)) st,
     {| names_categorical := names_categorical names;
        names_continuous :=
          if bool_decide (colName ∈ names_continuous names) then names_continuous names
          else names_continuous names ++ [colName] |})
  else
    (set_attributeValues (<[colName := ∅]> (attributeValues st)) st,
     {| names_categorical :=
          if bool_decide (colName ∈ names_categorical names) then names_categorical names
          else names_categorical names ++ [colName];
        names_continuous := names_continuous names |}).

(** The discovery of the columns [columnOrder] in [loadData]: the metadata
    and the two lists start empty, no column is loaded. *)
Definition discover_columns (columnOrder : list string) (st : session) :
    session * column_names :=
  fold_left discover_column columnOrder
    (set_loadedColumns ∅ (set_columnMetadata ∅ st),
     {| names_categorical := []; names_continuous := [] |}).

(** The metadata that the loop stores for a column. *)
Definition discovered_metadata (colName : string) : col_meta :=
  {| cm_type := if isNumeric_of colName then "continuous" else "categorical";
     cm_encodingType := encodingType_or_array (encoding_type colName);
     cm_path := colName |}.

(** What holds of the state and the two lists once the columns [seen] have
    been gone through. *)
Definition discovered (rows : list (gmap string value)) (seen : list string)
    (acc : session * column_names) : Prop :=
  NoDup (names_categorical acc.2) /\ NoDup (names_continuous acc.2) /\
  (forall col, col ∈ names_continuous acc.2 <-> col ∈ seen /\ isNumeric_of col = true) /\
  (forall col, col ∈ names_categorical acc.2 <-> col ∈ seen /\ isNumeric_of col = false) /\
  (forall col, col ∈ seen -> columnMetadata acc.1 !! col = Some (discovered_metadata col)) /\
  (forall col, col ∉ seen -> columnMetadata acc.1 !! col = None) /\
  (forall col, col ∈ names_continuous acc.2 ->
     continuousRanges acc.1 !! col = Some initial_range) /\
  (forall col, col ∈ names_categorical acc.2 -> attributeValues acc.1 !! col = Some ∅) /\
  loadedColumns acc.1 = ∅ /\ allData acc.1 = rows.

End ColumnDiscovery.

(** * Further example data *)

(** A store with two var columns, [means] (an array) and [mt] (categorical);
    the column [dispersions.norm] of the metadata below is missing from
    it. *)
Definition var_store : store :=
  {[ "var/means" := array1 [VNum (Fin (1 # 2)); VNum (num_of_Z 2)];
     "var/mt/codes" := array1 (ints [1; 0]);
     "var/mt/categories" := array1 (strs ["no"; "yes"]) ]}.

Definition var_session : session :=
  {| zarrRoot := Some var_store;
     cachedZarrArrays := None;
     sparseMatrix := {| sm_shape := Some [10; 2]%nat; sm_geneNames := Some ["Gdf9"; "Amh"] |};
     columnMetadata := ∅;
     loadedColumns := ∅;
     allData := replicate 10 ∅;
     attributeValues := ∅;
     continuousRanges := ∅;
     activeFilters := [];
     visibleIndices := Some (map to_uint32 (all_indices 10));
     fetchLog := [] |}.

Definition var_state_0 : var_state :=
  {| varColumnMetadata :=
       [("means", {| vm_encodingType := "array"; vm_path := "means" |});
        ("mt", {| vm_encodingType := "categorical"; vm_path := "mt" |});
        ("dispersions.norm", {| vm_encodingType := "array"; vm_path := "dispersions.norm" |})];
     varColumnsLoaded := false;
     geneStats := [ {[ "gene" := VStr "Gdf9" ]}; {[ "gene" := VStr "Amh" ]} ];
     varFieldNameMapping := None |}.

(** Lower case for the letters A to Z, the other characters unchanged. *)
Fixpoint ascii_lower (s : string) : string :=
  match s with
  | EmptyString => EmptyString
  | String c rest =>
      let n := Ascii.nat_of_ascii c in
      String (if (65 <=? n)%nat && (n <=? 90)%nat then Ascii.ascii_of_nat (n + 32) else c)
             (ascii_lower rest)
  end.

(** The encoding types of the example columns; [cluster] has no readable
    attributes. *)
Definition example_encoding_type (colName : string) : option string :=
  if String.eqb colName "age" then Some "array"
  else if String.eqb colName "kind" then Some "string-array"
  else if String.eqb colName "phase" then Some "categorical"
  else None.

(** The search box before anything is typed. *)
Definition search_0 : gene_search :=
  {| selectedIndex := -1; currentSuggestions := []; suggestions_display := "none";
     selectedGene := None |}.

(** * Colours *)

(** [a + b], [a - b] and the remainder [a % b] (exact, with the sign of
    [a]). *)
Definition num_add (a b : number) : number :=
  match a, b with
  | NaN, _ | _, NaN => NaN
  | Fin p, Fin q => round64 (p + q)
  | PosInf, NegInf | NegInf, PosInf => NaN
  | PosInf, _ | _, PosInf => PosInf
  | NegInf, _ | _, NegInf => NegInf
  end.

Definition num_sub (a b : number) : number :=
  match a, b with
  | NaN, _ | _, NaN => NaN
  | Fin p, Fin q => round64 (p - q)
  | PosInf, PosInf | NegInf, NegInf => NaN
  | PosInf, _ | _, NegInf => PosInf
  | NegInf, _ | _, PosInf => NegInf
  end.

Definition num_rem (a b : number) : number :=
  match a, b with
  | NaN, _ | _, NaN => NaN
  | PosInf, _ | NegInf, _ => NaN
  | Fin _, PosInf | Fin _, NegInf => a
  | Fin p, Fin q =>
      if Qeq_bool q 0 then NaN
      else Fin (Qred (p - q * inject_Z (Qtrunc (p / q))))
  end.

(** [ToInt32], and [x << n] for a shift count from 0 to 31. *)
Definition wrap_int32 (z : Z) : Z := (z + 2 ^ 31) mod 2 ^ 32 - 2 ^ 31.

Definition ToInt32 (x : number) : Z :=
  match x with
  | Fin q => wrap_int32 (Qtrunc q)
  | _ => 0
  end.

Definition shift_left (x : number) (n : Z) : number :=
  num_of_Z (wrap_int32 (ToInt32 x * 2 ^ n)).

(** A [THREE.Color], by the arguments it is made from. *)
Inductive color : Type :=
| Color_hex (hex : Z)               (* new THREE.Color(hex) *)
| Color_rgb (r g b : number)        (* new THREE.Color(r, g, b) *)
| Color_hsl (h s l : number).       (* new THREE.Color().setHSL(h, s, l) *)

(** [geneExpressionCache]. *)
Record gene_cache : Type := {
  gc_geneName : option string;
  gc_data : option (list number);
  gc_min : number;
  gc_max : number;
  gc_winsorizedMin : number;
  gc_winsorizedMax : number
}.

(** The cache at the start, and after the gene is cleared. *)
Definition initial_gene_cache : gene_cache :=
  {| gc_geneName := None; gc_data := None; gc_min := Fin 0; gc_max := Fin 1;
     gc_winsorizedMin := Fin 0; gc_winsorizedMax := Fin 1 |}.

(** One round of the range loop of [createPointCloud] over the expression
    vector. *)
Definition gene_range_step (acc : number * number) (val : number) : number * number :=
  if num_gt val (Fin 0) then (Math_min acc.1 val, Math_max acc.2 val) else acc.

(** The cache that [createPointCloud] makes for a gene whose expression it
    has loaded. *)
Definition gene_cache_of (geneName : string) (geneExpression : list number) : gene_cache :=
  let range := fold_left gene_range_step geneExpression (PosInf, NegInf) in
  let min := match range.1 with PosInf => Fin 0 | min => min end in
  let max := match range.2 with NegInf => Fin 1 | max => max end in
  {| gc_geneName := Some geneName; gc_data := Some geneExpression;
     gc_min := Fin 0; gc_max := max;
     gc_winsorizedMin := Fin 0; gc_winsorizedMax := max |}.

Section Colors.
Context `{Builtins}.
(** The UTF-16 code units of a string, which [length] counts and
    [charCodeAt] reads. *)
Variable code_units : string -> list Z.

(** The expression of the selected gene in [createPointCloud]: from the
    cache when it is for this gene, else loaded, with a new cache when the
    gene is found.  The result is [geneExpression] and the cache. *)
Definition load_gene_expression (geneName : string) (cache : gene_cache) :
    M (option (list number) * gene_cache) :=
  if bool_decide (gc_geneName cache = Some geneName) then ret (gc_data cache, cache)
  else
    geneExpression <- getGeneExpression geneName ;;
    match geneExpression with
    | Some data => ret (Some data, gene_cache_of geneName data)
    | None => ret (None, cache)
    end.

(** The hash of [getColorForValue]. *)
Definition string_hash (strValue : string) : number :=
  fold_left (fun hash charCode =>
               num_add (num_of_Z charCode) (num_sub (shift_left hash 5) hash))
            (code_units strValue) (Fin 0).

Definition hashed_color (value : value) : color :=
  let hash := string_hash (String_of value) in
  let hue := num_rem (num_add (num_rem hash (num_of_Z 360)) (num_of_Z 360)) (num_of_Z 360) in
  let saturation := num_add (num_of_Z 70) (num_rem hash (num_of_Z 20)) in
  let lightness := num_add (num_of_Z 50) (num_rem hash (num_of_Z 20)) in
  Color_hsl (num_div hue (num_of_Z 360)) (num_div saturation (num_of_Z 100))
            (num_div lightness (num_of_Z 100)).

(** [value === null || value === undefined || value === '']. *)
Definition is_blank (value : value) : bool :=
  match value with
  | VNull | VUndefined => true
  | VStr s => String.eqb s ""
  | VNum _ => false
  end.

(** The colour at a place of the scale from blue (0) over white (0.5) to
    red (1). *)
Definition scale_color (normalized : number) : color :=
  if num_lt normalized (Fin (1 # 2)) then
    let t := num_mul normalized (Fin 2) in
    Color_rgb t t (Fin 1)
  else
    let t := num_mul (num_sub normalized (Fin (1 # 2))) (Fin 2) in
    Color_rgb (Fin 1) (num_sub (Fin 1) t) (num_sub (Fin 1) t).

(** The colour of a gene expression value: the value is clipped to
    [winMin, winMax] and placed on the scale. *)
Definition gene_scale_color (winMin winMax x : number) : color :=
  let winsorizedValue := Math_max winMin (Math_min winMax x) in
  let normalized := num_div (num_sub winsorizedValue winMin) (num_sub winMax winMin) in
  scale_color normalized.

(** The colour of a value of a continuous column on the gradient of its
    range. *)
Definition gradient_color (range : range) (x : number) : color :=
  let normalized :=
    num_div (num_sub x (range_min range)) (num_sub (range_max range) (range_min range)) in
  Color_hsl (num_mul (num_sub (Fin 1) normalized) (round64 (7 # 10)))
            (round64 (8 # 10)) (Fin (1 # 2)).

(** [getColorForValue(value, attribute)]: the colour, and [colorMap]
    afterwards. *)
Definition getColorForValue (column_names_continuous : list string) (cache : gene_cache)
    (st : session) (value : value) (attribute : string) (colorMap : gmap string color) :
    color * gmap string color :=
  if is_blank value then (Color_hex 8947848, colorMap)
  else if startsWith attribute "gene:" then
    (match value with
     | VNum x =>
         let winMin := gc_winsorizedMin cache in
         let winMax := gc_winsorizedMax cache in
         if num_gt winMax winMin then gene_scale_color winMin winMax x
         else Color_rgb (Fin 0) (Fin 0) (Fin 1)
     | _ => Color_rgb (Fin 0) (Fin 0) (Fin 1)
     end, colorMap)
  else
    match (if bool_decide (attribute ∈ column_names_continuous) then
             match value, continuousRanges st !! attribute with
             | VNum x, Some range =>
                 if num_gt (range_max range) (range_min range)
                 then Some (gradient_color range x) else None
             | _, _ => None
             end
           else None) with
    | Some color => (color, colorMap)
    | None =>
        let key := attribute +:+ ":" +:+ String_of value in
        match colorMap !! key with
        | Some color => (color, colorMap)
        | None =>
            let color := hashed_color value in
            (color, <[key := color]> colorMap)
        end
    end.

End Colors.

(** The code units of a string of ASCII characters. *)
Fixpoint ascii_code_units (s : string) : list Z :=
  match s with
  | EmptyString => []
  | String c rest => Z.of_nat (Ascii.nat_of_ascii c) :: ascii_code_units rest
  end.

(** The expression of the first example gene. *)
Definition gene_data : list number :=
  [Fin 0; Fin 0; Fin 0; Fin (3 # 2); Fin 0; Fin 0; Fin 0; Fin 2; Fin 0; Fin 0].

(** * The coordinate selectors *)

(** [value.split(':')]. *)
Fixpoint split_colon (value : string) : list string :=
  match value with
  | EmptyString => [EmptyString]
  | String c rest =>
      if String.eqb (String c EmptyString) ":" then EmptyString :: split_colon rest
      else match split_colon rest with
           | part :: parts => String c part :: parts
           | [] => [String c EmptyString]
           end
  end.

(** A string without a colon. *)
Definition no_colon (s : string) : Prop := split_colon s = [s].

(** [a === b] on numbers. *)
Definition num_eqb (a b : number) : bool :=
  match a, b with
  | Fin p, Fin q => Qeq_bool p q
  | PosInf, PosInf | NegInf, NegInf => true
  | _, _ => false
  end.

(** The globals [selectedXCoord], [selectedYCoord] and [selectedZCoord]. *)
Record selection : Type := {
  selectedXCoord : option coord_source;
  selectedYCoord : option coord_source;
  selectedZCoord : option coord_source
}.

Section CoordinateOptions.
Context `{Builtins}.
(** [parseInt(s)]. *)
Variable parseInt : string -> number.
(** [availableCoordinateSources.obsm]. *)
Variable obsm : list coord_source.

(** The value of the option that [updateCoordinateSelectionUI] makes for a
    source, in each of the three selectors: by the column name when the
    source has one, else by the column index. *)
Definition option_value (coord : coord_source) : string :=
  let byIndex :=
    "obsm:" +:+ cs_embedding coord +:+ ":" +:+
    NumberToString (num_of_Z (Z.of_nat (cs_columnIndex coord))) in
  match cs_columnName coord with
  | Some columnName =>
      if String.eqb columnName "" then byIndex
      else "obsm:" +:+ cs_embedding coord +:+ ":" +:+ columnName
  | None => byIndex
  end.

(** [parseCoordSource(value)] of [handleCoordinateChange]; [None] is
    [null] or [undefined]. *)
Definition parseCoordSource (value : string) : option coord_source :=
  if String.eqb value "" || String.eqb value "none" then None
  else
    let parts := split_colon value in
    if (length parts <? 2)%nat then None
    else if String.eqb (default "" (parts !! 0%nat)) "obsm" && (3 <=? length parts)%nat then
      let embedding := default "" (parts !! 1%nat) in
      let colIdx := parseInt (default "" (parts !! 2%nat)) in
      if negb (isNaN colIdx) then
        List.find (fun c => String.eqb (cs_embedding c) embedding
                            && num_eqb (num_of_Z (Z.of_nat (cs_columnIndex c))) colIdx) obsm
      else
        match List.find (fun c => String.eqb (cs_embedding c) embedding
                                  && columnName_is c (default "" (parts !! 2%nat))) obsm with
        | Some found => Some found
        | None => List.find (fun c => String.eqb (cs_embedding c) embedding) obsm
        end
    else None.

(** The beginning of [handleCoordinateChange()], up to the assignment of the
    selection, for the values of the three selectors: the selection that it
    assigns, or [None] when the handler returns at once and changes
    nothing (no data are loaded yet, or the value of the x or of the y
    selector stands for no source).  After the assignment the handler loads
    the coordinates of the selection into the rows ([load_coordinates]) and
    redraws the points. *)
Definition chosen_coordinates (xValue yValue zValue : string) (st : session) :
    option selection :=
  match zarrRoot st with
  | None => None
  | Some _ =>
      let newXCoord := parseCoordSource xValue in
      let newYCoord := parseCoordSource yValue in
      let newZCoord := parseCoordSource zValue in
      match newXCoord, newYCoord with
      | Some x, Some y =>
          Some {| selectedXCoord := Some x; selectedYCoord := Some y;
                  selectedZCoord := newZCoord |}
      | _, _ => None
      end
  end.

(** A source whose option can be read back: its embedding and its label
    hold no colon, a column name does not read as a number while a column
    index reads as itself, and no other source of the catalog has the same
    embedding and label. *)
Definition selectable (c : coord_source) : Prop :=
  no_colon (cs_embedding c) /\
  match cs_columnName c with
  | Some columnName =>
      if String.eqb columnName "" then
        no_colon (NumberToString (num_of_Z (Z.of_nat (cs_columnIndex c)))) /\
        parseInt (NumberToString (num_of_Z (Z.of_nat (cs_columnIndex c))))
        = num_of_Z (Z.of_nat (cs_columnIndex c)) /\
        forall c', c' ∈ obsm -> cs_embedding c' = cs_embedding c ->
                   cs_columnIndex c' = cs_columnIndex c -> c' = c
      else
        no_colon columnName /\ parseInt columnName = NaN /\
        forall c', c' ∈ obsm -> cs_embedding c' = cs_embedding c ->
                   cs_columnName c' = Some columnName -> c' = c
  | None =>
      no_colon (NumberToString (num_of_Z (Z.of_nat (cs_columnIndex c)))) /\
      parseInt (NumberToString (num_of_Z (Z.of_nat (cs_columnIndex c))))
      = num_of_Z (Z.of_nat (cs_columnIndex c)) /\
      forall c', c' ∈ obsm -> cs_embedding c' = cs_embedding c ->
                 cs_columnIndex c' = cs_columnIndex c -> c' = c
  end.

End CoordinateOptions.

(** * Properties *)

(** ** Filter pipeline *)

Section FilterFacts.
Context `{Builtins}.

Lemma filter_true {A} (l : list A) : filter (fun _ => Is_true true) l = l.
Proof.
  induction l as [|x l IH]; [done|].
  rewrite filter_cons_True by done. by rewrite IH.
Qed.

Lemma apply_filter_test rows f c :
  apply_filter rows f c = filter (fun idx => Is_true (filter_test rows f idx)) c.
Proof.
  unfold apply_filter, filter_test.
  destruct (String.eqb (f_attribute f) ""); [by rewrite filter_true|].
  destruct (f_type f) as [[]|]; [| |by rewrite filter_true].
  - destruct (f_range f); [done|by rewrite filter_true].
  - destruct (f_values f) as [s|]; [|by rewrite filter_true].
    destruct (0 <? size s)%nat; [done|by rewrite filter_true].
Qed.

Lemma fold_apply_filter rows fs c :
  fold_left (fun cand f => apply_filter rows f cand) fs c
  = filter (fun idx => Is_true (forallb (fun f => filter_test rows f idx) fs)) c.
Proof.
  revert c. induction fs as [|f fs IH]; intros c; simpl.
  - by rewrite filter_true.
  - rewrite IH, apply_filter_test, list_filter_filter.
    apply list_filter_iff. intros idx.
    rewrite andb_True. tauto.
Qed.

Lemma recompute_filter rows fs :
  recompute rows fs
  = filter (fun idx => Is_true (forallb (fun f => filter_test rows f idx) fs))
           (all_indices (length rows)).
Proof. apply fold_apply_filter. Qed.

Lemma elem_of_all_indices n idx : idx ∈ all_indices n <-> 0 <= idx < Z.of_nat n.
Proof.
  unfold all_indices. rewrite list_elem_of_fmap. split.
  - intros (k & -> & Hk). apply elem_of_seq in Hk. lia.
  - intros Hidx. exists (Z.to_nat idx). split; [lia|]. apply elem_of_seq. lia.
Qed.

Lemma all_indices_sorted n : StronglySorted Z.lt (all_indices n).
Proof.
  unfold all_indices. generalize 0%nat. induction n as [|n IH]; intros i; simpl.
  - constructor.
  - constructor; [apply IH|].
    apply Forall_forall. intros x Hx. apply list_elem_of_fmap in Hx as (k & -> & Hk).
    apply elem_of_seq in Hk. lia.
Qed.

Lemma filter_sorted (P : Z -> Prop) `{!forall x, Decision (P x)} l :
  StronglySorted Z.lt l -> StronglySorted Z.lt (filter P l).
Proof.
  induction 1 as [|x l Hl IH Hx]; [constructor|].
  rewrite filter_cons. destruct (decide (P x)); [|done].
  constructor; [done|].
  apply Forall_forall. intros y Hy. apply list_elem_of_filter in Hy as [_ Hy].
  by eapply Forall_forall in Hx.
Qed.

Lemma recompute_sorted rows fs : StronglySorted Z.lt (recompute rows fs).
Proof. rewrite recompute_filter. apply filter_sorted, all_indices_sorted. Qed.

Lemma recompute_bound rows fs :
  Forall (fun i => 0 <= i < Z.of_nat (length rows)) (recompute rows fs).
Proof.
  rewrite recompute_filter. apply Forall_forall. intros idx Hidx.
  apply list_elem_of_filter in Hidx as [_ Hidx]. by apply elem_of_all_indices.
Qed.

Lemma map_to_uint32_id l :
  Forall (fun i => 0 <= i < 2 ^ 32) l -> map to_uint32 l = l.
Proof.
  induction 1 as [|x l Hx _ IH]; [done|]. simpl. rewrite IH. f_equal.
  unfold to_uint32. by apply Z.mod_small.
Qed.

Lemma uint32_recompute rows fs :
  Z.of_nat (length rows) < 2 ^ 32 ->
  map to_uint32 (recompute rows fs) = recompute rows fs.
Proof.
  intros Hlen. apply map_to_uint32_id.
  eapply Forall_impl; [apply recompute_bound|]. simpl. lia.
Qed.

Lemma recompute_Permutation rows fs fs' :
  fs ≡ₚ fs' -> recompute rows fs = recompute rows fs'.
Proof.
  intros Hp. rewrite !recompute_filter. apply list_filter_iff. intros idx.
  rewrite !forallb_True. by rewrite Hp.
Qed.

End FilterFacts.

(** ** Store access *)

Section StoreFacts.
Context `{Builtins}.

Lemma for_from_modify (f : nat -> session -> session) n i st :
  for_from i n (fun k => modify (f k)) st
  = (Ok tt, fold_left (fun s k => f k s) (seq i n) st).
Proof.
  revert i st. induction n as [|n IH]; intros i st; [done|].
  simpl. unfold bind at 1. simpl. apply IH.
Qed.

Lemma zarr_open_run root path st :
  zarr_open root path st
  = (match root !! path with
     | Some a => Ok {| h_path := path; h_array := a |}
     | None => Throw (NotFoundError path)
     end, add_log [Opened path] st).
Proof. unfold zarr_open, bind, modify. simpl. by destruct (root !! path). Qed.

Lemma zarr_get_run arr st :
  zarr_get arr st
  = (match za_data (h_array arr) with
     | Some d => Ok d
     | None => Throw (FetchError (h_path arr))
     end, add_log [Got (h_path arr)] st).
Proof. unfold zarr_get, bind, modify. simpl. by destruct (za_data _). Qed.

Lemma add_log_app evs1 evs2 st : add_log evs1 (add_log evs2 st) = add_log (evs1 ++ evs2) st.
Proof. unfold add_log. by rewrite foldr_app. Qed.

Ltac pick_run := first [ by eexists _, (Error "") | by eexists _, _ ].

Lemma loadZarrArray_run root path st :
  exists evs e,
    loadZarrArray root path st
    = (match store_read root path with Some d => Ok d | None => Throw e end,
       add_log evs st).
Proof.
  unfold loadZarrArray, try_catch, bind, store_read. rewrite zarr_open_run.
  destruct (root !! path) as [a|] eqn:Ha; simpl.
  - rewrite zarr_get_run. simpl. rewrite add_log_app.
    destruct (za_data a); simpl; pick_run.
  - pick_run.
Qed.

Lemma loadCategoricalColumn_run root basePath st :
  exists evs e,
    loadCategoricalColumn root basePath st
    = (match cat_read root basePath with Some v => Ok v | None => Throw e end,
       add_log evs st).
Proof.
  unfold loadCategoricalColumn, cat_read, bind. rewrite zarr_open_run.
  destruct (root !! (basePath +:+ "/codes")) as [c|]; simpl; [|pick_run].
  rewrite zarr_open_run, add_log_app.
  destruct (root !! (basePath +:+ "/categories")) as [k|]; simpl; [|pick_run].
  rewrite zarr_get_run, add_log_app. simpl.
  destruct (za_data c); simpl; [|pick_run].
  rewrite zarr_get_run, add_log_app. simpl.
  destruct (za_data k); simpl; pick_run.
Qed.

End StoreFacts.

(** ** Lazy column loader *)

Section LoaderFacts.
Context `{Builtins}.

Lemma same_frame_refl st : same_frame st st.
Proof. by repeat split. Qed.

Lemma same_frame_trans st1 st2 st3 :
  same_frame st1 st2 -> same_frame st2 st3 -> same_frame st1 st3.
Proof. unfold same_frame. intros ? ?. intuition congruence. Qed.

Lemma add_log_fields evs st :
  same_frame st (add_log evs st) /\
  allData (add_log evs st) = allData st /\
  loadedColumns (add_log evs st) = loadedColumns st /\
  continuousRanges (add_log evs st) = continuousRanges st /\
  attributeValues (add_log evs st) = attributeValues st.
Proof.
  unfold add_log, same_frame. induction evs as [|e evs IH]; simpl; [done|].
  intuition congruence.
Qed.

Lemma numeric_step_writes colName values :
  writes_cell colName (numeric_cell values) (numeric_step colName values).
Proof.
  intros k s. unfold numeric_step, numeric_cell, same_frame.
  destruct (default VUndefined (values !! k)); simpl;
    destruct (negb _); simpl; rewrite ?length_alter; by repeat split.
Qed.

Lemma categorical_step_writes colName values :
  writes_cell colName (categorical_cell values) (categorical_step colName values).
Proof.
  intros k s. unfold categorical_step, categorical_cell, same_frame.
  destruct (negb _); simpl; rewrite ?length_alter; by repeat split.
Qed.

Lemma fold_writes_cell colName cell f n i st :
  writes_cell colName cell f ->
  let st' := fold_left (fun s k => f k s) (seq i n) st in
  allData st'
  = imap (fun j row => if bool_decide (i <= j < i + n)%nat
                       then <[colName := cell j]> row else row) (allData st) /\
  loadedColumns st' = loadedColumns st /\
  same_frame st st'.
Proof.
  intros Hf. revert i st. induction n as [|n IH]; intros i st; simpl.
  - split; [|split; [done|apply same_frame_refl]].
    apply list_eq. intros j. rewrite list_lookup_imap.
    destruct (allData st !! j); simpl; [|done].
    by rewrite bool_decide_eq_false_2 by lia.
  - destruct (Hf i st) as (Hrows & Hloaded & Hframe).
    destruct (IH (S i) (f i st)) as (Hrows' & Hloaded' & Hframe').
    split; [|split; [congruence|by eapply same_frame_trans]].
    rewrite Hrows', Hrows. apply list_eq. intros j.
    rewrite !list_lookup_imap. destruct (decide (j = i)) as [->|Hne].
    + rewrite list_lookup_alter_eq. destruct (allData st !! i); simpl; [|done].
      rewrite bool_decide_eq_false_2 by lia.
      by rewrite bool_decide_eq_true_2 by lia.
    + rewrite list_lookup_alter_ne by done.
      destruct (allData st !! j); simpl; [|done].
      destruct (decide (S i <= j < S i + n)%nat).
      * by rewrite !bool_decide_eq_true_2 by lia.
      * by rewrite !bool_decide_eq_false_2 by lia.
Qed.

Lemma loop_writes_column colName cell f st :
  writes_cell colName cell f ->
  let st' := fold_left (fun s k => f k s) (seq 0 (length (allData st))) st in
  allData st' = write_column colName cell (allData st) /\
  loadedColumns st' = loadedColumns st /\
  same_frame st st'.
Proof.
  intros Hf. destruct (fold_writes_cell colName cell f (length (allData st)) 0 st Hf)
    as (Hrows & Hloaded & Hframe).
  split; [|by split]. simpl in Hrows. rewrite Hrows. unfold write_column.
  apply list_eq. intros j. rewrite !list_lookup_imap.
  destruct (allData st !! j) eqn:Hj; simpl; [|done].
  apply lookup_lt_Some in Hj. by rewrite bool_decide_eq_true_2 by lia.
Qed.

Lemma store_tail_run colName (isNumericData : bool) values st0 :
  ((if isNumericData then
      modify (init_range colName) ;;;
      for_range (length (allData st0)) (fun i => modify (numeric_step colName values i))
    else
      modify (init_values colName) ;;;
      for_range (length (allData st0)) (fun i => modify (categorical_step colName values i))) ;;;
   modify (add_loaded colName)) st0
  = (Ok tt, stored colName isNumericData values st0).
Proof.
  unfold stored, numeric_loop, categorical_loop.
  destruct isNumericData; unfold bind at 1 2; unfold modify at 1; unfold for_range;
    by rewrite for_from_modify.
Qed.

Lemma stored_fields colName (isNumericData : bool) values st0 :
  same_frame st0 (stored colName isNumericData values st0) /\
  allData (stored colName isNumericData values st0)
  = write_column colName
      (if isNumericData then numeric_cell values else categorical_cell values)
      (allData st0) /\
  loadedColumns (stored colName isNumericData values st0) = {[ colName ]} ∪ loadedColumns st0.
Proof.
  unfold stored, numeric_loop, categorical_loop. destruct isNumericData.
  - set (st1 := init_range colName st0).
    assert (Hst1 : allData st1 = allData st0 /\ loadedColumns st1 = loadedColumns st0
                   /\ same_frame st0 st1).
    { subst st1. unfold init_range. destruct (continuousRanges st0 !! colName); simpl;
        repeat split; done. }
    destruct Hst1 as (Hrows1 & Hloaded1 & Hframe1). rewrite <- Hrows1.
    destruct (loop_writes_column colName (numeric_cell values) _ st1
                (numeric_step_writes colName values)) as (Hrows & Hloaded & Hframe).
    simpl. split; [|split].
    + eapply same_frame_trans; [exact Hframe1|].
      eapply same_frame_trans; [exact Hframe|]. by repeat split.
    + by rewrite Hrows.
    + by rewrite Hloaded, Hloaded1.
  - set (st1 := init_values colName st0).
    assert (Hst1 : allData st1 = allData st0 /\ loadedColumns st1 = loadedColumns st0
                   /\ same_frame st0 st1).
    { subst st1. unfold init_values. destruct (attributeValues st0 !! colName); simpl;
        repeat split; done. }
    destruct Hst1 as (Hrows1 & Hloaded1 & Hframe1). rewrite <- Hrows1.
    destruct (loop_writes_column colName (categorical_cell values) _ st1
                (categorical_step_writes colName values)) as (Hrows & Hloaded & Hframe).
    simpl. split; [|split].
    + eapply same_frame_trans; [exact Hframe1|].
      eapply same_frame_trans; [exact Hframe|]. by repeat split.
    + by rewrite Hrows.
    + by rewrite Hloaded, Hloaded1.
Qed.

Lemma catch_block_run colName (isNumericData : bool) st0 :
  exists st',
    (for_range (length (allData st0)) (fun i =>
       isNumericData' <- read_in_catch "isNumericData" isNumericData ;;
       modify (set_cell i colName
                 (if isNumericData' : bool then VNum (Fin 0) else VStr ""))) ;;;
     modify (add_loaded colName)) st0
    = (match allData st0 with
       | [] => Ok tt
       | _ :: _ => Throw (ReferenceError "isNumericData")
       end, st') /\
    same_frame st0 st' /\
    allData st' = allData st0 /\
    loadedColumns st'
    = match allData st0 with
      | [] => {[ colName ]} ∪ loadedColumns st0
      | _ :: _ => loadedColumns st0
      end.
Proof.
  destruct (allData st0) as [|row rows] eqn:Hrows; simpl.
  - eexists. split; [reflexivity|]. simpl. rewrite Hrows.
    split; [|done]. unfold same_frame. simpl. by rewrite Hrows.
  - exists st0. split; [reflexivity|]. rewrite Hrows.
    split; [apply same_frame_refl|done].
Qed.

Lemma bind_Ok {A B} (m : M A) (k : A -> M B) st a st1 r :
  m st = (Ok a, st1) -> k a st1 = r -> bind m k st = r.
Proof. unfold bind. by intros -> ->. Qed.

Lemma bind_assoc {A B C} (m : M A) (k : A -> M B) (k' : B -> M C) st :
  bind (bind m k) k' st = bind m (fun a => bind (k a) k') st.
Proof. unfold bind. by destruct (m st) as [[]]. Qed.

Lemma bind_Throw {A B} (m : M A) (k : A -> M B) st e st1 :
  m st = (Throw e, st1) -> bind m k st = (Throw e, st1).
Proof. unfold bind. by intros ->. Qed.

Lemma try_catch_Ok {A} (m : M A) h st a st1 :
  m st = (Ok a, st1) -> try_catch m h st = (Ok a, st1).
Proof. unfold try_catch. by intros ->. Qed.

Lemma try_catch_Throw {A} (m : M A) h st e st1 r :
  m st = (Throw e, st1) -> h e st1 = r -> try_catch m h st = r.
Proof. unfold try_catch. by intros -> ->. Qed.

Lemma ensureColumnLoaded_spec colName st :
  exists st',
    ensureColumnLoaded colName st
    = (plan_outcome (load_plan_of st colName) (allData st), st') /\
    same_frame st st' /\
    allData st' = plan_rows colName (load_plan_of st colName) (allData st) /\
    loadedColumns st'
    = plan_loaded colName (load_plan_of st colName) (allData st) (loadedColumns st).
Proof.
  unfold ensureColumnLoaded, load_plan_of.
  destruct (bool_decide (colName ∈ loadedColumns st)).
  { exists st. split; [done|]. split; [apply same_frame_refl|done]. }
  destruct (zarrRoot st) as [root|];
    [|exists st; split; [done|]; split; [apply same_frame_refl|done]].
  destruct (columnMetadata st !! colName) as [metadata|];
    [|exists st; split; [done|]; split; [apply same_frame_refl|done]].
  set (isNumericData := String.eqb (cm_type metadata) "continuous").
  destruct (String.eqb (cm_encodingType metadata) "categorical").
  - destruct (loadCategoricalColumn_run root ("obs/" +:+ colName) st) as (evs & e & Hload).
    destruct (add_log_fields evs st) as (Hf & Hr & Hl & _).
    destruct (cat_read root ("obs/" +:+ colName)) as [values|].
    + pose proof (store_tail_run colName isNumericData values (add_log evs st)) as Htail.
      destruct (stored_fields colName isNumericData values (add_log evs st))
        as (Hf' & Hr' & Hl').
      rewrite Hr in Htail.
      eexists. split.
      { apply try_catch_Ok. eapply bind_Ok; [exact Hload|exact Htail]. }
      cbn [plan_rows plan_loaded]. split; [by eapply same_frame_trans|].
      split; [by rewrite Hr', Hr|by rewrite Hl', Hl].
    + destruct (catch_block_run colName isNumericData (add_log evs st))
        as (st' & Hcatch & Hf' & Hr' & Hl').
      rewrite Hr in Hcatch, Hl'. rewrite Hl in Hl'.
      exists st'. split.
      { eapply try_catch_Throw; [eapply bind_Throw; exact Hload|exact Hcatch]. }
      cbn [plan_rows plan_loaded]. split; [by eapply same_frame_trans|]. split; [congruence|done].
  - destruct (loadZarrArray_run root ("obs/" +:+ colName) st) as (evs & e & Hload).
    destruct (add_log_fields evs st) as (Hf & Hr & Hl & _).
    destruct (store_read root ("obs/" +:+ colName)) as [values|]; cbn [default].
    + pose proof (store_tail_run colName isNumericData values (add_log evs st)) as Htail.
      destruct (stored_fields colName isNumericData values (add_log evs st))
        as (Hf' & Hr' & Hl').
      rewrite Hr in Htail.
      eexists. split.
      { apply try_catch_Ok. eapply bind_Ok; [|exact Htail].
        apply try_catch_Ok. exact Hload. }
      cbn [plan_rows plan_loaded]. split; [by eapply same_frame_trans|].
      split; [by rewrite Hr', Hr|by rewrite Hl', Hl].
    + pose proof (store_tail_run colName isNumericData
                  (replicate (length (allData st))
                     (if isNumericData then VNum (Fin 0) else VStr ""))
                  (add_log evs st)) as Htail.
      destruct (stored_fields colName isNumericData
                  (replicate (length (allData st))
                     (if isNumericData then VNum (Fin 0) else VStr ""))
                  (add_log evs st))
        as (Hf' & Hr' & Hl').
      rewrite Hr in Htail.
      eexists. split.
      { apply try_catch_Ok. eapply bind_Ok; [|exact Htail].
        eapply try_catch_Throw; [exact Hload|reflexivity]. }
      cbn [plan_rows plan_loaded]. split; [by eapply same_frame_trans|].
      split; [by rewrite Hr', Hr|by rewrite Hl', Hl].
Qed.

End LoaderFacts.

(** ** Loading the columns of the filters, in any order *)

Section LoadOrder.
Context `{Builtins}.

Lemma same_rows_refl st : same_rows st st.
Proof. by repeat split. Qed.

Lemma same_frame_sym st1 st2 : same_frame st1 st2 -> same_frame st2 st1.
Proof. unfold same_frame. intuition congruence. Qed.

Lemma same_rows_sym st1 st2 : same_rows st1 st2 -> same_rows st2 st1.
Proof. unfold same_rows. intuition congruence. Qed.

Lemma same_rows_trans st1 st2 st3 :
  same_rows st1 st2 -> same_rows st2 st3 -> same_rows st1 st3.
Proof.
  unfold same_rows. intuition congruence.
Qed.

(** The states after two calls of the loader that start alike and write the
    same rows and loaded columns. *)
Lemma same_rows_after st1 st2 st1' st2' :
  same_rows st1 st2 -> same_frame st1 st1' -> same_frame st2 st2' ->
  allData st2' = allData st1' -> loadedColumns st2' = loadedColumns st1' ->
  same_rows st1' st2'.
Proof. unfold same_rows, same_frame. intuition congruence. Qed.

(** The plan of a call depends on the frame, the rows and the loaded columns only. *)
Lemma load_plan_same_rows st1 st2 c :
  same_rows st1 st2 -> load_plan_of st2 c = load_plan_of st1 c.
Proof.
  intros (Hroot & Hmeta & Hr & Hl).
  unfold load_plan_of. by rewrite Hroot, Hmeta, Hl, Hr.
Qed.

Lemma ensureColumnLoaded_same_rows st1 st2 c :
  same_rows st1 st2 ->
  alike (ensureColumnLoaded c st1) (ensureColumnLoaded c st2) /\
  (ensureColumnLoaded c st1).1 = (ensureColumnLoaded c st2).1.
Proof.
  intros Hs.
  destruct (ensureColumnLoaded_spec c st1) as (st1' & -> & Hf1 & Hr1 & Hl1).
  destruct (ensureColumnLoaded_spec c st2) as (st2' & -> & Hf2 & Hr2 & Hl2).
  rewrite (load_plan_same_rows _ _ c Hs) in *.
  assert (Hs' : same_rows st1' st2').
  { apply (same_rows_after st1 st2); try done; destruct Hs as (_ & _ & Hr & Hl).
    - by rewrite Hr1, Hr2, Hr.
    - by rewrite Hl1, Hl2, Hr, Hl. }
  destruct Hs as (_ & _ & Hr & Hl). rewrite Hr in *.
  split; [|done].
  unfold alike. simpl.
  destruct (plan_outcome (load_plan_of st1 c) (allData st1)) eqn:Hout; [done|done|].
  unfold plan_outcome in Hout. destruct (load_plan_of st1 c); try done.
  by destruct (allData st1).
Qed.

Lemma plan_outcome_not_OutOfFuel plan rows : plan_outcome plan rows <> OutOfFuel.
Proof. destruct plan; try done. by destruct rows. Qed.

Lemma plan_outcome_length plan rows rows' :
  length rows' = length rows -> plan_outcome plan rows' = plan_outcome plan rows.
Proof. intros Hlen. destruct plan; try done. by destruct rows, rows'. Qed.

Lemma plan_loaded_length c plan rows rows' loaded :
  length rows' = length rows -> plan_loaded c plan rows' loaded = plan_loaded c plan rows loaded.
Proof. intros Hlen. destruct plan; try done. by destruct rows, rows'. Qed.

Lemma plan_rows_length c plan rows : length (plan_rows c plan rows) = length rows.
Proof. destruct plan; try done. simpl. unfold write_column. apply length_imap. Qed.

Lemma for_each_frame l st :
  same_frame st (for_each l ensureColumnLoaded st).2 /\
  (for_each l ensureColumnLoaded st).1 <> OutOfFuel.
Proof.
  revert st. induction l as [|c l IH]; intros st; simpl.
  - split; [apply same_frame_refl|done].
  - unfold bind. destruct (ensureColumnLoaded_spec c st) as (st' & -> & Hf & _).
    pose proof (plan_outcome_not_OutOfFuel (load_plan_of st c) (allData st)) as Hne.
    destruct (plan_outcome _ _); simpl; [|done|done].
    destruct (IH st') as [Hf' Hne']. split; [|done]. by eapply same_frame_trans.
Qed.

Lemma for_each_same_rows l st1 st2 :
  same_rows st1 st2 ->
  alike (for_each l ensureColumnLoaded st1) (for_each l ensureColumnLoaded st2).
Proof.
  revert st1 st2. induction l as [|c l IH]; intros st1 st2 Hs; simpl.
  - exact Hs.
  - unfold bind. destruct (ensureColumnLoaded_same_rows st1 st2 c Hs) as [Ha Ho].
    unfold alike in Ha.
    destruct (ensureColumnLoaded c st1) as [o1 s1], (ensureColumnLoaded c st2) as [o2 s2].
    simpl in *. subst o2. destruct o1; [by apply IH|done|done].
Qed.

(** Loading [c] does not change how a call for another column proceeds. *)
Lemma load_plan_stable st c d :
  c <> d ->
  plan_outcome (load_plan_of st c) (allData st) = Ok tt ->
  load_plan_of (ensureColumnLoaded c st).2 d = load_plan_of st d.
Proof.
  intros Hne Hok.
  destruct (ensureColumnLoaded_spec c st) as (st' & -> & Hf & Hr & Hl). simpl.
  destruct Hf as (Hroot & _ & _ & Hmeta & _ & _ & Hlen).
  unfold load_plan_of. rewrite Hroot, Hmeta, Hlen.
  replace (bool_decide (d ∈ loadedColumns st')) with (bool_decide (d ∈ loadedColumns st));
    [done|].
  apply bool_decide_ext. rewrite Hl. unfold plan_loaded.
  destruct (load_plan_of st c); [done|done|set_solver|].
  destruct (allData st); [set_solver|done].
Qed.

Lemma write_column_commute c d cell_c cell_d rows :
  c <> d ->
  write_column d cell_d (write_column c cell_c rows)
  = write_column c cell_c (write_column d cell_d rows).
Proof.
  intros Hne. unfold write_column. apply list_eq. intros i.
  rewrite !list_lookup_imap. destruct (rows !! i); simpl; [|done].
  f_equal. by apply insert_insert_ne.
Qed.

Lemma plan_rows_commute c d pc pd rows :
  c <> d ->
  plan_rows d pd (plan_rows c pc rows) = plan_rows c pc (plan_rows d pd rows).
Proof.
  intros Hne. destruct pc, pd; simpl; try done. by apply write_column_commute.
Qed.

Lemma plan_loaded_commute c d pc pd rows loaded :
  plan_loaded d pd rows (plan_loaded c pc rows loaded)
  = plan_loaded c pc rows (plan_loaded d pd rows loaded).
Proof.
  destruct pc, pd; simpl; try done; destruct rows; try done; set_solver.
Qed.

(** Two loads in a row, for different columns. *)
Lemma two_loads st c d :
  c <> d ->
  exists st',
    (ensureColumnLoaded c ;;; ensureColumnLoaded d) st
    = (match plan_outcome (load_plan_of st c) (allData st) with
       | Ok _ => plan_outcome (load_plan_of st d) (allData st)
       | o => o
       end, st') /\
    same_frame st st' /\
    (plan_outcome (load_plan_of st c) (allData st) = Ok tt ->
     allData st'
     = plan_rows d (load_plan_of st d) (plan_rows c (load_plan_of st c) (allData st)) /\
     loadedColumns st'
     = plan_loaded d (load_plan_of st d) (allData st)
         (plan_loaded c (load_plan_of st c) (allData st) (loadedColumns st))).
Proof.
  intros Hne. unfold bind.
  pose proof (load_plan_stable st c d Hne) as Hstable.
  destruct (ensureColumnLoaded_spec c st) as (st1 & Hrun & Hf & Hr & Hl).
  rewrite Hrun in *. simpl in Hstable.
  destruct (plan_outcome (load_plan_of st c) (allData st)) as [[]| |] eqn:Hout.
  - destruct (ensureColumnLoaded_spec d st1) as (st2 & -> & Hf' & Hr' & Hl').
    rewrite Hstable in * by done.
    assert (Hlen : length (allData st1) = length (allData st)) by apply Hf.
    exists st2. split; [by rewrite (plan_outcome_length _ _ _ Hlen)|].
    split; [by eapply same_frame_trans|]. intros _.
    split; [by rewrite Hr', Hr|].
    by rewrite Hl', Hl, (plan_loaded_length _ _ _ _ _ Hlen).
  - exists st1. split; [done|]. by split.
  - exists st1. split; [done|]. by split.
Qed.

Lemma load_swap st1 st2 c d l :
  same_rows st1 st2 ->
  alike (for_each (c :: d :: l) ensureColumnLoaded st1)
        (for_each (d :: c :: l) ensureColumnLoaded st2).
Proof.
  intros Hs. destruct (decide (c = d)) as [->|Hne]; [by apply for_each_same_rows|].
  simpl. rewrite <- !bind_assoc. unfold bind at 1 3.
  destruct (two_loads st1 c d Hne) as (s1 & -> & Hf1 & Hres1).
  destruct (two_loads st2 d c (not_eq_sym Hne)) as (s2 & -> & Hf2 & Hres2).
  rewrite !(load_plan_same_rows _ _ _ Hs) in *.
  pose proof Hs as (_ & _ & Hr & Hl). rewrite Hr, Hl in *.
  destruct (plan_outcome (load_plan_of st1 c) (allData st1)) as [[]| |] eqn:Hc;
    destruct (plan_outcome (load_plan_of st1 d) (allData st1)) as [[]| |] eqn:Hd;
    try done;
    try (by apply plan_outcome_not_OutOfFuel in Hc);
    try (by apply plan_outcome_not_OutOfFuel in Hd).
  apply for_each_same_rows.
  destruct (Hres1 eq_refl) as [Hr1 Hl1], (Hres2 eq_refl) as [Hr2 Hl2].
  apply (same_rows_after st1 st2); try done.
  - rewrite Hr1, Hr2. by apply plan_rows_commute.
  - rewrite Hl1, Hl2. apply plan_loaded_commute.
Qed.

Lemma alike_trans {A} (r1 r2 r3 : outcome A * session) :
  alike r1 r2 -> alike r2 r3 -> alike r1 r3.
Proof.
  unfold alike. destruct r1 as [[]], r2 as [[]], r3 as [[]]; simpl; try done.
  apply same_rows_trans.
Qed.

Lemma for_each_Permutation l l' st1 st2 :
  l ≡ₚ l' -> same_rows st1 st2 ->
  alike (for_each l ensureColumnLoaded st1) (for_each l' ensureColumnLoaded st2).
Proof.
  intros Hp. revert st1 st2.
  induction Hp as [|c l l' Hp IH|c d l|l1 l2 l3 Hp1 IH1 Hp2 IH2]; intros st1 st2 Hs.
  - exact Hs.
  - simpl. unfold bind. destruct (ensureColumnLoaded_same_rows st1 st2 c Hs) as [Ha Ho].
    unfold alike in Ha.
    destruct (ensureColumnLoaded c st1) as [o1 s1], (ensureColumnLoaded c st2) as [o2 s2].
    simpl in *. subst o2. destruct o1; [by apply IH|done|done].
  - by apply load_swap.
  - eapply alike_trans; [apply IH1, same_rows_refl|by apply IH2].
Qed.

Lemma ensureColumnsLoaded_for_each colNames st :
  ensureColumnsLoaded colNames st
  = for_each (filter (fun col => col ∉ loadedColumns st) colNames) ensureColumnLoaded st.
Proof. unfold ensureColumnsLoaded. by destruct (filter _ colNames). Qed.

Lemma ensureColumnsLoaded_Permutation l l' st :
  l ≡ₚ l' -> alike (ensureColumnsLoaded l st) (ensureColumnsLoaded l' st).
Proof.
  intros Hp. rewrite !ensureColumnsLoaded_for_each.
  apply for_each_Permutation; [by rewrite Hp|apply same_rows_refl].
Qed.

Lemma ensureColumnsLoaded_frame l st :
  same_frame st (ensureColumnsLoaded l st).2 /\
  (ensureColumnsLoaded l st).1 <> OutOfFuel.
Proof. rewrite ensureColumnsLoaded_for_each. apply for_each_frame. Qed.

End LoadOrder.

(** ** [updateFilter] *)

Section UpdateFilterFacts.
Context `{Builtins}.

Lemma recompute_nil rows : recompute rows [] = all_indices (length rows).
Proof. done. Qed.

(** [updateFilter] loads the columns of the filters and then assigns the
    recomputed indices; without filters nothing is loaded. *)
Lemma updateFilter_run st :
  updateFilter st
  = match ensureColumnsLoaded (filterColumns_of (activeFilters st)) st with
    | (Ok _, st1) =>
        (Ok tt,
         set_visibleIndices
           (Some (map to_uint32 (recompute (allData st1) (activeFilters st1)))) st1)
    | (Throw e, st1) => (Throw e, st1)
    | (OutOfFuel, st1) => (OutOfFuel, st1)
    end.
Proof.
  unfold updateFilter. destruct (activeFilters st) as [|f fs] eqn:Hfs.
  - unfold filterColumns_of. simpl. unfold ensureColumnsLoaded. simpl.
    unfold modify, ret. by rewrite Hfs.
  - unfold bind, filterColumns_of. by destruct (ensureColumnsLoaded _ st) as [[]].
Qed.

Lemma updateFilter_frame st :
  (updateFilter st).1 <> OutOfFuel /\
  activeFilters (updateFilter st).2 = activeFilters st /\
  length (allData (updateFilter st).2) = length (allData st) /\
  ((updateFilter st).1 = Ok tt ->
   visibleIndices (updateFilter st).2
   = Some (map to_uint32 (recompute (allData (updateFilter st).2) (activeFilters st)))) /\
  (forall e, (updateFilter st).1 = Throw e ->
   visibleIndices (updateFilter st).2 = visibleIndices st).
Proof.
  rewrite updateFilter_run.
  destruct (ensureColumnsLoaded_frame (filterColumns_of (activeFilters st)) st)
    as [(_ & _ & _ & _ & Hfs & Hvis & Hlen) Hfuel].
  destruct (ensureColumnsLoaded _ st) as [[[]|e|] st1]; simpl in *; try done.
  repeat split; try done. by rewrite Hfs.
Qed.

Lemma filterColumns_of_Permutation fs fs' :
  fs ≡ₚ fs' -> filterColumns_of fs ≡ₚ filterColumns_of fs'.
Proof. intros Hp. unfold filterColumns_of. by rewrite Hp. Qed.

End UpdateFilterFacts.

Section VisibleIndices.
Context `{Builtins}.

Lemma sorted_NoDup (l : list Z) : StronglySorted Z.lt l -> NoDup l.
Proof.
  induction 1 as [|x l Hl IH Hx]; [constructor|].
  constructor; [|done]. intros Hin.
  eapply Forall_forall in Hx; [|exact Hin]. lia.
Qed.

Lemma visible_ok_recompute rows fs :
  Z.of_nat (length rows) < 2 ^ 32 ->
  visible_ok (length rows) (Some (map to_uint32 (recompute rows fs))).
Proof.
  intros Hlen. exists (recompute rows fs).
  split; [by rewrite uint32_recompute|].
  split; [apply recompute_sorted|].
  split; [apply recompute_bound|apply sorted_NoDup, recompute_sorted].
Qed.

(** C9. The visible index set that [loadData] installs, and the one that
    every run of [updateFilter] leaves behind (whether it ends normally or
    with an exception, in which case the earlier set stays), is strictly
    increasing with every element below the number of rows, hence a
    duplicate-free set of valid row indices. *)
Theorem updateFilter_visible_indices st :
  Z.of_nat (length (allData st)) < 2 ^ 32 ->
  visible_ok (length (allData st)) (visibleIndices (init_visibleIndices st)) /\
  ((updateFilter st).1 = Ok tt ->
   visible_ok (length (allData (updateFilter st).2)) (visibleIndices (updateFilter st).2)) /\
  (visible_ok (length (allData st)) (visibleIndices st) ->
   visible_ok (length (allData (updateFilter st).2)) (visibleIndices (updateFilter st).2)).
Proof.
  intros Hlen.
  destruct (updateFilter_frame st) as (Hfuel & Hfs & Hn & Hok & Hthrow).
  assert (Hfresh : (updateFilter st).1 = Ok tt ->
            visible_ok (length (allData (updateFilter st).2))
                       (visibleIndices (updateFilter st).2)).
  { intros Hr. rewrite (Hok Hr). apply visible_ok_recompute. by rewrite Hn. }
  split; [|split; [done|]].
  - unfold init_visibleIndices. simpl. rewrite <- recompute_nil.
    by apply visible_ok_recompute.
  - intros Hbefore. destruct ((updateFilter st).1) as [[]|e|] eqn:Hr; [by apply Hfresh| |done].
    rewrite (Hthrow e eq_refl), Hn. exact Hbefore.
Qed.

(** C3. Permuting the list of filters does not change the visible index set
    that [updateFilter] leaves. *)
Theorem updateFilter_order_independent st fs fs' :
  fs ≡ₚ fs' ->
  visibleIndices (updateFilter (set_activeFilters fs st)).2
  = visibleIndices (updateFilter (set_activeFilters fs' st)).2.
Proof.
  intros Hp.
  destruct (updateFilter_frame (set_activeFilters fs st)) as (Hfuel1 & _ & _ & Hok1 & Hthrow1).
  destruct (updateFilter_frame (set_activeFilters fs' st)) as (Hfuel2 & _ & _ & Hok2 & Hthrow2).
  assert (Halike : alike (updateFilter (set_activeFilters fs st))
                         (updateFilter (set_activeFilters fs' st))).
  { rewrite !updateFilter_run. simpl.
    assert (Hl : alike (ensureColumnsLoaded (filterColumns_of fs) (set_activeFilters fs st))
                       (ensureColumnsLoaded (filterColumns_of fs') (set_activeFilters fs' st))).
    { rewrite !ensureColumnsLoaded_for_each. simpl.
      apply for_each_Permutation; [|by repeat split].
      by rewrite (filterColumns_of_Permutation _ _ Hp). }
    unfold alike in *.
    destruct (ensureColumnsLoaded (filterColumns_of fs) _) as [[] s1],
             (ensureColumnsLoaded (filterColumns_of fs') _) as [[] s2]; simpl in *; done. }
  unfold alike in Halike.
  destruct ((updateFilter (set_activeFilters fs st)).1) as [[]|e1|] eqn:Hr1;
    destruct ((updateFilter (set_activeFilters fs' st)).1) as [[]|e2|] eqn:Hr2; try done.
  - rewrite (Hok1 eq_refl), (Hok2 eq_refl). simpl.
    destruct Halike as (_ & _ & -> & _). do 2 f_equal. by apply recompute_Permutation.
  - by rewrite (Hthrow1 e1 eq_refl), (Hthrow2 e2 eq_refl).
Qed.

End VisibleIndices.

Section Predicates.
Context `{Builtins}.

Lemma continuous_pass_within r v :
  continuous_pass r v = true <-> within_range r v.
Proof.
  unfold continuous_pass, within_range.
  destruct v as [| |x|s]; simpl.
  - split; [done|]. by intros (x & ? & _).
  - split; [done|]. by intros (x & ? & _).
  - unfold js_ge, js_le. simpl. rewrite andb_true_iff. split.
    + intros [Hlo Hhi]. exists x. repeat split; try done.
      intros ->. by destruct (range_min r).
    + by intros (y & [= <-] & _ & Hlo & Hhi).
  - unfold js_ge, js_le. simpl. rewrite andb_true_iff. split.
    + intros [Hlo Hhi]. exists (ToNumber s). repeat split; try done.
      intros Hnan. rewrite Hnan in Hlo. by destruct (range_min r).
    + by intros (y & [= <-] & _ & Hlo & Hhi).
Qed.

Lemma categorical_pass_selected s v :
  categorical_pass s v = true <-> selected s v.
Proof.
  unfold categorical_pass, selected, js_or, set_has.
  destruct v as [| |x|x]; simpl.
  - apply bool_decide_eq_true.
  - apply bool_decide_eq_true.
  - destruct (isNaN x || is_zero x); simpl.
    + rewrite bool_decide_eq_true. tauto.
    + split; [done|]. by intros [? _].
  - destruct (String.eqb_spec x "") as [->|Hne]; simpl; apply bool_decide_eq_true.
Qed.

Lemma size_pos (s : gset string) : s <> ∅ -> (0 <? size s)%nat = true.
Proof.
  intros Hne. apply Nat.ltb_lt. destruct (decide (size s = 0%nat)) as [Hz|Hz]; [|lia].
  apply size_empty_iff in Hz. by apply leibniz_equiv in Hz.
Qed.

Lemma attribute_eqb f : f_attribute f <> "" -> String.eqb (f_attribute f) "" = false.
Proof. intros Hne. by destruct (String.eqb_spec (f_attribute f) ""). Qed.

Lemma filter_test_continuous rows f r idx :
  f_attribute f <> "" -> f_type f = Some continuous -> f_range f = Some r ->
  filter_test rows f idx = continuous_pass r (row_value rows idx (f_attribute f)).
Proof.
  intros Ha Ht Hr. unfold filter_test. by rewrite (attribute_eqb f Ha), Ht, Hr.
Qed.

Lemma filter_test_categorical rows f s idx :
  f_attribute f <> "" -> f_type f = Some categorical -> f_values f = Some s ->
  filter_test rows f idx
  = if (0 <? size s)%nat then categorical_pass s (row_value rows idx (f_attribute f))
    else true.
Proof.
  intros Ha Ht Hs. unfold filter_test. by rewrite (attribute_eqb f Ha), Ht, Hs.
Qed.

Lemma elem_of_recompute rows fs idx :
  idx ∈ recompute rows fs
  <-> 0 <= idx < Z.of_nat (length rows) /\
      forall f, f ∈ fs -> filter_test rows f idx = true.
Proof.
  rewrite recompute_filter, list_elem_of_filter, elem_of_all_indices.
  rewrite forallb_True, Forall_forall.
  split.
  - intros [H1 H2]. split; [done|]. intros f Hf. apply Is_true_true. by apply H1.
  - intros [H1 H2]. split; [|done]. intros f Hf. apply Is_true_true. by apply H2.
Qed.

(** With every filter column loaded, [updateFilter] fetches nothing before
    it assigns the visible indices, and the rows are the same. *)
Lemma updateFilter_loaded st :
  filters_loaded st ->
  (updateFilter st).1 = Ok tt /\ allData (updateFilter st).2 = allData st.
Proof.
  intros Hl. rewrite updateFilter_run, ensureColumnsLoaded_for_each.
  replace (filter (fun col => col ∉ loadedColumns st) (filterColumns_of (activeFilters st)))
    with (@nil string); [done|].
  symmetry. unfold filters_loaded in Hl.
  induction Hl as [|c l Hc _ IH]; [done|].
  rewrite filter_cons_False; [done|]. by intros Hn.
Qed.

(** A filter that is not configured tests nothing. *)
Lemma filter_test_unconfigured rows f idx :
  f_attribute f = "" \/ f_type f = None -> filter_test rows f idx = true.
Proof.
  unfold filter_test. intros [-> | ->]; [done|]. by destruct (String.eqb _ _).
Qed.

(** The visible indices after a run of [updateFilter] whose column loads
    succeed, with the filter at one place of the list set apart. *)
Lemma updateFilter_visible_split st before f after :
  Z.of_nat (length (allData st)) < 2 ^ 32 ->
  activeFilters st = before ++ f :: after ->
  (updateFilter st).1 = Ok tt ->
  exists visible,
    visibleIndices (updateFilter st).2 = Some visible /\
    forall idx, idx ∈ visible <->
      0 <= idx < Z.of_nat (length (allData st)) /\
      filter_test (allData (updateFilter st).2) f idx = true /\
      forall g, g ∈ before ++ after ->
        filter_test (allData (updateFilter st).2) g idx = true.
Proof.
  intros Hlen Hfs Hrun.
  destruct (updateFilter_frame st) as (_ & _ & Hn & Hok & _).
  exists (recompute (allData (updateFilter st).2) (activeFilters st)). split.
  - rewrite (Hok Hrun). f_equal. apply uint32_recompute. by rewrite Hn.
  - intros idx. rewrite elem_of_recompute, Hn, Hfs. split.
    + intros [Hb Hall]. split; [done|]. split.
      * apply Hall. set_solver.
      * intros g Hg. apply Hall. set_solver.
    + intros (Hb & Hf & Hothers). split; [done|]. intros g Hg.
      apply elem_of_app in Hg as [Hg|Hg]; [apply Hothers; set_solver|].
      apply elem_of_cons in Hg as [->|Hg]; [done|]. apply Hothers. set_solver.
Qed.

(** C4. A configured continuous filter with range [[min, max]], at any place
    of the filter list, after a run of [updateFilter] whose column loads
    succeed: an index is visible exactly when it is a row whose loaded value
    lies in the range, bounds included, and which passes the other filters
    of the list; a row whose value is missing or [NaN] is never visible.
    When the other filters restrict nothing (there is none, or each is
    unconfigured or skipped), the visible indices are exactly the rows whose
    value lies in the range. *)
Theorem continuous_filter_visible st before f after r :
  Z.of_nat (length (allData st)) < 2 ^ 32 ->
  activeFilters st = before ++ f :: after ->
  f_attribute f <> "" -> f_type f = Some continuous -> f_range f = Some r ->
  (updateFilter st).1 = Ok tt ->
  let rows := allData (updateFilter st).2 in
  exists visible,
    visibleIndices (updateFilter st).2 = Some visible /\
    (forall idx, idx ∈ visible <->
       0 <= idx < Z.of_nat (length (allData st)) /\
       within_range r (row_value rows idx (f_attribute f)) /\
       forall g, g ∈ before ++ after -> filter_test rows g idx = true) /\
    (forall idx, idx ∈ visible ->
       row_value rows idx (f_attribute f) <> VUndefined /\
       row_value rows idx (f_attribute f) <> VNull /\
       row_value rows idx (f_attribute f) <> VNum NaN) /\
    ((forall g, g ∈ before ++ after -> f_attribute g = "" \/ f_type g = None) ->
     forall idx, idx ∈ visible <->
       0 <= idx < Z.of_nat (length (allData st)) /\
       within_range r (row_value rows idx (f_attribute f))).
Proof.
  intros Hlen Hfs Ha Ht Hr Hrun rows.
  destruct (updateFilter_visible_split st before f after Hlen Hfs Hrun)
    as (visible & Hvis & Hmem).
  fold rows in Hmem.
  assert (Hiff : forall idx, idx ∈ visible <->
            0 <= idx < Z.of_nat (length (allData st)) /\
            within_range r (row_value rows idx (f_attribute f)) /\
            forall g, g ∈ before ++ after -> filter_test rows g idx = true).
  { intros idx. rewrite Hmem, (filter_test_continuous _ f r idx Ha Ht Hr).
    by rewrite continuous_pass_within. }
  exists visible. split; [done|]. split; [done|]. split.
  - intros idx Hidx. apply Hiff in Hidx as (_ & (x & Hview & Hnan & _) & _).
    destruct (row_value rows idx (f_attribute f)) as [| |y|y]; try done.
    split; [done|]. split; [done|]. injection Hview as ->. congruence.
  - intros Hskip idx. rewrite Hiff. split; [by intros (? & ? & _)|].
    intros [Hb Hin]. split; [done|]. split; [done|].
    intros g Hg. by apply filter_test_unconfigured, Hskip.
Qed.

(** C5, as amended. A configured categorical filter with the set [s] of
    selected values, at any place of the filter list, after a run of
    [updateFilter] whose column loads succeed.  With a non-empty [s], an
    index is visible exactly when it is a row whose string value (the empty
    string for a missing value) is in [s] and which passes the other
    filters of the list.  With an empty [s] the filter is skipped: the
    visible indices are the rows that pass the other filters.  When the
    other filters restrict nothing, the visible indices are exactly the rows
    whose value is in [s] if [s] is not empty, and all the rows if it is. *)
Theorem categorical_filter_visible st before f after s :
  Z.of_nat (length (allData st)) < 2 ^ 32 ->
  activeFilters st = before ++ f :: after ->
  f_attribute f <> "" -> f_type f = Some categorical -> f_values f = Some s ->
  (updateFilter st).1 = Ok tt ->
  let rows := allData (updateFilter st).2 in
  exists visible,
    visibleIndices (updateFilter st).2 = Some visible /\
    (s <> ∅ ->
     forall idx, idx ∈ visible <->
       0 <= idx < Z.of_nat (length (allData st)) /\
       selected s (row_value rows idx (f_attribute f)) /\
       forall g, g ∈ before ++ after -> filter_test rows g idx = true) /\
    (s = ∅ ->
     forall idx, idx ∈ visible <->
       0 <= idx < Z.of_nat (length (allData st)) /\
       forall g, g ∈ before ++ after -> filter_test rows g idx = true) /\
    ((forall g, g ∈ before ++ after -> f_attribute g = "" \/ f_type g = None) ->
     (s <> ∅ ->
      forall idx, idx ∈ visible <->
        0 <= idx < Z.of_nat (length (allData st)) /\
        selected s (row_value rows idx (f_attribute f))) /\
     (s = ∅ -> visible = all_indices (length (allData st)))).
Proof.
  intros Hlen Hfs Ha Ht Hs Hrun rows.
  destruct (updateFilter_visible_split st before f after Hlen Hfs Hrun)
    as (visible & Hvis & Hmem).
  fold rows in Hmem.
  assert (Hfull : s <> ∅ -> forall idx, idx ∈ visible <->
            0 <= idx < Z.of_nat (length (allData st)) /\
            selected s (row_value rows idx (f_attribute f)) /\
            forall g, g ∈ before ++ after -> filter_test rows g idx = true).
  { intros Hne idx.
    rewrite Hmem, (filter_test_categorical _ f s idx Ha Ht Hs), (size_pos s Hne).
    by rewrite categorical_pass_selected. }
  assert (Hempty : s = ∅ -> forall idx, idx ∈ visible <->
            0 <= idx < Z.of_nat (length (allData st)) /\
            forall g, g ∈ before ++ after -> filter_test rows g idx = true).
  { intros -> idx.
    rewrite Hmem, (filter_test_categorical _ f ∅ idx Ha Ht Hs), size_empty.
    cbn [Nat.ltb Nat.leb]. tauto. }
  exists visible. split; [done|]. split; [done|]. split; [done|].
  intros Hskip.
  assert (Hothers : forall idx g, g ∈ before ++ after -> filter_test rows g idx = true).
  { intros idx g Hg. by apply filter_test_unconfigured, Hskip. }
  split.
  - intros Hne idx. rewrite (Hfull Hne). split; [by intros (? & ? & _)|].
    intros [Hb Hin]. by split; [|split; [|apply Hothers]].
  - intros He.
    destruct (updateFilter_frame st) as (_ & _ & Hn & Hok & _).
    specialize (Hok Hrun). rewrite uint32_recompute in Hok by (by rewrite Hn).
    rewrite Hvis in Hok. injection Hok as ->.
    rewrite recompute_filter, Hn. fold rows.
    rewrite <- (filter_true (all_indices (length (allData st)))) at 2.
    apply list_filter_iff. intros idx. rewrite forallb_True, Forall_forall.
    split; [done|]. intros _ g Hg. apply Is_true_true.
    rewrite Hfs in Hg. apply elem_of_app in Hg as [Hg|Hg].
    + apply Hothers. set_solver.
    + apply elem_of_cons in Hg as [->|Hg]; [|apply Hothers; set_solver].
      subst s. rewrite (filter_test_categorical _ f ∅ idx Ha Ht Hs). by rewrite size_empty.
Qed.

End Predicates.

(** ** Columns whose fetch fails *)

Section FetchFailures.
Context `{Builtins}.

Lemma load_plan_categorical_failure st colName root metadata :
  colName ∉ loadedColumns st ->
  zarrRoot st = Some root ->
  columnMetadata st !! colName = Some metadata ->
  cm_encodingType metadata = "categorical" ->
  cat_read root ("obs/" +:+ colName) = None ->
  load_plan_of st colName = FetchFailed.
Proof.
  intros Hl Hroot Hmeta Henc Hread. unfold load_plan_of.
  rewrite bool_decide_eq_false_2 by done. by rewrite Hroot, Hmeta, Henc, Hread.
Qed.

(** C2, on the code. When the fetch of a categorical-encoded column fails and
    the table has rows, the catch block of [ensureColumnLoaded] reads
    [isNumericData], which is scoped to the try block: the call ends with a
    [ReferenceError], no row gets the column and the column is not recorded
    as loaded, so that the next call runs the same fetch again. *)
Theorem categorical_fetch_failure_throws st colName root metadata :
  colName ∉ loadedColumns st ->
  zarrRoot st = Some root ->
  columnMetadata st !! colName = Some metadata ->
  cm_encodingType metadata = "categorical" ->
  cat_read root ("obs/" +:+ colName) = None ->
  allData st <> [] ->
  (ensureColumnLoaded colName st).1 = Throw (ReferenceError "isNumericData") /\
  allData (ensureColumnLoaded colName st).2 = allData st /\
  colName ∉ loadedColumns (ensureColumnLoaded colName st).2 /\
  load_plan_of (ensureColumnLoaded colName st).2 colName = FetchFailed.
Proof.
  intros Hl Hroot Hmeta Henc Hread Hrows.
  destruct (ensureColumnLoaded_spec colName st) as (st' & Hrun & Hf & Hr & Hl').
  rewrite (load_plan_categorical_failure st colName root metadata) in * by done.
  rewrite Hrun. simpl in *.
  destruct (allData st) as [|row rows] eqn:Hd; [done|].
  split; [done|]. split; [done|]. split; [by rewrite Hl'|].
  destruct Hf as (Hroot' & _ & _ & Hmeta' & _).
  apply (load_plan_categorical_failure st' colName root metadata); try done.
  - by rewrite Hl'.
  - by rewrite Hroot'.
  - by rewrite Hmeta'.
Qed.

(** The run of [ensureColumnLoaded] for an array-encoded column that cannot
    be read: the inner handler makes up the values. *)
Lemma array_fetch_failure_run st colName root metadata :
  colName ∉ loadedColumns st ->
  zarrRoot st = Some root ->
  columnMetadata st !! colName = Some metadata ->
  cm_encodingType metadata <> "categorical" ->
  store_read root ("obs/" +:+ colName) = None ->
  exists evs,
    ensureColumnLoaded colName st
    = (Ok tt,
       stored colName (String.eqb (cm_type metadata) "continuous")
         (replicate (length (allData st))
            (default_value (String.eqb (cm_type metadata) "continuous")))
         (add_log evs st)).
Proof.
  intros Hl Hroot Hmeta Henc Hread. unfold ensureColumnLoaded.
  rewrite bool_decide_eq_false_2 by done. rewrite Hroot, Hmeta.
  destruct (String.eqb_spec (cm_encodingType metadata) "categorical") as [|_]; [done|].
  destruct (loadZarrArray_run root ("obs/" +:+ colName) st) as (evs & e & Hload).
  rewrite Hread in Hload. exists evs.
  apply try_catch_Ok. eapply bind_Ok.
  - eapply try_catch_Throw; [exact Hload|reflexivity].
  - pose proof (store_tail_run colName (String.eqb (cm_type metadata) "continuous")
                  (replicate (length (allData st))
                     (default_value (String.eqb (cm_type metadata) "continuous")))
                  (add_log evs st)) as Htail.
    destruct (add_log_fields evs st) as (_ & Hr & _). rewrite Hr in Htail.
    exact Htail.
Qed.

Lemma zero_step_range colName (values : list value) k st r :
  values !! k = Some (VNum (Fin 0)) ->
  continuousRanges st !! colName = Some r ->
  r = initial_range \/ r = zero_range ->
  continuousRanges (numeric_step colName values k st) !! colName = Some zero_range.
Proof.
  intros Hk Hr Hcase. unfold numeric_step. rewrite Hk. simpl.
  rewrite lookup_alter_eq, Hr. simpl. by destruct Hcase as [-> | ->].
Qed.

Lemma zero_loop_range colName (values : list value) m i st r :
  (forall k, (i <= k < i + m)%nat -> values !! k = Some (VNum (Fin 0))) ->
  continuousRanges st !! colName = Some r ->
  r = initial_range \/ r = zero_range ->
  m <> 0%nat ->
  continuousRanges (fold_left (fun s k => numeric_step colName values k s) (seq i m) st)
    !! colName = Some zero_range.
Proof.
  revert i st r. induction m as [|m IH]; intros i st r Hv Hr Hcase Hm; [done|].
  simpl. pose proof (zero_step_range colName values i st r (Hv i ltac:(lia)) Hr Hcase) as Hi.
  destruct m as [|m]; [exact Hi|].
  eapply IH; [|exact Hi|by right|done]. intros k Hk. apply Hv. lia.
Qed.

(** C10. When the numeric-array fetch for a continuous column that is not
    loaded yet fails, the call ends normally, every row gets the value 0 for
    the column and the column is marked loaded; the range summary of the
    column, which for a column not loaded yet is absent or the initial
    [{min: Infinity, max: -Infinity}], becomes exactly [{min: 0, max: 0}]
    (the table having at least one row, as every table that [loadData]
    builds). *)
Theorem numeric_fetch_failure_zero_range st colName root metadata :
  colName ∉ loadedColumns st ->
  zarrRoot st = Some root ->
  columnMetadata st !! colName = Some metadata ->
  cm_type metadata = "continuous" ->
  cm_encodingType metadata <> "categorical" ->
  store_read root ("obs/" +:+ colName) = None ->
  (continuousRanges st !! colName = None \/
   continuousRanges st !! colName = Some initial_range) ->
  (ensureColumnLoaded colName st).1 = Ok tt /\
  length (allData (ensureColumnLoaded colName st).2) = length (allData st) /\
  (forall i row, allData (ensureColumnLoaded colName st).2 !! i = Some row ->
     row !! colName = Some (VNum (Fin 0))) /\
  colName ∈ loadedColumns (ensureColumnLoaded colName st).2 /\
  (allData st <> [] ->
   continuousRanges (ensureColumnLoaded colName st).2 !! colName = Some zero_range).
Proof.
  intros Hl Hroot Hmeta Htype Henc Hread Hrange.
  destruct (array_fetch_failure_run st colName root metadata) as (evs & Hrun); try done.
  rewrite Hrun, Htype. change (String.eqb "continuous" "continuous") with true.
  cbn [fst snd].
  set (zeros := replicate (length (allData st)) (default_value true)).
  destruct (stored_fields colName true zeros (add_log evs st)) as (Hf & Hr & Hl').
  destruct (add_log_fields evs st) as (_ & Hrows & _ & Hranges & _).
  split; [done|]. split; [|split; [|split]].
  - destruct Hf as (_ & _ & _ & _ & _ & _ & Hlen). by rewrite Hlen, Hrows.
  - intros i row Hi. rewrite Hr in Hi. unfold write_column in Hi.
    rewrite list_lookup_imap, Hrows in Hi.
    destruct (allData st !! i) as [row0|] eqn:Hrow0; [|done].
    simpl in Hi. injection Hi as <-. rewrite lookup_insert_eq.
    unfold numeric_cell, zeros. apply lookup_lt_Some in Hrow0.
    by rewrite lookup_replicate_2.
  - rewrite Hl'. set_solver.
  - intros Hne. unfold stored. simpl. rewrite Hrows. unfold numeric_loop.
    assert (Hinit : exists r, continuousRanges (init_range colName (add_log evs st)) !! colName
                              = Some r /\ (r = initial_range \/ r = zero_range)).
    { unfold init_range. rewrite Hranges. destruct Hrange as [Hnone|Hsome].
      - rewrite Hnone. simpl. rewrite lookup_insert_eq. exists initial_range. by split; [|left].
      - rewrite Hsome, Hranges, Hsome. exists initial_range. by split; [|left]. }
    destruct Hinit as (r & Hr0 & Hcase).
    eapply zero_loop_range; [|exact Hr0|exact Hcase|by destruct (allData st)].
    intros k Hk. unfold zeros. apply lookup_replicate_2. lia.
Qed.

End FetchFailures.

(** ** Decoding categorical columns *)

Section Categorical.
Context `{Builtins}.

Lemma index_of_value_Z (k : Z) :
  index_of_value (VNum (num_of_Z k)) = if 0 <=? k then Some (Z.to_nat k) else None.
Proof.
  unfold index_of_value, num_of_Z. rewrite Qfloor_Z.
  replace (Qeq_bool (inject_Z k) (inject_Z k)) with true; [done|].
  symmetry. by apply Qeq_bool_iff.
Qed.

(** C7, as amended. When the codes and the categories of a categorical column
    can be read, [loadCategoricalColumn] returns one entry per code, entry
    [i] being [categories[codes[i]]]; a code outside the categories gives
    [undefined] there, and no error is raised. *)
Theorem loadCategoricalColumn_decodes root basePath st codesArr catsArr codes categories :
  root !! (basePath +:+ "/codes") = Some codesArr ->
  za_data codesArr = Some codes ->
  root !! (basePath +:+ "/categories") = Some catsArr ->
  za_data catsArr = Some categories ->
  exists result,
    (loadCategoricalColumn root basePath st).1 = Ok result /\
    length result = length codes /\
    forall i (k : Z), codes !! i = Some (VNum (num_of_Z k)) ->
      (0 <= k < Z.of_nat (length categories) ->
       exists c, categories !! Z.to_nat k = Some c /\ result !! i = Some c) /\
      (~ 0 <= k < Z.of_nat (length categories) -> result !! i = Some VUndefined).
Proof.
  intros Hc Hcd Hk Hkd.
  destruct (loadCategoricalColumn_run root basePath st) as (evs & e & ->).
  unfold cat_read. rewrite Hc, Hk, Hcd, Hkd. simpl.
  eexists. split; [reflexivity|]. split; [by rewrite length_map|].
  intros i k Hi. rewrite list_lookup_fmap, Hi. simpl.
  unfold array_get. rewrite index_of_value_Z. split.
  - intros Hin. destruct (Z.leb_spec 0 k); [|lia].
    destruct (lookup_lt_is_Some_2 categories (Z.to_nat k)) as [c Hcat]; [lia|].
    exists c. by rewrite Hcat.
  - intros Hout. destruct (Z.leb_spec 0 k); [|done].
    by rewrite lookup_ge_None_2 by lia.
Qed.

End Categorical.

(** ** Loading coordinate values *)

Section CoordinateFacts.
Context `{Builtins}.

Lemma load_by_name_run root embName columnName st :
  exists evs,
    load_by_name root embName columnName st
    = (Ok (read_by_name root embName columnName), add_log evs st).
Proof.
  unfold load_by_name, read_by_name.
  destruct columnName as [columnName|]; [|by exists []].
  destruct (negb (String.eqb columnName "")); [|by exists []].
  unfold try_catch, bind, store_read. rewrite zarr_open_run.
  destruct (root !! _) as [a|]; simpl; [|by eexists].
  rewrite zarr_get_run, add_log_app. simpl.
  destruct (za_data a); by eexists.
Qed.

Lemma zarr_get_column_run arr col st :
  zarr_get_column arr col st
  = (match za_data (h_array arr), za_shape (h_array arr) with
     | Some d, [rows; cols] =>
         if (col <? cols)%nat
         then Ok (map (fun i => default VUndefined (d !! (i * cols + col)%nat)) (seq 0 rows))
         else Throw (Error "empty selection")
     | Some d, _ => Ok d
     | None, _ => Throw (FetchError (h_path arr))
     end, add_log [GotColumn (h_path arr) col] st).
Proof.
  unfold zarr_get_column, bind, modify. simpl.
  destruct (za_data _); [|done].
  destruct (za_shape _) as [|? [|cols [|]]]; try done.
  by destruct (col <? cols)%nat.
Qed.

Lemma load_as_array_run root embName colIdx st :
  exists evs,
    load_as_array root embName colIdx st
    = (Ok (read_as_array root embName colIdx), add_log evs st).
Proof.
  unfold load_as_array, read_as_array, try_catch, bind. rewrite zarr_open_run.
  destruct (root !! _) as [a|]; simpl; [|by eexists].
  destruct (za_shape a) as [|rows [|cols [|]]] eqn:Hshape; simpl; try by eexists.
  rewrite zarr_get_column_run, add_log_app. simpl. rewrite Hshape.
  destruct (za_data a); simpl; [|by eexists].
  destruct (colIdx <? cols)%nat; simpl; by eexists.
Qed.

Lemma chunk_path_inj embName colIdx j k :
  chunk_path embName colIdx j = chunk_path embName colIdx k -> j = k.
Proof.
  unfold chunk_path. intros Heq.
  do 5 apply (inj (String.append _)) in Heq.
  by apply (inj pretty) in Heq.
Qed.

(** With more fuel than the store has arrays, the chunk loop ends: every
    round but the last consumes a chunk of its own.  It appends the chunks
    it reads, in order. *)
Lemma load_chunks_run fuel root embName colIdx nCells (keys : gset string) :
  forall chunkIdx result st,
    (size keys < fuel)%nat ->
    (forall j, (chunkIdx <= j)%nat ->
       is_Some (root !! chunk_path embName colIdx j) ->
       chunk_path embName colIdx j ∈ keys) ->
    exists chunks evs,
      load_chunks fuel root embName colIdx nCells chunkIdx result st
      = (Ok (result ++ concat chunks), add_log evs st) /\
      (forall j c, chunks !! j = Some c ->
         store_read root (chunk_path embName colIdx (chunkIdx + j)) = Some c) /\
      ((length (result ++ concat chunks) < nCells)%nat ->
       store_read root (chunk_path embName colIdx (chunkIdx + length chunks)) = None).
Proof.
  revert keys. induction fuel as [|fuel IH]; intros keys chunkIdx result st Hsize Hkeys;
    [lia|].
  simpl. destruct (Nat.ltb_spec (length result) nCells) as [Hlt|Hge].
  2:{ exists [], []. simpl. rewrite app_nil_r. split; [done|]. split; [done|lia]. }
  unfold bind at 1. unfold try_catch, bind.
  destruct (loadZarrArray_run root (chunk_path embName colIdx chunkIdx) st)
    as (evs & e & ->).
  destruct (store_read root (chunk_path embName colIdx chunkIdx)) as [c|] eqn:Hread;
    simpl.
  2:{ exists [], evs. simpl. rewrite app_nil_r, Nat.add_0_r. by split. }
  assert (Hin : chunk_path embName colIdx chunkIdx ∈ keys).
  { apply Hkeys; [done|]. unfold store_read in Hread.
    by destruct (root !! chunk_path embName colIdx chunkIdx). }
  destruct (IH (keys ∖ {[ chunk_path embName colIdx chunkIdx ]}) (S chunkIdx)
              (result ++ c) (add_log evs st)) as (chunks & evs' & -> & Hchunks & Hstop).
  - rewrite size_difference by set_solver. rewrite size_singleton.
    assert (size keys <> 0)%nat; [|lia].
    intros Hz. apply size_empty_iff in Hz. set_solver.
  - intros j Hj Hsome. apply elem_of_difference. split; [apply Hkeys; [lia|done]|].
    rewrite elem_of_singleton. intros Heq. apply chunk_path_inj in Heq. lia.
  - exists (c :: chunks), (evs' ++ evs). simpl.
    rewrite add_log_app, <- app_assoc. split; [done|]. split.
    + intros [|j] cj Hj; simpl in Hj.
      * injection Hj as <-. by rewrite Nat.add_0_r.
      * rewrite <- Nat.add_succ_comm. by apply Hchunks.
    + intros Hshort. rewrite app_assoc in Hshort.
      rewrite <- Nat.add_succ_comm. by apply Hstop.
Qed.

Lemma take_padded {A} (xs : list A) (x : A) n :
  take n (xs ++ replicate n x)
  = if (n <=? length xs)%nat then take n xs
    else xs ++ replicate (n - length xs) x.
Proof.
  destruct (Nat.leb_spec n (length xs)) as [Hle|Hlt].
  - by rewrite take_app_le.
  - rewrite take_app_ge by lia. f_equal. rewrite take_replicate. f_equal. lia.
Qed.

Lemma assemble_chunks_run fuel root embName colIdx nCells st :
  (size root < fuel)%nat ->
  exists chunks r evs,
    assemble_chunks fuel root embName colIdx nCells st = (r, add_log evs st) /\
    chunks_read root embName colIdx nCells chunks /\
    match r with
    | Ok values => values = take nCells (concat chunks ++ zeros nCells)
    | Throw _ => concat chunks = []
    | OutOfFuel => False
    end.
Proof.
  intros Hfuel. unfold assemble_chunks, bind.
  destruct (load_chunks_run fuel root embName colIdx nCells (dom root) 0 [] st)
    as (chunks & evs & -> & Hchunks & Hstop).
  - by rewrite size_dom.
  - intros j _ Hsome. by apply elem_of_dom.
  - simpl in *. exists chunks. unfold zeros. rewrite take_padded.
    destruct (Nat.leb_spec nCells (length (concat chunks))).
    + eexists _, _. by split; [reflexivity|].
    + destruct (Nat.ltb_spec 0 (length (concat chunks))).
      * eexists _, _. split; [reflexivity|]. by split; [split; [|auto]|].
      * eexists _, _. split; [reflexivity|]. split; [split; [done|auto]|].
        destruct (concat chunks); [done|simpl in *; lia].
Qed.




End CoordinateFacts.

(** ** Rounding to binary64 *)

Section Rounding.

Lemma Qle_bool_false (x y : Q) : Qle_bool x y = false -> (y < x)%Q.
Proof.
  intros Hb. apply Qnot_le_lt. intros Hle. apply Qle_bool_iff in Hle. congruence.
Qed.

Lemma round_half_even_bounds (x : Q) (m : Z) :
  (0 <= x)%Q -> (x <= inject_Z m)%Q -> 0 <= round_half_even x <= m.
Proof.
  intros H0 Hm. unfold round_half_even.
  assert (Hf0 : 0 <= Qfloor x).
  { change 0 with (Qfloor 0). by apply Qfloor_resp_le. }
  assert (Hfm : Qfloor x <= m).
  { rewrite <- (Qfloor_Z m). by apply Qfloor_resp_le. }
  destruct (Z.eq_dec (Qfloor x) m) as [Heq|Hne].
  - assert (Hx : (x - inject_Z (Qfloor x) < 1 # 2)%Q).
    { rewrite Heq. apply Qle_lt_trans with 0%Q; [|done].
      apply (Qplus_le_l _ _ (inject_Z m)). ring_simplify. exact Hm. }
    rewrite (proj1 (Qlt_alt _ _) Hx). lia.
  - destruct (Qcompare _ _); [destruct (Z.even _)| |]; lia.
Qed.

Lemma Qpow2_pos e : (0 < Qpow2 e)%Q.
Proof.
  destruct e as [|p|p]; cbn [Qpow2]; [done| |done].
  rewrite <- Pos2Z.inj_pow. done.
Qed.

(** [floor_log2] is below 53 on a positive rational below [2 ^ 53]. *)
Lemma floor_log2_small (q : Q) :
  (0 < q)%Q -> (q < inject_Z (2 ^ 53))%Q -> floor_log2 q <= 52.
Proof.
  intros Hpos Hlt. unfold floor_log2.
  destruct q as [n d]. cbn [Qnum Qden]. cbv zeta.
  assert (Hn : 0 < n) by (unfold Qlt in Hpos; simpl in Hpos; lia).
  assert (Hnd : n < 2 ^ 53 * Zpos d) by (unfold Qlt in Hlt; simpl in Hlt; lia).
  assert (He0 : Z.log2 n - Z.log2 (Zpos d) <= 53).
  { assert (Z.log2 n <= Z.log2 (2 ^ 53 * Zpos d)) by (apply Z.log2_le_mono; lia).
    rewrite Z.mul_comm, Z.log2_mul_pow2 in H by lia. lia. }
  destruct (Qle_bool (Qpow2 (Z.log2 n - Z.log2 (Z.pos d))) (n # d)) eqn:Hb; [|lia].
  destruct (Z.eq_dec (Z.log2 n - Z.log2 (Z.pos d)) 53) as [Heq|]; [|lia].
  rewrite Heq in Hb. apply Qle_bool_iff in Hb.
  exfalso. apply (Qlt_irrefl (inject_Z (2 ^ 53))).
  eapply Qle_lt_trans; [exact Hb|exact Hlt].
Qed.

(** Dividing by [2 ^ p] for [p <= 0] multiplies by the integer [2 ^ (- p)]. *)
Lemma Qdiv_Qpow2_nonpos (q : Q) (p : Z) :
  p <= 0 -> (q / Qpow2 p == q * inject_Z (2 ^ (- p)))%Q.
Proof.
  intros Hp. destruct q as [n d]. destruct p as [|p|p]; [|lia|].
  - unfold Qeq, Qdiv, Qmult, Qinv. simpl. lia.
  - change (- Z.neg p) with (Z.pos p). rewrite <- Pos2Z.inj_pow.
    unfold Qeq, Qdiv, Qmult, Qinv, Qpow2. cbn [Qnum Qden inject_Z]. lia.
Qed.

Lemma Qpow2_nonpos_mul (p : Z) :
  p <= 0 -> (inject_Z (2 ^ (- p)) * Qpow2 p == 1)%Q.
Proof.
  intros Hp. destruct p as [|p|p]; [done|lia|].
  change (- Z.neg p) with (Z.pos p). rewrite <- Pos2Z.inj_pow.
  unfold Qeq, Qmult, Qpow2. cbn [Qnum Qden inject_Z]. lia.
Qed.

(** Rounding a rational between 0 and an integer [n] below [2 ^ 53] gives a
    number between 0 and [n]: [n] is a binary64 value. *)
Lemma round64_bounds (q : Q) (n : Z) :
  (0 <= q)%Q -> (q <= inject_Z n)%Q -> n < 2 ^ 53 ->
  exists r, round64 q = Fin r /\ (0 <= r)%Q /\ (r <= inject_Z n)%Q.
Proof.
  intros H0 Hn Hsmall. unfold round64, round_binary.
  destruct (Qnum q) as [|pn|pn] eqn:Hnum.
  - exists 0%Q. split; [done|]. split; [done|]. by eapply Qle_trans.
  - assert (Hpos : (0 < q)%Q) by (unfold Qlt; simpl; lia).
    assert (Hlt : (q < inject_Z (2 ^ 53))%Q).
    { eapply Qle_lt_trans; [exact Hn|]. rewrite <- Zlt_Qlt. lia. }
    unfold round_pos.
    set (e := Z.max (floor_log2 q) (-1022)).
    assert (He : e - (53 - 1) <= 0).
    { pose proof (floor_log2_small q Hpos Hlt). subst e. lia. }
    set (p := e - (53 - 1)) in *.
    set (m := round_half_even (q / Qpow2 p)).
    assert (Hm : 0 <= m <= n * 2 ^ (- p)).
    { subst m. apply round_half_even_bounds.
      - rewrite (Qdiv_Qpow2_nonpos q p He).
        apply Qmult_le_0_compat; [done|]. rewrite <- (Zle_Qle 0). apply Z.pow_nonneg. lia.
      - rewrite (Qdiv_Qpow2_nonpos q p He), inject_Z_mult.
        apply Qmult_le_compat_r; [done|]. rewrite <- (Zle_Qle 0). apply Z.pow_nonneg. lia. }
    assert (Hr0 : (0 <= inject_Z m * Qpow2 p)%Q).
    { apply Qmult_le_0_compat; [rewrite <- (Zle_Qle 0); lia|apply Qlt_le_weak, Qpow2_pos]. }
    assert (Hrn : (inject_Z m * Qpow2 p <= inject_Z n)%Q).
    { apply Qle_trans with (inject_Z (n * 2 ^ (- p)) * Qpow2 p)%Q.
      - apply Qmult_le_compat_r; [rewrite <- Zle_Qle; lia|apply Qlt_le_weak, Qpow2_pos].
      - rewrite inject_Z_mult, <- Qmult_assoc, (Qpow2_nonpos_mul p He), Qmult_1_r.
        apply Qle_refl. }
    destruct (Qle_bool (Qpow2 (1023 + 1)) (inject_Z m * Qpow2 p)) eqn:Hinf.
    + exfalso. apply Qle_bool_iff in Hinf.
      apply (Qlt_irrefl (inject_Z n)).
      eapply Qlt_le_trans; [|eapply Qle_trans; [exact Hinf|exact Hrn]].
      simpl. rewrite <- Zlt_Qlt. lia.
    + eexists. split; [reflexivity|]. by rewrite Qred_correct.
  - exfalso. unfold Qle in H0. simpl in H0. lia.
Qed.

End Rounding.

(** ** Sampling *)

Section SamplingFacts.
Variable random_index : nat -> nat -> nat.
Hypothesis random_index_below : forall i k, (0 < k)%nat -> (random_index i k < k)%nat.

Lemma Qle_bool_inject_Z (a b : Z) : Qle_bool (inject_Z a) (inject_Z b) = (a <=? b).
Proof.
  destruct (Z.leb_spec a b) as [Hle|Hlt].
  - apply Qle_bool_iff. by rewrite <- Zle_Qle.
  - destruct (Qle_bool (inject_Z a) (inject_Z b)) eqn:Hb; [|done].
    apply Qle_bool_iff in Hb. rewrite <- Zle_Qle in Hb. lia.
Qed.

Lemma num_le_of_Z (a b : Z) : num_le (num_of_Z a) (num_of_Z b) = (a <=? b).
Proof. apply Qle_bool_inject_Z. Qed.

Lemma num_lt_of_Z (a b : Z) : num_lt (num_of_Z a) (num_of_Z b) = (a <? b).
Proof.
  unfold num_lt, num_of_Z. rewrite Qle_bool_inject_Z.
  destruct (Z.leb_spec b a), (Z.ltb_spec a b); simpl; try done; lia.
Qed.

Lemma Math_min_of_Z (a b : Z) : Math_min (num_of_Z a) (num_of_Z b) = num_of_Z (Z.min a b).
Proof.
  unfold Math_min. cbn [num_of_Z]. fold (num_of_Z a) (num_of_Z b).
  rewrite num_le_of_Z. destruct (Z.leb_spec a b); f_equal; lia.
Qed.

(** The target count for a fraction between 0 and 1 and a cap that is not
    negative: the product is rounded to binary64, and the count is an
    integer between 0 and the number of indices. *)
Lemma targetCount_of_value (n : nat) (f : Q) (c : Z) :
  Z.of_nat n < 2 ^ 32 -> (0 <= f)%Q -> (f <= 1)%Q -> 0 <= c ->
  exists product,
    round64 (inject_Z (Z.of_nat n) * f) = Fin product /\
    targetCount_of n (Fin f) (num_of_Z c) = num_of_Z (Z.min (Qfloor product) c) /\
    0 <= Z.min (Qfloor product) c <= Z.of_nat n.
Proof.
  intros Hn Hf0 Hf1 Hc. unfold targetCount_of. cbn [num_mul num_of_Z].
  destruct (round64_bounds (inject_Z (Z.of_nat n) * f) (Z.of_nat n)) as (r & Hr & Hr0 & Hrn).
  - apply Qmult_le_0_compat; [|done]. rewrite <- (Zle_Qle 0). lia.
  - rewrite <- (Qmult_1_r (inject_Z (Z.of_nat n))) at 2.
    rewrite (Qmult_comm _ f), (Qmult_comm _ 1). apply Qmult_le_compat_r; [done|].
    rewrite <- (Zle_Qle 0). lia.
  - lia.
  - exists r. split; [done|]. rewrite Hr.
    cbn [Math_floor]. fold (num_of_Z c). rewrite Math_min_of_Z.
    split; [done|].
    assert (0 <= Qfloor r).
    { change 0 with (Qfloor 0). by apply Qfloor_resp_le. }
    assert (Qfloor r <= Z.of_nat n).
    { rewrite <- (Qfloor_Z (Z.of_nat n)). by apply Qfloor_resp_le. }
    lia.
Qed.

Lemma round64_not_NaN (q : Q) : round64 q <> NaN.
Proof.
  unfold round64, round_binary, round_pos.
  destruct (Qnum q); [done| |]; by destruct (Qle_bool _ _).
Qed.

(** The sample rate that [createPointCloud] computes from the slider is a
    fraction between 0 and 1, and its cap is not negative. *)
Lemma sampleRate_of_range (percent : number) :
  percent <> NaN ->
  exists f, sampleRate_of percent = Fin f /\ (0 <= f)%Q /\ (f <= 1)%Q.
Proof.
  intros Hnan. unfold sampleRate_of.
  assert (Hlow : exists c, round64 (1 # 100) = Fin c /\ (0 <= c)%Q /\ (c <= 1)%Q).
  { eexists. split; [vm_compute; reflexivity|]. split; unfold Qle; simpl; lia. }
  destruct Hlow as (c & -> & Hc0 & Hc1).
  assert (Hmin : Math_min (Fin 1) (num_div percent (Fin 100)) = NegInf \/
                 exists m, Math_min (Fin 1) (num_div percent (Fin 100)) = Fin m /\ (m <= 1)%Q).
  { destruct (num_div percent (Fin 100)) as [| | |r] eqn:Hdiv.
    - destruct percent as [| | |q]; try done.
      change (num_div (Fin q) (Fin 100)) with (round64 (q / 100)) in Hdiv.
      by apply round64_not_NaN in Hdiv.
    - right. by exists 1%Q.
    - by left.
    - right. unfold Math_min, num_le. destruct (Qle_bool 1 r) eqn:Hle.
      + by exists 1%Q.
      + exists r. split; [done|]. by apply Qlt_le_weak, Qle_bool_false. }
  destruct Hmin as [-> | (m & -> & Hm)].
  - exists c. by split.
  - unfold Math_max, num_le. destruct (Qle_bool m c) eqn:Hle.
    + exists c. by split.
    + exists m. split; [done|]. split; [|done].
      apply Qle_trans with c; [done|]. by apply Qlt_le_weak, Qle_bool_false.
Qed.

Lemma MAX_POINTS_cap : MAX_POINTS = num_of_Z 1000000 /\ 0 <= 1000000.
Proof. by split. Qed.

Lemma swap_Permutation i j arr arr' : swap i j arr = Some arr' -> arr' ≡ₚ arr.
Proof.
  unfold swap. destruct (arr !! i) as [ai|] eqn:Hi; [|done].
  destruct (arr !! j) as [aj|] eqn:Hj; [|done].
  intros [= <-]. by apply Permutation_insert_swap.
Qed.

Lemma swap_Some i j arr :
  (i < length arr)%nat -> (j < length arr)%nat -> is_Some (swap i j arr).
Proof.
  intros Hi Hj. unfold swap.
  destruct (lookup_lt_is_Some_2 arr i Hi) as [ai ->].
  by destruct (lookup_lt_is_Some_2 arr j Hj) as [aj ->].
Qed.

(** Under the contract of the random source every swap of the shuffle stays
    inside the array, and the shuffle permutes it. *)
Lemma shuffle_from_Permutation rounds i targetCount arr :
  exists arr', shuffle_from random_index rounds i targetCount arr = Some arr' /\ arr' ≡ₚ arr.
Proof.
  revert i arr. induction rounds as [|rounds IH]; intros i arr; [by exists arr|].
  cbn [shuffle_from].
  destruct (num_lt (num_of_Z (Z.of_nat i)) targetCount && (i <? length arr)%nat) eqn:Hcond;
    [|by exists arr].
  apply andb_true_iff in Hcond as [_ Hi]. apply Nat.ltb_lt in Hi.
  destruct (swap_Some i (i + random_index i (length arr - i)) arr) as [arr1 Hswap];
    [done| |].
  { pose proof (random_index_below i (length arr - i)). lia. }
  rewrite Hswap. simpl.
  destruct (IH (S i) arr1) as (arr' & -> & Hp).
  exists arr'. split; [done|]. rewrite Hp. by eapply swap_Permutation.
Qed.

Lemma slice_0_of_Z {A} (t : Z) (arr : list A) :
  0 <= t -> slice_0 (num_of_Z t) arr = take (Z.to_nat t) arr.
Proof.
  intros Ht. unfold slice_0, num_of_Z, Qtrunc.
  change 0%Q with (inject_Z 0). rewrite Qle_bool_inject_Z.
  destruct (Z.leb_spec 0 t); [|lia]. rewrite Qfloor_Z.
  by destruct (Z.ltb_spec t 0); [lia|].
Qed.

(** C6. The sampling step on a duplicate-free list of [n] indices.  For a
    fraction between 0 and 1 and a cap that is not negative it returns
    exactly [min(floor(n * fraction), cap)] elements, the product being the
    binary64 one, all of them among the indices and none twice; when that
    count is at least [n] it returns the indices themselves, in their order.
    The fraction and the cap of [createPointCloud] are always such: the
    sample rate that it computes from any slider value lies between 0 and 1,
    and its cap is the constant 1000000. *)
Theorem indicesToRender_sample (indices : list Z) :
  NoDup indices ->
  Z.of_nat (length indices) < 2 ^ 32 ->
  (forall (fraction : Q) (cap : Z),
     (0 <= fraction)%Q -> (fraction <= 1)%Q -> 0 <= cap ->
     exists product selected,
       round64 (inject_Z (Z.of_nat (length indices)) * fraction) = Fin product /\
       indicesToRender random_index indices (Fin fraction) (num_of_Z cap) = Some selected /\
       Z.of_nat (length selected) = Z.min (Qfloor product) cap /\
       (forall x, x ∈ selected -> x ∈ indices) /\
       NoDup selected /\
       (Z.of_nat (length indices) <= Z.min (Qfloor product) cap -> selected = indices)) /\
  (forall percent, percent <> NaN ->
     exists fraction,
       sampleRate_of percent = Fin fraction /\ (0 <= fraction)%Q /\ (fraction <= 1)%Q) /\
  MAX_POINTS = num_of_Z 1000000.
Proof.
  intros Hnd Hlen. split; [|split; [apply sampleRate_of_range|done]].
  intros fraction cap Hf0 Hf1 Hcap. unfold indicesToRender.
  destruct (targetCount_of_value (length indices) fraction cap)
    as (product & Hprod & -> & Ht); try done.
  set (t := Z.min (Qfloor product) cap) in *.
  exists product. unfold num_ge. rewrite num_le_of_Z.
  destruct (Z.leb_spec (Z.of_nat (length indices)) t) as [Hall|Hless].
  - exists indices. split; [done|]. split; [done|]. split; [lia|]. by repeat split.
  - destruct (shuffle_from_Permutation (length indices) 0 (num_of_Z t) indices)
      as (arr & -> & Hp).
    cbn [mbind option_bind]. rewrite slice_0_of_Z by lia.
    exists (take (Z.to_nat t) arr). split; [done|]. split; [done|].
    split; [|split; [|split]].
    + rewrite length_take, Hp. lia.
    + intros x Hx. rewrite <- Hp. by eapply subseteq_take.
    + eapply (sublist_NoDup _ arr); [by rewrite Hp|apply sublist_take].
    + lia.
Qed.

End SamplingFacts.

(** ** Sparse gene expression resolver *)

Section GeneFacts.
Context `{Builtins}.

Lemma fetchLog_add_log evs st : fetchLog (add_log evs st) = evs ++ fetchLog st.
Proof. unfold add_log. induction evs as [|e evs IH]; simpl; [done|]. by rewrite IH. Qed.

Lemma zarr_get_slice_run arr start stop st :
  zarr_get_slice arr start stop st
  = (match za_data (h_array arr), index_of_value start, index_of_value stop with
     | Some d, Some a, Some b => Ok (take (b - a) (drop a d))
     | Some _, _, _ => Throw (TypeError "slice")
     | None, _, _ => Throw (FetchError (h_path arr))
     end, add_log [GotSlice (h_path arr) start stop] st).
Proof.
  unfold zarr_get_slice, bind, modify. simpl.
  destruct (za_data _); [|done].
  by destruct (index_of_value start), (index_of_value stop).
Qed.

(** The cache block fetches no slice, and leaves the three arrays cached. *)
Lemma ensure_cached_run st root indptr indices data :
  matrix_arrays st root indptr indices data ->
  exists c evs st1,
    ensure_cached root st = (Ok c, st1) /\
    ca_indptr c = indptr /\
    za_data (h_array (ca_indicesArr c)) = Some indices /\
    za_data (h_array (ca_dataArr c)) = Some data /\
    fetchLog st1 = evs ++ fetchLog st /\
    Forall (fun ev => ~ is_slice_fetch ev) evs /\
    sparseMatrix st1 = sparseMatrix st /\ zarrRoot st1 = zarrRoot st.
Proof.
  intros (ip & ia & da & Hip & Hipd & Hia & Hiad & Hda & Hdad & Hcache).
  unfold ensure_cached. destruct Hcache as [-> | ->].
  - unfold bind. rewrite zarr_open_run, Hip. simpl.
    rewrite zarr_open_run, Hia. simpl. rewrite zarr_open_run, Hda. simpl.
    rewrite zarr_get_run. simpl. rewrite Hipd. simpl.
    eexists _, [Got "X/indptr"; Opened "X/data"; Opened "X/indices"; Opened "X/indptr"], _.
    split; [reflexivity|]. simpl. repeat split; try done.
    repeat constructor; by intros [].
  - eexists _, [], st. split; [reflexivity|]. by repeat split.
Qed.

Lemma f32_set_cell (result : list number) (c : Z) (v : number) :
  0 <= c -> f32_set result (VNum (num_of_Z c)) (VNum v) = <[Z.to_nat c := fround v]> result.
Proof.
  intros Hc. unfold f32_set. rewrite index_of_value_Z.
  by destruct (Z.leb_spec 0 c); [|lia].
Qed.

(** The scatter loop over the first [m] entries of a column. *)
Lemma scatter_prefix (cells : list Z) (vals : list number) (nCells m : nat) :
  length vals = length cells ->
  NoDup cells ->
  Forall (fun c => 0 <= c < Z.of_nat nCells) cells ->
  (m <= length cells)%nat ->
  let result :=
    fold_left
      (fun result i =>
         f32_set result
           (default VUndefined (map (fun c => VNum (num_of_Z c)) cells !! i))
           (default VUndefined (map VNum vals !! i)))
      (seq 0 m) (replicate nCells (Fin 0)) in
  length result = nCells /\
  (forall k c v, (k < m)%nat -> cells !! k = Some c -> vals !! k = Some v ->
     result !! Z.to_nat c = Some (fround v)) /\
  (forall i, (i < nCells)%nat ->
     (forall k, (k < m)%nat -> cells !! k <> Some (Z.of_nat i)) ->
     result !! i = Some (Fin 0)).
Proof.
  intros Hlen Hnd Hcells. induction m as [|m IH]; intros Hm.
  - simpl. split; [apply length_replicate|]. split; [intros; lia|].
    intros i Hi _. by apply lookup_replicate_2.
  - cbv zeta. rewrite seq_S, fold_left_app. simpl.
    destruct (IH ltac:(lia)) as (Hl & Hset & Hzero).
    set (prev := fold_left _ (seq 0 m) _) in *.
    destruct (lookup_lt_is_Some_2 cells m ltac:(lia)) as [cm Hcm].
    destruct (lookup_lt_is_Some_2 vals m ltac:(lia)) as [vm Hvm].
    rewrite !list_lookup_fmap, Hcm, Hvm. simpl.
    assert (Hcm_range : 0 <= cm < Z.of_nat nCells).
    { eapply Forall_forall in Hcells; [exact Hcells|]. by eapply list_elem_of_lookup_2. }
    rewrite f32_set_cell by lia.
    split; [by rewrite length_insert|]. split.
    + intros k c v Hk Hc Hv. destruct (decide (k = m)) as [->|Hne].
      * rewrite Hcm in Hc. rewrite Hvm in Hv. injection Hc as <-. injection Hv as <-.
        apply list_lookup_insert_eq. lia.
      * rewrite list_lookup_insert_ne; [apply (Hset k); [lia|done|done]|].
        intros Heq. assert (cm = c).
        { assert (0 <= c) by (eapply Forall_forall in Hcells;
            [apply Hcells|by eapply list_elem_of_lookup_2]). lia. }
        subst c. apply Hne. by eapply NoDup_lookup.
    + intros i Hi Hnone. rewrite list_lookup_insert_ne.
      * apply Hzero; [done|]. intros k Hk. apply Hnone. lia.
      * intros Heq. apply (Hnone m); [lia|]. rewrite Hcm. f_equal. lia.
Qed.

(** The part of [getGeneExpression] after the cache block. *)
Lemma gene_tail_run (c : cached_arrays) (start stop : Z) indices data result st1 :
  za_data (h_array (ca_indicesArr c)) = Some indices ->
  za_data (h_array (ca_dataArr c)) = Some data ->
  0 <= start <= stop ->
  (if js_gt (VNum (num_of_Z stop)) (VNum (num_of_Z start)) then
     geneIndices <- zarr_get_slice (ca_indicesArr c)
                      (VNum (num_of_Z start)) (VNum (num_of_Z stop)) ;;
     geneData <- zarr_get_slice (ca_dataArr c)
                   (VNum (num_of_Z start)) (VNum (num_of_Z stop)) ;;
     ret (Some (scatter geneIndices geneData result))
   else ret (Some result)) st1
  = if start <? stop then
      (Ok (Some (scatter
                   (take (Z.to_nat stop - Z.to_nat start) (drop (Z.to_nat start) indices))
                   (take (Z.to_nat stop - Z.to_nat start) (drop (Z.to_nat start) data))
                   result)),
       add_log [GotSlice (h_path (ca_dataArr c)) (VNum (num_of_Z start)) (VNum (num_of_Z stop));
                GotSlice (h_path (ca_indicesArr c)) (VNum (num_of_Z start))
                         (VNum (num_of_Z stop))] st1)
    else (Ok (Some result), st1).
Proof.
  intros Hia Hda Horder. unfold js_gt, js_lt. cbn [to_number]. rewrite num_lt_of_Z.
  destruct (Z.ltb_spec start stop) as [Hlt|Hge]; [|done].
  unfold bind. rewrite !zarr_get_slice_run, Hia, Hda, !index_of_value_Z.
  destruct (Z.leb_spec 0 start); [|lia]. destruct (Z.leb_spec 0 stop); [|lia].
  by rewrite add_log_app.
Qed.

(** C1, as amended. For a gene of [geneNames] whose column in a well-formed
    CSC matrix has the cells [cells] with the values [vals],
    [getGeneExpression] returns a vector of [nCells] entries that holds, in
    each cell of the column, the value of that cell rounded to binary32 (the
    value itself when it is a binary32 number), and zero in every other
    cell; when the column is empty ([indptr[g + 1] = indptr[g]]) it is the
    all-zero vector, and no slice of [indices] or [data] is fetched. *)
Theorem getGeneExpression_dense st geneName geneNames geneIdx root nCells shape
    indptr indices data start stop cells vals :
  sm_geneNames (sparseMatrix st) = Some geneNames ->
  indexOf geneNames geneName = Some geneIdx ->
  zarrRoot st = Some root ->
  sm_shape (sparseMatrix st) = Some (nCells :: shape) ->
  matrix_arrays st root indptr indices data ->
  gene_column indptr indices data geneIdx nCells start stop cells vals ->
  exists result evs,
    (getGeneExpression geneName st).1 = Ok (Some result) /\
    length result = nCells /\
    (forall k c v, cells !! k = Some c -> vals !! k = Some v ->
       result !! Z.to_nat c = Some (fround v) /\
       (is_float32 v -> result !! Z.to_nat c = Some v)) /\
    (forall i, (i < nCells)%nat -> Z.of_nat i ∉ cells -> result !! i = Some (Fin 0)) /\
    fetchLog (getGeneExpression geneName st).2 = evs ++ fetchLog st /\
    (stop = start ->
     result = replicate nCells (Fin 0) /\ Forall (fun ev => ~ is_slice_fetch ev) evs).
Proof.
  intros Hnames Hidx Hroot Hshape Harrays
    (Hstart & Hstop & Horder & Hcells & Hvals & Hlen & Hnd & Hrange).
  destruct (ensure_cached_run st root indptr indices data Harrays)
    as (c & evs & st1 & Hrun & Hptr & Hia & Hda & Hlog & Hnoslice & _).
  pose proof (gene_tail_run c start stop indices data (replicate nCells (Fin 0)) st1
                Hia Hda Horder) as Htail.
  match type of Htail with
  | _ = ?rhs => assert (Hfull : getGeneExpression geneName st = rhs)
  end.
  { unfold getGeneExpression. rewrite Hnames, Hroot, Hidx, Hshape.
    eapply bind_Ok; [exact Hrun|]. cbv beta. rewrite Hptr, Hstart, Hstop.
    exact Htail. }
  rewrite Hfull. clear Hfull Htail.
  destruct (Z.ltb_spec start stop) as [Hlt|Hge].
  - rewrite Hcells, Hvals.
    assert (Hmlen : length (map (fun c => VNum (num_of_Z c)) cells) = length cells)
      by apply length_map.
    unfold scatter. rewrite Hmlen.
    destruct (scatter_prefix cells vals nCells (length cells) Hlen Hnd Hrange (le_n _))
      as (Hl & Hset & Hzero).
    eexists _, _. split; [reflexivity|]. split; [exact Hl|]. split; [|split; [|split]].
    + intros k c0 v Hc Hv. rewrite (Hset k c0 v); [|by eapply lookup_lt_Some|done|done].
      split; [done|]. unfold is_float32. by intros ->.
    + intros i Hi Hnotin. apply Hzero; [done|]. intros k _ Hk.
      apply Hnotin. by eapply list_elem_of_lookup_2.
    + cbn [snd]. rewrite fetchLog_add_log, Hlog. by rewrite app_assoc.
    + intros ->. lia.
  - assert (stop = start) as -> by lia.
    exists (replicate nCells (Fin 0)), evs.
    split; [done|]. split; [apply length_replicate|].
    assert (Hempty : cells = []).
    { rewrite Nat.sub_diag in Hcells. simpl in Hcells. by destruct cells. }
    subst cells. split; [intros k c0 v Hc; done|]. split.
    + intros i Hi _. by apply lookup_replicate_2.
    + by split.
Qed.

End GeneFacts.

(** * The properties on the example datasets *)

Section Examples.
#[local] Existing Instance decimal_builtins.

(** The gene of the specification's round trip: 1.5 in cell 3 and 2.0 in
    cell 7, out of 10 cells. *)
Example getGeneExpression_round_trip :
  (getGeneExpression "Gdf9" gene_session).1
  = Ok (Some [Fin 0; Fin 0; Fin 0; Fin (3 # 2); Fin 0; Fin 0; Fin 0; Fin 2; Fin 0; Fin 0]).
Proof. vm_compute. reflexivity. Qed.

(** C1 as stated fails when a value of the matrix is no binary32 number:
    the vector is a [Float32Array], and 16777217 is stored as 16777216. *)
Lemma getGeneExpression_rounds_to_float32 :
  za_data <$> wide_gene_store !! "X/data" = Some (Some (ints [16777217; 2])) /\
  (getGeneExpression "Gdf9" wide_gene_session).1
  = Ok (Some [Fin 0; Fin 0; Fin 0; num_of_Z 16777216; Fin 0; Fin 0; Fin 0; Fin 2;
              Fin 0; Fin 0]) /\
  num_of_Z 16777216 <> num_of_Z 16777217.
Proof. split; [done|]. split; [vm_compute; reflexivity|]. discriminate. Qed.

Lemma getGeneExpression_dense_witness :
  exists result evs,
    (getGeneExpression "Gdf9" gene_session).1 = Ok (Some result) /\
    length result = 10%nat /\
    (forall k c v, [3; 7] !! k = Some c -> [Fin (3 # 2); Fin 2] !! k = Some v ->
       result !! Z.to_nat c = Some (fround v) /\
       (is_float32 v -> result !! Z.to_nat c = Some v)) /\
    (forall i, (i < 10)%nat -> Z.of_nat i ∉ [3; 7] -> result !! i = Some (Fin 0)) /\
    fetchLog (getGeneExpression "Gdf9" gene_session).2 = evs ++ fetchLog gene_session /\
    (2 = 0 ->
     result = replicate 10 (Fin 0) /\ Forall (fun ev => ~ is_slice_fetch ev) evs).
Proof.
  apply (getGeneExpression_dense gene_session "Gdf9" ["Gdf9"; "Amh"] 0 gene_store 10
           [2%nat] (ints [0; 2; 2]) (ints [3; 7]) [VNum (Fin (3 # 2)); VNum (Fin 2)]
           0 2 [3; 7] [Fin (3 # 2); Fin 2]); try reflexivity.
  - eexists _, _, _. repeat split; try (vm_compute; reflexivity). by left.
  - repeat split; try reflexivity; try lia.
    + compute_done.
    + repeat constructor; lia.
Defined.

(** C2, on the example: the codes of the categorical column [cluster]
    cannot be read. *)
Lemma categorical_fetch_failure_throws_witness :
  (ensureColumnLoaded "cluster" (example_session 4 [])).1
  = Throw (ReferenceError "isNumericData") /\
  allData (ensureColumnLoaded "cluster" (example_session 4 [])).2
  = allData (example_session 4 []) /\
  "cluster" ∉ loadedColumns (ensureColumnLoaded "cluster" (example_session 4 [])).2 /\
  load_plan_of (ensureColumnLoaded "cluster" (example_session 4 [])).2 "cluster" = FetchFailed.
Proof.
  apply (categorical_fetch_failure_throws (example_session 4 []) "cluster" example_store
           {| cm_type := "categorical"; cm_encodingType := "categorical";
              cm_path := "cluster" |}).
  - apply not_elem_of_empty.
  - reflexivity.
  - vm_compute. reflexivity.
  - reflexivity.
  - vm_compute. reflexivity.
  - done.
Defined.

(** A filter on that column makes [updateFilter] end with the exception,
    the visible indices staying as they were. *)
Example updateFilter_categorical_fetch_failure :
  (updateFilter (example_session 4 [values_filter "cluster" ["T"]])).1
  = Throw (ReferenceError "isNumericData") /\
  visibleIndices (updateFilter (example_session 4 [values_filter "cluster" ["T"]])).2
  = Some [0; 1; 2; 3].
Proof. split; vm_compute; reflexivity. Qed.

Lemma updateFilter_order_independent_witness :
  visibleIndices
    (updateFilter (set_activeFilters [range_filter "age" 2 5; values_filter "kind" ["A"; "B"]]
                     (example_session 4 []))).2
  = visibleIndices
      (updateFilter (set_activeFilters [values_filter "kind" ["A"; "B"]; range_filter "age" 2 5]
                       (example_session 4 []))).2.
Proof. apply updateFilter_order_independent. apply perm_swap. Defined.

(** The continuous filter of the specification: range [[2, 5]] over the
    values 1, ..., 6. *)
Example continuous_filter_example :
  visibleIndices (updateFilter (example_session 6 [range_filter "age" 2 5])).2
  = Some [1; 2; 3; 4].
Proof. vm_compute. reflexivity. Qed.

Lemma continuous_filter_visible_witness :
  let st := example_session 6 [range_filter "age" 2 5; new_filter "filter_3"] in
  let r := {| range_min := num_of_Z 2; range_max := num_of_Z 5 |} in
  let rows := allData (updateFilter st).2 in
  exists visible,
    visibleIndices (updateFilter st).2 = Some visible /\
    (forall idx, idx ∈ visible <->
       0 <= idx < Z.of_nat (length (allData st)) /\
       within_range r (row_value rows idx "age") /\
       forall g, g ∈ [] ++ [new_filter "filter_3"] -> filter_test rows g idx = true) /\
    (forall idx, idx ∈ visible ->
       row_value rows idx "age" <> VUndefined /\
       row_value rows idx "age" <> VNull /\
       row_value rows idx "age" <> VNum NaN) /\
    ((forall g, g ∈ [] ++ [new_filter "filter_3"] -> f_attribute g = "" \/ f_type g = None) ->
     forall idx, idx ∈ visible <->
       0 <= idx < Z.of_nat (length (allData st)) /\
       within_range r (row_value rows idx "age")).
Proof.
  apply (continuous_filter_visible
           (example_session 6 [range_filter "age" 2 5; new_filter "filter_3"])
           [] (range_filter "age" 2 5) [new_filter "filter_3"]); try reflexivity; try done.
Defined.

(** The categorical filter of the specification: the values A and B
    selected, over the values A, C, B, A. *)
Example categorical_filter_example :
  visibleIndices (updateFilter (example_session 4 [values_filter "kind" ["A"; "B"]])).2
  = Some [0; 2; 3].
Proof. vm_compute. reflexivity. Qed.

(** C5 as stated fails: with no value selected the filter is skipped, and
    every row stays visible. *)
Lemma categorical_filter_empty_selection :
  f_values (values_filter "kind" []) = Some ∅ /\
  visibleIndices (updateFilter (example_session 4 [values_filter "kind" []])).2
  = Some [0; 1; 2; 3] /\
  visibleIndices (updateFilter (example_session 4 [values_filter "kind" []])).2 <> Some [].
Proof. split; [done|]. split; [vm_compute; reflexivity|]. vm_compute. discriminate. Qed.

Lemma categorical_filter_visible_witness :
  let st := example_session 4 [new_filter "filter_3"; values_filter "kind" ["A"; "B"]] in
  let s : gset string := list_to_set ["A"; "B"] in
  let rows := allData (updateFilter st).2 in
  exists visible,
    visibleIndices (updateFilter st).2 = Some visible /\
    (s <> ∅ ->
     forall idx, idx ∈ visible <->
       0 <= idx < Z.of_nat (length (allData st)) /\
       selected s (row_value rows idx "kind") /\
       forall g, g ∈ [new_filter "filter_3"] ++ [] -> filter_test rows g idx = true) /\
    (s = ∅ ->
     forall idx, idx ∈ visible <->
       0 <= idx < Z.of_nat (length (allData st)) /\
       forall g, g ∈ [new_filter "filter_3"] ++ [] -> filter_test rows g idx = true) /\
    ((forall g, g ∈ [new_filter "filter_3"] ++ [] -> f_attribute g = "" \/ f_type g = None) ->
     (s <> ∅ ->
      forall idx, idx ∈ visible <->
        0 <= idx < Z.of_nat (length (allData st)) /\
        selected s (row_value rows idx "kind")) /\
     (s = ∅ -> visible = all_indices (length (allData st)))).
Proof.
  apply (categorical_filter_visible
           (example_session 4 [new_filter "filter_3"; values_filter "kind" ["A"; "B"]])
           [new_filter "filter_3"] (values_filter "kind" ["A"; "B"]) []);
    try reflexivity; try done.
Defined.

Lemma example_random_below i k : (0 < k)%nat -> (example_random i k < k)%nat.
Proof. intros Hk. apply Nat.mod_upper_bound. lia. Qed.

Example indicesToRender_example :
  indicesToRender example_random [0; 1; 2; 3; 4; 5; 6; 7; 8; 9] (Fin (1 # 2)) MAX_POINTS
  = Some [3; 2; 0; 6; 5].
Proof. vm_compute. reflexivity. Qed.

(** The count is that of the binary64 product: with the slider at 29 the
    rate is the binary64 number next to 0.29, and [createPointCloud] takes
    28 of 100 indices and 87 of 300. *)
Example indicesToRender_count_example :
  sampleRate_of (num_of_Z 29) = Fin (5224175567749775 # 18014398509481984) /\
  length <$> indicesToRender example_random (all_indices 100)
                             (sampleRate_of (num_of_Z 29)) MAX_POINTS = Some 28%nat /\
  length <$> indicesToRender example_random (all_indices 300)
                             (sampleRate_of (num_of_Z 29)) MAX_POINTS = Some 87%nat.
Proof. repeat split; vm_compute; reflexivity. Qed.

Lemma indicesToRender_sample_witness :
  exists selected,
    indicesToRender example_random (all_indices 100) (sampleRate_of (num_of_Z 29)) MAX_POINTS
    = Some selected /\
    length selected = 28%nat /\
    (forall x, x ∈ selected -> x ∈ all_indices 100) /\
    NoDup selected.
Proof.
  destruct (indicesToRender_sample example_random example_random_below (all_indices 100))
    as (Hsample & Hrate & Hcap).
  - apply sorted_NoDup, all_indices_sorted.
  - vm_compute. reflexivity.
  - destruct (Hrate (num_of_Z 29)) as (fraction & Hfraction & Hf0 & Hf1); [discriminate|].
    destruct (Hsample fraction 1000000 Hf0 Hf1)
      as (product & selected & Hproduct & Hselected & Hlength & Hsub & Hnd & _); [lia|].
    exists selected. rewrite Hfraction, Hcap.
    split; [exact Hselected|]. split; [|split; [exact Hsub|exact Hnd]].
    vm_compute in Hfraction. injection Hfraction as <-.
    vm_compute in Hproduct. injection Hproduct as <-.
    apply Nat2Z.inj. rewrite Hlength. vm_compute. reflexivity.
Defined.

(** C7 as stated fails: the code 5 is outside the two categories of [phase],
    and decoding returns [undefined] for it instead of failing. *)
Lemma loadCategoricalColumn_code_out_of_range :
  store_read example_store "obs/phase/codes" = Some (ints [0; 5; 1]) /\
  store_read example_store "obs/phase/categories" = Some (strs ["T"; "B"]) /\
  (loadCategoricalColumn example_store "obs/phase" (example_session 3 [])).1
  = Ok [VStr "T"; VUndefined; VStr "B"].
Proof. repeat split; vm_compute; reflexivity. Qed.

Lemma loadCategoricalColumn_decodes_witness :
  exists result,
    (loadCategoricalColumn example_store "obs/phase" (example_session 3 [])).1 = Ok result /\
    length result = length (ints [0; 5; 1]) /\
    forall i (k : Z), ints [0; 5; 1] !! i = Some (VNum (num_of_Z k)) ->
      (0 <= k < Z.of_nat (length (strs ["T"; "B"])) ->
       exists c, strs ["T"; "B"] !! Z.to_nat k = Some c /\ result !! i = Some c) /\
      (~ 0 <= k < Z.of_nat (length (strs ["T"; "B"])) -> result !! i = Some VUndefined).
Proof.
  apply (loadCategoricalColumn_decodes example_store "obs/phase" (example_session 3 [])
           (array1 (ints [0; 5; 1])) (array1 (strs ["T"; "B"])));
    vm_compute; reflexivity.
Defined.


(** A column of an embedding stored as one two-dimensional array is read
    as it is, one value per row of the array; a column that the array does
    not have makes the library throw, and the chunk path gives zeros. *)
Example loadCoordinateValues_array_example :
  (loadCoordinateValues 9 array_store (array_source 1) 5 (example_session 5 [])).1
  = Ok (ints [2; 4; 6]) /\
  (loadCoordinateValues 9 array_store (array_source 2) 5 (example_session 5 [])).1
  = Ok (ints [0; 0; 0; 0; 0]).
Proof. split; vm_compute; reflexivity. Qed.

(** Two chunks of three values in all, padded to five cells. *)
Example loadCoordinateValues_chunks_example :
  (loadCoordinateValues 9 example_store chunked_source 5 (example_session 5 [])).1
  = Ok (ints [7; 8; 9; 0; 0]).
Proof. vm_compute. reflexivity. Qed.


Lemma updateFilter_visible_indices_witness :
  let st := example_session 6 [range_filter "age" 2 5] in
  visible_ok (length (allData st)) (visibleIndices (init_visibleIndices st)) /\
  ((updateFilter st).1 = Ok tt ->
   visible_ok (length (allData (updateFilter st).2)) (visibleIndices (updateFilter st).2)) /\
  (visible_ok (length (allData st)) (visibleIndices st) ->
   visible_ok (length (allData (updateFilter st).2)) (visibleIndices (updateFilter st).2)).
Proof.
  apply (updateFilter_visible_indices (example_session 6 [range_filter "age" 2 5])).
  reflexivity.
Defined.

Lemma numeric_fetch_failure_zero_range_witness :
  let st := example_session 4 [] in
  (ensureColumnLoaded "depth" st).1 = Ok tt /\
  length (allData (ensureColumnLoaded "depth" st).2) = 4%nat /\
  (forall i row, allData (ensureColumnLoaded "depth" st).2 !! i = Some row ->
     row !! "depth" = Some (VNum (Fin 0))) /\
  "depth" ∈ loadedColumns (ensureColumnLoaded "depth" st).2 /\
  continuousRanges (ensureColumnLoaded "depth" st).2 !! "depth" = Some zero_range.
Proof.
  destruct (numeric_fetch_failure_zero_range (example_session 4 []) "depth" example_store
              {| cm_type := "continuous"; cm_encodingType := "array"; cm_path := "depth" |})
    as (Hok & Hlength & Hrows & Hloaded & Hrange).
  - apply not_elem_of_empty.
  - reflexivity.
  - vm_compute. reflexivity.
  - reflexivity.
  - done.
  - vm_compute. reflexivity.
  - right. vm_compute. reflexivity.
  - split; [exact Hok|]. split; [exact Hlength|]. split; [exact Hrows|].
    split; [exact Hloaded|]. by apply Hrange.
Defined.

End Examples.

(** * Further properties of the data access layer *)

(** ** The gene resolver: unknown genes and the array cache *)

Section GeneCache.
Context `{Builtins}.

Lemma indexOf_None geneNames geneName :
  geneName ∉ geneNames -> indexOf geneNames geneName = None.
Proof.
  induction geneNames as [|g rest IH]; [done|]. intros Hn. simpl.
  destruct (String.eqb_spec g geneName) as [->|Hne]; [set_solver|].
  rewrite IH; [done|set_solver].
Qed.

Lemma indexOf_Some geneNames geneName i :
  indexOf geneNames geneName = Some i -> geneNames !! i = Some geneName.
Proof.
  revert i. induction geneNames as [|g rest IH]; intros i; [done|]. simpl.
  destruct (String.eqb_spec g geneName) as [->|Hne]; [by intros [= <-]|].
  destruct (indexOf rest geneName) as [j|]; [|done]. intros [= <-]. by apply IH.
Qed.

(** The part of [getGeneExpression] after the cache block fetches at most
    the two slices, and returns a vector when it returns. *)
Lemma gene_tail_log (c : cached_arrays) (start stop : value) result st1 :
  exists o evs,
    (if js_gt stop start then
       geneIndices <- zarr_get_slice (ca_indicesArr c) start stop ;;
       geneData <- zarr_get_slice (ca_dataArr c) start stop ;;
       ret (Some (scatter geneIndices geneData result))
     else ret (Some result)) st1 = (o, add_log evs st1) /\
    Forall is_slice_fetch evs /\ (length evs <= 2)%nat /\
    o <> Ok None /\ o <> OutOfFuel.
Proof.
  destruct (js_gt stop start).
  - unfold bind. rewrite !zarr_get_slice_run.
    destruct (za_data (h_array (ca_indicesArr c))) as [d|]; simpl.
    2:{ eexists _, [_]. split; [reflexivity|]. repeat split; try done.
        - by repeat constructor.
        - simpl. lia. }
    destruct (index_of_value start), (index_of_value stop); simpl;
      try (eexists _, [_]; split; [reflexivity|]; repeat split; try done;
           [by repeat constructor|simpl; lia]).
    rewrite add_log_app.
    destruct (za_data (h_array (ca_dataArr c))); simpl;
      eexists _, [_; _]; (split; [reflexivity|]); repeat split; try done;
      by repeat constructor.
  - exists (Ok (Some result)), []. repeat split; try done. simpl. lia.
Qed.

Lemma ensure_cached_Ok root st c st1 :
  ensure_cached root st = (Ok c, st1) -> cachedZarrArrays st1 = Some c.
Proof.
  unfold ensure_cached. destruct (cachedZarrArrays st) as [c0|] eqn:Hc.
  { by intros [= <- <-]. }
  unfold bind. rewrite zarr_open_run.
  destruct (root !! "X/indptr") as [ip|]; simpl; [|done].
  rewrite zarr_open_run. destruct (root !! "X/indices") as [ia|]; simpl; [|done].
  rewrite zarr_open_run. destruct (root !! "X/data") as [da|]; simpl; [|done].
  rewrite zarr_get_run. simpl. destruct (za_data ip); simpl; [|done].
  by intros [= <- <-].
Qed.

(** With the arrays cached, a call adds slice fetches to the log and
    changes nothing else. *)
Lemma getGeneExpression_cached_run st geneName c :
  cachedZarrArrays st = Some c ->
  exists evs,
    (getGeneExpression geneName st).2 = add_log evs st /\
    Forall is_slice_fetch evs /\ (length evs <= 2)%nat.
Proof.
  intros Hc. unfold getGeneExpression.
  destruct (sm_geneNames (sparseMatrix st)) as [geneNames|];
    [|by exists []; repeat split; simpl; try lia].
  destruct (zarrRoot st) as [root|]; [|by exists []; repeat split; simpl; try lia].
  destruct (indexOf geneNames geneName) as [geneIdx|];
    [|by exists []; repeat split; simpl; try lia].
  destruct (sm_shape (sparseMatrix st)) as [shape|];
    [|by exists []; repeat split; simpl; try lia].
  unfold bind at 1. unfold ensure_cached at 1. rewrite Hc. cbn [ret].
  destruct (gene_tail_log c (default VUndefined (ca_indptr c !! geneIdx))
              (default VUndefined (ca_indptr c !! S geneIdx))
              (replicate (default 0%nat (shape !! 0%nat)) (Fin 0)) st)
    as (o & evs & -> & Hevs & Hlen & _).
  by exists evs.
Qed.

(** A call that returns a vector leaves the arrays cached. *)
Lemma getGeneExpression_fills_cache st geneName result :
  (getGeneExpression geneName st).1 = Ok (Some result) ->
  is_Some (cachedZarrArrays (getGeneExpression geneName st).2).
Proof.
  destruct (getGeneExpression geneName st) as [o st'] eqn:Hg. cbn [fst snd]. intros ->.
  unfold getGeneExpression in Hg.
  destruct (sm_geneNames (sparseMatrix st)) as [geneNames|]; [|done].
  destruct (zarrRoot st) as [root|]; [|done].
  destruct (indexOf geneNames geneName) as [geneIdx|]; [|done].
  destruct (sm_shape (sparseMatrix st)) as [shape|]; [|done].
  unfold bind at 1 in Hg.
  destruct (ensure_cached root st) as [[c| |] st1] eqn:Hrun; [|done|done].
  apply ensure_cached_Ok in Hrun. cbv zeta in Hg.
  destruct (gene_tail_log c (default VUndefined (ca_indptr c !! geneIdx))
              (default VUndefined (ca_indptr c !! S geneIdx))
              (replicate (default 0%nat (shape !! 0%nat)) (Fin 0)) st1)
    as (o & evs & Htail & _).
  rewrite Htail in Hg. injection Hg as _ <-.
  destruct (add_log_fields evs st1) as [(_ & Hcache & _) _]. rewrite Hcache. by rewrite Hrun.
Qed.

(** X1. [getGeneExpression] returns [null] exactly when the gene names or the
    store are not loaded yet, or the name is not among the gene names; in
    each of these cases it asks nothing of the store and leaves the state,
    the array cache included, as it is. *)
Theorem getGeneExpression_absent_gene st geneName :
  let absent :=
    sm_geneNames (sparseMatrix st) = None \/ zarrRoot st = None \/
    exists geneNames,
      sm_geneNames (sparseMatrix st) = Some geneNames /\ geneName ∉ geneNames in
  (absent -> getGeneExpression geneName st = (Ok None, st)) /\
  ((getGeneExpression geneName st).1 = Ok None -> absent).
Proof.
  cbv zeta. split.
  - intros Hcase. unfold getGeneExpression.
    destruct Hcase as [-> | [Hroot | (geneNames & -> & Hn)]]; [done| |].
    + rewrite Hroot. by destruct (sm_geneNames _).
    + destruct (zarrRoot st); [|done]. by rewrite indexOf_None.
  - unfold getGeneExpression.
    destruct (sm_geneNames (sparseMatrix st)) as [geneNames|]; [|by left].
    destruct (zarrRoot st) as [root|]; [|by right; left].
    destruct (indexOf geneNames geneName) as [geneIdx|] eqn:Hidx.
    + destruct (sm_shape (sparseMatrix st)) as [shape|]; [|done].
      unfold bind at 1.
      destruct (ensure_cached root st) as [[c| |] st1]; [|done|done].
      destruct (gene_tail_log c (default VUndefined (ca_indptr c !! geneIdx))
              (default VUndefined (ca_indptr c !! S geneIdx))
              (replicate (default 0%nat (shape !! 0%nat)) (Fin 0)) st1)
        as (o & evs & -> & _ & _ & Hne & _). done.
    + intros _. right. right. exists geneNames. split; [done|].
      intros Hin. apply list_elem_of_lookup in Hin as [i Hi].
      clear -Hidx Hi. revert i Hi.
      induction geneNames as [|g rest IH]; intros i Hi; [done|].
      simpl in Hidx. destruct (String.eqb_spec g geneName) as [|Hne]; [done|].
      destruct i as [|i]; simpl in Hi; [congruence|].
      destruct (indexOf rest geneName); [done|]. by eapply IH.
Qed.

(** X2. Once a call of [getGeneExpression] has returned a vector, the three
    arrays of the matrix are cached: any further call, for whatever gene,
    opens no array and does not read [indptr] again.  It fetches at most the
    two slices of its gene, and changes nothing else in the state. *)
Theorem getGeneExpression_fetches_once st geneName geneName' result :
  (getGeneExpression geneName st).1 = Ok (Some result) ->
  exists evs,
    (getGeneExpression geneName' (getGeneExpression geneName st).2).2
    = add_log evs (getGeneExpression geneName st).2 /\
    Forall is_slice_fetch evs /\ (length evs <= 2)%nat.
Proof.
  intros Hrun. destruct (getGeneExpression_fills_cache st geneName result Hrun) as [c Hc].
  by eapply getGeneExpression_cached_run.
Qed.

End GeneCache.

(** ** The column loader: what a call leaves behind *)

Section ColumnFacts.
Context `{Builtins}.

Lemma ensureColumnLoaded_skip st colName :
  skipped st colName -> ensureColumnLoaded colName st = (Ok tt, st).
Proof.
  unfold skipped, load_plan_of, ensureColumnLoaded.
  destruct (bool_decide (colName ∈ loadedColumns st)); [done|].
  destruct (zarrRoot st) as [root|]; [|done].
  destruct (columnMetadata st !! colName) as [metadata|]; [|done].
  destruct (String.eqb (cm_encodingType metadata) "categorical").
  - destruct (cat_read root ("obs/" +:+ colName)); intros [|]; done.
  - intros [|]; done.
Qed.

Lemma skipped_loaded st colName : colName ∈ loadedColumns st -> skipped st colName.
Proof. intros Hin. left. unfold load_plan_of. by rewrite bool_decide_eq_true_2. Qed.

(** After a call that ends normally, a further call for the column returns
    at once. *)
Lemma skipped_after_Ok st colName :
  (ensureColumnLoaded colName st).1 = Ok tt ->
  skipped (ensureColumnLoaded colName st).2 colName.
Proof.
  destruct (ensureColumnLoaded_spec colName st) as (st' & Hrun & Hf & Hr & Hl).
  rewrite Hrun. cbn [fst snd]. intros Hok.
  destruct Hf as (Hroot & _ & _ & Hmeta & _).
  destruct (load_plan_of st colName) eqn:Hplan; cbn [plan_outcome plan_loaded] in *.
  - apply skipped_loaded. rewrite Hl. unfold load_plan_of in Hplan.
    destruct (bool_decide (colName ∈ loadedColumns st)) eqn:Hb.
    + by apply bool_decide_eq_true in Hb.
    + destruct (zarrRoot st), (columnMetadata st !! colName); try done.
      destruct (String.eqb _ _); [by destruct (cat_read _ _)|done].
  - right. unfold load_plan_of in *. rewrite Hl, Hroot, Hmeta.
    destruct (bool_decide (colName ∈ loadedColumns st)); [done|].
    destruct (zarrRoot st), (columnMetadata st !! colName); try done.
    destruct (String.eqb _ _); [by destruct (cat_read _ _)|done].
  - apply skipped_loaded. rewrite Hl. set_solver.
  - apply skipped_loaded. rewrite Hl. destruct (allData st); [set_solver|done].
Qed.

(** A column that a call would skip is skipped after a call for any column. *)
Lemma skipped_stable st c d :
  skipped st c -> skipped (ensureColumnLoaded d st).2 c.
Proof.
  destruct (ensureColumnLoaded_spec d st) as (st' & -> & Hf & _ & Hl). cbn [snd].
  destruct Hf as (Hroot & _ & _ & Hmeta & _).
  assert (Hsub : loadedColumns st ⊆ loadedColumns st').
  { rewrite Hl. destruct (load_plan_of st d); cbn [plan_loaded]; try set_solver.
    destruct (allData st); set_solver. }
  unfold skipped, load_plan_of. rewrite Hroot, Hmeta.
  destruct (bool_decide (c ∈ loadedColumns st')) eqn:Hb'; [by left|].
  apply bool_decide_eq_false in Hb'.
  rewrite bool_decide_eq_false_2 by set_solver.
  destruct (zarrRoot st), (columnMetadata st !! c) as [metadata|]; try (by right).
  destruct (String.eqb _ _); [by destruct (cat_read _ _); intros [|]|by intros [|]].
Qed.

(** X3. A call of [ensureColumnLoaded] that ends normally is not repeated:
    a second call for the same column returns at once, without asking the
    store for anything and without changing the state. *)
Theorem ensureColumnLoaded_once st colName :
  (ensureColumnLoaded colName st).1 = Ok tt ->
  ensureColumnLoaded colName (ensureColumnLoaded colName st).2
  = (Ok tt, (ensureColumnLoaded colName st).2).
Proof. intros Hok. by apply ensureColumnLoaded_skip, skipped_after_Ok. Qed.

(** X4. Whatever way a call of [ensureColumnLoaded] ends, it keeps the number
    of rows and, in every row, the fields of all other columns; it marks no
    column as loaded but its own, unmarks none, and leaves the column
    metadata, the filters and the visible indices alone. *)
Theorem ensureColumnLoaded_other_columns st colName :
  length (allData (ensureColumnLoaded colName st).2) = length (allData st) /\
  (forall i row', allData (ensureColumnLoaded colName st).2 !! i = Some row' ->
     exists row, allData st !! i = Some row /\
                 forall d, d <> colName -> row' !! d = row !! d) /\
  loadedColumns st ⊆ loadedColumns (ensureColumnLoaded colName st).2 /\
  loadedColumns (ensureColumnLoaded colName st).2 ⊆ {[ colName ]} ∪ loadedColumns st /\
  columnMetadata (ensureColumnLoaded colName st).2 = columnMetadata st /\
  activeFilters (ensureColumnLoaded colName st).2 = activeFilters st /\
  visibleIndices (ensureColumnLoaded colName st).2 = visibleIndices st.
Proof.
  destruct (ensureColumnLoaded_spec colName st) as (st' & -> & Hf & Hr & Hl). cbn [snd].
  destruct Hf as (_ & _ & _ & Hmeta & Hfs & Hvis & Hlen).
  split; [done|]. split; [|split; [|split; [|done]]].
  - intros i row' Hi. rewrite Hr in Hi.
    destruct (load_plan_of st colName); cbn [plan_rows] in Hi;
      try (exists row'; by split).
    unfold write_column in Hi. rewrite list_lookup_imap in Hi.
    destruct (allData st !! i) as [row|]; [|done]. simpl in Hi. injection Hi as <-.
    exists row. split; [done|]. intros d Hd. by rewrite lookup_insert_ne.
  - rewrite Hl. destruct (load_plan_of st colName); cbn [plan_loaded]; try set_solver.
    destruct (allData st); set_solver.
  - rewrite Hl. destruct (load_plan_of st colName); cbn [plan_loaded]; try set_solver.
    destruct (allData st); set_solver.
Qed.

(** The run of [ensureColumnLoaded] for a column whose values the try block
    gets: the state at the end of the try block. *)
Lemma ensureColumnLoaded_stored st colName root metadata values :
  colName ∉ loadedColumns st ->
  zarrRoot st = Some root ->
  columnMetadata st !! colName = Some metadata ->
  column_values root metadata colName (length (allData st)) = Some values ->
  exists evs,
    ensureColumnLoaded colName st
    = (Ok tt,
       stored colName (String.eqb (cm_type metadata) "continuous") values (add_log evs st)).
Proof.
  intros Hl Hroot Hmeta Hvalues. unfold ensureColumnLoaded.
  rewrite bool_decide_eq_false_2 by done. rewrite Hroot, Hmeta.
  unfold column_values in Hvalues.
  set (isNumericData := String.eqb (cm_type metadata) "continuous") in *.
  destruct (String.eqb (cm_encodingType metadata) "categorical").
  - destruct (loadCategoricalColumn_run root ("obs/" +:+ colName) st) as (evs & e & Hload).
    rewrite Hvalues in Hload. exists evs.
    apply try_catch_Ok. eapply bind_Ok; [exact Hload|].
    pose proof (store_tail_run colName isNumericData values (add_log evs st)) as Htail.
    destruct (add_log_fields evs st) as (_ & Hr & _). rewrite Hr in Htail. exact Htail.
  - destruct (loadZarrArray_run root ("obs/" +:+ colName) st) as (evs & e & Hload).
    exists evs. injection Hvalues as <-.
    destruct (add_log_fields evs st) as (_ & Hr & _).
    destruct (store_read root ("obs/" +:+ colName)) as [d|]; cbn [default].
    + pose proof (store_tail_run colName isNumericData d (add_log evs st)) as Htail.
      rewrite Hr in Htail.
      apply try_catch_Ok. eapply bind_Ok; [|exact Htail].
      apply try_catch_Ok. exact Hload.
    + pose proof (store_tail_run colName isNumericData
                    (replicate (length (allData st)) (default_value isNumericData))
                    (add_log evs st)) as Htail.
      rewrite Hr in Htail.
      apply try_catch_Ok. eapply bind_Ok; [|exact Htail].
      eapply try_catch_Throw; [exact Hload|reflexivity].
Qed.

(** The rows after the try block: row [i] holds the stored number, or the
    stored string. *)
Lemma stored_cells colName (isNumericData : bool) values st0 :
  let st' := stored colName isNumericData values st0 in
  (forall i row, allData st' !! i = Some row ->
     (i < length (allData st0))%nat /\
     row !! colName
     = Some (if isNumericData then VNum (numeric_value values i)
             else VStr (categorical_value values i))) /\
  (forall i, (i < length (allData st0))%nat -> is_Some (allData st' !! i)).
Proof.
  cbv zeta. destruct (stored_fields colName isNumericData values st0) as (_ & Hrows & _).
  split.
  - intros i row Hi. rewrite Hrows in Hi. unfold write_column in Hi.
    rewrite list_lookup_imap in Hi.
    destruct (allData st0 !! i) as [row0|] eqn:Hrow0; [|done].
    simpl in Hi. injection Hi as <-. split; [by eapply lookup_lt_Some|].
    rewrite lookup_insert_eq. by destruct isNumericData.
  - intros i Hi. apply lookup_lt_is_Some_2. rewrite Hrows. unfold write_column.
    by rewrite length_imap.
Qed.

Lemma num_le_refl x : x <> NaN -> num_le x x = true.
Proof. destruct x as [| | |q]; try done. intros _. apply Qle_bool_iff, Qle_refl. Qed.

Lemma num_le_trans x y z : num_le x y = true -> num_le y z = true -> num_le x z = true.
Proof.
  destruct x as [| | |p], y as [| | |q], z as [| | |r]; try done. simpl.
  rewrite !Qle_bool_iff. apply Qle_trans.
Qed.

Lemma num_le_total x y : x <> NaN -> y <> NaN -> num_le x y = false -> num_le y x = true.
Proof.
  destruct x as [| | |p], y as [| | |q]; try done. simpl. intros _ _ Hf.
  apply Qle_bool_iff, Qlt_le_weak. by apply Qle_bool_false.
Qed.

Lemma Math_min_cases a x :
  a <> NaN -> x <> NaN ->
  (Math_min a x = a \/ Math_min a x = x) /\
  num_le (Math_min a x) a = true /\ num_le (Math_min a x) x = true.
Proof.
  intros Ha Hx. unfold Math_min.
  destruct (num_le a x) eqn:Hle.
  - destruct a, x; try done; (split; [by left|]); split; try done; by apply num_le_refl.
  - pose proof (num_le_total a x Ha Hx Hle) as Hle'.
    destruct a, x; try done; (split; [by right|]); split; try done; by apply num_le_refl.
Qed.

Lemma Math_max_cases a x :
  a <> NaN -> x <> NaN ->
  (Math_max a x = a \/ Math_max a x = x) /\
  num_le a (Math_max a x) = true /\ num_le x (Math_max a x) = true.
Proof.
  intros Ha Hx. unfold Math_max.
  destruct (num_le x a) eqn:Hle.
  - destruct a, x; try done; (split; [by left|]); split; try done; by apply num_le_refl.
  - pose proof (num_le_total x a Hx Ha Hle) as Hle'.
    destruct a, x; try done; (split; [by right|]); split; try done; by apply num_le_refl.
Qed.

Lemma Math_min_PosInf x : x <> NaN -> Math_min PosInf x = x.
Proof. by destruct x. Qed.

Lemma Math_max_NegInf x : x <> NaN -> Math_max NegInf x = x.
Proof. by destruct x. Qed.

Lemma Math_min_not_NaN a x : a <> NaN -> x <> NaN -> Math_min a x <> NaN.
Proof. intros Ha Hx. destruct (Math_min_cases a x Ha Hx) as [[-> | ->] _]; done. Qed.

Lemma Math_max_not_NaN a x : a <> NaN -> x <> NaN -> Math_max a x <> NaN.
Proof. intros Ha Hx. destruct (Math_max_cases a x Ha Hx) as [[-> | ->] _]; done. Qed.

Lemma numeric_step_range colName values k st :
  continuousRanges (numeric_step colName values k st)
  = if negb (isNaN (numeric_value values k))
    then alter (fun r => {| range_min := Math_min (range_min r) (numeric_value values k);
                            range_max := Math_max (range_max r) (numeric_value values k) |})
               colName (continuousRanges st)
    else continuousRanges st.
Proof.
  unfold numeric_step, numeric_value.
  destruct (default VUndefined (values !! k)); cbn [set_cell];
    by destruct (negb (isNaN _)).
Qed.

(** The range summary after [k] rounds of the numeric loop, started from the
    initial summary: it brackets the numbers stored so far, and its bounds
    are among them. *)
Lemma numeric_loop_range colName values k st :
  continuousRanges st !! colName = Some initial_range ->
  exists r,
    continuousRanges (fold_left (fun s i => numeric_step colName values i s) (seq 0 k) st)
      !! colName = Some r /\
    range_min r <> NaN /\ range_max r <> NaN /\
    (forall i, (i < k)%nat -> numeric_value values i <> NaN ->
       num_le (range_min r) (numeric_value values i) = true /\
       num_le (numeric_value values i) (range_max r) = true) /\
    ((r = initial_range /\ forall i, (i < k)%nat -> numeric_value values i = NaN) \/
     ((exists a, (a < k)%nat /\ numeric_value values a <> NaN /\
                 range_min r = numeric_value values a) /\
      (exists b, (b < k)%nat /\ numeric_value values b <> NaN /\
                 range_max r = numeric_value values b))).
Proof.
  intros Hinit. induction k as [|k IH].
  - exists initial_range. simpl. repeat split; try done; try (intros; lia).
    left. split; [done|]. intros; lia.
  - destruct IH as (r & Hr & Hmin & Hmax & Hbound & Hcase).
    rewrite seq_S, fold_left_app. cbn [fold_left Nat.add].
    rewrite numeric_step_range.
    set (x := numeric_value values k).
    assert (Hdec : x = NaN \/ x <> NaN) by (destruct x; auto).
    destruct Hdec as [Hx|Hx].
    + rewrite Hx. cbn [isNaN negb]. exists r. split; [done|]. split; [done|]. split; [done|].
      split.
      * intros i Hi Hxi. destruct (decide (i = k)) as [->|]; [done|]. apply Hbound; [lia|done].
      * destruct Hcase as [[-> Hall] | [(a & Ha & Hxa & Hra) (b & Hb & Hxb & Hrb)]].
        -- left. split; [done|]. intros i Hi.
           destruct (decide (i = k)) as [->|]; [done|]. apply Hall. lia.
        -- right. split; [exists a|exists b]; repeat split; try done; lia.
    + replace (negb (isNaN x)) with true by (by destruct x).
      rewrite lookup_alter_eq, Hr. cbn [fmap option_fmap option_map].
      destruct (Math_min_cases (range_min r) x Hmin Hx) as (Hmc & Hm1 & Hm2).
      destruct (Math_max_cases (range_max r) x Hmax Hx) as (HMc & HM1 & HM2).
      eexists. split; [reflexivity|]. cbn [range_min range_max].
      split; [by apply Math_min_not_NaN|]. split; [by apply Math_max_not_NaN|]. split.
      * intros i Hi Hxi. destruct (decide (i = k)) as [->|Hne]; [by split|].
        destruct (Hbound i ltac:(lia) Hxi) as [Hlo Hhi].
        split; [exact (num_le_trans _ _ _ Hm1 Hlo)|exact (num_le_trans _ _ _ Hhi HM1)].
      * right.
        destruct Hcase as [[-> Hall] | [(a & Ha & Hxa & Hra) (b & Hb & Hxb & Hrb)]].
        -- cbn [range_min range_max initial_range].
           rewrite (Math_min_PosInf x Hx), (Math_max_NegInf x Hx).
           split; exists k; repeat split; try done; lia.
        -- split.
           ++ destruct Hmc as [-> | ->]; [exists a|exists k]; repeat split; try done; lia.
           ++ destruct HMc as [-> | ->]; [exists b|exists k]; repeat split; try done; lia.
Qed.

(** The range summary at the end of the try block, for a numeric column
    whose summary was absent or initial before. *)
Lemma stored_range colName values st0 :
  (continuousRanges st0 !! colName = None \/
   continuousRanges st0 !! colName = Some initial_range) ->
  exists r,
    continuousRanges (stored colName true values st0) !! colName = Some r /\
    range_min r <> NaN /\ range_max r <> NaN /\
    (forall i, (i < length (allData st0))%nat -> numeric_value values i <> NaN ->
       num_le (range_min r) (numeric_value values i) = true /\
       num_le (numeric_value values i) (range_max r) = true) /\
    ((r = initial_range /\
      forall i, (i < length (allData st0))%nat -> numeric_value values i = NaN) \/
     ((exists a, (a < length (allData st0))%nat /\ numeric_value values a <> NaN /\
                 range_min r = numeric_value values a) /\
      (exists b, (b < length (allData st0))%nat /\ numeric_value values b <> NaN /\
                 range_max r = numeric_value values b))).
Proof.
  intros Hrange.
  assert (Hinit : continuousRanges (init_range colName st0) !! colName = Some initial_range).
  { unfold init_range. destruct Hrange as [Hnone|Hsome].
    - rewrite Hnone. simpl. apply lookup_insert_eq.
    - by rewrite Hsome. }
  destruct (numeric_loop_range colName values (length (allData st0)) _ Hinit)
    as (r & Hr & Hrest).
  exists r. split; [|exact Hrest].
  unfold stored. cbn [add_loaded set_loadedColumns continuousRanges]. exact Hr.
Qed.

(** X5. When [ensureColumnLoaded] loads a continuous column whose range
    summary was absent or the initial [{min: Infinity, max: -Infinity}],
    every row gets a number for the column, and the summary becomes the
    exact range of the numbers that are not [NaN]: it brackets each of them,
    its two bounds are values of rows, and it stays the initial summary when
    every row holds [NaN] (or there is no row). *)
Theorem numeric_column_range st colName root metadata values :
  colName ∉ loadedColumns st ->
  zarrRoot st = Some root ->
  columnMetadata st !! colName = Some metadata ->
  cm_type metadata = "continuous" ->
  column_values root metadata colName (length (allData st)) = Some values ->
  (continuousRanges st !! colName = None \/
   continuousRanges st !! colName = Some initial_range) ->
  (ensureColumnLoaded colName st).1 = Ok tt /\
  exists r,
    continuousRanges (ensureColumnLoaded colName st).2 !! colName = Some r /\
    (forall i row, allData (ensureColumnLoaded colName st).2 !! i = Some row ->
       exists x, row !! colName = Some (VNum x) /\
                 (x <> NaN -> num_le (range_min r) x = true /\ num_le x (range_max r) = true)) /\
    ((forall i row, allData (ensureColumnLoaded colName st).2 !! i = Some row ->
        row !! colName = Some (VNum NaN)) ->
     r = initial_range) /\
    (forall i row x, allData (ensureColumnLoaded colName st).2 !! i = Some row ->
       row !! colName = Some (VNum x) -> x <> NaN ->
       (exists a rowa, allData (ensureColumnLoaded colName st).2 !! a = Some rowa /\
                       rowa !! colName = Some (VNum (range_min r))) /\
       (exists b rowb, allData (ensureColumnLoaded colName st).2 !! b = Some rowb /\
                       rowb !! colName = Some (VNum (range_max r)))).
Proof.
  intros Hl Hroot Hmeta Htype Hvalues Hrange.
  destruct (ensureColumnLoaded_stored st colName root metadata values) as (evs & Hrun);
    try done.
  rewrite Hrun, Htype. change (String.eqb "continuous" "continuous") with true.
  cbn [fst snd]. split; [done|].
  destruct (add_log_fields evs st) as (_ & Hr0 & _ & Hranges & _).
  destruct (stored_cells colName true values (add_log evs st)) as [Hcell Hrow].
  destruct (stored_range colName values (add_log evs st)) as (r & Hr & _ & _ & Hbound & Hcase).
  { by rewrite Hranges. }
  rewrite Hr0 in Hcell, Hrow, Hbound, Hcase.
  exists r. split; [done|]. split; [|split].
  - intros i row Hi. destruct (Hcell i row Hi) as [Hlt Hc].
    exists (numeric_value values i). split; [done|]. intros Hx. by apply Hbound.
  - intros Hall. destruct Hcase as [[-> _]|[(a & Ha & Hxa & _) _]]; [done|].
    destruct (Hrow a Ha) as [row Hi]. destruct (Hcell a row Hi) as [_ Hc].
    specialize (Hall a row Hi). rewrite Hc in Hall. by injection Hall.
  - intros i row x Hi Hx Hnan. destruct (Hcell i row Hi) as [Hlt Hc].
    rewrite Hc in Hx. injection Hx as <-.
    destruct Hcase as [[_ Hall]|[(a & Ha & _ & Hra) (b & Hb & _ & Hrb)]].
    { by specialize (Hall i Hlt). }
    destruct (Hrow a Ha) as [rowa Hia]. destruct (Hrow b Hb) as [rowb Hib].
    split.
    + exists a, rowa. split; [done|]. rewrite Hra. by apply (Hcell a rowa).
    + exists b, rowb. split; [done|]. rewrite Hrb. by apply (Hcell b rowb).
Qed.

Lemma categorical_step_values colName values k st :
  attributeValues (categorical_step colName values k st)
  = if negb (String.eqb (categorical_value values k) "")
    then alter (fun s => {[ categorical_value values k ]} ∪ s) colName (attributeValues st)
    else attributeValues st.
Proof.
  unfold categorical_step, categorical_value. cbv zeta.
  by destruct (negb (String.eqb _ "")).
Qed.

(** The value set after [k] rounds of the categorical loop: the strings
    stored so far that are not empty have been added. *)
Lemma categorical_loop_values colName values k st s0 :
  attributeValues st !! colName = Some s0 ->
  exists s,
    attributeValues (fold_left (fun s i => categorical_step colName values i s) (seq 0 k) st)
      !! colName = Some s /\
    forall x, x ∈ s <->
      x ∈ s0 \/ (x <> "" /\ exists i, (i < k)%nat /\ categorical_value values i = x).
Proof.
  intros Hinit. induction k as [|k IH].
  - exists s0. split; [done|]. intros x. split; [by left|].
    intros [|(_ & i & Hi & _)]; [done|lia].
  - destruct IH as (s & Hs & Hmem).
    rewrite seq_S, fold_left_app. cbn [fold_left Nat.add].
    rewrite categorical_step_values.
    set (v := categorical_value values k).
    destruct (String.eqb_spec v "") as [Hv|Hv]; cbn [negb].
    + exists s. split; [done|]. intros x. rewrite Hmem. split.
      * intros [|(Hx & i & Hi & Hxi)]; [by left|]. right. split; [done|].
        exists i. split; [lia|done].
      * intros [|(Hx & i & Hi & Hxi)]; [by left|]. right. split; [done|].
        exists i. split; [|done]. destruct (decide (i = k)) as [->|]; [|lia].
        exfalso. apply Hx. rewrite <- Hxi. exact Hv.
    + rewrite lookup_alter_eq, Hs. cbn [fmap option_fmap option_map].
      eexists. split; [reflexivity|]. intros x. rewrite elem_of_union, elem_of_singleton, Hmem.
      split.
      * intros [-> | [|(Hx & i & Hi & Hxi)]]; [|by left|].
        -- right. split; [done|]. exists k. split; [lia|done].
        -- right. split; [done|]. exists i. split; [lia|done].
      * intros [|(Hx & i & Hi & Hxi)]; [by right; left|].
        destruct (decide (i = k)) as [->|]; [by left|].
        right. right. split; [done|]. exists i. split; [lia|done].
Qed.

(** The value set at the end of the try block, for a categorical column. *)
Lemma stored_values colName values st0 :
  exists s,
    attributeValues (stored colName false values st0) !! colName = Some s /\
    forall x, x ∈ s <->
      x ∈ default ∅ (attributeValues st0 !! colName) \/
      (x <> "" /\ exists i, (i < length (allData st0))%nat /\ categorical_value values i = x).
Proof.
  assert (Hinit : attributeValues (init_values colName st0) !! colName
                  = Some (default ∅ (attributeValues st0 !! colName))).
  { unfold init_values.
    destruct (attributeValues st0 !! colName) as [s0|] eqn:Hs0; [done|].
    simpl. apply lookup_insert_eq. }
  destruct (categorical_loop_values colName values (length (allData st0)) _ _ Hinit)
    as (s & Hs & Hmem).
  exists s. split; [|exact Hmem].
  unfold stored. cbn [add_loaded set_loadedColumns attributeValues]. exact Hs.
Qed.


End ColumnFacts.

(** ** [updateFilter]: unconfigured filters, conjunction, repeated runs *)

Section UpdateFilterMore.
Context `{Builtins}.

Lemma for_each_skip l st :
  Forall (skipped st) l -> for_each l ensureColumnLoaded st = (Ok tt, st).
Proof.
  induction 1 as [|c l Hc _ IH]; [done|].
  simpl. unfold bind. by rewrite (ensureColumnLoaded_skip st c Hc).
Qed.

Lemma for_each_skipped_stable l st c :
  skipped st c -> skipped (for_each l ensureColumnLoaded st).2 c.
Proof.
  revert st. induction l as [|d l IH]; intros st Hc; [done|].
  simpl. unfold bind.
  pose proof (skipped_stable st c d Hc) as Hd.
  destruct (ensureColumnLoaded d st) as [[[]|e|] s1]; cbn [fst snd] in *; try done.
  by apply IH.
Qed.

(** After a run of the loader over [l] that ends normally, no column of [l]
    is left to load. *)
Lemma for_each_loaded l st :
  (for_each l ensureColumnLoaded st).1 = Ok tt ->
  Forall (skipped (for_each l ensureColumnLoaded st).2) l.
Proof.
  revert st. induction l as [|c l IH]; intros st; [done|].
  simpl. unfold bind.
  pose proof (skipped_after_Ok st c) as Hp.
  destruct (ensureColumnLoaded c st) as [[[]|e|] s1]; cbn [fst snd] in *; [|done|done].
  intros Hok. apply Forall_cons. split; [|by apply IH].
  apply for_each_skipped_stable. by apply Hp.
Qed.

Lemma filter_ext_in {A} (P Q : A -> Prop) `{!forall x, Decision (P x)}
    `{!forall x, Decision (Q x)} (l : list A) :
  (forall x, x ∈ l -> (P x <-> Q x)) -> filter P l = filter Q l.
Proof.
  induction l as [|x l IH]; intros Hext; [done|].
  rewrite !filter_cons. rewrite IH by (intros y Hy; apply Hext; by right).
  destruct (decide (P x)) as [Hp|Hp], (decide (Q x)) as [Hq|Hq]; try done.
  - exfalso. apply Hq, Hext; [by left|done].
  - exfalso. apply Hp, Hext; [by left|done].
Qed.

(** With the columns of the filters [fs] loaded, [updateFilter] leaves the
    recomputed indices over the unchanged table. *)
Lemma updateFilter_loaded_run st fs :
  Z.of_nat (length (allData st)) < 2 ^ 32 ->
  Forall (fun col => col ∈ loadedColumns st) (filterColumns_of fs) ->
  (updateFilter (set_activeFilters fs st)).1 = Ok tt /\
  visibleIndices (updateFilter (set_activeFilters fs st)).2
  = Some (recompute (allData st) fs).
Proof.
  intros Hlen Hl.
  destruct (updateFilter_loaded (set_activeFilters fs st) Hl) as [Hok Hrows].
  destruct (updateFilter_frame (set_activeFilters fs st)) as (_ & _ & _ & Hvis & _).
  split; [done|].
  rewrite (Hvis Hok), Hrows. cbn [allData activeFilters set_activeFilters].
  by rewrite uint32_recompute.
Qed.

(** X7. Filters that are not configured (no attribute chosen, or no type:
    the state of a filter just added) restrict nothing: when every active
    filter is such, or there is none, the visible indices after
    [updateFilter] are all the row indices, in order. *)
Theorem updateFilter_unconfigured st :
  Forall (fun f => f_attribute f = "" \/ f_type f = None) (activeFilters st) ->
  Z.of_nat (length (allData st)) < 2 ^ 32 ->
  visibleIndices (updateFilter st).2 = Some (all_indices (length (allData st))).
Proof.
  intros Hfs Hlen. rewrite updateFilter_run.
  assert (Hcols : filterColumns_of (activeFilters st) = []).
  { unfold filterColumns_of. induction Hfs as [|f fs Hf _ IH]; [done|].
    rewrite filter_cons_False; [done|].
    intros [Ha [t Ht]]. destruct Hf as [Hf|Hf]; congruence. }
  rewrite Hcols. unfold ensureColumnsLoaded. cbn [filter list_filter].
  unfold ret. cbn [snd visibleIndices set_visibleIndices]. f_equal.
  rewrite uint32_recompute by done.
  rewrite recompute_filter.
  rewrite <- (filter_true (all_indices (length (allData st)))) at 2.
  apply list_filter_iff. intros idx. rewrite forallb_True, Forall_forall.
  split; [done|]. intros _ f Hf.
  eapply Forall_forall in Hfs; [|exact Hf].
  by rewrite filter_test_unconfigured.
Qed.

(** X8. Filters combine by conjunction: with the filter columns loaded, the
    indices that [updateFilter] leaves visible under the filters
    [fs1 ++ fs2] are those visible under [fs1] that are also visible under
    [fs2], in the same order. *)
Theorem updateFilter_conjunction st fs1 fs2 :
  Z.of_nat (length (allData st)) < 2 ^ 32 ->
  Forall (fun col => col ∈ loadedColumns st) (filterColumns_of (fs1 ++ fs2)) ->
  exists v1 v2,
    visibleIndices (updateFilter (set_activeFilters fs1 st)).2 = Some v1 /\
    visibleIndices (updateFilter (set_activeFilters fs2 st)).2 = Some v2 /\
    visibleIndices (updateFilter (set_activeFilters (fs1 ++ fs2) st)).2
    = Some (filter (fun idx => idx ∈ v2) v1).
Proof.
  intros Hlen Hloaded.
  assert (Hsplit : filterColumns_of (fs1 ++ fs2) = filterColumns_of fs1 ++ filterColumns_of fs2).
  { unfold filterColumns_of. by rewrite filter_app, map_app. }
  pose proof Hloaded as Hboth.
  rewrite Hsplit in Hloaded. apply Forall_app in Hloaded as [Hl1 Hl2].
  exists (recompute (allData st) fs1), (recompute (allData st) fs2).
  split; [by apply updateFilter_loaded_run|]. split; [by apply updateFilter_loaded_run|].
  rewrite (proj2 (updateFilter_loaded_run st (fs1 ++ fs2) Hlen Hboth)).
  f_equal. rewrite !recompute_filter, list_filter_filter.
  apply filter_ext_in. intros idx Hidx. rewrite list_elem_of_filter.
  rewrite forallb_app, andb_True. tauto.
Qed.

(** The test of a filter reads the rows at the column of the filter only. *)
Lemma filter_test_same_column rows rows' f idx :
  (f_attribute f <> "" -> is_Some (f_type f) ->
   row_value rows' idx (f_attribute f) = row_value rows idx (f_attribute f)) ->
  filter_test rows' f idx = filter_test rows f idx.
Proof.
  intros Hsame. unfold filter_test.
  destruct (String.eqb_spec (f_attribute f) "") as [|Hne]; [done|].
  destruct (f_type f) as [[]|] eqn:Ht; [| |done]; by rewrite Hsame.
Qed.

(** X9. Once the filter columns are loaded, the visible indices depend on
    the filters and on the cells of the filter columns only: two states
    with the same filters and the same number of rows, whose rows agree on
    every filter column, get the same visible indices from [updateFilter].
    Loading or changing another column between two runs changes nothing of
    what is visible. *)
Theorem updateFilter_filter_columns_only st st' :
  Z.of_nat (length (allData st)) < 2 ^ 32 ->
  activeFilters st' = activeFilters st ->
  length (allData st') = length (allData st) ->
  filters_loaded st -> filters_loaded st' ->
  (forall idx col, col ∈ filterColumns_of (activeFilters st) ->
     row_value (allData st') idx col = row_value (allData st) idx col) ->
  visibleIndices (updateFilter st').2 = visibleIndices (updateFilter st).2.
Proof.
  intros Hlen Hfs Hn Hl Hl' Hsame.
  destruct (updateFilter_loaded st Hl) as [Hok Hrows].
  destruct (updateFilter_loaded st' Hl') as [Hok' Hrows'].
  destruct (updateFilter_frame st) as (_ & _ & _ & Hvis & _).
  destruct (updateFilter_frame st') as (_ & _ & _ & Hvis' & _).
  rewrite (Hvis Hok), (Hvis' Hok'), Hrows, Hrows', Hfs. do 2 f_equal.
  rewrite !recompute_filter, Hn. apply list_filter_iff. intros idx.
  rewrite !forallb_True, !Forall_forall.
  assert (Htest : forall f, f ∈ activeFilters st ->
            filter_test (allData st') f idx = filter_test (allData st) f idx).
  { intros f Hf. apply filter_test_same_column. intros Ha Ht. apply Hsame.
    unfold filterColumns_of. apply list_elem_of_fmap. exists f. split; [done|].
    by apply list_elem_of_filter. }
  split; intros Hall f Hf; [rewrite <- Htest by done|rewrite Htest by done]; by apply Hall.
Qed.

End UpdateFilterMore.

(** ** Sampling: the clamp of the rate, and the full rate *)

Section SamplingMore.

Lemma round_half_even_lower (x : Q) (m : Z) :
  (inject_Z m <= x)%Q -> m <= round_half_even x.
Proof.
  intros Hm. unfold round_half_even.
  assert (Hfm : m <= Qfloor x).
  { rewrite <- (Qfloor_Z m). by apply Qfloor_resp_le. }
  destruct (Qcompare _ _); [destruct (Z.even _)| |]; lia.
Qed.

(** Rounding a rational between two integers below [2 ^ 53] gives a number
    between them: both are binary64 values. *)
Lemma round64_between (q : Q) (a b : Z) :
  0 <= a -> (inject_Z a <= q)%Q -> (q <= inject_Z b)%Q -> b < 2 ^ 53 ->
  exists r, round64 q = Fin r /\ (inject_Z a <= r)%Q /\ (r <= inject_Z b)%Q.
Proof.
  intros Ha Haq Hqb Hb.
  assert (H0 : (0 <= q)%Q).
  { eapply Qle_trans; [|exact Haq]. rewrite <- (Zle_Qle 0). lia. }
  destruct (round64_bounds q b H0 Hqb Hb) as (r & Hr & _ & Hrb).
  exists r. split; [done|]. split; [|done].
  unfold round64, round_binary in Hr.
  destruct (Qnum q) as [|pn|pn] eqn:Hnum.
  - injection Hr as <-. assert (q == 0)%Q as Hq0 by (unfold Qeq; simpl; lia).
    rewrite <- Hq0. exact Haq.
  - assert (Hpos : (0 < q)%Q) by (unfold Qlt; simpl; lia).
    assert (Hlt : (q < inject_Z (2 ^ 53))%Q).
    { eapply Qle_lt_trans; [exact Hqb|]. rewrite <- Zlt_Qlt. lia. }
    unfold round_pos in Hr.
    set (e := Z.max (floor_log2 q) (-1022)) in *.
    assert (He : e - (53 - 1) <= 0).
    { pose proof (floor_log2_small q Hpos Hlt). subst e. lia. }
    set (p := e - (53 - 1)) in *.
    set (m := round_half_even (q / Qpow2 p)) in *.
    assert (Hm : a * 2 ^ (- p) <= m).
    { subst m. apply round_half_even_lower.
      rewrite (Qdiv_Qpow2_nonpos q p He), inject_Z_mult.
      apply Qmult_le_compat_r; [done|]. rewrite <- (Zle_Qle 0). apply Z.pow_nonneg. lia. }
    destruct (Qle_bool (Qpow2 (1023 + 1)) (inject_Z m * Qpow2 p)); [done|].
    injection Hr as <-. rewrite Qred_correct.
    apply Qle_trans with (inject_Z (a * 2 ^ (- p)) * Qpow2 p)%Q.
    + rewrite inject_Z_mult, <- Qmult_assoc, (Qpow2_nonpos_mul p He), Qmult_1_r.
      apply Qle_refl.
    + apply Qmult_le_compat_r; [rewrite <- Zle_Qle; lia|apply Qlt_le_weak, Qpow2_pos].
  - exfalso. unfold Qle in H0. simpl in H0. lia.
Qed.

(** An integer below [2 ^ 53] times one is that integer. *)
Lemma Math_floor_num_mul_1 (n : Z) :
  0 <= n < 2 ^ 53 ->
  Math_floor (num_mul (num_of_Z n) (Fin 1)) = num_of_Z n.
Proof.
  intros Hn. unfold num_mul, num_of_Z.
  destruct (round64_between (inject_Z n * 1) n n) as (r & -> & Hlo & Hhi); try lia.
  - rewrite Qmult_1_r. apply Qle_refl.
  - rewrite Qmult_1_r. apply Qle_refl.
  - unfold Math_floor, num_of_Z. do 2 f_equal.
    assert (Hr : (r == inject_Z n)%Q) by (by apply Qle_antisym).
    rewrite Hr. apply Qfloor_Z.
Qed.

Lemma sampleRate_of_100 : sampleRate_of (num_of_Z 100) = Fin 1.
Proof. vm_compute. reflexivity. Qed.

(** X10. Whatever number the sample-rate slider gives, the rate that
    [createPointCloud] uses is a number between the binary64 value of 0.01
    and 1, both included. *)
Theorem sampleRate_clamped (percent : number) :
  percent <> NaN ->
  sampleRate_of percent <> NaN /\
  num_le (round64 (1 # 100)) (sampleRate_of percent) = true /\
  num_le (sampleRate_of percent) (Fin 1) = true.
Proof.
  intros Hnan. unfold sampleRate_of.
  assert (Hdiv : num_div percent (Fin 100) <> NaN).
  { destruct percent as [| | |q]; try done.
    change (num_div (Fin q) (Fin 100)) with (round64 (q / 100)). apply round64_not_NaN. }
  assert (Hc : exists c, round64 (1 # 100) = Fin c /\ Qle_bool c 1 = true).
  { eexists. split; [vm_compute; reflexivity|]. vm_compute. reflexivity. }
  destruct Hc as (c & -> & Hc1).
  set (m := Math_min (Fin 1) (num_div percent (Fin 100))).
  assert (Hm : m <> NaN /\ num_le m (Fin 1) = true).
  { subst m. destruct (num_div percent (Fin 100)) as [| | |r]; try done.
    unfold Math_min, num_le. destruct (Qle_bool 1 r) eqn:Hle; [done|].
    split; [done|]. apply Qle_bool_iff, Qlt_le_weak. by apply Qle_bool_false. }
  destruct Hm as [Hm Hm1].
  unfold Math_max. destruct m as [| | |r]; try done.
  - cbn [num_le]. split; [done|]. split; [apply Qle_bool_iff, Qle_refl|done].
  - cbn [num_le]. destruct (Qle_bool r c) eqn:Hle.
    + split; [done|]. split; [|done]. apply Qle_bool_iff, Qle_refl.
    + split; [done|]. split; [|done]. apply Qle_bool_iff, Qlt_le_weak. by apply Qle_bool_false.
Qed.

(** X11. With the slider at 100 and no more than [MAX_POINTS] visible
    indices, the sampling step renders the visible indices themselves: all
    of them, in their order, whatever the random source. *)
Theorem indicesToRender_full_rate (random_index : nat -> nat -> nat) (visible : list Z) :
  Z.of_nat (length visible) <= 1000000 ->
  indicesToRender random_index visible (sampleRate_of (num_of_Z 100)) MAX_POINTS
  = Some visible.
Proof.
  intros Hlen. unfold indicesToRender, targetCount_of.
  rewrite sampleRate_of_100.
  rewrite Math_floor_num_mul_1 by (change (2 ^ 53) with 9007199254740992; lia).
  unfold MAX_POINTS. rewrite Math_min_of_Z.
  unfold num_ge. rewrite num_le_of_Z.
  by destruct (Z.leb_spec (Z.of_nat (length visible))
                 (Z.min (Z.of_nat (length visible)) 1000000)); [|lia].
Qed.

End SamplingMore.

(** ** The filter controls *)

Section FilterControlFacts.
Context `{Builtins}.

Lemma num_gt_false_le a b : a <> NaN -> b <> NaN -> num_gt a b = false -> num_le a b = true.
Proof.
  unfold num_gt. destruct a as [| | |p], b as [| | |q]; try done. simpl.
  intros _ _ Hf. apply negb_false_iff in Hf. exact Hf.
Qed.

(** X12. The two sliders of a range filter keep the range in order: when the
    slider value parses to a number and the bounds of the filter are
    numbers, the lower slider sets [min] to the value, and [max] to the
    value if the value is above [max] and leaves [max] as it is otherwise;
    the upper slider sets [max] to the value, and [min] to the value if the
    value is below [min] and leaves it otherwise.  Either way [min <= max]
    afterwards, and no other filter changes. *)
Theorem slider_keeps_order st filterId value i flt r :
  find_filter filterId st = Some (i, flt) ->
  f_range flt = Some r ->
  parseFloat value <> NaN ->
  range_min r <> NaN -> range_max r <> NaN ->
  (exists r',
     activeFilters (on_min_input filterId value st)
     = <[i := with_range r' flt]> (activeFilters st) /\
     range_min r' = parseFloat value /\
     range_max r' = (if num_gt (parseFloat value) (range_max r)
                     then parseFloat value else range_max r) /\
     num_le (range_min r') (range_max r') = true) /\
  (exists r',
     activeFilters (on_max_input filterId value st)
     = <[i := with_range r' flt]> (activeFilters st) /\
     range_max r' = parseFloat value /\
     range_min r' = (if num_lt (parseFloat value) (range_min r)
                     then parseFloat value else range_min r) /\
     num_le (range_min r') (range_max r') = true).
Proof.
  intros Hfind Hr Hv Hmin Hmax.
  assert (Hi : activeFilters st !! i = Some flt).
  { unfold find_filter in Hfind. by apply list_find_Some in Hfind as (? & _). }
  assert (Halter : forall g, alter g i (activeFilters st) = <[i := g flt]> (activeFilters st)).
  { intros g. apply list_eq. intros j. destruct (decide (j = i)) as [->|Hne].
    - rewrite list_lookup_alter_eq, Hi. simpl. symmetry. apply list_lookup_insert_eq.
      by eapply lookup_lt_Some.
    - by rewrite list_lookup_alter_ne, list_lookup_insert_ne. }
  split.
  - unfold on_min_input. rewrite Hfind, Hr. cbv zeta.
    eexists. split; [cbn [assign_filter set_activeFilters activeFilters]; apply Halter|].
    cbn [range_min range_max]. split; [done|].
    destruct (num_gt (parseFloat value) (range_max r)) eqn:Hgt; cbn [range_max].
    + split; [done|]. by apply num_le_refl.
    + split; [done|]. by apply num_gt_false_le.
  - unfold on_max_input. rewrite Hfind, Hr. cbv zeta.
    eexists. split; [cbn [assign_filter set_activeFilters activeFilters]; apply Halter|].
    cbn [range_min range_max]. split; [done|].
    destruct (num_lt (parseFloat value) (range_min r)) eqn:Hlt; cbn [range_min].
    + split; [done|]. by apply num_le_refl.
    + split; [done|]. apply num_gt_false_le; done.
Qed.


Lemma find_filter_single st f0 :
  activeFilters st = [f0] -> find_filter (f_id f0) st = Some (0%nat, f0).
Proof.
  intros Hfs. unfold find_filter. rewrite Hfs. cbn [list_find].
  by rewrite decide_True.
Qed.

Lemma range_eta (r : range) : {| range_min := range_min r; range_max := range_max r |} = r.
Proof. by destruct r. Qed.

(** The state in which the attribute listener leaves a single filter, when
    the column of the chosen attribute gets loaded by the call. *)
Lemma on_attribute_change_loads cat cont st f0 attribute root metadata values :
  activeFilters st = [f0] ->
  attribute <> "" ->
  attribute ∉ loadedColumns st ->
  zarrRoot st = Some root ->
  columnMetadata st !! attribute = Some metadata ->
  column_values root metadata attribute (length (allData st)) = Some values ->
  exists evs st0,
    let isNumericData := String.eqb (cm_type metadata) "continuous" in
    let st2 := stored attribute isNumericData values st0 in
    st0 = add_log evs (assign_filter 0 (fun flt =>
                   {| f_id := f_id flt; f_attribute := attribute; f_type := f_type flt;
                      f_values := f_values flt; f_range := f_range flt |}) st) /\
    on_attribute_change cat cont (f_id f0) attribute st
    = (Ok tt,
       set_activeFilters
         [ if bool_decide (attribute ∈ cont) then
             {| f_id := f_id f0; f_attribute := attribute; f_type := Some continuous;
                f_values := None;
                f_range := Some (default {| range_min := Fin 0; range_max := Fin 1 |}
                                         (continuousRanges st2 !! attribute)) |}
           else if bool_decide (attribute ∈ cat) then
             {| f_id := f_id f0; f_attribute := attribute; f_type := Some categorical;
                f_values := Some (default ∅ (attributeValues st2 !! attribute));
                f_range := None |}
           else
             {| f_id := f_id f0; f_attribute := attribute; f_type := None;
                f_values := None; f_range := None |} ]
         st2).
Proof.
  intros Hfs Hattr Hl Hroot Hmeta Hvalues.
  set (s1 := assign_filter 0 (fun flt =>
                   {| f_id := f_id flt; f_attribute := attribute; f_type := f_type flt;
                      f_values := f_values flt; f_range := f_range flt |}) st).
  destruct (ensureColumnLoaded_stored s1 attribute root metadata values) as (evs & Hrun);
    try done.
  exists evs, (add_log evs s1). cbv zeta. split; [done|].
  unfold on_attribute_change. rewrite (find_filter_single st f0 Hfs).
  destruct (String.eqb_spec attribute "") as [|_]; [done|]. cbn [negb].
  unfold bind at 1. unfold modify at 1. fold s1.
  unfold bind at 1. rewrite Hrun. unfold modify.
  set (st2 := stored attribute (String.eqb (cm_type metadata) "continuous") values
                (add_log evs s1)).
  assert (Hfs2 : activeFilters st2
                 = [{| f_id := f_id f0; f_attribute := attribute; f_type := f_type f0;
                       f_values := f_values f0; f_range := f_range f0 |}]).
  { destruct (stored_fields attribute (String.eqb (cm_type metadata) "continuous") values
                (add_log evs s1)) as ((_ & _ & _ & _ & Ha & _) & _).
    destruct (add_log_fields evs s1) as ((_ & _ & _ & _ & Hb & _) & _).
    fold st2 in Ha. rewrite Ha, Hb. subst s1. cbn [assign_filter set_activeFilters activeFilters].
    by rewrite Hfs. }
  f_equal.
  destruct (bool_decide (attribute ∈ cont)); [|destruct (bool_decide (attribute ∈ cat))];
    unfold assign_filter; rewrite Hfs2; cbn [alter list_alter f_id f_attribute]; try done.
  do 4 f_equal. destruct (continuousRanges st2 !! attribute) as [r|]; [|done].
  cbn [default]. by rewrite range_eta.
Qed.


Lemma row_value_stored colName (isNumericData : bool) values st0 idx :
  0 <= idx < Z.of_nat (length (allData st0)) ->
  row_value (allData (stored colName isNumericData values st0)) idx colName
  = if isNumericData then VNum (numeric_value values (Z.to_nat idx))
    else VStr (categorical_value values (Z.to_nat idx)).
Proof.
  intros Hidx. destruct (stored_cells colName isNumericData values st0) as [Hcell Hrow].
  destruct (Hrow (Z.to_nat idx)) as [row Hi]; [lia|].
  destruct (Hcell _ row Hi) as [_ Hc].
  unfold row_value. by rewrite Hi, Hc.
Qed.

Lemma stored_frame colName (isNumericData : bool) values evs st :
  length (allData (stored colName isNumericData values (add_log evs st))) = length (allData st) /\
  loadedColumns (stored colName isNumericData values (add_log evs st))
  = {[ colName ]} ∪ loadedColumns st.
Proof.
  destruct (stored_fields colName isNumericData values (add_log evs st))
    as ((_ & _ & _ & _ & _ & _ & Hlen) & _ & Hl).
  destruct (add_log_fields evs st) as (_ & Hr & Hl0 & _).
  by rewrite Hlen, Hl, Hr, Hl0.
Qed.

(** X13. Choosing a continuous column that is not loaded yet in a single
    fresh filter: the listener ends normally, the column is loaded, and the
    filter becomes a range filter on the column whose range is the range
    summary of the column, which bounds every number that the rows hold for
    it.  After the run of [updateFilter] that follows, the visible indices
    are exactly the rows whose value for the column is a number other than
    [NaN]: the full-range filter hides the rows without a usable number and
    no other row. *)
Theorem fresh_continuous_filter cat cont st f0 attribute root metadata values :
  activeFilters st = [f0] ->
  attribute <> "" ->
  attribute ∈ cont ->
  attribute ∉ loadedColumns st ->
  zarrRoot st = Some root ->
  columnMetadata st !! attribute = Some metadata ->
  cm_type metadata = "continuous" ->
  column_values root metadata attribute (length (allData st)) = Some values ->
  (continuousRanges st !! attribute = None \/
   continuousRanges st !! attribute = Some initial_range) ->
  Z.of_nat (length (allData st)) < 2 ^ 32 ->
  let chosen := on_attribute_change cat cont (f_id f0) attribute st in
  chosen.1 = Ok tt /\
  attribute ∈ loadedColumns chosen.2 /\
  exists r visible,
    continuousRanges chosen.2 !! attribute = Some r /\
    activeFilters chosen.2
    = [{| f_id := f_id f0; f_attribute := attribute; f_type := Some continuous;
          f_values := None; f_range := Some r |}] /\
    (forall idx x, row_value (allData chosen.2) idx attribute = VNum x -> x <> NaN ->
       num_le (range_min r) x = true /\ num_le x (range_max r) = true) /\
    visibleIndices (updateFilter chosen.2).2 = Some visible /\
    forall idx, idx ∈ visible <->
      0 <= idx < Z.of_nat (length (allData st)) /\
      exists x, row_value (allData chosen.2) idx attribute = VNum x /\ x <> NaN.
Proof.
  intros Hfs Hattr Hcont Hl Hroot Hmeta Htype Hvalues Hrange Hlen. cbv zeta.
  destruct (on_attribute_change_loads cat cont st f0 attribute root metadata values)
    as (evs & st0 & Hst0 & Hrun); try done.
  cbv zeta in Hst0, Hrun.
  rewrite Htype in *. change (String.eqb "continuous" "continuous") with true in *.
  rewrite bool_decide_eq_true_2 in Hrun by done.
  destruct (stored_frame attribute true values evs
              (assign_filter 0 (fun flt =>
                   {| f_id := f_id flt; f_attribute := attribute; f_type := f_type flt;
                      f_values := f_values flt; f_range := f_range flt |}) st))
    as [Hlen2 Hloaded2].
  rewrite <- Hst0 in Hlen2, Hloaded2.
  cbn [assign_filter set_activeFilters allData loadedColumns] in Hlen2, Hloaded2.
  assert (Hrows0 : allData st0 = allData st).
  { rewrite Hst0. by destruct (add_log_fields evs (assign_filter 0 (fun flt =>
                   {| f_id := f_id flt; f_attribute := attribute; f_type := f_type flt;
                      f_values := f_values flt; f_range := f_range flt |}) st))
      as (_ & -> & _). }
  destruct (stored_range attribute values st0) as (r & Hr & _ & _ & Hbound & _).
  { rewrite Hst0. destruct (add_log_fields evs (assign_filter 0 (fun flt =>
                   {| f_id := f_id flt; f_attribute := attribute; f_type := f_type flt;
                      f_values := f_values flt; f_range := f_range flt |}) st))
      as (_ & _ & _ & -> & _). exact Hrange. }
  rewrite Hr in Hrun. cbn [default from_option id] in Hrun.
  set (st2 := stored attribute true values st0) in *.
  set (f3 := {| f_id := f_id f0; f_attribute := attribute; f_type := Some continuous;
                f_values := None; f_range := Some r |}) in *.
  rewrite Hrun. cbn [fst snd]. clear Hrun.
  destruct (updateFilter_loaded_run st2 [f3]) as [Hok Hvis].
  { by rewrite Hlen2. }
  { unfold filterColumns_of. rewrite filter_cons_True by (split; [done|by eexists]).
    cbn [filter list_filter map f_attribute f3]. apply Forall_cons. split; [|constructor].
    rewrite Hloaded2. set_solver. }
  assert (Hrv : forall idx, 0 <= idx < Z.of_nat (length (allData st)) ->
            row_value (allData st2) idx attribute
            = VNum (numeric_value values (Z.to_nat idx))).
  { intros idx Hidx. apply (row_value_stored attribute true values st0). by rewrite Hrows0. }
  split; [done|]. split.
  { cbn [loadedColumns set_activeFilters]. rewrite Hloaded2. set_solver. }
  exists r, (recompute (allData st2) [f3]).
  split; [exact Hr|]. split; [done|]. split; [|split; [exact Hvis|]].
  - cbn [allData set_activeFilters]. intros idx x Hx Hnan.
    destruct (stored_cells attribute true values st0) as [Hcell _]. fold st2 in Hcell.
    unfold row_value in Hx.
    destruct (allData st2 !! Z.to_nat idx) as [row|] eqn:Hrow; [|done].
    destruct (Hcell _ row Hrow) as [Hlt Hc]. rewrite Hc in Hx. cbn [default] in Hx.
    injection Hx as <-. by apply Hbound.
  - intros idx. rewrite elem_of_recompute, Hlen2. cbn [allData set_activeFilters].
    split.
    + intros [Hidx Hall]. split; [done|].
      rewrite Hrv by done. eexists. split; [reflexivity|].
      specialize (Hall f3 ltac:(by left)).
      rewrite (filter_test_continuous _ f3 r idx) in Hall by done.
      apply continuous_pass_within in Hall as (y & Hy & Hnan & _).
      cbn [f_attribute f3] in Hy. rewrite Hrv in Hy by done.
      by injection Hy as ->.
    + intros (Hidx & x & Hx & Hnan). split; [done|].
      intros f Hf. apply list_elem_of_singleton in Hf as ->.
      rewrite (filter_test_continuous _ f3 r idx) by done.
      apply continuous_pass_within. cbn [f_attribute f3]. rewrite Hx.
      exists x. split; [done|]. split; [done|].
      rewrite Hrv in Hx by done. injection Hx as <-.
      apply Hbound; [rewrite Hrows0; lia|done].
Qed.

(** X14. Choosing a categorical column that is not loaded yet in a single
    fresh filter: the listener ends normally, the column is loaded, and the
    filter becomes a value filter on the column that selects every value of
    the column, that is, the strings other than the empty one that the rows
    hold for it.  After the run of [updateFilter] that follows, the visible
    indices are the rows whose value is a string that is not empty; when
    every row holds the empty string the selection is empty, and all rows
    stay visible. *)
Theorem fresh_categorical_filter cat cont st f0 attribute root metadata values :
  activeFilters st = [f0] ->
  attribute <> "" ->
  attribute ∉ cont -> attribute ∈ cat ->
  attribute ∉ loadedColumns st ->
  zarrRoot st = Some root ->
  columnMetadata st !! attribute = Some metadata ->
  cm_type metadata <> "continuous" ->
  column_values root metadata attribute (length (allData st)) = Some values ->
  (attributeValues st !! attribute = None \/ attributeValues st !! attribute = Some ∅) ->
  Z.of_nat (length (allData st)) < 2 ^ 32 ->
  let chosen := on_attribute_change cat cont (f_id f0) attribute st in
  chosen.1 = Ok tt /\
  attribute ∈ loadedColumns chosen.2 /\
  exists s visible,
    attributeValues chosen.2 !! attribute = Some s /\
    activeFilters chosen.2
    = [{| f_id := f_id f0; f_attribute := attribute; f_type := Some categorical;
          f_values := Some s; f_range := None |}] /\
    (forall x, x ∈ s <->
       x <> "" /\
       exists idx, 0 <= idx < Z.of_nat (length (allData st)) /\
                   row_value (allData chosen.2) idx attribute = VStr x) /\
    visibleIndices (updateFilter chosen.2).2 = Some visible /\
    (s <> ∅ ->
     forall idx, idx ∈ visible <->
       0 <= idx < Z.of_nat (length (allData st)) /\
       exists x, row_value (allData chosen.2) idx attribute = VStr x /\ x <> "") /\
    (s = ∅ -> visible = all_indices (length (allData st))).
Proof.
  intros Hfs Hattr Hcont Hcat Hl Hroot Hmeta Htype Hvalues Hprev Hlen. cbv zeta.
  destruct (on_attribute_change_loads cat cont st f0 attribute root metadata values)
    as (evs & st0 & Hst0 & Hrun); try done.
  cbv zeta in Hst0, Hrun.
  destruct (String.eqb_spec (cm_type metadata) "continuous") as [|_]; [done|].
  rewrite bool_decide_eq_false_2 in Hrun by done.
  rewrite bool_decide_eq_true_2 in Hrun by done.
  destruct (stored_frame attribute false values evs
              (assign_filter 0 (fun flt =>
                   {| f_id := f_id flt; f_attribute := attribute; f_type := f_type flt;
                      f_values := f_values flt; f_range := f_range flt |}) st))
    as [Hlen2 Hloaded2].
  rewrite <- Hst0 in Hlen2, Hloaded2.
  cbn [assign_filter set_activeFilters allData loadedColumns] in Hlen2, Hloaded2.
  destruct (add_log_fields evs (assign_filter 0 (fun flt =>
                   {| f_id := f_id flt; f_attribute := attribute; f_type := f_type flt;
                      f_values := f_values flt; f_range := f_range flt |}) st))
    as (_ & Hrows0 & _ & _ & Hattrs0).
  rewrite <- Hst0 in Hrows0, Hattrs0.
  cbn [assign_filter set_activeFilters allData attributeValues] in Hrows0, Hattrs0.
  destruct (stored_values attribute values st0) as (s & Hs & Hmem).
  rewrite Hrows0, Hattrs0 in Hmem.
  assert (Hmem' : forall x, x ∈ s <->
            x <> "" /\ exists i, (i < length (allData st))%nat /\
                                 categorical_value values i = x).
  { intros x. rewrite Hmem. split; [|by right].
    intros [Hx|Hx]; [|done]. destruct Hprev as [Hp|Hp]; rewrite Hp in Hx; simpl in Hx; set_solver. }
  rewrite Hs in Hrun. cbn [default from_option id] in Hrun.
  set (st2 := stored attribute false values st0) in *.
  set (f3 := {| f_id := f_id f0; f_attribute := attribute; f_type := Some categorical;
                f_values := Some s; f_range := None |}) in *.
  rewrite Hrun. cbn [fst snd]. clear Hrun.
  assert (Hcols : Forall (fun col => col ∈ loadedColumns st2) (filterColumns_of [f3])).
  { unfold filterColumns_of. rewrite filter_cons_True by (split; [done|by eexists]).
    cbn [filter list_filter map f_attribute f3]. apply Forall_cons. split; [|constructor].
    rewrite Hloaded2. set_solver. }
  destruct (updateFilter_loaded_run st2 [f3]) as [Hok Hvis]; [by rewrite Hlen2|done|].
  assert (Hrv : forall idx, 0 <= idx < Z.of_nat (length (allData st)) ->
            row_value (allData st2) idx attribute
            = VStr (categorical_value values (Z.to_nat idx))).
  { intros idx Hidx. apply (row_value_stored attribute false values st0). by rewrite Hrows0. }
  split; [done|]. split.
  { cbn [loadedColumns set_activeFilters]. rewrite Hloaded2. set_solver. }
  exists s, (recompute (allData st2) [f3]).
  split; [exact Hs|]. split; [done|]. cbn [allData set_activeFilters].
  split; [|split; [exact Hvis|split]].
  - intros x. rewrite Hmem'. split.
    + intros (Hne & i & Hi & Hx). split; [done|]. exists (Z.of_nat i).
      split; [lia|]. rewrite Hrv by lia. by rewrite Nat2Z.id, Hx.
    + intros (Hne & idx & Hidx & Hx). split; [done|]. exists (Z.to_nat idx).
      split; [lia|]. rewrite Hrv in Hx by done. by injection Hx.
  - intros Hs_ne idx. rewrite elem_of_recompute, Hlen2. split.
    + intros [Hidx Hall]. split; [done|].
      rewrite Hrv by done. eexists. split; [reflexivity|].
      specialize (Hall f3 ltac:(by left)).
      rewrite (filter_test_categorical _ f3 s idx) in Hall by done.
      rewrite (size_pos s Hs_ne) in Hall.
      apply categorical_pass_selected in Hall. cbn [f_attribute f3] in Hall.
      rewrite Hrv in Hall by done. cbn [selected] in Hall.
      by apply Hmem' in Hall as [? _].
    + intros (Hidx & x & Hx & Hne). split; [done|].
      intros f Hf. apply list_elem_of_singleton in Hf as ->.
      rewrite (filter_test_categorical _ f3 s idx) by done.
      rewrite (size_pos s Hs_ne).
      apply categorical_pass_selected. cbn [f_attribute f3]. rewrite Hx. cbn [selected].
      rewrite Hrv in Hx by done. injection Hx as <-.
      apply Hmem'. split; [done|]. exists (Z.to_nat idx). split; [lia|done].
  - intros Hs_empty.
    rewrite recompute_filter, Hlen2.
    rewrite <- (filter_true (all_indices (length (allData st)))) at 2.
    apply list_filter_iff. intros idx. cbn [forallb]. rewrite andb_true_r.
    rewrite (filter_test_categorical _ f3 s idx) by done.
    by rewrite Hs_empty, size_empty.
Qed.


Lemma filter_test_no_values rows flt idx :
  f_type flt = Some categorical ->
  filter_test rows (with_values ∅ flt) idx = true.
Proof.
  intros Ht. unfold filter_test. cbn [with_values f_attribute f_type f_values].
  rewrite Ht. destruct (String.eqb _ _); [done|]. by rewrite size_empty.
Qed.

(** X15. "Deselect All" on a categorical filter has the effect of removing
    the filter: with distinct filter ids and the filter columns loaded, the
    run of [updateFilter] after either leaves the same visible indices. *)
Theorem deselect_all_like_removed st filterId i flt s :
  find_filter filterId st = Some (i, flt) ->
  f_type flt = Some categorical ->
  f_values flt = Some s ->
  NoDup (map f_id (activeFilters st)) ->
  filters_loaded st ->
  Z.of_nat (length (allData st)) < 2 ^ 32 ->
  visibleIndices (updateFilter (on_deselect_all filterId st)).2
  = visibleIndices (updateFilter (on_remove_filter filterId st)).2.
Proof.
  intros Hfind Ht Hs Hnd Hloaded Hlen.
  unfold on_deselect_all, on_remove_filter. rewrite Hfind, Hs. unfold assign_filter.
  set (fs := activeFilters st) in *.
  unfold find_filter in Hfind. fold fs in Hfind.
  apply list_find_Some in Hfind as (Hi & Hid & _).
  assert (Hother : forall j f, fs !! j = Some f -> j <> i -> f_id f <> filterId).
  { intros j f Hj Hne Heq. apply Hne.
    eapply (NoDup_lookup (map f_id fs)); [done| |].
    - by rewrite list_lookup_fmap, Hj.
    - rewrite list_lookup_fmap, Hi. simpl. congruence. }
  assert (Hcols : forall fs', (forall f, f ∈ fs' -> exists f', f' ∈ fs /\
                      f_attribute f = f_attribute f' /\ f_type f = f_type f') ->
            Forall (fun col => col ∈ loadedColumns st) (filterColumns_of fs')).
  { intros fs' Hsub. apply Forall_forall. intros col Hcol.
    unfold filterColumns_of in Hcol. apply list_elem_of_fmap in Hcol as (f & -> & Hf).
    apply list_elem_of_filter in Hf as [[Ha Hty] Hf].
    destruct (Hsub f Hf) as (f' & Hf' & Hattr & Htype).
    unfold filters_loaded in Hloaded. eapply Forall_forall in Hloaded; [exact Hloaded|].
    unfold filterColumns_of. rewrite Hattr. apply list_elem_of_fmap. exists f'. split; [done|].
    apply list_elem_of_filter. split; [|done]. by rewrite <- Hattr, <- Htype. }
  destruct (updateFilter_loaded_run st (alter (with_values ∅) i fs) Hlen) as [Hok1 Hvis1].
  { apply Hcols. intros f Hf. apply list_elem_of_lookup in Hf as [j Hj].
    destruct (decide (j = i)) as [->|Hne].
    - rewrite list_lookup_alter_eq, Hi in Hj. injection Hj as <-.
      exists flt. split; [by eapply list_elem_of_lookup_2|done].
    - rewrite list_lookup_alter_ne in Hj by done.
      exists f. split; [by eapply list_elem_of_lookup_2|done]. }
  destruct (updateFilter_loaded_run st (filter (fun f => f_id f ≠ filterId) fs) Hlen)
    as [Hok2 Hvis2].
  { apply Hcols. intros f Hf. apply list_elem_of_filter in Hf as [_ Hf]. by exists f. }
  rewrite Hvis1, Hvis2. f_equal.
  rewrite !recompute_filter. apply list_filter_iff. intros idx.
  rewrite !forallb_True, !Forall_forall. split.
  - intros Hall f Hf. apply list_elem_of_filter in Hf as [Hne Hf].
    apply list_elem_of_lookup in Hf as [j Hj]. apply Hall.
    apply list_elem_of_lookup. exists j. rewrite list_lookup_alter_ne; [done|].
    intros ->. rewrite Hi in Hj. injection Hj as <-. done.
  - intros Hall f Hf. apply list_elem_of_lookup in Hf as [j Hj].
    destruct (decide (j = i)) as [->|Hne].
    + rewrite list_lookup_alter_eq, Hi in Hj. injection Hj as <-.
      by rewrite filter_test_no_values.
    + rewrite list_lookup_alter_ne in Hj by done. apply Hall.
      apply list_elem_of_filter. split; [by eapply Hother|by eapply list_elem_of_lookup_2].
Qed.

End FilterControlFacts.


(** ** Coordinates *)

Section CoordinateMore.
Context `{Builtins}.

Lemma reads_ret {A} (a : A) : reads_store_only (ret a).
Proof. by exists (Ok a), []. Qed.

Lemma reads_throw {A} e : reads_store_only (@throw A e).
Proof. by exists (Throw e), []. Qed.

Lemma reads_log ev : reads_store_only (modify (log_fetch ev)).
Proof. by exists (Ok tt), [ev]. Qed.

Lemma reads_bind {A B} (m : M A) (k : A -> M B) :
  reads_store_only m -> (forall a, reads_store_only (k a)) -> reads_store_only (bind m k).
Proof.
  intros (o & evs & Hm) Hk. destruct o as [a|e|].
  - destruct (Hk a) as (o' & evs' & Hka). exists o', (evs' ++ evs). intros st.
    unfold bind. by rewrite Hm, Hka, add_log_app.
  - exists (Throw e), evs. intros st. unfold bind. by rewrite Hm.
  - exists OutOfFuel, evs. intros st. unfold bind. by rewrite Hm.
Qed.

Lemma reads_try_catch {A} (m : M A) (h : error -> M A) :
  reads_store_only m -> (forall e, reads_store_only (h e)) -> reads_store_only (try_catch m h).
Proof.
  intros (o & evs & Hm) Hh. destruct o as [a|e|].
  - exists (Ok a), evs. intros st. unfold try_catch. by rewrite Hm.
  - destruct (Hh e) as (o' & evs' & Hhe). exists o', (evs' ++ evs). intros st.
    unfold try_catch. by rewrite Hm, Hhe, add_log_app.
  - exists OutOfFuel, evs. intros st. unfold try_catch. by rewrite Hm.
Qed.

Lemma reads_zarr_open root path : reads_store_only (zarr_open root path).
Proof.
  unfold zarr_open. apply reads_bind; [apply reads_log|]. intros _.
  destruct (root !! path); [apply reads_ret|apply reads_throw].
Qed.

Lemma reads_zarr_get arr : reads_store_only (zarr_get arr).
Proof.
  unfold zarr_get. apply reads_bind; [apply reads_log|]. intros _.
  destruct (za_data _); [apply reads_ret|apply reads_throw].
Qed.

Lemma reads_zarr_get_column arr col : reads_store_only (zarr_get_column arr col).
Proof.
  unfold zarr_get_column. apply reads_bind; [apply reads_log|]. intros _.
  destruct (za_data _); [|apply reads_throw].
  destruct (za_shape _) as [|? [|cols [|]]]; try apply reads_ret.
  destruct (col <? cols)%nat; [apply reads_ret|apply reads_throw].
Qed.

Lemma reads_loadZarrArray root path : reads_store_only (loadZarrArray root path).
Proof.
  unfold loadZarrArray. apply reads_try_catch; [|intros e; apply reads_throw].
  apply reads_bind; [apply reads_zarr_open|]. intros arr. apply reads_zarr_get.
Qed.

Lemma reads_load_chunks fuel root embName colIdx nCells chunkIdx result :
  reads_store_only (load_chunks fuel root embName colIdx nCells chunkIdx result).
Proof.
  revert chunkIdx result. induction fuel as [|fuel IH]; intros chunkIdx result; simpl.
  - destruct (length result <? nCells)%nat; [by exists OutOfFuel, []|apply reads_ret].
  - destruct (length result <? nCells)%nat; [|apply reads_ret].
    apply reads_bind.
    + apply reads_try_catch; [|intros e; apply reads_ret].
      apply reads_bind; [apply reads_loadZarrArray|]. intros c. apply reads_ret.
    + intros [c|]; [apply IH|apply reads_ret].
Qed.

(** [loadCoordinateValues] reads the store and nothing else: what it
    returns does not depend on the state it is called in, and it changes
    the fetch log only. *)
Lemma reads_loadCoordinateValues fuel root coordSource nCells :
  reads_store_only (loadCoordinateValues fuel root coordSource nCells).
Proof.
  unfold loadCoordinateValues.
  destruct (String.eqb (cs_source coordSource) "obs").
  { apply reads_try_catch; [apply reads_loadZarrArray|intros e; apply reads_ret]. }
  destruct (String.eqb (cs_source coordSource) "obsm"); [|apply reads_ret].
  apply reads_try_catch; [|intros e; apply reads_ret].
  apply reads_bind.
  { unfold load_by_name. destruct (cs_columnName coordSource) as [columnName|];
      [|apply reads_ret].
    destruct (negb (String.eqb columnName "")); [|apply reads_ret].
    apply reads_try_catch; [|intros e; apply reads_ret].
    apply reads_bind; [apply reads_zarr_open|]. intros arr.
    apply reads_bind; [apply reads_zarr_get|]. intros d. apply reads_ret. }
  intros [values|]; [apply reads_ret|].
  apply reads_try_catch; [|intros e; apply reads_ret].
  apply reads_bind.
  { unfold load_as_array. apply reads_try_catch; [|intros e; apply reads_ret].
    apply reads_bind; [apply reads_zarr_open|]. intros arr.
    destruct (za_shape (h_array arr)) as [|? [|? [|]]]; try apply reads_ret.
    apply reads_bind; [apply reads_zarr_get_column|]. intros d. apply reads_ret. }
  intros [values|]; [apply reads_ret|].
  unfold assemble_chunks. apply reads_bind; [apply reads_load_chunks|]. intros result.
  destruct (nCells <=? length result)%nat; [apply reads_ret|].
  destruct (0 <? length result)%nat; [apply reads_ret|apply reads_throw].
Qed.

(** With enough fuel for the chunk loop, [loadCoordinateValues] returns. *)
Lemma loadCoordinateValues_Ok fuel root coordSource nCells st :
  (size root < fuel)%nat ->
  exists values, (loadCoordinateValues fuel root coordSource nCells st).1 = Ok values.
Proof.
  intros Hfuel. unfold loadCoordinateValues.
  destruct (String.eqb (cs_source coordSource) "obs").
  { unfold try_catch.
    destruct (loadZarrArray_run root ("obs/" +:+ cs_path coordSource) st) as (evs & e & ->).
    destruct (store_read _ _); by eexists. }
  destruct (String.eqb (cs_source coordSource) "obsm"); [|by eexists].
  unfold try_catch at 1. unfold bind at 1.
  destruct (load_by_name_run root (cs_embedding coordSource) (cs_columnName coordSource) st)
    as (evs & ->).
  destruct (read_by_name _ _ _) as [values|]; [by exists values|].
  unfold try_catch at 1. unfold bind at 1.
  destruct (load_as_array_run root (cs_embedding coordSource) (cs_columnIndex coordSource)
              (add_log evs st)) as (evs' & ->).
  destruct (read_as_array _ _ _) as [values|]; [by exists values|].
  destruct (assemble_chunks_run fuel root (cs_embedding coordSource)
              (cs_columnIndex coordSource) nCells (add_log evs' (add_log evs st)) Hfuel)
    as (chunks & r & evs'' & -> & _ & Hr).
  destruct r as [values|e|]; [by eexists|by eexists|done].
Qed.

Lemma loadCoordinateValues_total fuel root coordSource nCells :
  (size root < fuel)%nat ->
  exists values evs,
    forall st, loadCoordinateValues fuel root coordSource nCells st
               = (Ok values, add_log evs st).
Proof.
  intros Hfuel.
  destruct (reads_loadCoordinateValues fuel root coordSource nCells) as (o & evs & Hrun).
  pose (st0 := {| zarrRoot := None; cachedZarrArrays := None;
                  sparseMatrix := {| sm_shape := None; sm_geneNames := None |};
                  columnMetadata := ∅; loadedColumns := ∅; allData := [];
                  attributeValues := ∅; continuousRanges := ∅; activeFilters := [];
                  visibleIndices := None; fetchLog := [] |}).
  destruct (loadCoordinateValues_Ok fuel root coordSource nCells st0 Hfuel) as (values & Hv).
  rewrite Hrun in Hv. cbn [fst] in Hv. subst o. by exists values, evs.
Qed.


Lemma set_allData_same st : set_allData (allData st) st = st.
Proof. by destruct st. Qed.

Lemma assign_xyz_alter xValues yValues zValues i st :
  assign_xyz xValues yValues zValues i st
  = set_allData (alter (with_xyz xValues yValues zValues i) i (allData st)) st.
Proof.
  unfold assign_xyz, set_cell, with_xyz.
  destruct st as [a b c d e rows g h k l m]; unfold set_allData; cbn.
  f_equal. apply list_eq. intros j. destruct (decide (j = i)) as [->|Hne].
  - rewrite !list_lookup_alter_eq. by destruct (rows !! i).
  - by rewrite !list_lookup_alter_ne.
Qed.

Lemma set_allData_set rows rows' st :
  set_allData rows (set_allData rows' st) = set_allData rows st.
Proof. by destruct st. Qed.

Lemma fold_assign_xyz xValues yValues zValues n i st :
  fold_left (fun s k => assign_xyz xValues yValues zValues k s) (seq i n) st
  = set_allData
      (imap (fun j row => if bool_decide (i <= j < i + n)%nat
                          then with_xyz xValues yValues zValues j row else row)
            (allData st)) st.
Proof.
  revert i st. induction n as [|n IH]; intros i st; simpl.
  - rewrite <- (set_allData_same st) at 1.
    apply (f_equal (fun rows => set_allData rows st)).
    apply list_eq. intros j. rewrite list_lookup_imap.
    destruct (allData st !! j); simpl; [|done].
    by rewrite bool_decide_eq_false_2 by lia.
  - rewrite IH, assign_xyz_alter, set_allData_set.
    apply (f_equal (fun rows => set_allData rows st)).
    replace (allData (set_allData (alter (with_xyz xValues yValues zValues i) i (allData st)) st))
      with (alter (with_xyz xValues yValues zValues i) i (allData st)) by by destruct st.
    apply list_eq. intros j. rewrite !list_lookup_imap.
    destruct (decide (j = i)) as [->|Hne].
    + rewrite list_lookup_alter_eq. destruct (allData st !! i); simpl; [|done].
      rewrite bool_decide_eq_false_2 by lia.
      by rewrite bool_decide_eq_true_2 by lia.
    + rewrite list_lookup_alter_ne by done.
      destruct (allData st !! j); simpl; [|done].
      destruct (decide (S i <= j < S i + n)%nat).
      * by rewrite !bool_decide_eq_true_2 by lia.
      * by rewrite !bool_decide_eq_false_2 by lia.
Qed.

Lemma js_or_usable v : usable_coordinate (js_or v (VNum (Fin 0))).
Proof. unfold usable_coordinate, js_or. destruct (truthy v) eqn:Hv; [by left|by right]. Qed.

Lemma load_coordinates_run fuel root cx cy cz st :
  (size root < fuel)%nat ->
  exists xValues yValues zValues evs,
    (forall s, (loadCoordinateValues fuel root cx (length (allData st)) s).1 = Ok xValues) /\
    (forall s, (loadCoordinateValues fuel root cy (length (allData st)) s).1 = Ok yValues) /\
    match cz with
    | Some z =>
        exists values, zValues = Some values /\
          forall s, (loadCoordinateValues fuel root z (length (allData st)) s).1 = Ok values
    | None => zValues = None
    end /\
    load_coordinates fuel root cx cy cz st
    = (Ok tt,
       set_allData (imap (with_xyz xValues yValues zValues) (allData st)) (add_log evs st)).
Proof.
  intros Hfuel. set (nCells := length (allData st)).
  destruct (loadCoordinateValues_total fuel root cx nCells Hfuel) as (xValues & evsx & Hx).
  destruct (loadCoordinateValues_total fuel root cy nCells Hfuel) as (yValues & evsy & Hy).
  assert (Hz : exists zValues evsz,
            match cz with
            | Some z =>
                exists values, zValues = Some values /\
                  forall s, loadCoordinateValues fuel root z nCells s
                            = (Ok values, add_log evsz s)
            | None => zValues = None /\ evsz = []
            end).
  { destruct cz as [z|]; [|by exists None, []].
    destruct (loadCoordinateValues_total fuel root z nCells Hfuel) as (values & evsz & Hz).
    exists (Some values), evsz. by exists values. }
  destruct Hz as (zValues & evsz & Hz).
  exists xValues, yValues, zValues, (evsz ++ evsy ++ evsx).
  split; [intros s; by rewrite Hx|]. split; [intros s; by rewrite Hy|]. split.
  { destruct cz as [z|]; [|by destruct Hz].
    destruct Hz as (values & -> & Hz). exists values. split; [done|].
    intros s. by rewrite Hz. }
  unfold load_coordinates. fold nCells.
  eapply bind_Ok; [apply Hx|]. eapply bind_Ok; [apply Hy|].
  eapply (bind_Ok _ _ _ zValues (add_log evsz (add_log evsy (add_log evsx st)))).
  { destruct cz as [z|].
    - destruct Hz as (values & -> & Hz). eapply bind_Ok; [apply Hz|done].
    - by destruct Hz as [-> ->]. }
  unfold for_range. rewrite for_from_modify, fold_assign_xyz, !add_log_app, <- app_assoc.
  f_equal. destruct (add_log_fields (evsz ++ evsy ++ evsx) st) as (_ & -> & _).
  apply (f_equal (fun rows => set_allData rows _)).
  apply list_eq. intros j. rewrite !list_lookup_imap.
  destruct (allData st !! j) eqn:Hj; simpl; [|done].
  apply lookup_lt_Some in Hj. by rewrite bool_decide_eq_true_2 by (subst nCells; lia).
Qed.

(** X16. Loading the selected coordinates never fails when the fuel covers
    the store: the values of each selected source are those that
    [loadCoordinateValues] returns (in any state), the only other effect is
    on the fetch log, and every row gets its three coordinates from them,
    place by place.  Each coordinate of a row is a truthy value or the
    number [0] (a missing, [NaN] or otherwise falsy value becomes [0]),
    [z] is [0] when no source is selected for it, and the other fields of
    the rows are kept. *)
Theorem load_coordinates_rows fuel root selectedXCoord selectedYCoord selectedZCoord st :
  (size root < fuel)%nat ->
  exists xValues yValues zValues evs,
    (forall s, (loadCoordinateValues fuel root selectedXCoord (length (allData st)) s).1
               = Ok xValues) /\
    (forall s, (loadCoordinateValues fuel root selectedYCoord (length (allData st)) s).1
               = Ok yValues) /\
    match selectedZCoord with
    | Some z =>
        exists values, zValues = Some values /\
          forall s, (loadCoordinateValues fuel root z (length (allData st)) s).1 = Ok values
    | None => zValues = None
    end /\
    load_coordinates fuel root selectedXCoord selectedYCoord selectedZCoord st
    = (Ok tt,
       set_allData (imap (with_xyz xValues yValues zValues) (allData st)) (add_log evs st)) /\
    forall i row',
      imap (with_xyz xValues yValues zValues) (allData st) !! i = Some row' ->
      exists row x y z,
        allData st !! i = Some row /\
        row' !! "x" = Some x /\ usable_coordinate x /\
        row' !! "y" = Some y /\ usable_coordinate y /\
        row' !! "z" = Some z /\ usable_coordinate z /\
        (selectedZCoord = None -> z = VNum (Fin 0)) /\
        forall d, d <> "x" -> d <> "y" -> d <> "z" -> row' !! d = row !! d.
Proof.
  intros Hfuel.
  destruct (load_coordinates_run fuel root selectedXCoord selectedYCoord selectedZCoord st Hfuel)
    as (xValues & yValues & zValues & evs & Hx & Hy & Hz & Hrun).
  exists xValues, yValues, zValues, evs.
  split; [done|]. split; [done|]. split; [done|]. split; [done|].
  intros i row' Hi. rewrite list_lookup_imap in Hi.
  destruct (allData st !! i) as [row|]; [|done]. simpl in Hi. injection Hi as <-.
  exists row. unfold with_xyz. eexists _, _, _. split; [done|].
  split; [by rewrite lookup_insert_ne, lookup_insert_ne, lookup_insert_eq|].
  split; [apply js_or_usable|].
  split; [by rewrite lookup_insert_ne, lookup_insert_eq|].
  split; [apply js_or_usable|].
  split; [by rewrite lookup_insert_eq|].
  split; [destruct zValues; [apply js_or_usable|by right]|].
  split.
  - intros ->. by rewrite Hz.
  - intros d Hdx Hdy Hdz. by rewrite !lookup_insert_ne.
Qed.


Lemma find_elem_of {A} (P : A -> bool) (l : list A) x :
  List.find P l = Some x -> x ∈ l /\ P x = true.
Proof.
  intros Hf. apply find_some in Hf as [Hin HP]. split; [|done].
  by apply list_elem_of_In.
Qed.

Lemma find_elem_of_Some {A} (P : A -> bool) (l : list A) x :
  x ∈ l -> P x = true -> exists y, List.find P l = Some y.
Proof.
  intros Hin HP. destruct (List.find P l) as [y|] eqn:Hf; [by exists y|].
  apply list_elem_of_In in Hin. pose proof (find_none _ _ Hf _ Hin) as Hn. congruence.
Qed.

(** X17. The default selection of x and y, made when one of the two is not
    chosen yet: the two sources it picks are always among the discovered
    [obsm] sources; it never fails when at least two sources were
    discovered and throws when none was; and when the embedding
    [Global_Spatial] offers both [global_x] and [global_y], these two are
    picked. *)
Theorem default_coordinates_choice obsm selectedXCoord selectedYCoord :
  selectedXCoord = None \/ selectedYCoord = None ->
  (forall x y, default_coordinates obsm selectedXCoord selectedYCoord = Ok (x, y) ->
     x ∈ obsm /\ y ∈ obsm) /\
  ((2 <= length obsm)%nat ->
     exists x y, default_coordinates obsm selectedXCoord selectedYCoord = Ok (x, y)) /\
  (obsm = [] ->
     default_coordinates obsm selectedXCoord selectedYCoord
     = Throw (Error "No obsm coordinate sources found. Please check the zarr file structure.")) /\
  (forall gx gy,
     gx ∈ obsm -> cs_embedding gx = "Global_Spatial" -> cs_columnName gx = Some "global_x" ->
     gy ∈ obsm -> cs_embedding gy = "Global_Spatial" -> cs_columnName gy = Some "global_y" ->
     exists x y,
       default_coordinates obsm selectedXCoord selectedYCoord = Ok (x, y) /\
       cs_embedding x = "Global_Spatial" /\ cs_columnName x = Some "global_x" /\
       cs_embedding y = "Global_Spatial" /\ cs_columnName y = Some "global_y").
Proof.
  intros Hsel.
  assert (Hdef : default_coordinates obsm selectedXCoord selectedYCoord
                 = default_coordinates obsm None None).
  { destruct Hsel as [-> | ->]; [done|]. by destruct selectedXCoord. }
  rewrite Hdef. clear Hdef Hsel. unfold default_coordinates.
  set (PX := fun c => String.eqb (cs_embedding c) "Global_Spatial" && columnName_is c "global_x").
  set (PY := fun c => String.eqb (cs_embedding c) "Global_Spatial" && columnName_is c "global_y").
  set (QX := fun c => String.eqb (cs_embedding c) "spatial"
                      && (columnName_is c "x" || (cs_columnIndex c =? 0)%nat)).
  set (QY := fun c => String.eqb (cs_embedding c) "spatial"
                      && (columnName_is c "y" || (cs_columnIndex c =? 1)%nat)).
  split; [|split; [|split]].
  - intros x y.
    destruct (List.find PX obsm) as [gx|] eqn:Hgx, (List.find PY obsm) as [gy|] eqn:Hgy;
      try (intros [= <- <-]; by apply find_elem_of in Hgx as [? _], Hgy as [? _]);
      (destruct (List.find QX obsm) as [sx|] eqn:Hsx, (List.find QY obsm) as [sy|] eqn:Hsy;
       try (intros [= <- <-]; by apply find_elem_of in Hsx as [? _], Hsy as [? _]);
       destruct obsm as [|a [|b l]]; try done; intros [= <- <-]; set_solver).
  - intros Hlen.
    destruct (List.find PX obsm), (List.find PY obsm); try by eexists _, _.
    all: destruct (List.find QX obsm), (List.find QY obsm); try by eexists _, _.
    all: destruct obsm as [|a [|b l]]; simpl in Hlen; try lia; by eexists _, _.
  - by intros ->.
  - intros gx gy Hgx Hex Hnx Hgy Hey Hny.
    destruct (find_elem_of_Some PX obsm gx Hgx) as [x Hx].
    { unfold PX, columnName_is. rewrite Hex, Hnx. by rewrite bool_decide_eq_true_2. }
    destruct (find_elem_of_Some PY obsm gy Hgy) as [y Hy].
    { unfold PY, columnName_is. rewrite Hey, Hny. by rewrite bool_decide_eq_true_2. }
    rewrite Hx, Hy. exists x, y. split; [done|].
    apply find_elem_of in Hx as [_ Hx], Hy as [_ Hy].
    unfold PX, columnName_is in Hx. unfold PY, columnName_is in Hy.
    apply andb_true_iff in Hx as [Hx1 Hx2], Hy as [Hy1 Hy2].
    apply String.eqb_eq in Hx1, Hy1. apply bool_decide_eq_true in Hx2, Hy2. done.
Qed.

End CoordinateMore.

(** ** The var columns *)

Section VarColumnFacts.
Context `{Builtins}.

Lemma object_get_elem_of {A} (obj : list (string * A)) key a :
  NoDup (map fst obj) -> (key, a) ∈ obj -> object_get obj key = Some a.
Proof.
  unfold object_get. induction obj as [|[k b] obj IH]; intros Hnd Hin.
  - by apply elem_of_nil in Hin.
  - apply NoDup_cons in Hnd as [Hk Hnd]. simpl.
    destruct (String.eqb k key) eqn:Hkk.
    + apply String.eqb_eq in Hkk as ->. apply elem_of_cons in Hin as [[= ->]|Hin]; [done|].
      exfalso. apply Hk. apply list_elem_of_fmap. by exists (key, a).
    + apply elem_of_cons in Hin as [[= -> ->]|Hin].
      * by rewrite String.eqb_refl in Hkk.
      * by apply IH.
Qed.

Lemma load_var_column_run root metadata_of colName data st :
  exists evs,
    load_var_column root metadata_of colName data st
    = (Ok (match object_get metadata_of colName with
           | Some metadata =>
               match var_column root metadata colName with
               | Some column => <[colName := column]> data
               | None => data
               end
           | None => data
           end), add_log evs st).
Proof.
  unfold load_var_column, var_column.
  destruct (object_get metadata_of colName) as [metadata|]; [|by exists []].
  destruct (String.eqb (vm_encodingType metadata) "categorical").
  - destruct (loadCategoricalColumn_run root ("var/" +:+ colName) st) as (evs & e & Hrun).
    exists evs. unfold try_catch, bind. rewrite Hrun.
    by destruct (cat_read root ("var/" +:+ colName)).
  - destruct (loadZarrArray_run root ("var/" +:+ colName) st) as (evs & e & Hrun).
    exists evs. unfold try_catch, bind. rewrite Hrun.
    by destruct (store_read root ("var/" +:+ colName)).
Qed.

Lemma load_var_columns_run root metadata_of cols data st :
  exists evs,
    load_var_columns root metadata_of cols data st
    = (Ok (loaded_var_columns root metadata_of cols data), add_log evs st).
Proof.
  revert data st. induction cols as [|colName cols IH]; intros data st; simpl.
  - by exists [].
  - destruct (load_var_column_run root metadata_of colName data st) as (evs1 & Hrun).
    unfold bind. rewrite Hrun.
    destruct (IH (match object_get metadata_of colName with
                  | Some metadata =>
                      match var_column root metadata colName with
                      | Some column => <[colName := column]> data
                      | None => data
                      end
                  | None => data
                  end) (add_log evs1 st)) as (evs2 & ->).
    exists (evs2 ++ evs1). by rewrite add_log_app.
Qed.

Lemma loaded_var_columns_other root metadata_of cols data colName :
  colName ∉ cols ->
  loaded_var_columns root metadata_of cols data !! colName = data !! colName.
Proof.
  revert data. induction cols as [|c cols IH]; intros data Hnot; simpl; [done|].
  apply not_elem_of_cons in Hnot as [Hne Hnot]. rewrite IH by done.
  destruct (object_get metadata_of c) as [metadata|]; [|done].
  destruct (var_column root metadata c); [|done]. by rewrite lookup_insert_ne.
Qed.

Lemma loaded_var_columns_lookup root metadata_of cols data colName metadata :
  NoDup cols -> colName ∈ cols -> data !! colName = None ->
  object_get metadata_of colName = Some metadata ->
  loaded_var_columns root metadata_of cols data !! colName
  = var_column root metadata colName.
Proof.
  revert data. induction cols as [|c cols IH]; intros data Hnd Hin Hdata Hmeta; simpl.
  - by apply elem_of_nil in Hin.
  - apply NoDup_cons in Hnd as [Hc Hnd].
    destruct (decide (c = colName)) as [->|Hne].
    + rewrite loaded_var_columns_other by done. rewrite Hmeta.
      destruct (var_column root metadata colName); [by rewrite lookup_insert_eq|done].
    + apply elem_of_cons in Hin as [->|Hin]; [done|].
      apply IH; [done|done| |done].
      destruct (object_get metadata_of c) as [m|]; [|done].
      destruct (var_column root m c); [|done]. by rewrite lookup_insert_ne.
Qed.

Lemma gene_stats_row_fields cols data i (stats : gmap string value) f :
  is_Some (fold_left (fun stats colName =>
                        <[replace_dots colName := var_cell data colName i]> stats)
                     cols stats !! f)
  <-> is_Some (stats !! f) \/ exists colName, colName ∈ cols /\ f = replace_dots colName.
Proof.
  revert stats. induction cols as [|c cols IH]; intros stats; simpl.
  - split; [by left|]. intros [?|(? & Hin & _)]; [done|]. by apply elem_of_nil in Hin.
  - rewrite IH. split.
    + intros [Hs|(colName & Hin & ->)].
      * destruct (decide (f = replace_dots c)) as [->|Hne].
        -- right. exists c. split; [left|done].
        -- rewrite lookup_insert_ne in Hs by done. by left.
      * right. exists colName. split; [by right|done].
    + intros [Hs|(colName & Hin & ->)].
      * left. destruct (decide (f = replace_dots c)) as [->|Hne].
        -- by rewrite lookup_insert_eq.
        -- by rewrite lookup_insert_ne.
      * apply elem_of_cons in Hin as [->|Hin].
        -- left. by rewrite lookup_insert_eq.
        -- right. by exists colName.
Qed.

Lemma gene_stats_row_other cols data i (stats : gmap string value) f :
  f ∉ map replace_dots cols ->
  fold_left (fun stats colName =>
               <[replace_dots colName := var_cell data colName i]> stats)
            cols stats !! f = stats !! f.
Proof.
  revert stats. induction cols as [|c cols IH]; intros stats Hnot; simpl; [done|].
  simpl in Hnot. apply not_elem_of_cons in Hnot as [Hne Hnot].
  rewrite IH by done. by rewrite lookup_insert_ne.
Qed.

Lemma gene_stats_row_column cols data i (stats : gmap string value) colName :
  colName ∈ cols ->
  (forall colName', colName' ∈ cols -> replace_dots colName' = replace_dots colName ->
                    colName' = colName) ->
  fold_left (fun stats colName =>
               <[replace_dots colName := var_cell data colName i]> stats)
            cols stats !! replace_dots colName = Some (var_cell data colName i).
Proof.
  revert stats. induction cols as [|c cols IH]; intros stats Hin Hinj; simpl.
  - by apply elem_of_nil in Hin.
  - destruct (decide (colName ∈ cols)) as [Hin'|Hnot].
    + apply IH; [done|]. intros c' Hc'. apply Hinj. by right.
    + apply elem_of_cons in Hin as [->|Hin]; [|done].
      rewrite gene_stats_row_other; [by rewrite lookup_insert_eq|].
      intros Hf. apply list_elem_of_fmap in Hf as (c' & Heq & Hc').
      apply Hnot. rewrite <- (Hinj c'); [done|by right|done].
Qed.

(** X18. When [ensureVarColumnsLoaded] loads the var columns it ends
    normally, with no other effect on the session than fetches, marks the
    columns as loaded and builds one entry of [geneStats] per gene.  The
    fields of an entry are [gene] and the column names with their dots
    replaced by underscores; [gene] holds the gene name unless a column is
    named so; and a column whose normalised name is that of no other column
    holds, for each gene, its value in the store, or [null] when the column
    could not be loaded or has no value for the gene. *)
Theorem ensureVarColumnsLoaded_stats vs st root geneNames :
  varColumnsLoaded vs = false ->
  zarrRoot st = Some root ->
  sm_geneNames (sparseMatrix st) = Some geneNames ->
  varColumnMetadata vs <> [] ->
  NoDup (map fst (varColumnMetadata vs)) ->
  exists evs vs',
    ensureVarColumnsLoaded vs st = (Ok vs', add_log evs st) /\
    varColumnsLoaded vs' = true /\
    varColumnMetadata vs' = varColumnMetadata vs /\
    length (geneStats vs') = length geneNames /\
    forall i name, geneNames !! i = Some name ->
      exists row,
        geneStats vs' !! i = Some row /\
        (forall field, is_Some (row !! field) <->
           field = "gene" \/
           exists colName, colName ∈ map fst (varColumnMetadata vs) /\
                           field = replace_dots colName) /\
        ("gene" ∉ map replace_dots (map fst (varColumnMetadata vs)) ->
         row !! "gene" = Some (VStr name)) /\
        (forall colName metadata,
           (colName, metadata) ∈ varColumnMetadata vs ->
           (forall colName', colName' ∈ map fst (varColumnMetadata vs) ->
              replace_dots colName' = replace_dots colName -> colName' = colName) ->
           row !! replace_dots colName = Some (var_value root metadata colName i)).
Proof.
  intros Hflag Hroot Hnames Hmeta Hnd.
  set (cols := map fst (varColumnMetadata vs)).
  destruct (load_var_columns_run root (varColumnMetadata vs) cols ∅ st) as (evs & Hrun).
  exists evs. eexists. split.
  { assert (Hlen : (length (varColumnMetadata vs) =? 0)%nat = false)
      by (by destruct (varColumnMetadata vs)).
    unfold ensureVarColumnsLoaded. rewrite Hflag, Hroot, Hnames, Hlen. cbv zeta. fold cols.
    eapply bind_Ok; [exact Hrun|]. reflexivity. }
  cbn [varColumnsLoaded varColumnMetadata geneStats].
  split; [done|]. split; [done|]. split; [by rewrite length_imap|].
  intros i name Hi. eexists. split; [by rewrite list_lookup_imap, Hi|].
  unfold gene_stats_row. split; [|split].
  - intros field. rewrite gene_stats_row_fields. split.
    + intros [Hs|Hc]; [left|by right].
      destruct (decide (field = "gene")) as [->|Hne]; [done|].
      rewrite lookup_singleton_ne in Hs by done. by destruct Hs.
    + intros [->|Hc]; [left|by right]. by rewrite lookup_singleton_eq.
  - intros Hgene. rewrite gene_stats_row_other by done. by rewrite lookup_singleton_eq.
  - intros colName metadata Hin Hinj.
    assert (Hcol : colName ∈ cols).
    { apply list_elem_of_fmap. by exists (colName, metadata). }
    rewrite gene_stats_row_column by done. f_equal.
    unfold var_cell, var_value.
    rewrite (loaded_var_columns_lookup _ _ _ _ _ metadata); try done.
    by apply object_get_elem_of.
Qed.

(** X19. [ensureVarColumnsLoaded] never fails: whatever happens with the
    store, it ends normally and its only effect on the session is on the
    fetch log.  When the columns are already loaded, or there is no store,
    no gene names or no var column, it leaves everything as it is and
    fetches nothing; and once it has marked the columns as loaded, any
    later call does nothing. *)
Theorem ensureVarColumnsLoaded_never_fails vs st :
  exists evs vs',
    ensureVarColumnsLoaded vs st = (Ok vs', add_log evs st) /\
    (varColumnsLoaded vs = true \/ zarrRoot st = None \/
     sm_geneNames (sparseMatrix st) = None \/ varColumnMetadata vs = [] ->
     vs' = vs /\ evs = []) /\
    (varColumnsLoaded vs' = true ->
     forall st', ensureVarColumnsLoaded vs' st' = (Ok vs', st')).
Proof.
  unfold ensureVarColumnsLoaded.
  destruct (varColumnsLoaded vs) eqn:Hflag.
  { exists [], vs. split; [done|]. split; [done|]. intros _ st'. by rewrite Hflag. }
  destruct (zarrRoot st) as [root|] eqn:Hroot; cycle 1.
  { exists [], vs. split; [done|]. split; [done|]. intros Hf. congruence. }
  destruct (sm_geneNames (sparseMatrix st)) as [geneNames|] eqn:Hnames; cycle 1.
  { exists [], vs. split; [done|]. split; [done|]. intros Hf. congruence. }
  destruct (varColumnMetadata vs) as [|entry entries] eqn:Hentries.
  { exists [], vs. split; [done|]. split; [done|]. intros Hf. congruence. }
  cbn [length Nat.eqb]. cbv zeta.
  destruct (load_var_columns_run root (entry :: entries) (map fst (entry :: entries)) ∅ st)
    as (evs & Hrun).
  exists evs. eexists. split; [eapply bind_Ok; [exact Hrun|reflexivity]|].
  split.
  - intros [Hf|[Hf|[Hf|Hf]]]; congruence.
  - intros _ st'. done.
Qed.

End VarColumnFacts.

(** ** The gene table *)

Section GeneTableFacts.

Lemma priorityColumns_NoDup : NoDup priorityColumns.
Proof. unfold priorityColumns. repeat (apply NoDup_cons; split; [set_solver|]). apply NoDup_nil_2. Qed.

Lemma elem_of_columnOrder_of allColumns col :
  col ∈ columnOrder_of allColumns <-> col ∈ allColumns.
Proof.
  unfold columnOrder_of. cbv zeta.
  rewrite elem_of_app, !list_elem_of_filter, elem_of_list_to_set, list_elem_of_filter.
  split.
  - intros [[Hin _]|[_ Hin]]; done.
  - intros Hin. destruct (decide (col ∈ priorityColumns)) as [Hp|Hp]; [by left|].
    right. split; [|done]. split; [tauto|].
    intros ->. apply Hp. unfold priorityColumns. set_solver.
Qed.

(** X20. The columns of the gene table are the fields of the first entry of
    [geneStats], each exactly once: none is dropped and none shown twice.
    [gene] comes first when there is such a field, every priority column
    comes before every other column, and the column of the initial sort is
    a column of the table, except that it is [gene] even when there is no
    such field and none of the preferred columns. *)
Theorem columnOrder_of_permutation allColumns :
  NoDup allColumns ->
  columnOrder_of allColumns ≡ₚ allColumns /\
  ("gene" ∈ allColumns -> head (columnOrder_of allColumns) = Some "gene") /\
  (forall i j ci cj,
     columnOrder_of allColumns !! i = Some ci -> columnOrder_of allColumns !! j = Some cj ->
     ci ∈ priorityColumns -> cj ∉ priorityColumns -> (i < j)%nat) /\
  (initialSortColumn_of (columnOrder_of allColumns) ∈ columnOrder_of allColumns \/
   (initialSortColumn_of (columnOrder_of allColumns) = "gene" /\ "gene" ∉ allColumns)).
Proof.
  intros Hnd. split; [|split; [|split]].
  - apply NoDup_Permutation; [|done|apply elem_of_columnOrder_of].
    unfold columnOrder_of. cbv zeta. apply NoDup_app. split; [|split].
    + apply NoDup_filter, priorityColumns_NoDup.
    + intros col Hp Hr. apply list_elem_of_filter in Hr as [[Hr _] _].
      apply Hr. by apply elem_of_list_to_set.
    + by apply NoDup_filter.
  - intros Hgene. unfold columnOrder_of, priorityColumns. cbv zeta.
    by rewrite filter_cons_True.
  - intros i j ci cj Hi Hj Hpi Hpj. unfold columnOrder_of in Hi, Hj. cbv zeta in Hi, Hj.
    set (prioritized := filter (fun col => col ∈ allColumns) priorityColumns) in *.
    assert (Hlt : (i < length prioritized)%nat).
    { destruct (decide (i < length prioritized)%nat) as [Hlt|Hge]; [done|].
      rewrite lookup_app_r in Hi by lia. apply list_elem_of_lookup_2 in Hi.
      apply list_elem_of_filter in Hi as [[Hu _] Hin]. exfalso. apply Hu.
      apply elem_of_list_to_set, list_elem_of_filter. done. }
    destruct (decide (j < length prioritized)%nat) as [Hj'|Hj']; [|lia].
    rewrite lookup_app_l in Hj by done. apply list_elem_of_lookup_2 in Hj.
    apply list_elem_of_filter in Hj as [_ Hj]. done.
  - unfold initialSortColumn_of.
    repeat (case_bool_decide; [by left|]).
    destruct (decide ("gene" ∈ allColumns)) as [Hg|Hg]; [left|by right].
    by apply elem_of_columnOrder_of.
Qed.

End GeneTableFacts.

(** ** The gene search box *)

Section GeneSearchFacts.
Variable toLowerCase : string -> string.
Variable geneNames : list string.

Lemma append_cons c s t : String c s +:+ t = String c (s +:+ t).
Proof. reflexivity. Qed.

Lemma append_nil_l s : "" +:+ s = s.
Proof. reflexivity. Qed.

Lemma prefix_spec q s : String.prefix q s = true <-> exists after, s = q +:+ after.
Proof.
  revert s. induction q as [|c q IH]; intros s.
  - split; [by exists s|by destruct s].
  - destruct s as [|d s]; simpl.
    + split; [done|]. intros [after Heq]. by rewrite append_cons in Heq.
    + destruct (Ascii.ascii_dec c d) as [->|Hne].
      * rewrite IH. split; intros [after Heq]; exists after.
        -- by rewrite append_cons, Heq.
        -- rewrite append_cons in Heq. by injection Heq.
      * split; [done|]. intros [after Heq]. rewrite append_cons in Heq. congruence.
Qed.

Lemma includes_spec s q :
  includes s q = true <-> exists before after, s = before +:+ q +:+ after.
Proof.
  induction s as [|c s IH]; cbn [includes].
  - rewrite orb_false_r. split.
    + intros [after Heq]%prefix_spec. by exists "", after.
    + intros (before & after & Heq). apply prefix_spec. exists after.
      destruct before; [done|]. by rewrite append_cons in Heq.
  - rewrite orb_true_iff. split.
    + intros [[after Heq]%prefix_spec|(before & after & Heq)%IH].
      * by exists "", after.
      * exists (String c before), after. by rewrite append_cons, Heq.
    + intros (before & after & Heq). destruct before as [|d before].
      * left. apply prefix_spec. by exists after.
      * right. apply IH. exists before, after. rewrite append_cons in Heq. congruence.
Qed.

Lemma startsWith_includes s q : startsWith s q = true -> includes s q = true.
Proof.
  unfold startsWith. intros Hp. destruct s; cbn [includes]; by rewrite Hp.
Qed.

Lemma elem_of_suggestions query g :
  g ∈ filter (fun g => Is_true (startsWith (toLowerCase g) (toLowerCase query))) geneNames ++
      filter (fun g => Is_true (negb (startsWith (toLowerCase g) (toLowerCase query))
                               && includes (toLowerCase g) (toLowerCase query))) geneNames
  <-> g ∈ geneNames /\ matches_query toLowerCase query g.
Proof.
  unfold matches_query. rewrite <- includes_spec, elem_of_app, !list_elem_of_filter.
  rewrite !Is_true_true, andb_true_iff, negb_true_iff. split.
  - intros [[Hp Hin]|[[_ Hi] Hin]]; [|done]. split; [done|]. by apply startsWith_includes.
  - intros [Hin Hi].
    destruct (startsWith (toLowerCase g) (toLowerCase query)) eqn:Hp; [by left|by right].
Qed.

Lemma showSuggestions_run query gs :
  query <> "" ->
  let suggestions :=
    take 20
      (filter (fun g => Is_true (startsWith (toLowerCase g) (toLowerCase query))) geneNames ++
       filter (fun g => Is_true (negb (startsWith (toLowerCase g) (toLowerCase query))
                                && includes (toLowerCase g) (toLowerCase query))) geneNames) in
  currentSuggestions (showSuggestions toLowerCase geneNames query gs) = suggestions /\
  suggestions_display (showSuggestions toLowerCase geneNames query gs) = "block" /\
  selectedGene (showSuggestions toLowerCase geneNames query gs) = selectedGene gs /\
  (suggestions <> [] -> selectedIndex (showSuggestions toLowerCase geneNames query gs) = -1).
Proof.
  intros Hq. cbv zeta. unfold showSuggestions.
  apply String.eqb_neq in Hq. rewrite Hq. cbv zeta.
  destruct (take 20 _) as [|g l] eqn:Htake; simpl; [done|].
  repeat split; done.
Qed.

Lemma showSuggestions_sound query gs g :
  query <> "" ->
  g ∈ currentSuggestions (showSuggestions toLowerCase geneNames query gs) ->
  g ∈ geneNames /\ matches_query toLowerCase query g.
Proof.
  intros Hq Hg. destruct (showSuggestions_run query gs Hq) as (Hcur & _).
  rewrite Hcur in Hg. apply elem_of_suggestions.
  apply list_elem_of_lookup in Hg as [i Hi]. apply lookup_take_Some in Hi as [Hi _].
  by eapply list_elem_of_lookup_2.
Qed.

(** X21. For a query that is not empty, [showSuggestions] shows the list
    with at most 20 gene names; each of them is a gene name in which the
    query occurs (both taken in lower case); when fewer than 20 are listed,
    every such gene name is listed; and no name that starts with the query
    comes after one that does not. *)
Theorem showSuggestions_listed query gs :
  query <> "" ->
  let listed := currentSuggestions (showSuggestions toLowerCase geneNames query gs) in
  suggestions_display (showSuggestions toLowerCase geneNames query gs) = "block" /\
  (length listed <= 20)%nat /\
  (forall g, g ∈ listed -> g ∈ geneNames /\ matches_query toLowerCase query g) /\
  ((length listed < 20)%nat ->
   forall g, g ∈ geneNames -> matches_query toLowerCase query g -> g ∈ listed) /\
  (forall i j gi gj,
     listed !! i = Some gi -> listed !! j = Some gj ->
     starts_with_query toLowerCase query gj -> ~ starts_with_query toLowerCase query gi ->
     (j < i)%nat).
Proof.
  intros Hq. cbv zeta.
  destruct (showSuggestions_run query gs Hq) as (-> & -> & _ & _).
  set (A := filter (fun g => Is_true (startsWith (toLowerCase g) (toLowerCase query))) geneNames).
  set (B := filter (fun g => Is_true (negb (startsWith (toLowerCase g) (toLowerCase query))
                                     && includes (toLowerCase g) (toLowerCase query))) geneNames).
  split; [done|]. split; [rewrite length_take; lia|]. split; [|split].
  - intros g Hg. apply elem_of_suggestions. fold A B.
    apply list_elem_of_lookup in Hg as [i Hi]. apply lookup_take_Some in Hi as [Hi _].
    by eapply list_elem_of_lookup_2.
  - intros Hlen g Hin Hm. rewrite take_ge.
    + apply elem_of_suggestions. done.
    + rewrite length_take in Hlen. lia.
  - intros i j gi gj Hi Hj Hpj Hpi.
    apply lookup_take_Some in Hi as [Hi _], Hj as [Hj _].
    assert (HA : forall g, g ∈ A <-> g ∈ geneNames /\ starts_with_query toLowerCase query g).
    { intros g. unfold A, starts_with_query. rewrite list_elem_of_filter, Is_true_true.
      unfold startsWith. rewrite prefix_spec. tauto. }
    assert (HB : forall g, g ∈ B -> ~ starts_with_query toLowerCase query g).
    { intros g Hg Hs. unfold B in Hg. apply list_elem_of_filter in Hg as [Hg Hin].
      apply Is_true_true, andb_true_iff in Hg as [Hg _]. apply negb_true_iff in Hg.
      unfold starts_with_query in Hs. apply prefix_spec in Hs. unfold startsWith in Hg.
      congruence. }
    destruct (decide (j < length A)%nat) as [HjA|HjA]; cycle 1.
    { rewrite lookup_app_r in Hj by lia. apply list_elem_of_lookup_2 in Hj.
      by apply HB in Hj. }
    destruct (decide (i < length A)%nat) as [HiA|HiA]; [|lia].
    rewrite lookup_app_l in Hi by done. apply list_elem_of_lookup_2 in Hi.
    apply HA in Hi as [_ Hi]. done.
Qed.

Lemma arrows_keep_suggestions keys gs :
  Forall (fun key => key = "ArrowDown" \/ key = "ArrowUp") keys ->
  suggestions_display gs = "block" ->
  currentSuggestions gs <> [] ->
  -1 <= selectedIndex gs < Z.of_nat (length (currentSuggestions gs)) ->
  let gs1 := fold_left (fun gs key => on_keydown geneNames key gs) keys gs in
  currentSuggestions gs1 = currentSuggestions gs /\
  suggestions_display gs1 = "block" /\
  selectedGene gs1 = selectedGene gs /\
  -1 <= selectedIndex gs1 < Z.of_nat (length (currentSuggestions gs)).
Proof.
  intros Hkeys. revert gs. induction Hkeys as [|key keys Hkey _ IH]; intros gs Hd Hne Hidx.
  - simpl. done.
  - cbn [fold_left]. cbv zeta.
    assert (Hlen : (Z.of_nat (length (currentSuggestions gs)) =? 0) = false).
    { apply Z.eqb_neq. destruct (currentSuggestions gs); [done|simpl; lia]. }
    assert (Hstep : exists idx,
               on_keydown geneNames key gs
               = {| selectedIndex := idx; currentSuggestions := currentSuggestions gs;
                    suggestions_display := suggestions_display gs;
                    selectedGene := selectedGene gs |} /\
               -1 <= idx < Z.of_nat (length (currentSuggestions gs))).
    { apply Z.eqb_neq in Hlen.
      unfold on_keydown. cbv zeta. rewrite Hd. simpl.
      destruct (Z.of_nat (length (currentSuggestions gs)) =? 0) eqn:Hl;
        [by apply Z.eqb_eq in Hl|].
      destruct Hkey as [-> | ->]; simpl; eexists; (split; [reflexivity|lia]). }
    destruct Hstep as (idx & -> & Hidx').
    destruct (IH {| selectedIndex := idx; currentSuggestions := currentSuggestions gs;
                    suggestions_display := suggestions_display gs;
                    selectedGene := selectedGene gs |}) as (H1 & H2 & H3 & H4); try done.
Qed.

(** X22. Keyboard selection in the gene search box.  After a query that has
    suggestions, any sequence of up and down arrows leaves the suggestions
    as they are and keeps [selectedIndex] between [-1] and the last place of
    the list; Enter then selects the gene at that place (the first one when
    the index is [-1], as it is right after the query): a gene of the list,
    hence a known gene that matches the query, becomes [selectedGene], and
    the list is hidden. *)
Theorem keyboard_selects_listed_gene query gs keys :
  (forall s, toLowerCase s = "" <-> s = "") ->
  query <> "" ->
  currentSuggestions (showSuggestions toLowerCase geneNames query gs) <> [] ->
  Forall (fun key => key = "ArrowDown" \/ key = "ArrowUp") keys ->
  let gs0 := showSuggestions toLowerCase geneNames query gs in
  let gs1 := fold_left (fun gs key => on_keydown geneNames key gs) keys gs0 in
  currentSuggestions gs1 = currentSuggestions gs0 /\
  -1 <= selectedIndex gs1 < Z.of_nat (length (currentSuggestions gs0)) /\
  (keys = [] -> selectedIndex gs1 = -1) /\
  exists g,
    currentSuggestions gs0 !! Z.to_nat (Z.max (selectedIndex gs1) 0) = Some g /\
    g ∈ geneNames /\ matches_query toLowerCase query g /\
    selectedGene (on_keydown geneNames "Enter" gs1) = Some g /\
    suggestions_display (on_keydown geneNames "Enter" gs1) = "none".
Proof.
  intros Hlower Hq Hne Hkeys. cbv zeta.
  destruct (showSuggestions_run query gs Hq) as (Hcur & Hdisp & _ & Hidx).
  cbv zeta in Hidx. rewrite <- Hcur in Hidx. specialize (Hidx Hne).
  set (gs0 := showSuggestions toLowerCase geneNames query gs) in *.
  destruct (arrows_keep_suggestions keys gs0 Hkeys Hdisp Hne) as (Hc1 & Hd1 & _ & Hi1).
  { rewrite Hidx. destruct (currentSuggestions gs0); [done|simpl; lia]. }
  cbv zeta in Hc1, Hd1, Hi1.
  set (gs1 := fold_left (fun gs key => on_keydown geneNames key gs) keys gs0) in *.
  split; [done|]. split; [done|]. split; [by intros ->|].
  assert (Hpos : (0 < length (currentSuggestions gs0))%nat)
    by (destruct (currentSuggestions gs0); [done|simpl; lia]).
  assert (Hlt : (Z.to_nat (Z.max (selectedIndex gs1) 0) < length (currentSuggestions gs0))%nat)
    by lia.
  apply lookup_lt_is_Some_2 in Hlt as [g Hg]. exists g. split; [done|].
  assert (Hin : g ∈ currentSuggestions gs0) by by eapply list_elem_of_lookup_2.
  destruct (showSuggestions_sound query gs g Hq Hin) as [Hgene Hmatch].
  split; [done|]. split; [done|].
  assert (Hgne : g <> "").
  { intros ->. destruct Hmatch as (before & after & Heq).
    assert (Hl : toLowerCase "" = "") by by apply Hlower.
    rewrite Hl in Heq. destruct before; [|by rewrite append_cons in Heq].
    rewrite append_nil_l in Heq.
    destruct (toLowerCase query) eqn:Hlq; [|by rewrite append_cons in Heq].
    apply (proj1 (Hlower query)) in Hlq. done. }
  assert (Hsel : forall i, currentSuggestions gs1 !! Z.to_nat i = Some g -> 0 <= i ->
             selectGene geneNames (suggestion_at gs1 i) gs1
             = {| selectedIndex := selectedIndex gs1;
                  currentSuggestions := currentSuggestions gs1;
                  suggestions_display := "none"; selectedGene := Some g |}).
  { intros i Hi Hi0. unfold suggestion_at. apply Z.leb_le in Hi0. rewrite Hi0, Hi. simpl.
    apply String.eqb_neq in Hgne. rewrite Hgne. simpl.
    by rewrite bool_decide_eq_true_2. }
  assert (Hn : (Z.of_nat (length (currentSuggestions gs1)) =? 0) = false).
  { apply Z.eqb_neq. rewrite Hc1. destruct (currentSuggestions gs0); [done|simpl; lia]. }
  unfold on_keydown. cbv zeta. rewrite Hd1, Hn. simpl.
  destruct (decide (0 <= selectedIndex gs1)) as [Hsome|Hneg].
  - assert (Hb : (0 <=? selectedIndex gs1) && (selectedIndex gs1 <?
                  Z.of_nat (length (currentSuggestions gs1))) = true).
    { apply andb_true_iff. rewrite Hc1. split; [by apply Z.leb_le|apply Z.ltb_lt; lia]. }
    rewrite Hb, (Hsel (selectedIndex gs1)); [done| |done].
    rewrite Hc1. by rewrite Z.max_l in Hg by lia.
  - assert (Hb : (0 <=? selectedIndex gs1) = false) by (apply Z.leb_gt; lia).
    rewrite Hb. simpl.
    assert (Hb' : (0 <? Z.of_nat (length (currentSuggestions gs1))) = true).
    { apply Z.ltb_lt. apply Z.eqb_neq in Hn. lia. }
    rewrite Hb', (Hsel 0); [done| |done].
    rewrite Hc1. by rewrite Z.max_r in Hg by lia.
Qed.

End GeneSearchFacts.

(** ** Column discovery *)

Section ColumnDiscoveryFacts.
Variable encoding_type : string -> option string.

Lemma discover_column_step rows seen acc colName :
  discovered encoding_type rows seen acc ->
  discovered encoding_type rows (seen ++ [colName]) (discover_column encoding_type acc colName).
Proof.
  destruct acc as [st names].
  intros (Hcat & Hcont & Hc & Hk & Hm & Hn & Hr & Hv & Hl & Hd).
  cbn [fst snd] in *. unfold discovered, discover_column. cbn [fst snd]. cbv zeta.
  assert (Hmeta : forall col,
            col ∈ seen ++ [colName] ->
            <[colName := discovered_metadata encoding_type colName]> (columnMetadata st) !! col
            = Some (discovered_metadata encoding_type col)).
  { intros col Hin. destruct (decide (col = colName)) as [->|Hne].
    - by rewrite lookup_insert_eq.
    - rewrite lookup_insert_ne by done. apply Hm.
      apply elem_of_app in Hin as [?|Hin%list_elem_of_singleton]; done. }
  assert (Hnone : forall col,
            col ∉ seen ++ [colName] ->
            <[colName := discovered_metadata encoding_type colName]> (columnMetadata st) !! col
            = None).
  { intros col Hnot. rewrite elem_of_app, list_elem_of_singleton in Hnot.
    rewrite lookup_insert_ne by (intros ->; tauto). apply Hn. tauto. }
  assert (Hadd : forall (l : list string) (b : bool),
            NoDup l ->
            (forall col, col ∈ l <-> col ∈ seen /\ isNumeric_of encoding_type col = b) ->
            isNumeric_of encoding_type colName = b ->
            NoDup (if bool_decide (colName ∈ l) then l else l ++ [colName]) /\
            forall col, col ∈ (if bool_decide (colName ∈ l) then l else l ++ [colName])
                        <-> col ∈ seen ++ [colName] /\ isNumeric_of encoding_type col = b).
  { intros l b Hnd Hl' Hb. split.
    - case_bool_decide as Hin; [done|]. apply NoDup_app. split; [done|].
      split; [|apply NoDup_singleton]. by intros col Hcol ->%list_elem_of_singleton.
    - intros col. rewrite elem_of_app, list_elem_of_singleton.
      case_bool_decide as Hin.
      + rewrite Hl'. split; [tauto|]. intros [[?| ->] ?]; [done|]. by apply Hl'.
      + rewrite elem_of_app, list_elem_of_singleton, Hl'. split.
        * intros [[? ?]| ->]; tauto.
        * intros [[?| ->] ?]; tauto. }
  assert (Hkeep : forall (l : list string) (b : bool),
            (forall col, col ∈ l <-> col ∈ seen /\ isNumeric_of encoding_type col = b) ->
            isNumeric_of encoding_type colName = negb b ->
            forall col, col ∈ l
                        <-> col ∈ seen ++ [colName] /\ isNumeric_of encoding_type col = b).
  { intros l b Hl' Hb col. rewrite Hl', elem_of_app, list_elem_of_singleton. split; [tauto|].
    intros [[?| ->] Hb']; [done|]. rewrite Hb in Hb'. by destruct b. }
  fold (discovered_metadata encoding_type colName).
  destruct (isNumeric_of encoding_type colName) eqn:Hnum;
    cbn [fst snd names_categorical names_continuous set_continuousRanges set_attributeValues
         set_columnMetadata columnMetadata continuousRanges attributeValues loadedColumns
         allData].
  - destruct (Hadd (names_continuous names) true Hcont Hc eq_refl) as [Hnd' Hcont'].
    split_and!; try done.
    + by apply (Hkeep _ false).
    + intros col Hcol. destruct (decide (col = colName)) as [->|Hne].
      * by rewrite lookup_insert_eq.
      * rewrite lookup_insert_ne by done. apply Hr. apply Hc.
        apply Hcont' in Hcol as [Hin Hnum']. split; [|done].
        apply elem_of_app in Hin as [?|Hin%list_elem_of_singleton]; done.
  - destruct (Hadd (names_categorical names) false Hcat Hk eq_refl) as [Hnd' Hcat'].
    split_and!; try done.
    + by apply (Hkeep _ true).
    + intros col Hcol. destruct (decide (col = colName)) as [->|Hne].
      * by rewrite lookup_insert_eq.
      * rewrite lookup_insert_ne by done. apply Hv. apply Hk.
        apply Hcat' in Hcol as [Hin Hnum']. split; [|done].
        apply elem_of_app in Hin as [?|Hin%list_elem_of_singleton]; done.
Qed.

Lemma discover_columns_fold rows cols seen acc :
  discovered encoding_type rows seen acc ->
  discovered encoding_type rows (seen ++ cols) (fold_left (discover_column encoding_type) cols acc).
Proof.
  revert seen acc. induction cols as [|c cols IH]; intros seen acc Hinv; simpl.
  - by rewrite app_nil_r.
  - rewrite (cons_middle c seen cols), app_assoc. apply IH. by apply discover_column_step.
Qed.

Lemma discovered_start st :
  discovered encoding_type (allData st) []
    (set_loadedColumns ∅ (set_columnMetadata ∅ st),
     {| names_categorical := []; names_continuous := [] |}).
Proof.
  unfold discovered. cbn. split_and!; try done; try apply NoDup_nil_2.
  - intros col. split; [by intros ?%elem_of_nil|by intros [?%elem_of_nil _]].
  - intros col. split; [by intros ?%elem_of_nil|by intros [?%elem_of_nil _]].
  - by intros col ?%elem_of_nil.
  - by intros col ?%elem_of_nil.
  - by intros col ?%elem_of_nil.
Qed.

(** X23. The column discovery of [loadData] puts every column of
    [column-order] in exactly one of the two lists, without repetition:
    the continuous list holds the columns whose encoding type is [array]
    and the columns [global_x], [global_y], [global_z], the categorical
    list all others; in particular a column whose attributes cannot be read
    is taken as categorical, with the encoding [array].  The metadata of a
    listed column agrees with its list, its encoding is never empty, a
    continuous column starts with the range [{min: Infinity, max:
    -Infinity}] and a categorical one with no values; no other column has
    metadata, no column is marked as loaded, and the rows are untouched. *)
Theorem discover_columns_classifies columnOrder st :
  let st' := (discover_columns encoding_type columnOrder st).1 in
  let names := (discover_columns encoding_type columnOrder st).2 in
  NoDup (names_categorical names) /\ NoDup (names_continuous names) /\
  (forall col, col ∈ names_continuous names <->
     col ∈ columnOrder /\
     (encoding_type col = Some "array" \/ col ∈ numericColumns)) /\
  (forall col, col ∈ names_categorical names <->
     col ∈ columnOrder /\
     ~ (encoding_type col = Some "array" \/ col ∈ numericColumns)) /\
  (forall col, col ∈ names_continuous names ->
     exists metadata,
       columnMetadata st' !! col = Some metadata /\
       cm_type metadata = "continuous" /\ cm_path metadata = col /\
       cm_encodingType metadata <> "" /\
       continuousRanges st' !! col = Some initial_range) /\
  (forall col, col ∈ names_categorical names ->
     exists metadata,
       columnMetadata st' !! col = Some metadata /\
       cm_type metadata = "categorical" /\ cm_path metadata = col /\
       cm_encodingType metadata <> "" /\
       (encoding_type col = None -> cm_encodingType metadata = "array") /\
       attributeValues st' !! col = Some ∅) /\
  (forall col, col ∉ columnOrder -> columnMetadata st' !! col = None) /\
  loadedColumns st' = ∅ /\ allData st' = allData st.
Proof.
  cbv zeta. unfold discover_columns.
  pose proof (discover_columns_fold (allData st) columnOrder [] _ (discovered_start st))
    as (Hcat & Hcont & Hc & Hk & Hm & Hn & Hr & Hv & Hl & Hd).
  rewrite app_nil_l in *.
  set (acc := fold_left _ _ _) in *.
  assert (Hnum : forall col, isNumeric_of encoding_type col = true <->
                   encoding_type col = Some "array" \/ col ∈ numericColumns).
  { intros col. unfold isNumeric_of.
    rewrite orb_true_iff, !bool_decide_eq_true. done. }
  assert (Henc : forall e, encodingType_or_array e <> "").
  { intros [e|]; simpl; [|done]. destruct (String.eqb e "") eqn:He; [done|].
    by apply String.eqb_neq in He. }
  split; [done|]. split; [done|]. split; [|split; [|split; [|split]]].
  - intros col. rewrite Hc, Hnum. done.
  - intros col. rewrite Hk, <- Hnum.
    destruct (isNumeric_of encoding_type col); split; intros [? ?]; split; congruence.
  - intros col Hcol. exists (discovered_metadata encoding_type col).
    pose proof (proj1 (Hc col) Hcol) as [Hin Hn'].
    split; [by apply Hm|]. unfold discovered_metadata. rewrite Hn'. cbn.
    split; [done|]. split; [done|]. split; [apply Henc|]. by apply Hr.
  - intros col Hcol. exists (discovered_metadata encoding_type col).
    pose proof (proj1 (Hk col) Hcol) as [Hin Hn'].
    split; [by apply Hm|]. unfold discovered_metadata. rewrite Hn'. cbn.
    split; [done|]. split; [done|]. split; [apply Henc|].
    split; [by intros ->|]. by apply Hv.
  - done.
Qed.

End ColumnDiscoveryFacts.

(** ** Rounding is monotone *)

From Stdlib Require Import Qpower.

Section RoundingOrder.

Lemma Qpow2_Qpower e : (Qpow2 e == 2 ^ e)%Q.
Proof.
  destruct e as [|p|p]; cbn [Qpow2].
  - done.
  - by rewrite Zpower_Qpower.
  - change (2 ^ Z.neg p)%Q with (/ (2 ^ Z.pos p))%Q.
    rewrite <- (Zpower_Qpower 2 (Z.pos p)) by done.
    rewrite <- Pos2Z.inj_pow. done.
Qed.

Lemma Qpow2_add a b : (Qpow2 (a + b) == Qpow2 a * Qpow2 b)%Q.
Proof. rewrite !Qpow2_Qpower. by apply Qpower_plus. Qed.

Lemma Qpow2_nonneg e : 0 <= e -> Qpow2 e = inject_Z (2 ^ e).
Proof. destruct e as [|p|p]; [done|done|lia]. Qed.

Lemma Qpow2_ge_1 e : 0 <= e -> (1 <= Qpow2 e)%Q.
Proof.
  intros He. rewrite Qpow2_nonneg by done. rewrite <- (Zle_Qle 1).
  pose proof (Z.pow_pos_nonneg 2 e). lia.
Qed.

Lemma Qpow2_le a b : a <= b -> (Qpow2 a <= Qpow2 b)%Q.
Proof.
  intros Hab. replace b with (a + (b - a)) by lia. rewrite Qpow2_add.
  rewrite <- (Qmult_1_r (Qpow2 a)) at 1.
  rewrite !(Qmult_comm (Qpow2 a)). apply Qmult_le_compat_r.
  - apply Qpow2_ge_1. lia.
  - apply Qlt_le_weak, Qpow2_pos.
Qed.

Lemma Qpow2_split (a b : Z) :
  0 <= a -> 0 <= b -> (Qpow2 (a - b) == inject_Z (2 ^ a) / inject_Z (2 ^ b))%Q.
Proof.
  intros Ha Hb. replace (a - b) with (a + - b) by lia.
  rewrite Qpow2_add, (Qpow2_nonneg a) by done. unfold Qdiv.
  apply Qmult_comp; [done|].
  rewrite Qpow2_Qpower, Qpower_opp, <- Qpow2_Qpower, (Qpow2_nonneg b) by done. done.
Qed.

(** [floor_log2 q] is the exponent of the power of two at or below [q]. *)
Lemma floor_log2_spec (q : Q) :
  (0 < q)%Q -> (Qpow2 (floor_log2 q) <= q)%Q /\ (q < Qpow2 (floor_log2 q + 1))%Q.
Proof.
  intros Hpos. unfold floor_log2. destruct q as [n d]. cbn [Qnum Qden]. cbv zeta.
  assert (Hn : 0 < n) by (unfold Qlt in Hpos; simpl in Hpos; lia).
  set (a := Z.log2 n). set (b := Z.log2 (Z.pos d)).
  assert (Ha : 0 <= a) by apply Z.log2_nonneg.
  assert (Hb : 0 <= b) by apply Z.log2_nonneg.
  destruct (Z.log2_spec n Hn) as [Hn1 Hn2]. fold a in Hn1, Hn2.
  destruct (Z.log2_spec (Z.pos d) (Pos2Z.is_pos d)) as [Hd1 Hd2]. fold b in Hd1, Hd2.
  rewrite <- Z.add_1_r in Hn2, Hd2.
  assert (Hpa : 0 < 2 ^ a) by (apply Z.pow_pos_nonneg; lia).
  assert (Hpb : 0 < 2 ^ b) by (apply Z.pow_pos_nonneg; lia).
  assert (Hpa1 : 0 < 2 ^ (a + 1)) by (apply Z.pow_pos_nonneg; lia).
  assert (Hpb1 : 0 < 2 ^ (b + 1)) by (apply Z.pow_pos_nonneg; lia).
  assert (Hup : (n # d < Qpow2 (a - b + 1))%Q).
  { replace (a - b + 1) with (a + 1 - b) by lia. rewrite Qpow2_split by lia.
    apply Qlt_shift_div_l; [rewrite <- (Zlt_Qlt 0); lia|].
    unfold Qlt, Qmult. cbn [Qnum Qden inject_Z]. nia. }
  assert (Hlo : (Qpow2 (a - b - 1) <= n # d)%Q).
  { replace (a - b - 1) with (a - (b + 1)) by lia. rewrite Qpow2_split by lia.
    apply Qle_shift_div_r; [rewrite <- (Zlt_Qlt 0); lia|].
    unfold Qle, Qmult. cbn [Qnum Qden inject_Z]. nia. }
  destruct (Qle_bool (Qpow2 (a - b)) (n # d)) eqn:Hb'.
  - split; [by apply Qle_bool_iff|done].
  - split; [done|]. replace (a - b - 1 + 1) with (a - b) by lia. by apply Qle_bool_false.
Qed.

Lemma floor_log2_mono (q1 q2 : Q) :
  (0 < q1)%Q -> (q1 <= q2)%Q -> floor_log2 q1 <= floor_log2 q2.
Proof.
  intros H1 H12.
  assert (H2 : (0 < q2)%Q) by by eapply Qlt_le_trans.
  destruct (floor_log2_spec q1 H1) as [Hlo1 _], (floor_log2_spec q2 H2) as [_ Hup2].
  destruct (Z_le_gt_dec (floor_log2 q1) (floor_log2 q2)) as [|Hgt]; [done|].
  exfalso. apply (Qlt_irrefl q2).
  eapply Qlt_le_trans; [exact Hup2|]. eapply Qle_trans; [|exact H12].
  eapply Qle_trans; [|exact Hlo1]. apply Qpow2_le. lia.
Qed.

Lemma round_half_even_cases (x : Q) :
  round_half_even x = Qfloor x \/ round_half_even x = Qfloor x + 1.
Proof. unfold round_half_even. destruct (Qcompare _ _); [destruct (Z.even _)| |]; auto. Qed.

Lemma round_half_even_mono (x y : Q) :
  (x <= y)%Q -> round_half_even x <= round_half_even y.
Proof.
  intros Hxy. pose proof (Qfloor_resp_le x y Hxy) as Hf.
  destruct (Z.eq_dec (Qfloor x) (Qfloor y)) as [Heq|Hne].
  - unfold round_half_even. rewrite <- Heq.
    assert (Hd : (x - inject_Z (Qfloor x) <= y - inject_Z (Qfloor x))%Q).
    { by apply Qplus_le_l. }
    destruct (Qcompare (x - inject_Z (Qfloor x)) (1 # 2)) eqn:Hcx.
    + apply Qeq_alt in Hcx. rewrite Hcx in Hd.
      destruct (Qcompare (y - inject_Z (Qfloor x)) (1 # 2)) eqn:Hcy.
      * lia.
      * apply Qlt_alt in Hcy. exfalso. apply (Qlt_irrefl (1 # 2)).
        by eapply Qle_lt_trans.
      * destruct (Z.even _); lia.
    + destruct (Qcompare (y - inject_Z (Qfloor x)) (1 # 2)); [destruct (Z.even _)| |]; lia.
    + apply Qgt_alt in Hcx.
      assert (Hcy : (1 # 2 < y - inject_Z (Qfloor x))%Q) by by eapply Qlt_le_trans.
      apply Qgt_alt in Hcy. rewrite Hcy. lia.
  - destruct (round_half_even_cases x) as [-> | ->], (round_half_even_cases y) as [-> | ->];
      lia.
Qed.

(** The value before the overflow test of [round_pos]. *)
Lemma round_pos_mono_Q (prec emin : Z) (q1 q2 : Q) :
  0 < prec -> (0 < q1)%Q -> (q1 <= q2)%Q ->
  let e1 := Z.max (floor_log2 q1) emin in
  let e2 := Z.max (floor_log2 q2) emin in
  (inject_Z (round_half_even (q1 / Qpow2 (e1 - (prec - 1)))) * Qpow2 (e1 - (prec - 1))
   <= inject_Z (round_half_even (q2 / Qpow2 (e2 - (prec - 1)))) * Qpow2 (e2 - (prec - 1)))%Q.
Proof.
  intros Hprec H1 H12. cbv zeta.
  assert (H2 : (0 < q2)%Q) by by eapply Qlt_le_trans.
  pose proof (floor_log2_mono q1 q2 H1 H12) as Hfl.
  set (e1 := Z.max (floor_log2 q1) emin). set (e2 := Z.max (floor_log2 q2) emin).
  set (u1 := Qpow2 (e1 - (prec - 1))). set (u2 := Qpow2 (e2 - (prec - 1))).
  assert (Hu1 : (0 < u1)%Q) by apply Qpow2_pos.
  assert (Hu2 : (0 < u2)%Q) by apply Qpow2_pos.
  destruct (Z.eq_dec e1 e2) as [Heq|Hne].
  - subst u2. rewrite <- Heq. fold u1.
    apply Qmult_le_compat_r; [|by apply Qlt_le_weak].
    rewrite <- Zle_Qle. apply round_half_even_mono.
    apply Qmult_le_compat_r; [done|]. by apply Qlt_le_weak, Qinv_lt_0_compat.
  - assert (Hlt : e1 < e2) by lia.
    assert (He2 : e2 = floor_log2 q2) by lia.
    apply Qle_trans with (Qpow2 (e1 + 1)); [|apply Qle_trans with (Qpow2 e2)].
    + assert (Hk : round_half_even (q1 / u1) <= 2 ^ prec).
      { apply round_half_even_bounds.
        - apply Qmult_le_0_compat; [by apply Qlt_le_weak|].
          by apply Qlt_le_weak, Qinv_lt_0_compat.
        - apply Qle_shift_div_r; [done|].
          rewrite <- (Qpow2_nonneg prec) by lia. unfold u1. rewrite <- Qpow2_add.
          replace (prec + (e1 - (prec - 1))) with (e1 + 1) by lia.
          destruct (floor_log2_spec q1 H1) as [_ Hup].
          apply Qlt_le_weak. eapply Qlt_le_trans; [exact Hup|]. apply Qpow2_le. lia. }
      replace (e1 + 1) with (prec + (e1 - (prec - 1))) by lia.
      rewrite Qpow2_add. fold u1. rewrite (Qpow2_nonneg prec) by lia.
      apply Qmult_le_compat_r; [by rewrite <- Zle_Qle|by apply Qlt_le_weak].
    + apply Qpow2_le. lia.
    + assert (Hk : 2 ^ (prec - 1) <= round_half_even (q2 / u2)).
      { apply round_half_even_lower. apply Qle_shift_div_l; [done|].
        rewrite <- (Qpow2_nonneg (prec - 1)) by lia. unfold u2. rewrite <- Qpow2_add.
        replace (prec - 1 + (e2 - (prec - 1))) with e2 by lia.
        rewrite He2. by apply floor_log2_spec. }
      replace e2 with (prec - 1 + (e2 - (prec - 1))) at 1 by lia.
      rewrite Qpow2_add. fold u2. rewrite (Qpow2_nonneg (prec - 1)) by lia.
      apply Qmult_le_compat_r; [by rewrite <- Zle_Qle|by apply Qlt_le_weak].
Qed.

Lemma round_pos_mono (prec emin emax : Z) (q1 q2 : Q) :
  0 < prec -> (0 < q1)%Q -> (q1 <= q2)%Q ->
  num_le (round_pos prec emin emax q1) (round_pos prec emin emax q2) = true.
Proof.
  intros Hprec H1 H12. pose proof (round_pos_mono_Q prec emin q1 q2 Hprec H1 H12) as Hr.
  cbv zeta in Hr. unfold round_pos.
  set (r1 := (inject_Z (round_half_even
                          (q1 / Qpow2 (Z.max (floor_log2 q1) emin - (prec - 1)))) *
              Qpow2 (Z.max (floor_log2 q1) emin - (prec - 1)))%Q) in *.
  set (r2 := (inject_Z (round_half_even
                          (q2 / Qpow2 (Z.max (floor_log2 q2) emin - (prec - 1)))) *
              Qpow2 (Z.max (floor_log2 q2) emin - (prec - 1)))%Q) in *.
  destruct (Qle_bool (Qpow2 (emax + 1)) r1) eqn:Hb1.
  - apply Qle_bool_iff in Hb1.
    assert (Hb2 : Qle_bool (Qpow2 (emax + 1)) r2 = true).
    { apply Qle_bool_iff. exact (Qle_trans _ _ _ Hb1 Hr). }
    by rewrite Hb2.
  - destruct (Qle_bool (Qpow2 (emax + 1)) r2); [done|].
    cbn [num_le]. apply Qle_bool_iff. by rewrite !Qred_correct.
Qed.

Lemma round_pos_nonneg (prec emin emax : Z) (q : Q) :
  (0 < q)%Q -> num_le (Fin 0) (round_pos prec emin emax q) = true.
Proof.
  intros Hq. unfold round_pos.
  destruct (Qle_bool _ _); [done|]. cbn [num_le]. apply Qle_bool_iff.
  rewrite Qred_correct. apply Qmult_le_0_compat; [|apply Qlt_le_weak, Qpow2_pos].
  rewrite <- (Zle_Qle 0). apply round_half_even_lower.
  apply Qmult_le_0_compat; [by apply Qlt_le_weak|].
  apply Qlt_le_weak, Qinv_lt_0_compat, Qpow2_pos.
Qed.

Lemma num_neg_le a b : num_le a b = true -> num_le (num_neg b) (num_neg a) = true.
Proof.
  destruct a as [| | |p], b as [| | |q]; try done. cbn [num_neg num_le].
  rewrite !Qle_bool_iff, !Qred_correct. apply Qopp_le_compat.
Qed.

Lemma num_neg_nonpos a : num_le (Fin 0) a = true -> num_le (num_neg a) (Fin 0) = true.
Proof.
  destruct a as [| | |p]; try done. cbn [num_neg num_le].
  rewrite !Qle_bool_iff, Qred_correct. intros Hp.
  apply (Qopp_le_compat 0 p) in Hp. exact Hp.
Qed.

Lemma Qnum_sign (q : Q) :
  match Qnum q with
  | Z0 => (q == 0)%Q
  | Zpos _ => (0 < q)%Q
  | Zneg _ => (q < 0)%Q
  end.
Proof. destruct q as [[|n|n] d]; unfold Qeq, Qlt; simpl; lia. Qed.

(** Rounding to binary64 keeps the order. *)
Lemma round64_mono (q1 q2 : Q) :
  (q1 <= q2)%Q -> num_le (round64 q1) (round64 q2) = true.
Proof.
  intros H12. unfold round64, round_binary.
  pose proof (Qnum_sign q1) as Hs1. pose proof (Qnum_sign q2) as Hs2.
  destruct (Qnum q1) as [|n1|n1], (Qnum q2) as [|n2|n2].
  - done.
  - by apply round_pos_nonneg.
  - exfalso. rewrite Hs1 in H12. apply (Qlt_irrefl q2). by eapply Qlt_le_trans.
  - exfalso. rewrite Hs2 in H12. apply (Qlt_irrefl q1). by eapply Qle_lt_trans.
  - by apply round_pos_mono.
  - exfalso. apply (Qlt_irrefl q1). eapply Qle_lt_trans; [exact H12|].
    by eapply Qlt_trans.
  - apply num_neg_nonpos, round_pos_nonneg. by apply (Qopp_lt_compat q1 0).
  - eapply num_le_trans.
    + apply num_neg_nonpos, (round_pos_nonneg 53 (-1022) 1023). by apply (Qopp_lt_compat q1 0).
    + by apply round_pos_nonneg.
  - apply num_neg_le, round_pos_mono; [done| |by apply Qopp_le_compat].
    by apply (Qopp_lt_compat q2 0).
Qed.

Lemma round64_canonical (q : Q) :
  match round64 q with
  | Fin r => Qred r = r
  | NaN => False
  | _ => True
  end.
Proof.
  assert (Hred : forall r, Qred (Qred r) = Qred r).
  { intros r. apply Qred_complete, Qred_correct. }
  unfold round64, round_binary, round_pos.
  destruct (Qnum q); [done| |]; destruct (Qle_bool _ _); cbn [num_neg]; try done.
Qed.

(** Rounding does not depend on the fraction that stands for the rational. *)
Lemma round64_proper (q1 q2 : Q) : (q1 == q2)%Q -> round64 q1 = round64 q2.
Proof.
  intros Heq.
  assert (H12 : num_le (round64 q1) (round64 q2) = true).
  { apply round64_mono. rewrite Heq. apply Qle_refl. }
  assert (H21 : num_le (round64 q2) (round64 q1) = true).
  { apply round64_mono. rewrite Heq. apply Qle_refl. }
  pose proof (round64_canonical q1) as Hc1. pose proof (round64_canonical q2) as Hc2.
  destruct (round64 q1) as [| | |r1], (round64 q2) as [| | |r2]; try done.
  cbn [num_le] in H12, H21. apply Qle_bool_iff in H12, H21.
  f_equal. rewrite <- Hc1, <- Hc2. apply Qred_complete. by apply Qle_antisym.
Qed.

End RoundingOrder.

(** ** The gene expression cache and the colours *)

Section GeneColorFacts.
Context `{Builtins}.
Variable code_units : string -> list Z.

Lemma num_gt_not_NaN x y : num_gt x y = true -> x <> NaN.
Proof. by destruct x, y. Qed.

Lemma gene_range_fold (l : list number) (lo hi : number) :
  hi <> NaN ->
  let m := (fold_left gene_range_step l (lo, hi)).2 in
  (m = hi \/ (m ∈ l /\ num_gt m (Fin 0) = true)) /\
  m <> NaN /\ num_le hi m = true /\
  forall v, v ∈ l -> num_gt v (Fin 0) = true -> num_le v m = true.
Proof.
  revert lo hi. induction l as [|val l IH]; intros lo hi Hhi; cbn [fold_left]; cbv zeta.
  - split; [by left|]. split; [done|]. split; [by apply num_le_refl|].
    by intros v ?%elem_of_nil.
  - destruct (num_gt val (Fin 0)) eqn:Hval.
    + assert (Hstep : gene_range_step (lo, hi) val = (Math_min lo val, Math_max hi val)).
      { unfold gene_range_step. by rewrite Hval. }
      rewrite Hstep.
      pose proof (num_gt_not_NaN _ _ Hval) as Hv.
      destruct (Math_max_cases hi val Hhi Hv) as (Hc & Hle1 & Hle2).
      destruct (IH (Math_min lo val) (Math_max hi val)) as (Hm & Hn & Hle & Hall).
      { by apply Math_max_not_NaN. }
      cbv zeta in Hm, Hn, Hle, Hall.
      set (m := (fold_left gene_range_step l (Math_min lo val, Math_max hi val)).2) in *.
      split; [|split; [done|split]].
      * destruct Hm as [Hm|[Hm Hpos]]; [|right; split; [by right|done]].
        destruct Hc as [Hc|Hc]; [left; congruence|].
        right. rewrite Hm, Hc. split; [by left|done].
      * by eapply num_le_trans.
      * intros v [->|Hin]%elem_of_cons Hpos; [by eapply num_le_trans|by apply Hall].
    + assert (Hstep : gene_range_step (lo, hi) val = (lo, hi)).
      { unfold gene_range_step. by rewrite Hval. }
      rewrite Hstep.
      destruct (IH lo hi Hhi) as (Hm & Hn & Hle & Hall). cbv zeta in Hm, Hn, Hle, Hall.
      set (m := (fold_left gene_range_step l (lo, hi)).2) in *.
      split; [|split; [done|split; [done|]]].
      * destruct Hm as [Hm|[Hm Hpos]]; [by left|right; split; [by right|done]].
      * intros v [->|Hin]%elem_of_cons Hpos; [congruence|by apply Hall].
Qed.

Lemma gene_cache_of_range geneName data :
  let cache := gene_cache_of geneName data in
  num_gt (gc_max cache) (Fin 0) = true /\
  (forall v, v ∈ data -> num_gt v (Fin 0) = true -> num_le v (gc_max cache) = true) /\
  ((exists v, v ∈ data /\ num_gt v (Fin 0) = true) -> gc_max cache ∈ data) /\
  ((forall v, v ∈ data -> num_gt v (Fin 0) = false) -> gc_max cache = Fin 1).
Proof.
  cbv zeta. unfold gene_cache_of. cbv zeta. cbn [gc_max].
  destruct (gene_range_fold data PosInf NegInf) as (Hm & Hn & _ & Hall); [done|].
  cbv zeta in Hm, Hn, Hall.
  set (m := (fold_left gene_range_step data (PosInf, NegInf)).2) in *.
  destruct Hm as [Hm|[Hin Hpos]].
  - rewrite Hm. split; [done|]. split; [|split; [|done]].
    + intros v Hv Hpos. specialize (Hall v Hv Hpos). rewrite Hm in Hall.
      by destruct v.
    + intros (v & Hv & Hpos). specialize (Hall v Hv Hpos). rewrite Hm in Hall.
      by destruct v.
  - destruct m as [| | |q] eqn:Hmeq; try done;
      (split; [done|]; split; [done|]; split; [done|];
       intros Hnone; rewrite (Hnone _ Hin) in Hpos; done).
Qed.

(** X24. When [createPointCloud] loads the expression of a newly selected
    gene, the cache it makes is for that gene and that vector, with the
    scale from 0 to [max], where [max] is above 0: it is the largest
    positive value of the vector, hence one of its values and a bound of
    all positive ones, or 1 when no value is positive.  The winsorized
    range starts as the whole scale. *)
Theorem load_gene_expression_range geneName cache st data cache' :
  gc_geneName cache <> Some geneName ->
  (load_gene_expression geneName cache st).1 = Ok (Some data, cache') ->
  (getGeneExpression geneName st).1 = Ok (Some data) /\
  gc_geneName cache' = Some geneName /\ gc_data cache' = Some data /\
  gc_min cache' = Fin 0 /\ gc_winsorizedMin cache' = Fin 0 /\
  gc_winsorizedMax cache' = gc_max cache' /\
  num_gt (gc_max cache') (Fin 0) = true /\
  (forall v, v ∈ data -> num_gt v (Fin 0) = true -> num_le v (gc_max cache') = true) /\
  ((exists v, v ∈ data /\ num_gt v (Fin 0) = true) -> gc_max cache' ∈ data) /\
  ((forall v, v ∈ data -> num_gt v (Fin 0) = false) -> gc_max cache' = Fin 1).
Proof.
  intros Hmiss Hrun. unfold load_gene_expression in Hrun.
  rewrite bool_decide_eq_false_2 in Hrun by done.
  unfold bind in Hrun. destruct (getGeneExpression geneName st) as [[[d|]|e|] st1] eqn:Hg;
    cbn in Hrun; try done.
  injection Hrun as -> <-. split; [done|].
  destruct (gene_cache_of_range geneName data) as (H1 & H2 & H3 & H4).
  cbv zeta in H1, H2, H3, H4. done.
Qed.

Lemma round64_within (a b q : Q) :
  (a <= q)%Q -> (q <= b)%Q -> round64 a = Fin a -> round64 b = Fin b ->
  exists r, round64 q = Fin r /\ (a <= r)%Q /\ (r <= b)%Q.
Proof.
  intros Haq Hqb Ha Hb.
  pose proof (round64_mono a q Haq) as H1. pose proof (round64_mono q b Hqb) as H2.
  rewrite Ha in H1. rewrite Hb in H2.
  destruct (round64 q) as [| | |r]; try done.
  exists r. split; [done|]. cbn [num_le] in H1, H2. by rewrite !Qle_bool_iff in H1, H2.
Qed.

Lemma round64_0 : round64 0 = Fin 0.
Proof. reflexivity. Qed.

Lemma round64_1 : round64 1 = Fin 1.
Proof. vm_compute. reflexivity. Qed.

Lemma round64_half : round64 (1 # 2) = Fin (1 # 2).
Proof. vm_compute. reflexivity. Qed.

Lemma scale_color_bounds (n : Q) :
  (0 <= n)%Q -> (n <= 1)%Q ->
  exists r g b,
    scale_color (Fin n) = Color_rgb (Fin r) (Fin g) (Fin b) /\
    (0 <= r <= 1)%Q /\ (0 <= g <= 1)%Q /\ (0 <= b <= 1)%Q /\
    ((r = g /\ b = 1%Q) \/ (r = 1%Q /\ g = b)).
Proof.
  intros H0 H1. unfold scale_color. cbv zeta. cbn [num_lt].
  destruct (Qle_bool (1 # 2) n) eqn:Hhalf; cbn [negb].
  - apply Qle_bool_iff in Hhalf. cbn [num_sub].
    destruct (round64_within 0 (1 # 2) (n - (1 # 2))) as (s & -> & Hs0 & Hs1).
    { apply (Qplus_le_l _ _ (1 # 2)). ring_simplify. exact Hhalf. }
    { apply (Qplus_le_l _ _ (1 # 2)). ring_simplify. exact H1. }
    { apply round64_0. } { apply round64_half. }
    cbn [num_mul].
    destruct (round64_within 0 1 (s * 2)) as (t & -> & Ht0 & Ht1).
    { apply Qmult_le_0_compat; done. }
    { apply Qle_trans with ((1 # 2) * 2)%Q; [|done]. by apply Qmult_le_compat_r. }
    { apply round64_0. } { apply round64_1. }
    cbn [num_sub].
    destruct (round64_within 0 1 (1 - t)) as (g & -> & Hg0 & Hg1).
    { apply (Qplus_le_l _ _ t). ring_simplify. exact Ht1. }
    { apply (Qplus_le_l _ _ t). ring_simplify.
      rewrite <- (Qplus_0_r 1) at 1. rewrite (Qplus_comm t 1). by apply Qplus_le_r. }
    { apply round64_0. } { apply round64_1. }
    exists 1%Q, g, g. split; [done|]. repeat split; try done. by right.
  - apply Qle_bool_false in Hhalf. cbn [num_mul].
    destruct (round64_within 0 1 (n * 2)) as (t & -> & Ht0 & Ht1).
    { apply Qmult_le_0_compat; done. }
    { apply Qle_trans with ((1 # 2) * 2)%Q; [|done].
      apply Qmult_le_compat_r; [by apply Qlt_le_weak|done]. }
    { apply round64_0. } { apply round64_1. }
    exists t, t, 1%Q. split; [done|]. repeat split; try done. by left.
Qed.

Lemma scale_color_0 (n : Q) :
  (n == 0)%Q -> scale_color (Fin n) = Color_rgb (Fin 0) (Fin 0) (Fin 1).
Proof.
  intros Hn. unfold scale_color. cbv zeta. cbn [num_lt].
  assert (Hhalf : Qle_bool (1 # 2) n = false).
  { destruct (Qle_bool (1 # 2) n) eqn:Hb; [|done]. apply Qle_bool_iff in Hb.
    rewrite Hn in Hb. done. }
  rewrite Hhalf. cbn [negb num_mul].
  rewrite (round64_proper (n * 2) 0) by (rewrite Hn; ring). done.
Qed.

Lemma scale_color_1 (n : Q) :
  (n == 1)%Q -> scale_color (Fin n) = Color_rgb (Fin 1) (Fin 0) (Fin 0).
Proof.
  intros Hn. unfold scale_color. cbv zeta. cbn [num_lt].
  assert (Hhalf : Qle_bool (1 # 2) n = true).
  { apply Qle_bool_iff. rewrite Hn. done. }
  rewrite Hhalf. cbn [negb num_sub].
  rewrite (round64_proper (n - (1 # 2)) (1 # 2)) by (rewrite Hn; ring).
  rewrite round64_half. cbn [num_mul].
  rewrite (round64_proper ((1 # 2) * 2) 1) by ring. rewrite round64_1. cbn [num_sub].
  rewrite (round64_proper (1 - 1) 0) by ring. done.
Qed.

Lemma gene_scale_color_eq winMin winMax x :
  gene_scale_color winMin winMax x
  = scale_color (num_div (num_sub (Math_max winMin (Math_min winMax x)) winMin)
                         (num_sub winMax winMin)).
Proof. reflexivity. Qed.

Lemma clamp_range (m : Q) (x : number) :
  (0 < m)%Q -> x <> NaN ->
  exists w, Math_max (Fin 0) (Math_min (Fin m) x) = Fin w /\ (0 <= w)%Q /\ (w <= m)%Q /\
            (num_le x (Fin 0) = true -> (w == 0)%Q) /\
            (num_le (Fin m) x = true -> (w == m)%Q).
Proof.
  intros Hm Hx.
  assert (Hm0 : Qle_bool m 0 = false).
  { destruct (Qle_bool m 0) eqn:Hb; [|done]. apply Qle_bool_iff in Hb.
    exfalso. apply (Qlt_irrefl 0). by eapply Qlt_le_trans. }
  destruct x as [| | |q]; [done| | |].
  - exists m. cbn. rewrite Hm0. split; [done|]. split; [by apply Qlt_le_weak|].
    split; [apply Qle_refl|]. split; done.
  - exists 0%Q. cbn. split; [done|]. split; [done|]. split; [by apply Qlt_le_weak|].
    split; done.
  - cbn [Math_min num_le]. destruct (Qle_bool m q) eqn:Hmq.
    + exists m. cbn. rewrite Hm0. split; [done|]. split; [by apply Qlt_le_weak|].
      split; [apply Qle_refl|]. split; [|done].
      intros Hq0. apply Qle_bool_iff in Hmq, Hq0. exfalso. apply (Qlt_irrefl 0).
      eapply Qlt_le_trans; [exact Hm|]. by eapply Qle_trans.
    + apply Qle_bool_false in Hmq. cbn [Math_max num_le].
      destruct (Qle_bool q 0) eqn:Hq0.
      * exists 0%Q. split; [done|]. split; [done|]. split; [by apply Qlt_le_weak|].
        split; done.
      * apply Qle_bool_false in Hq0. exists q. split; [done|].
        split; [by apply Qlt_le_weak|]. split; [by apply Qlt_le_weak|]. split; done.
Qed.

Lemma normalized_range (m w : Q) :
  (0 < m)%Q -> round64 m = Fin m -> (0 <= w)%Q -> (w <= m)%Q ->
  exists n, num_div (num_sub (Fin w) (Fin 0)) (num_sub (Fin m) (Fin 0)) = Fin n /\
            (0 <= n)%Q /\ (n <= 1)%Q /\
            ((w == 0)%Q -> (n == 0)%Q) /\ ((w == m)%Q -> (n == 1)%Q).
Proof.
  intros Hm Hrm Hw0 Hwm. cbn [num_sub].
  rewrite (round64_proper (m - 0) m) by ring. rewrite Hrm.
  destruct (round64_within 0 m (w - 0)) as (a & Ha & Ha0 & Ham).
  { by ring_simplify. } { by ring_simplify. } { apply round64_0. } { done. }
  rewrite Ha. cbn [num_div].
  assert (Hmz : Qeq_bool m 0 = false).
  { destruct (Qeq_bool m 0) eqn:Hb; [|done]. apply Qeq_bool_iff in Hb.
    rewrite Hb in Hm. done. }
  rewrite Hmz.
  assert (Hinv : (0 < / m)%Q) by by apply Qinv_lt_0_compat.
  destruct (round64_within 0 1 (a / m)) as (n & Hn & Hn0 & Hn1).
  { apply Qmult_le_0_compat; [done|by apply Qlt_le_weak]. }
  { apply Qle_shift_div_r; [done|]. by rewrite Qmult_1_l. }
  { apply round64_0. } { apply round64_1. }
  exists n. split; [done|]. split; [done|]. split; [done|]. split.
  - intros Hwz.
    assert (Haz : round64 (w - 0) = Fin 0).
    { rewrite (round64_proper (w - 0) 0) by (rewrite Hwz; ring). done. }
    rewrite Haz in Ha. injection Ha as <-.
    rewrite (round64_proper (0 / m) 0) in Hn by (unfold Qdiv; ring).
    rewrite round64_0 in Hn. by injection Hn as <-.
  - intros Hwm'.
    assert (Haz : round64 (w - 0) = Fin m).
    { rewrite (round64_proper (w - 0) m) by (rewrite Hwm'; ring). done. }
    rewrite Haz in Ha. injection Ha as <-.
    rewrite (round64_proper (m / m) 1) in Hn.
    + rewrite round64_1 in Hn. by injection Hn as <-.
    + apply Qmult_inv_r. intros Hz. rewrite Hz in Hm. done.
Qed.

(** X25. The colour of a gene expression value, for a scale that starts at
    0 and ends at a positive binary64 number: [colorMap] is not touched,
    and the colour is on the path from blue over white to red, with red,
    green and blue between 0 and 1.  A value at or below 0 is pure blue, a
    value at or above the end of the scale pure red. *)
Theorem gene_color_scale column_names_continuous cache st x attribute colorMap (m : Q) :
  startsWith attribute "gene:" = true ->
  gc_winsorizedMin cache = Fin 0 -> gc_winsorizedMax cache = Fin m ->
  (0 < m)%Q -> round64 m = Fin m -> x <> NaN ->
  let result :=
    getColorForValue code_units column_names_continuous cache st (VNum x) attribute colorMap in
  result.2 = colorMap /\
  (exists r g b,
     result.1 = Color_rgb (Fin r) (Fin g) (Fin b) /\
     (0 <= r <= 1)%Q /\ (0 <= g <= 1)%Q /\ (0 <= b <= 1)%Q /\
     ((r = g /\ b = 1%Q) \/ (r = 1%Q /\ g = b))) /\
  (num_le x (Fin 0) = true -> result.1 = Color_rgb (Fin 0) (Fin 0) (Fin 1)) /\
  (num_le (Fin m) x = true -> result.1 = Color_rgb (Fin 1) (Fin 0) (Fin 0)).
Proof.
  intros Hattr Hmin Hmax Hm Hrm Hx. cbv zeta.
  unfold getColorForValue. cbn [is_blank]. rewrite Hattr, Hmin, Hmax. cbv zeta.
  assert (Hgt : num_gt (Fin m) (Fin 0) = true).
  { cbn. apply negb_true_iff. destruct (Qle_bool m 0) eqn:Hb; [|done].
    apply Qle_bool_iff in Hb. exfalso. apply (Qlt_irrefl 0). by eapply Qlt_le_trans. }
  rewrite Hgt. cbn [fst snd]. split; [done|].
  rewrite gene_scale_color_eq.
  destruct (clamp_range m x Hm Hx) as (w & -> & Hw0 & Hwm & Hlo & Hhi).
  destruct (normalized_range m w Hm Hrm Hw0 Hwm) as (n & -> & Hn0 & Hn1 & Hnlo & Hnhi).
  split; [by apply scale_color_bounds|]. split.
  - intros Hle. apply scale_color_0. auto.
  - intros Hle. apply scale_color_1. auto.
Qed.

Lemma round64_7_10 : exists c, round64 (7 # 10) = Fin c /\ round64 c = Fin c /\ (0 <= c)%Q.
Proof. eexists. split; [vm_compute; reflexivity|]. split; [vm_compute; reflexivity|done]. Qed.

Lemma gradient_normalized (lo hi d q : Q) :
  num_sub (Fin hi) (Fin lo) = Fin d -> (0 < d)%Q -> (lo <= q)%Q -> (q <= hi)%Q ->
  exists n, num_div (num_sub (Fin q) (Fin lo)) (num_sub (Fin hi) (Fin lo)) = Fin n /\
            (0 <= n)%Q /\ (n <= 1)%Q /\
            ((q == lo)%Q -> (n == 0)%Q) /\ ((q == hi)%Q -> (n == 1)%Q).
Proof.
  intros Hd Hdpos Hlo Hhi. rewrite Hd. cbn [num_sub] in *.
  assert (H0 : num_le (Fin 0) (round64 (q - lo)) = true).
  { rewrite <- round64_0. apply round64_mono.
    apply (Qplus_le_l _ _ lo). by ring_simplify. }
  assert (H1 : num_le (round64 (q - lo)) (Fin d) = true).
  { rewrite <- Hd. apply round64_mono. by apply Qplus_le_l. }
  destruct (round64 (q - lo)) as [| | |a] eqn:Ha; try done.
  cbn [num_le] in H0, H1. apply Qle_bool_iff in H0, H1.
  cbn [num_div].
  assert (Hdz : Qeq_bool d 0 = false).
  { destruct (Qeq_bool d 0) eqn:Hb; [|done]. apply Qeq_bool_iff in Hb.
    rewrite Hb in Hdpos. done. }
  rewrite Hdz.
  destruct (round64_within 0 1 (a / d)) as (n & Hn & Hn0 & Hn1).
  { apply Qmult_le_0_compat; [done|]. by apply Qlt_le_weak, Qinv_lt_0_compat. }
  { apply Qle_shift_div_r; [done|]. by rewrite Qmult_1_l. }
  { apply round64_0. } { apply round64_1. }
  exists n. split; [done|]. split; [done|]. split; [done|]. split.
  - intros Hq. rewrite (round64_proper (q - lo) 0) in Ha by (rewrite Hq; ring).
    rewrite round64_0 in Ha. injection Ha as <-.
    rewrite (round64_proper (0 / d) 0) in Hn by (unfold Qdiv; ring).
    rewrite round64_0 in Hn. by injection Hn as <-.
  - intros Hq. rewrite (round64_proper (q - lo) (hi - lo)) in Ha by (by rewrite Hq).
    rewrite Hd in Ha. injection Ha as <-.
    rewrite (round64_proper (d / d) 1) in Hn.
    + rewrite round64_1 in Hn. by injection Hn as <-.
    + apply Qmult_inv_r. intros Hz. rewrite Hz in Hdpos. done.
Qed.

Lemma gradient_hue (n c : Q) :
  (0 <= n)%Q -> (n <= 1)%Q -> round64 c = Fin c -> (0 <= c)%Q ->
  exists h, num_mul (num_sub (Fin 1) (Fin n)) (Fin c) = Fin h /\
            (0 <= h)%Q /\ (h <= c)%Q /\
            ((n == 0)%Q -> h = c) /\ ((n == 1)%Q -> h = 0%Q).
Proof.
  intros Hn0 Hn1 Hc Hc0. cbn [num_sub].
  destruct (round64_within 0 1 (1 - n)) as (m & Hm & Hm0 & Hm1).
  { apply (Qplus_le_l _ _ n). by ring_simplify. }
  { apply (Qplus_le_l _ _ n). ring_simplify.
    rewrite <- (Qplus_0_r 1) at 1. rewrite (Qplus_comm n 1). by apply Qplus_le_r. }
  { apply round64_0. } { apply round64_1. }
  rewrite Hm. cbn [num_mul].
  destruct (round64_within 0 c (m * c)) as (h & Hh & Hh0 & Hh1).
  { by apply Qmult_le_0_compat. }
  { rewrite <- (Qmult_1_l c) at 2. by apply Qmult_le_compat_r. }
  { apply round64_0. } { done. }
  exists h. split; [done|]. split; [done|]. split; [done|]. split.
  - intros Hz. rewrite (round64_proper (1 - n) 1) in Hm by (rewrite Hz; ring).
    rewrite round64_1 in Hm. injection Hm as <-.
    rewrite (round64_proper (1 * c) c) in Hh by ring. rewrite Hc in Hh. by injection Hh.
  - intros Hz. rewrite (round64_proper (1 - n) 0) in Hm by (rewrite Hz; ring).
    rewrite round64_0 in Hm. injection Hm as <-.
    rewrite (round64_proper (0 * c) 0) in Hh by ring. rewrite round64_0 in Hh.
    by injection Hh.
Qed.

(** X26. The colour of a value of a continuous column whose range has a
    positive finite width: for a value within the range, [colorMap] is not
    touched and the colour has saturation 0.8, lightness 0.5 and a hue
    between 0 and 0.7 (as binary64 numbers); the hue is 0.7 (blue) at the
    minimum of the range and 0 (red) at its maximum. *)
Theorem gradient_color_range column_names_continuous cache st attribute colorMap
    (range : range) (lo hi d q : Q) :
  startsWith attribute "gene:" = false ->
  attribute ∈ column_names_continuous ->
  continuousRanges st !! attribute = Some range ->
  range_min range = Fin lo -> range_max range = Fin hi -> (lo < hi)%Q ->
  num_sub (Fin hi) (Fin lo) = Fin d -> (0 < d)%Q ->
  (lo <= q)%Q -> (q <= hi)%Q ->
  let result :=
    getColorForValue code_units column_names_continuous cache st (VNum (Fin q)) attribute
                     colorMap in
  result.2 = colorMap /\
  exists h c,
    round64 (7 # 10) = Fin c /\
    result.1 = Color_hsl (Fin h) (round64 (8 # 10)) (Fin (1 # 2)) /\
    (0 <= h)%Q /\ (h <= c)%Q /\
    ((q == lo)%Q -> h = c) /\ ((q == hi)%Q -> h = 0%Q).
Proof.
  intros Hattr Hin Hrange Hmin Hmax Hlt Hd Hdpos Hlo Hhi. cbv zeta.
  unfold getColorForValue, gradient_color. cbn [is_blank]. rewrite Hattr.
  rewrite bool_decide_eq_true_2 by done. rewrite Hrange, Hmax, Hmin. cbv zeta.
  assert (Hgt : num_gt (Fin hi) (Fin lo) = true).
  { cbn. apply negb_true_iff. destruct (Qle_bool hi lo) eqn:Hb; [|done].
    apply Qle_bool_iff in Hb. exfalso. apply (Qlt_irrefl lo). by eapply Qlt_le_trans. }
  rewrite Hgt. cbn [fst snd]. split; [done|].
  destruct round64_7_10 as (c & Hc & Hcc & Hc0).
  destruct (gradient_normalized lo hi d q Hd Hdpos Hlo Hhi) as (n & -> & Hn0 & Hn1 & Hnlo & Hnhi).
  rewrite Hc.
  destruct (gradient_hue n c Hn0 Hn1 Hcc Hc0) as (h & -> & Hh0 & Hh1 & Hhlo & Hhhi).
  exists h, c. split; [done|]. split; [done|]. split; [done|]. split; [done|].
  split; auto.
Qed.

Lemma round64_opp (q : Q) : round64 (- q) = num_neg (round64 q).
Proof.
  assert (Hinv : forall r, num_neg (num_neg (round_pos 53 (-1022) 1023 r))
                           = round_pos 53 (-1022) 1023 r).
  { intros r. unfold round_pos. destruct (Qle_bool _ _); [done|]. cbn [num_neg]. f_equal.
    rewrite <- (Qred_complete (Qred (- Qred (- Qred (inject_Z (round_half_even
              (r / Qpow2 (Z.max (floor_log2 r) (-1022) - (53 - 1)))) *
              Qpow2 (Z.max (floor_log2 r) (-1022) - (53 - 1)))))))
      ; [apply Qred_complete|].
    - rewrite !Qred_correct. ring.
    - apply Qred_correct. }
  unfold round64, round_binary. destruct q as [[|n|n] d]; cbn [Qnum Qopp Z.opp].
  - reflexivity.
  - reflexivity.
  - symmetry. apply Hinv.
Qed.

(** Rounding keeps a rational between two integers of magnitude below
    [2 ^ 53] between them. *)
Lemma round64_int_bounds (a b : Z) (q : Q) :
  - 2 ^ 53 < a -> b < 2 ^ 53 -> (inject_Z a <= q)%Q -> (q <= inject_Z b)%Q ->
  exists r, round64 q = Fin r /\ (inject_Z a <= r)%Q /\ (r <= inject_Z b)%Q.
Proof.
  intros Ha Hb Haq Hqb.
  assert (Hint : forall k, 0 <= k < 2 ^ 53 ->
            exists r, round64 (inject_Z k) = Fin r /\ (r == inject_Z k)%Q).
  { intros k Hk. destruct (round64_between (inject_Z k) k k) as (r & Hr & Hlo & Hhi);
      try lia; try apply Qle_refl.
    exists r. split; [done|]. by apply Qle_antisym. }
  assert (Hint' : forall k, - 2 ^ 53 < k < 2 ^ 53 ->
            exists r, round64 (inject_Z k) = Fin r /\ (r == inject_Z k)%Q).
  { intros k Hk. destruct (Z_le_gt_dec 0 k) as [Hpos|Hneg]; [apply Hint; lia|].
    destruct (Hint (- k)) as (r & Hr & Hreq); [lia|].
    rewrite (round64_proper (inject_Z k) (- inject_Z (- k))).
    - rewrite round64_opp, Hr. cbn [num_neg]. eexists. split; [done|].
      rewrite Qred_correct, Hreq. rewrite inject_Z_opp. ring.
    - rewrite inject_Z_opp. ring. }
  assert (Hle : (inject_Z a <= inject_Z b)%Q) by by eapply Qle_trans.
  rewrite <- Zle_Qle in Hle.
  destruct (Hint' a) as (ra & Hra & Hraeq); [lia|].
  destruct (Hint' b) as (rb & Hrb & Hrbeq); [lia|].
  pose proof (round64_mono _ _ Haq) as H1. pose proof (round64_mono _ _ Hqb) as H2.
  rewrite Hra in H1. rewrite Hrb in H2.
  destruct (round64 q) as [| | |r]; try done.
  exists r. split; [done|]. cbn [num_le] in H1, H2. apply Qle_bool_iff in H1, H2.
  split; [by rewrite <- Hraeq|by rewrite <- Hrbeq].
Qed.

Lemma wrap_int32_bounds z : - 2 ^ 31 <= wrap_int32 z < 2 ^ 31.
Proof. unfold wrap_int32. pose proof (Z.mod_pos_bound (z + 2 ^ 31) (2 ^ 32)). lia. Qed.

Lemma hash_step_bound (B charCode : Z) (q : Q) :
  0 <= B -> B + 2 ^ 32 < 2 ^ 53 -> 0 <= charCode < 65536 ->
  (inject_Z (- B) <= q)%Q -> (q <= inject_Z B)%Q ->
  exists q', num_add (num_of_Z charCode) (num_sub (shift_left (Fin q) 5) (Fin q)) = Fin q' /\
             (inject_Z (- (B + 2 ^ 32)) <= q')%Q /\ (q' <= inject_Z (B + 2 ^ 32))%Q.
Proof.
  intros HB Hsmall Hc Hlo Hhi. unfold shift_left.
  pose proof (wrap_int32_bounds (ToInt32 (Fin q) * 2 ^ 5)) as Hz.
  set (z := wrap_int32 (ToInt32 (Fin q) * 2 ^ 5)) in *.
  cbn [num_of_Z num_sub].
  destruct (round64_int_bounds (- 2 ^ 31 - B) (2 ^ 31 + B) (inject_Z z - q))
    as (s & -> & Hs0 & Hs1); try lia.
  { unfold Z.sub. rewrite inject_Z_plus. unfold Qminus. apply Qplus_le_compat.
    - rewrite <- Zle_Qle. lia.
    - rewrite inject_Z_opp. by apply Qopp_le_compat. }
  { rewrite inject_Z_plus. unfold Qminus. apply Qplus_le_compat.
    - rewrite <- Zle_Qle. lia.
    - rewrite <- (Qopp_involutive (inject_Z B)), <- inject_Z_opp. by apply Qopp_le_compat. }
  cbn [num_add num_of_Z].
  destruct (round64_int_bounds (- 2 ^ 31 - B) (65535 + (2 ^ 31 + B)) (inject_Z charCode + s))
    as (q' & -> & Hq0 & Hq1); try lia.
  { rewrite <- (Qplus_0_l (inject_Z (- 2 ^ 31 - B))). apply Qplus_le_compat; [|done].
    rewrite <- (Zle_Qle 0). lia. }
  { rewrite inject_Z_plus. apply Qplus_le_compat; [|done]. rewrite <- Zle_Qle. lia. }
  exists q'. split; [done|]. split.
  - eapply Qle_trans; [|exact Hq0]. rewrite <- Zle_Qle. lia.
  - eapply Qle_trans; [exact Hq1|]. rewrite <- Zle_Qle. lia.
Qed.

Lemma hash_fold_finite (codes : list Z) (B : Z) (q : Q) :
  Forall (fun c => 0 <= c < 65536) codes ->
  0 <= B -> B + Z.of_nat (length codes) * 2 ^ 32 < 2 ^ 53 ->
  (inject_Z (- B) <= q)%Q -> (q <= inject_Z B)%Q ->
  exists q',
    fold_left (fun hash charCode =>
                 num_add (num_of_Z charCode) (num_sub (shift_left hash 5) hash))
              codes (Fin q) = Fin q'.
Proof.
  intros Hcodes. revert B q. induction Hcodes as [|c codes Hc _ IH]; intros B q HB Hsmall Hlo Hhi.
  - by exists q.
  - cbn [fold_left]. cbn [length] in Hsmall.
    destruct (hash_step_bound B c q) as (q1 & -> & Hq0 & Hq1); try done; [lia|].
    apply (IH (B + 2 ^ 32)); [lia|lia|done|done].
Qed.

Lemma Qtrunc_rem_bounds (p : Q) (b : Z) :
  0 < b ->
  let r := (p - inject_Z b * inject_Z (Qtrunc (p / inject_Z b)))%Q in
  (inject_Z (- b) <= r)%Q /\ (r <= inject_Z b)%Q /\ ((0 <= p)%Q -> (0 <= r)%Q).
Proof.
  intros Hb. cbv zeta.
  assert (Hbq : (0 < inject_Z b)%Q) by (rewrite <- (Zlt_Qlt 0); lia).
  assert (Hbz : ~ (inject_Z b == 0)%Q).
  { intros Hz. rewrite Hz in Hbq. done. }
  set (x := (p / inject_Z b)%Q).
  assert (Hp : (p == inject_Z b * x)%Q) by (unfold x; by rewrite Qmult_div_r).
  assert (Hfl : forall y, (0 <= inject_Z b * (y - inject_Z (Qfloor y)))%Q /\
                          (inject_Z b * (y - inject_Z (Qfloor y)) <= inject_Z b)%Q).
  { intros y. pose proof (Qfloor_le y) as H1. pose proof (Qlt_floor y) as H2.
    rewrite inject_Z_plus in H2. split.
    - apply Qmult_le_0_compat; [by apply Qlt_le_weak|].
      apply (Qplus_le_l _ _ (inject_Z (Qfloor y))). ring_simplify. exact H1.
    - rewrite <- (Qmult_1_r (inject_Z b)) at 2.
      rewrite !(Qmult_comm (inject_Z b)). apply Qmult_le_compat_r; [|by apply Qlt_le_weak].
      apply (Qplus_le_l _ _ (inject_Z (Qfloor y))). ring_simplify.
      by apply Qlt_le_weak. }
  unfold Qtrunc. destruct (Qle_bool 0 x) eqn:Hx.
  - destruct (Hfl x) as [H1 H2].
    assert (Heq : (p - inject_Z b * inject_Z (Qfloor x)
                   == inject_Z b * (x - inject_Z (Qfloor x)))%Q) by (rewrite Hp; ring).
    rewrite Heq. split; [|split; [done|done]].
    eapply Qle_trans; [|exact H1]. rewrite <- (Zle_Qle _ 0). lia.
  - destruct (Hfl (- x)%Q) as [H1 H2].
    assert (Heq : (p - inject_Z b * inject_Z (- Qfloor (- x))
                   == - (inject_Z b * (- x - inject_Z (Qfloor (- x)))))%Q).
    { rewrite Hp, inject_Z_opp. ring. }
    rewrite Heq. split; [|split].
    + rewrite inject_Z_opp. by apply Qopp_le_compat.
    + apply Qle_trans with 0%Q; [|by apply Qlt_le_weak].
      by apply (Qopp_le_compat 0).
    + intros Hp0. exfalso. apply Qle_bool_false in Hx.
      apply (Qlt_irrefl 0). eapply Qle_lt_trans; [|exact Hx].
      unfold x. apply Qmult_le_0_compat; [done|]. by apply Qlt_le_weak, Qinv_lt_0_compat.
Qed.

Lemma num_rem_bounds (p : Q) (b : Z) :
  0 < b ->
  exists r, num_rem (Fin p) (num_of_Z b) = Fin r /\
            (inject_Z (- b) <= r)%Q /\ (r <= inject_Z b)%Q /\ ((0 <= p)%Q -> (0 <= r)%Q).
Proof.
  intros Hb. cbn [num_rem num_of_Z].
  assert (Hbz : Qeq_bool (inject_Z b) 0 = false).
  { destruct (Qeq_bool (inject_Z b) 0) eqn:Hz; [|done]. apply Qeq_bool_iff in Hz.
    unfold Qeq in Hz. cbn [Qnum Qden inject_Z] in Hz. lia. }
  rewrite Hbz. eexists. split; [done|].
  destruct (Qtrunc_rem_bounds p b Hb) as (H1 & H2 & H3). cbv zeta in H1, H2, H3.
  rewrite !Qred_correct. done.
Qed.

Lemma hashed_component (base modulus : Z) (q : Q) :
  0 < modulus -> modulus <= base -> base + modulus <= 100 ->
  exists x, num_div (num_add (num_of_Z base) (num_rem (Fin q) (num_of_Z modulus)))
                    (num_of_Z 100) = Fin x /\ (0 <= x)%Q /\ (x <= 1)%Q.
Proof.
  intros Hm Hb Hbm.
  destruct (num_rem_bounds q modulus Hm) as (r & -> & Hr0 & Hr1 & _).
  cbn [num_add num_of_Z].
  destruct (round64_int_bounds (base - modulus) (base + modulus) (inject_Z base + r))
    as (s & -> & Hs0 & Hs1); try lia.
  { unfold Z.sub. rewrite inject_Z_plus. by apply Qplus_le_r. }
  { rewrite inject_Z_plus. by apply Qplus_le_r. }
  unfold num_of_Z. cbn [num_div]. change (Qeq_bool (inject_Z 100) 0) with false. cbv iota.
  destruct (round64_int_bounds 0 1 (s / inject_Z 100)) as (x & -> & Hx0 & Hx1); try lia.
  { apply Qmult_le_0_compat; [|done]. eapply Qle_trans; [|exact Hs0].
    rewrite <- (Zle_Qle 0). lia. }
  { apply Qle_shift_div_r; [done|]. rewrite Qmult_1_l. eapply Qle_trans; [exact Hs1|].
    rewrite <- Zle_Qle. lia. }
  by exists x.
Qed.

Lemma hashed_color_valid (value : value) :
  Forall (fun c => 0 <= c < 65536) (code_units (String_of value)) ->
  Z.of_nat (length (code_units (String_of value))) < 2 ^ 21 ->
  exists h s l,
    hashed_color code_units value = Color_hsl (Fin h) (Fin s) (Fin l) /\
    (0 <= h <= 1)%Q /\ (0 <= s <= 1)%Q /\ (0 <= l <= 1)%Q.
Proof.
  intros Hcodes Hlen. unfold hashed_color, string_hash. cbv zeta.
  assert (Hfin : exists q,
            fold_left (fun hash charCode =>
                         num_add (num_of_Z charCode) (num_sub (shift_left hash 5) hash))
                      (code_units (String_of value)) (Fin 0) = Fin q).
  { apply (hash_fold_finite (code_units (String_of value)) 0 0 Hcodes); [lia| |done|done].
    change (2 ^ 53) with 9007199254740992. change (2 ^ 32) with 4294967296.
    change (2 ^ 21) with 2097152 in Hlen. lia. }
  destruct Hfin as (q & ->).
  destruct (hashed_component 70 20 q) as (s & -> & Hs0 & Hs1); try lia.
  destruct (hashed_component 50 20 q) as (l & -> & Hl0 & Hl1); try lia.
  destruct (num_rem_bounds q 360) as (r1 & -> & Hr0 & Hr1 & _); [lia|].
  cbn [num_add num_of_Z].
  destruct (round64_int_bounds 0 720 (r1 + inject_Z 360)) as (x & -> & Hx0 & Hx1); try lia.
  { apply (Qplus_le_l _ _ (- inject_Z 360)). ring_simplify. exact Hr0. }
  { change (inject_Z 720) with (inject_Z 360 + inject_Z 360)%Q. by apply Qplus_le_l. }
  fold (num_of_Z 360).
  destruct (num_rem_bounds x 360) as (r2 & -> & _ & Hr2 & Hr2pos); [lia|].
  unfold num_of_Z. cbn [num_div]. change (Qeq_bool (inject_Z 360) 0) with false. cbv iota.
  destruct (round64_int_bounds 0 1 (r2 / inject_Z 360)) as (h & -> & Hh0 & Hh1); try lia.
  { apply Qmult_le_0_compat; [by apply Hr2pos|done]. }
  { apply Qle_shift_div_r; [done|]. by rewrite Qmult_1_l. }
  exists h, s, l. done.
Qed.

(** X27. The colour of a categorical value is kept in [colorMap] under the
    key [attribute:value]: a colour that the map already holds for the key
    (from an earlier call, or chosen by the user) is returned and the map
    is left alone; otherwise the colour made from the hash of the value is
    stored under the key and no other key changes.  Either way a second
    call gives the same colour and changes nothing.  For a value of fewer
    than [2 ^ 21] code units the colour made from the hash has hue,
    saturation and lightness between 0 and 1. *)
Theorem categorical_color_kept column_names_continuous cache st value attribute colorMap :
  is_blank value = false ->
  startsWith attribute "gene:" = false ->
  attribute ∉ column_names_continuous ->
  Forall (fun c => 0 <= c < 65536) (code_units (String_of value)) ->
  Z.of_nat (length (code_units (String_of value))) < 2 ^ 21 ->
  let key := attribute +:+ ":" +:+ String_of value in
  let result :=
    getColorForValue code_units column_names_continuous cache st value attribute colorMap in
  result.2 !! key = Some result.1 /\
  (forall k, k <> key -> result.2 !! k = colorMap !! k) /\
  (forall color, colorMap !! key = Some color -> result = (color, colorMap)) /\
  getColorForValue code_units column_names_continuous cache st value attribute result.2
  = result /\
  (colorMap !! key = None ->
   exists h s l,
     result.1 = Color_hsl (Fin h) (Fin s) (Fin l) /\
     (0 <= h <= 1)%Q /\ (0 <= s <= 1)%Q /\ (0 <= l <= 1)%Q).
Proof.
  intros Hblank Hattr Hnot Hcodes Hlen. cbv zeta.
  assert (Hrun : forall cm,
            getColorForValue code_units column_names_continuous cache st value attribute cm
            = match cm !! (attribute +:+ ":" +:+ String_of value) with
              | Some color => (color, cm)
              | None => (hashed_color code_units value,
                         <[attribute +:+ ":" +:+ String_of value :=
                             hashed_color code_units value]> cm)
              end).
  { intros cm. unfold getColorForValue. rewrite Hblank, Hattr.
    by rewrite bool_decide_eq_false_2 by done. }
  rewrite !Hrun. destruct (colorMap !! (attribute +:+ ":" +:+ String_of value)) as [c|] eqn:Hkey.
  - cbn [fst snd]. rewrite Hkey. split; [done|]. split; [done|]. split; [|done].
    by intros color [= ->].
  - cbn [fst snd]. rewrite lookup_insert_eq. split; [done|].
    split; [by intros k Hk; rewrite lookup_insert_ne|]. split; [done|]. split; [done|].
    intros _. by apply hashed_color_valid.
Qed.

End GeneColorFacts.

(** ** The coordinate selectors *)

Section CoordinateOptionFacts.
Context `{Builtins}.
Variable parseInt : string -> number.
Variable obsm : list coord_source.

Lemma split_colon_nonempty s : split_colon s <> [].
Proof.
  destruct s as [|c s]; cbn [split_colon]; [done|].
  destruct (String.eqb (String c "") ":"); [done|]. by destruct (split_colon s).
Qed.

Lemma no_colon_cons c s :
  no_colon (String c s) -> String.eqb (String c "") ":" = false /\ no_colon s.
Proof.
  unfold no_colon. cbn [split_colon]. destruct (String.eqb (String c "") ":") eqn:Hc.
  - intros Heq. discriminate Heq.
  - split; [done|]. destruct (split_colon s) as [|part parts] eqn:Hs.
    + by apply split_colon_nonempty in Hs.
    + congruence.
Qed.

Lemma split_colon_append a b :
  no_colon a -> split_colon (a +:+ ":" +:+ b) = a :: split_colon b.
Proof.
  induction a as [|c a IH]; intros Ha.
  - reflexivity.
  - apply no_colon_cons in Ha as [Hc Ha]. rewrite append_cons.
    cbn [split_colon]. rewrite Hc, (IH Ha). done.
Qed.

Lemma split_colon_option emb label :
  no_colon emb -> no_colon label ->
  split_colon ("obsm:" +:+ emb +:+ ":" +:+ label) = ["obsm"; emb; label].
Proof.
  intros Hemb Hlabel.
  change ("obsm:" +:+ emb +:+ ":" +:+ label) with ("obsm" +:+ ":" +:+ emb +:+ ":" +:+ label).
  rewrite split_colon_append by done. rewrite split_colon_append by done.
  by rewrite Hlabel.
Qed.

Lemma option_not_none rest :
  String.eqb ("obsm:" +:+ rest) "" || String.eqb ("obsm:" +:+ rest) "none" = false.
Proof. reflexivity. Qed.

Lemma find_unique {A} (P : A -> bool) (l : list A) x :
  x ∈ l -> P x = true -> (forall y, y ∈ l -> P y = true -> y = x) -> List.find P l = Some x.
Proof.
  intros Hin HP Huniq. destruct (find_elem_of_Some P l x Hin HP) as [y Hy].
  rewrite Hy. f_equal. apply find_elem_of in Hy as [Hyin HyP]. by apply Huniq.
Qed.

Lemma num_eqb_of_nat (a b : nat) :
  num_eqb (num_of_Z (Z.of_nat a)) (num_of_Z (Z.of_nat b)) = true <-> a = b.
Proof.
  cbn [num_eqb num_of_Z]. rewrite Qeq_bool_iff. unfold Qeq. cbn [Qnum Qden inject_Z]. lia.
Qed.

Lemma parse_by_index c :
  c ∈ obsm -> no_colon (cs_embedding c) ->
  no_colon (NumberToString (num_of_Z (Z.of_nat (cs_columnIndex c)))) ->
  parseInt (NumberToString (num_of_Z (Z.of_nat (cs_columnIndex c))))
  = num_of_Z (Z.of_nat (cs_columnIndex c)) ->
  (forall c', c' ∈ obsm -> cs_embedding c' = cs_embedding c ->
              cs_columnIndex c' = cs_columnIndex c -> c' = c) ->
  parseCoordSource parseInt obsm
    ("obsm:" +:+ cs_embedding c +:+ ":" +:+
     NumberToString (num_of_Z (Z.of_nat (cs_columnIndex c)))) = Some c.
Proof.
  intros Hin Hemb Hlabel Hparse Huniq. unfold parseCoordSource.
  rewrite option_not_none. cbv zeta. rewrite split_colon_option by done.
  cbn [length Nat.ltb Nat.leb lookup list_lookup default from_option id].
  change (String.eqb "obsm" "obsm") with true. cbn [andb].
  rewrite Hparse. cbn [isNaN num_of_Z negb].
  apply find_unique; [done| |].
  - rewrite String.eqb_refl. cbn [andb]. by apply num_eqb_of_nat.
  - intros c' Hc' [Hemb' Hidx]%andb_true_iff.
    apply String.eqb_eq in Hemb'. apply num_eqb_of_nat in Hidx. by apply Huniq.
Qed.

Lemma parse_by_name c columnName :
  c ∈ obsm -> no_colon (cs_embedding c) -> cs_columnName c = Some columnName ->
  no_colon columnName -> parseInt columnName = NaN ->
  (forall c', c' ∈ obsm -> cs_embedding c' = cs_embedding c ->
              cs_columnName c' = Some columnName -> c' = c) ->
  parseCoordSource parseInt obsm ("obsm:" +:+ cs_embedding c +:+ ":" +:+ columnName) = Some c.
Proof.
  intros Hin Hemb Hname Hlabel Hparse Huniq. unfold parseCoordSource.
  rewrite option_not_none. cbv zeta. rewrite split_colon_option by done.
  cbn [length Nat.ltb Nat.leb lookup list_lookup default from_option id].
  change (String.eqb "obsm" "obsm") with true. cbn [andb].
  rewrite Hparse. cbn [isNaN negb].
  rewrite (find_unique _ obsm c); [done|done| |].
  - rewrite String.eqb_refl. cbn [andb]. unfold columnName_is.
    by rewrite bool_decide_eq_true_2.
  - intros c' Hc' [Hemb' Hn]%andb_true_iff.
    apply String.eqb_eq in Hemb'. unfold columnName_is in Hn.
    apply bool_decide_eq_true in Hn. by apply Huniq.
Qed.

Lemma parse_option_value c :
  c ∈ obsm -> selectable parseInt obsm c ->
  parseCoordSource parseInt obsm (option_value c) = Some c.
Proof.
  intros Hin [Hemb Hsel]. unfold option_value. cbv zeta.
  destruct (cs_columnName c) as [columnName|] eqn:Hname.
  - destruct (String.eqb columnName "") eqn:Hempty.
    + destruct Hsel as (Hlabel & Hparse & Huniq). by apply parse_by_index.
    + destruct Hsel as (Hlabel & Hparse & Huniq). by apply parse_by_name.
  - destruct Hsel as (Hlabel & Hparse & Huniq). by apply parse_by_index.
Qed.

Lemma parse_in_catalog value found :
  parseCoordSource parseInt obsm value = Some found -> found ∈ obsm.
Proof.
  unfold parseCoordSource. cbv zeta.
  destruct (_ || _); [done|]. destruct (_ <? _)%nat; [done|].
  destruct (_ && _); [|done]. destruct (negb _).
  - by intros [? _]%find_elem_of.
  - destruct (List.find _ obsm) as [c'|] eqn:Hfind.
    + intros [= <-]. by apply find_elem_of in Hfind as [? _].
    + by intros [? _]%find_elem_of.
Qed.

(** X28. The options of the coordinate selectors can be read back: for a
    source of the catalog whose embedding and label hold no colon, whose
    column name does not read as a number (or, without a name, whose column
    index reads as itself), and which is the only source of the catalog
    with its embedding and label, [parseCoordSource] gives the option that
    [updateCoordinateSelectionUI] wrote for it that very source.  The
    option [none] and the empty value give no source, and a source that
    [parseCoordSource] returns is always one of the catalog. *)
Theorem option_value_round_trip c :
  c ∈ obsm -> selectable parseInt obsm c ->
  parseCoordSource parseInt obsm (option_value c) = Some c /\
  parseCoordSource parseInt obsm "none" = None /\
  parseCoordSource parseInt obsm "" = None /\
  (forall value found, parseCoordSource parseInt obsm value = Some found -> found ∈ obsm).
Proof.
  intros Hin Hsel. split; [by apply parse_option_value|]. split; [done|]. split; [done|].
  intros value found. apply parse_in_catalog.
Qed.


(** X29. The selection that [handleCoordinateChange] assigns.  With data
    loaded, the options of two readable sources for x and y make these two
    the selection, with no z source for the option [none] and with the
    source of the z option otherwise.  When the value of the x or of the y
    selector stands for no source, or no data are loaded, the handler
    returns at once and assigns nothing.  Whatever the three values are, a
    selection that it assigns has an x and a y source, and all its sources
    are sources of the catalog. *)
Theorem chosen_coordinates_options cx cy xValue yValue zValue st root :
  zarrRoot st = Some root ->
  cx ∈ obsm -> selectable parseInt obsm cx ->
  cy ∈ obsm -> selectable parseInt obsm cy ->
  chosen_coordinates parseInt obsm (option_value cx) (option_value cy) "none" st
  = Some {| selectedXCoord := Some cx; selectedYCoord := Some cy; selectedZCoord := None |} /\
  (forall cz, cz ∈ obsm -> selectable parseInt obsm cz ->
     chosen_coordinates parseInt obsm (option_value cx) (option_value cy) (option_value cz) st
     = Some {| selectedXCoord := Some cx; selectedYCoord := Some cy;
               selectedZCoord := Some cz |}) /\
  (parseCoordSource parseInt obsm xValue = None \/
   parseCoordSource parseInt obsm yValue = None ->
   chosen_coordinates parseInt obsm xValue yValue zValue st = None) /\
  (forall st', zarrRoot st' = None ->
     chosen_coordinates parseInt obsm xValue yValue zValue st' = None) /\
  (forall sel, chosen_coordinates parseInt obsm xValue yValue zValue st = Some sel ->
     (exists x, selectedXCoord sel = Some x /\ x ∈ obsm) /\
     (exists y, selectedYCoord sel = Some y /\ y ∈ obsm) /\
     (forall z, selectedZCoord sel = Some z -> z ∈ obsm)).
Proof.
  intros Hroot Hx Hsx Hy Hsy. unfold chosen_coordinates. rewrite Hroot. cbv zeta.
  rewrite (parse_option_value cx Hx Hsx), (parse_option_value cy Hy Hsy).
  split; [done|]. split; [|split; [|split]].
  - intros cz Hz Hsz. by rewrite (parse_option_value cz Hz Hsz).
  - intros [-> | ->]; [done|]. by destruct (parseCoordSource parseInt obsm xValue).
  - intros st' Hnone. by rewrite Hnone.
  - intros sel.
    destruct (parseCoordSource parseInt obsm xValue) as [x|] eqn:Hpx; [|done].
    destruct (parseCoordSource parseInt obsm yValue) as [y|] eqn:Hpy; [|done].
    intros [= <-]. cbn [selectedXCoord selectedYCoord selectedZCoord].
    split; [exists x; split; [done|by eapply parse_in_catalog]|].
    split; [exists y; split; [done|by eapply parse_in_catalog]|].
    intros z Hpz. by eapply parse_in_catalog.
Qed.

End CoordinateOptionFacts.

(** * The further properties on the example datasets *)

Section MoreExamples.
#[local] Existing Instance decimal_builtins.

Lemma getGeneExpression_fetches_once_witness :
  exists evs,
    (getGeneExpression "Amh" (getGeneExpression "Gdf9" gene_session).2).2
    = add_log evs (getGeneExpression "Gdf9" gene_session).2 /\
    Forall is_slice_fetch evs /\ (length evs <= 2)%nat.
Proof.
  apply (getGeneExpression_fetches_once gene_session "Gdf9" "Amh"
           [Fin 0; Fin 0; Fin 0; Fin (3 # 2); Fin 0; Fin 0; Fin 0; Fin 2; Fin 0; Fin 0]).
  vm_compute. reflexivity.
Defined.

Lemma ensureColumnLoaded_once_witness :
  ensureColumnLoaded "age" (ensureColumnLoaded "age" (example_session 6 [])).2
  = (Ok tt, (ensureColumnLoaded "age" (example_session 6 [])).2).
Proof.
  apply (ensureColumnLoaded_once (example_session 6 []) "age").
  vm_compute. reflexivity.
Defined.

Lemma numeric_column_range_witness :
  let st := example_session 6 [] in
  (ensureColumnLoaded "age" st).1 = Ok tt /\
  exists r,
    continuousRanges (ensureColumnLoaded "age" st).2 !! "age" = Some r /\
    (forall i row, allData (ensureColumnLoaded "age" st).2 !! i = Some row ->
       exists x, row !! "age" = Some (VNum x) /\
                 (x <> NaN -> num_le (range_min r) x = true /\ num_le x (range_max r) = true)) /\
    ((forall i row, allData (ensureColumnLoaded "age" st).2 !! i = Some row ->
        row !! "age" = Some (VNum NaN)) ->
     r = initial_range) /\
    (forall i row x, allData (ensureColumnLoaded "age" st).2 !! i = Some row ->
       row !! "age" = Some (VNum x) -> x <> NaN ->
       (exists a rowa, allData (ensureColumnLoaded "age" st).2 !! a = Some rowa /\
                       rowa !! "age" = Some (VNum (range_min r))) /\
       (exists b rowb, allData (ensureColumnLoaded "age" st).2 !! b = Some rowb /\
                       rowb !! "age" = Some (VNum (range_max r)))).
Proof.
  apply (numeric_column_range (example_session 6 []) "age" example_store
           {| cm_type := "continuous"; cm_encodingType := "array"; cm_path := "age" |}
           (ints [1; 2; 3; 4; 5; 6])).
  - apply not_elem_of_empty.
  - reflexivity.
  - vm_compute. reflexivity.
  - reflexivity.
  - vm_compute. reflexivity.
  - right. vm_compute. reflexivity.
Defined.

(** The range of the example column [age]: from 1 to 6. *)
Example numeric_column_range_example :
  continuousRanges (ensureColumnLoaded "age" (example_session 6 [])).2 !! "age"
  = Some {| range_min := num_of_Z 1; range_max := num_of_Z 6 |}.
Proof. vm_compute. reflexivity. Qed.


Lemma updateFilter_unconfigured_witness :
  let st := example_session 4 [new_filter "filter_3"] in
  visibleIndices (updateFilter st).2 = Some (all_indices (length (allData st))).
Proof.
  apply (updateFilter_unconfigured (example_session 4 [new_filter "filter_3"])).
  - apply Forall_cons. split; [by left|constructor].
  - reflexivity.
Defined.

Lemma updateFilter_conjunction_witness :
  let st := (updateFilter (example_session 4 [range_filter "age" 2 5;
                                                values_filter "kind" ["A"; "B"]])).2 in
  exists v1 v2,
    visibleIndices (updateFilter (set_activeFilters [range_filter "age" 2 5] st)).2 = Some v1 /\
    visibleIndices (updateFilter (set_activeFilters [values_filter "kind" ["A"; "B"]] st)).2
    = Some v2 /\
    visibleIndices
      (updateFilter (set_activeFilters ([range_filter "age" 2 5] ++
                                        [values_filter "kind" ["A"; "B"]]) st)).2
    = Some (filter (fun idx => idx ∈ v2) v1).
Proof.
  apply (updateFilter_conjunction
           (updateFilter (example_session 4 [range_filter "age" 2 5;
                                               values_filter "kind" ["A"; "B"]])).2
           [range_filter "age" 2 5] [values_filter "kind" ["A"; "B"]]).
  - vm_compute. reflexivity.
  - repeat constructor; compute_done.
Defined.

Lemma updateFilter_filter_columns_only_witness :
  let st := (ensureColumnLoaded "age" (example_session 6 [range_filter "age" 2 5])).2 in
  let st' := (ensureColumnLoaded "kind" st).2 in
  visibleIndices (updateFilter st').2 = visibleIndices (updateFilter st).2.
Proof.
  apply (updateFilter_filter_columns_only
           (ensureColumnLoaded "age" (example_session 6 [range_filter "age" 2 5])).2
           (ensureColumnLoaded "kind"
              (ensureColumnLoaded "age" (example_session 6 [range_filter "age" 2 5])).2).2).
  - vm_compute. reflexivity.
  - vm_compute. reflexivity.
  - vm_compute. reflexivity.
  - unfold filters_loaded. vm_compute filterColumns_of. repeat constructor; compute_done.
  - unfold filters_loaded. vm_compute filterColumns_of. repeat constructor; compute_done.
  - intros idx col Hcol. vm_compute filterColumns_of in Hcol.
    apply list_elem_of_singleton in Hcol as ->. unfold row_value.
    destruct (Z.to_nat idx) as [|[|[|[|[|[|n]]]]]]; vm_compute; reflexivity.
Defined.

(** Loading the column [kind] adds a field to every row, and leaves the
    rows that the filter on [age] shows. *)
Example updateFilter_filter_columns_only_example :
  let st := (ensureColumnLoaded "age" (example_session 6 [range_filter "age" 2 5])).2 in
  allData (ensureColumnLoaded "kind" st).2 <> allData st /\
  visibleIndices (updateFilter (ensureColumnLoaded "kind" st).2).2 = Some [1; 2; 3; 4] /\
  visibleIndices (updateFilter st).2 = Some [1; 2; 3; 4].
Proof.
  split; [vm_compute; discriminate|]. split; vm_compute; reflexivity.
Qed.

Lemma sampleRate_clamped_witness :
  sampleRate_of (num_of_Z 50) <> NaN /\
  num_le (round64 (1 # 100)) (sampleRate_of (num_of_Z 50)) = true /\
  num_le (sampleRate_of (num_of_Z 50)) (Fin 1) = true.
Proof. apply (sampleRate_clamped (num_of_Z 50)). done. Defined.

Lemma indicesToRender_full_rate_witness :
  indicesToRender example_random [4; 7; 9] (sampleRate_of (num_of_Z 100)) MAX_POINTS
  = Some [4; 7; 9].
Proof. apply (indicesToRender_full_rate example_random [4; 7; 9]). simpl. lia. Defined.

Lemma slider_keeps_order_witness :
  let st := example_session 6 [range_filter "age" 2 5] in
  let flt := range_filter "age" 2 5 in
  let r := {| range_min := num_of_Z 2; range_max := num_of_Z 5 |} in
  (exists r',
     activeFilters (on_min_input "filter_1" "3" st)
     = <[0%nat := with_range r' flt]> (activeFilters st) /\
     range_min r' = parseFloat "3" /\
     range_max r' = (if num_gt (parseFloat "3") (range_max r)
                     then parseFloat "3" else range_max r) /\
     num_le (range_min r') (range_max r') = true) /\
  (exists r',
     activeFilters (on_max_input "filter_1" "3" st)
     = <[0%nat := with_range r' flt]> (activeFilters st) /\
     range_max r' = parseFloat "3" /\
     range_min r' = (if num_lt (parseFloat "3") (range_min r)
                     then parseFloat "3" else range_min r) /\
     num_le (range_min r') (range_max r') = true).
Proof.
  apply (slider_keeps_order (example_session 6 [range_filter "age" 2 5]) "filter_1" "3" 0
           (range_filter "age" 2 5) {| range_min := num_of_Z 2; range_max := num_of_Z 5 |}).
  - vm_compute. reflexivity.
  - reflexivity.
  - vm_compute. discriminate.
  - vm_compute. discriminate.
  - vm_compute. discriminate.
Defined.

Lemma fresh_continuous_filter_witness :
  let st := example_session 6 [new_filter "filter_3"] in
  let chosen := on_attribute_change ["kind"; "cluster"] ["age"; "depth"] "filter_3" "age" st in
  chosen.1 = Ok tt /\
  "age" ∈ loadedColumns chosen.2 /\
  exists r visible,
    continuousRanges chosen.2 !! "age" = Some r /\
    activeFilters chosen.2
    = [{| f_id := "filter_3"; f_attribute := "age"; f_type := Some continuous;
          f_values := None; f_range := Some r |}] /\
    (forall idx x, row_value (allData chosen.2) idx "age" = VNum x -> x <> NaN ->
       num_le (range_min r) x = true /\ num_le x (range_max r) = true) /\
    visibleIndices (updateFilter chosen.2).2 = Some visible /\
    forall idx, idx ∈ visible <->
      0 <= idx < Z.of_nat (length (allData st)) /\
      exists x, row_value (allData chosen.2) idx "age" = VNum x /\ x <> NaN.
Proof.
  apply (fresh_continuous_filter ["kind"; "cluster"] ["age"; "depth"]
           (example_session 6 [new_filter "filter_3"]) (new_filter "filter_3") "age"
           example_store
           {| cm_type := "continuous"; cm_encodingType := "array"; cm_path := "age" |}
           (ints [1; 2; 3; 4; 5; 6])).
  - reflexivity.
  - done.
  - set_solver.
  - apply not_elem_of_empty.
  - reflexivity.
  - vm_compute. reflexivity.
  - reflexivity.
  - vm_compute. reflexivity.
  - right. vm_compute. reflexivity.
  - simpl. lia.
Defined.

(** The fresh filter on [age] gets the range from 1 to 6, and the six rows
    of the example, which all hold a number for [age], stay visible. *)
Example fresh_continuous_filter_example :
  let chosen := on_attribute_change ["kind"; "cluster"] ["age"; "depth"] "filter_3" "age"
                  (example_session 6 [new_filter "filter_3"]) in
  activeFilters chosen.2
  = [{| f_id := "filter_3"; f_attribute := "age"; f_type := Some continuous;
        f_values := None;
        f_range := Some {| range_min := num_of_Z 1; range_max := num_of_Z 6 |} |}] /\
  visibleIndices (updateFilter chosen.2).2 = Some [0; 1; 2; 3; 4; 5].
Proof. split; vm_compute; reflexivity. Qed.

Lemma fresh_categorical_filter_witness :
  let st := example_session 4 [new_filter "filter_3"] in
  let chosen := on_attribute_change ["kind"; "cluster"] ["age"; "depth"] "filter_3" "kind" st in
  chosen.1 = Ok tt /\
  "kind" ∈ loadedColumns chosen.2 /\
  exists s visible,
    attributeValues chosen.2 !! "kind" = Some s /\
    activeFilters chosen.2
    = [{| f_id := "filter_3"; f_attribute := "kind"; f_type := Some categorical;
          f_values := Some s; f_range := None |}] /\
    (forall x, x ∈ s <->
       x <> "" /\
       exists idx, 0 <= idx < Z.of_nat (length (allData st)) /\
                   row_value (allData chosen.2) idx "kind" = VStr x) /\
    visibleIndices (updateFilter chosen.2).2 = Some visible /\
    (s <> ∅ ->
     forall idx, idx ∈ visible <->
       0 <= idx < Z.of_nat (length (allData st)) /\
       exists x, row_value (allData chosen.2) idx "kind" = VStr x /\ x <> "") /\
    (s = ∅ -> visible = all_indices (length (allData st))).
Proof.
  apply (fresh_categorical_filter ["kind"; "cluster"] ["age"; "depth"]
           (example_session 4 [new_filter "filter_3"]) (new_filter "filter_3") "kind"
           example_store
           {| cm_type := "categorical"; cm_encodingType := "array"; cm_path := "kind" |}
           (strs ["A"; "C"; "B"; "A"])).
  - reflexivity.
  - done.
  - set_solver.
  - set_solver.
  - apply not_elem_of_empty.
  - reflexivity.
  - vm_compute. reflexivity.
  - done.
  - vm_compute. reflexivity.
  - right. vm_compute. reflexivity.
  - simpl. lia.
Defined.

Lemma deselect_all_like_removed_witness :
  let st := (updateFilter (example_session 4 [values_filter "kind" ["A"; "B"]])).2 in
  visibleIndices (updateFilter (on_deselect_all "filter_2" st)).2
  = visibleIndices (updateFilter (on_remove_filter "filter_2" st)).2.
Proof.
  apply (deselect_all_like_removed
           (updateFilter (example_session 4 [values_filter "kind" ["A"; "B"]])).2
           "filter_2" 0 (values_filter "kind" ["A"; "B"]) (list_to_set ["A"; "B"])).
  - vm_compute. reflexivity.
  - reflexivity.
  - reflexivity.
  - vm_compute. repeat constructor. set_solver.
  - unfold filters_loaded. vm_compute filterColumns_of.
    repeat constructor; compute_done.
  - vm_compute. reflexivity.
Defined.

Lemma load_coordinates_rows_witness :
  let st := example_session 3 [] in
  exists xValues yValues zValues evs,
    (forall s, (loadCoordinateValues 10 example_store named_source (length (allData st)) s).1
               = Ok xValues) /\
    (forall s, (loadCoordinateValues 10 example_store chunked_source (length (allData st)) s).1
               = Ok yValues) /\
    zValues = None /\
    load_coordinates 10 example_store named_source chunked_source None st
    = (Ok tt,
       set_allData (imap (with_xyz xValues yValues zValues) (allData st)) (add_log evs st)) /\
    forall i row',
      imap (with_xyz xValues yValues zValues) (allData st) !! i = Some row' ->
      exists row x y z,
        allData st !! i = Some row /\
        row' !! "x" = Some x /\ usable_coordinate x /\
        row' !! "y" = Some y /\ usable_coordinate y /\
        row' !! "z" = Some z /\ usable_coordinate z /\
        (@None coord_source = None -> z = VNum (Fin 0)) /\
        forall d, d <> "x" -> d <> "y" -> d <> "z" -> row' !! d = row !! d.
Proof.
  apply (load_coordinates_rows 10 example_store named_source chunked_source None
           (example_session 3 [])).
  vm_compute. lia.
Defined.

(** The coordinates of the three example rows: x from the named column, y
    from the two chunks, z absent. *)
Example load_coordinates_example :
  allData (load_coordinates 10 example_store named_source chunked_source None
             (example_session 3 [])).2
  = [ {[ "x" := VNum (num_of_Z 10); "y" := VNum (num_of_Z 7); "z" := VNum (Fin 0) ]};
      {[ "x" := VNum (num_of_Z 20); "y" := VNum (num_of_Z 8); "z" := VNum (Fin 0) ]};
      {[ "x" := VNum (num_of_Z 30); "y" := VNum (num_of_Z 9); "z" := VNum (Fin 0) ]} ].
Proof. vm_compute. reflexivity. Qed.

Lemma default_coordinates_choice_witness :
  let obsm := [chunked_source; named_source] in
  (forall x y, default_coordinates obsm None None = Ok (x, y) -> x ∈ obsm /\ y ∈ obsm) /\
  ((2 <= length obsm)%nat -> exists x y, default_coordinates obsm None None = Ok (x, y)) /\
  (obsm = [] ->
     default_coordinates obsm None None
     = Throw (Error "No obsm coordinate sources found. Please check the zarr file structure.")) /\
  (forall gx gy,
     gx ∈ obsm -> cs_embedding gx = "Global_Spatial" -> cs_columnName gx = Some "global_x" ->
     gy ∈ obsm -> cs_embedding gy = "Global_Spatial" -> cs_columnName gy = Some "global_y" ->
     exists x y,
       default_coordinates obsm None None = Ok (x, y) /\
       cs_embedding x = "Global_Spatial" /\ cs_columnName x = Some "global_x" /\
       cs_embedding y = "Global_Spatial" /\ cs_columnName y = Some "global_y").
Proof.
  apply (default_coordinates_choice [chunked_source; named_source] None None).
  left. reflexivity.
Defined.

Lemma ensureVarColumnsLoaded_stats_witness :
  exists evs vs',
    ensureVarColumnsLoaded var_state_0 var_session = (Ok vs', add_log evs var_session) /\
    varColumnsLoaded vs' = true /\
    varColumnMetadata vs' = varColumnMetadata var_state_0 /\
    length (geneStats vs') = length ["Gdf9"; "Amh"] /\
    forall i name, ["Gdf9"; "Amh"] !! i = Some name ->
      exists row,
        geneStats vs' !! i = Some row /\
        (forall field, is_Some (row !! field) <->
           field = "gene" \/
           exists colName, colName ∈ map fst (varColumnMetadata var_state_0) /\
                           field = replace_dots colName) /\
        ("gene" ∉ map replace_dots (map fst (varColumnMetadata var_state_0)) ->
         row !! "gene" = Some (VStr name)) /\
        (forall colName metadata,
           (colName, metadata) ∈ varColumnMetadata var_state_0 ->
           (forall colName', colName' ∈ map fst (varColumnMetadata var_state_0) ->
              replace_dots colName' = replace_dots colName -> colName' = colName) ->
           row !! replace_dots colName = Some (var_value var_store metadata colName i)).
Proof.
  apply (ensureVarColumnsLoaded_stats var_state_0 var_session var_store ["Gdf9"; "Amh"]).
  - reflexivity.
  - reflexivity.
  - reflexivity.
  - done.
  - vm_compute. repeat (apply NoDup_cons; split; [set_solver|]). apply NoDup_nil_2.
Defined.

(** The gene statistics of the example: the missing column gives [null]. *)
Example ensureVarColumnsLoaded_example :
  geneStats (default var_state_0
               (match (ensureVarColumnsLoaded var_state_0 var_session).1 with
                | Ok vs' => Some vs'
                | _ => None
                end))
  = [ {[ "gene" := VStr "Gdf9"; "means" := VNum (Fin (1 # 2)); "mt" := VStr "yes";
         "dispersions_norm" := VNull ]};
      {[ "gene" := VStr "Amh"; "means" := VNum (num_of_Z 2); "mt" := VStr "no";
         "dispersions_norm" := VNull ]} ].
Proof. vm_compute. reflexivity. Qed.

Lemma columnOrder_of_permutation_witness :
  let allColumns := ["gene"; "means"; "mt"; "dispersions_norm"] in
  columnOrder_of allColumns ≡ₚ allColumns /\
  ("gene" ∈ allColumns -> head (columnOrder_of allColumns) = Some "gene") /\
  (forall i j ci cj,
     columnOrder_of allColumns !! i = Some ci -> columnOrder_of allColumns !! j = Some cj ->
     ci ∈ priorityColumns -> cj ∉ priorityColumns -> (i < j)%nat) /\
  (initialSortColumn_of (columnOrder_of allColumns) ∈ columnOrder_of allColumns \/
   (initialSortColumn_of (columnOrder_of allColumns) = "gene" /\ "gene" ∉ allColumns)).
Proof.
  apply (columnOrder_of_permutation ["gene"; "means"; "mt"; "dispersions_norm"]).
  repeat (apply NoDup_cons; split; [set_solver|]). apply NoDup_nil_2.
Defined.

(** The columns of the example table, and the column it is sorted by. *)
Example columnOrder_of_example :
  columnOrder_of ["gene"; "means"; "mt"; "dispersions_norm"]
  = ["gene"; "dispersions_norm"; "means"; "mt"] /\
  initialSortColumn_of (columnOrder_of ["gene"; "means"; "mt"; "dispersions_norm"])
  = "dispersions_norm".
Proof. vm_compute. done. Qed.

Lemma showSuggestions_listed_witness :
  let geneNames := ["Gdf9"; "Amh"; "Bgdf"; "Gdf15"] in
  let listed := currentSuggestions (showSuggestions ascii_lower geneNames "gd" search_0) in
  suggestions_display (showSuggestions ascii_lower geneNames "gd" search_0) = "block" /\
  (length listed <= 20)%nat /\
  (forall g, g ∈ listed -> g ∈ geneNames /\ matches_query ascii_lower "gd" g) /\
  ((length listed < 20)%nat ->
   forall g, g ∈ geneNames -> matches_query ascii_lower "gd" g -> g ∈ listed) /\
  (forall i j gi gj,
     listed !! i = Some gi -> listed !! j = Some gj ->
     starts_with_query ascii_lower "gd" gj -> ~ starts_with_query ascii_lower "gd" gi ->
     (j < i)%nat).
Proof.
  apply (showSuggestions_listed ascii_lower ["Gdf9"; "Amh"; "Bgdf"; "Gdf15"] "gd" search_0).
  done.
Defined.

(** The suggestions for "gd": the names that start with it come first. *)
Example showSuggestions_example :
  currentSuggestions (showSuggestions ascii_lower ["Gdf9"; "Amh"; "Bgdf"; "Gdf15"] "gd" search_0)
  = ["Gdf9"; "Gdf15"; "Bgdf"].
Proof. vm_compute. reflexivity. Qed.

Lemma keyboard_selects_listed_gene_witness :
  let geneNames := ["Gdf9"; "Amh"; "Bgdf"; "Gdf15"] in
  let keys := ["ArrowDown"; "ArrowDown"; "ArrowUp"] in
  let gs0 := showSuggestions ascii_lower geneNames "gd" search_0 in
  let gs1 := fold_left (fun gs key => on_keydown geneNames key gs) keys gs0 in
  currentSuggestions gs1 = currentSuggestions gs0 /\
  -1 <= selectedIndex gs1 < Z.of_nat (length (currentSuggestions gs0)) /\
  (keys = [] -> selectedIndex gs1 = -1) /\
  exists g,
    currentSuggestions gs0 !! Z.to_nat (Z.max (selectedIndex gs1) 0) = Some g /\
    g ∈ geneNames /\ matches_query ascii_lower "gd" g /\
    selectedGene (on_keydown geneNames "Enter" gs1) = Some g /\
    suggestions_display (on_keydown geneNames "Enter" gs1) = "none".
Proof.
  apply (keyboard_selects_listed_gene ascii_lower ["Gdf9"; "Amh"; "Bgdf"; "Gdf15"] "gd"
           search_0 ["ArrowDown"; "ArrowDown"; "ArrowUp"]).
  - intros s. destruct s; simpl; split; done.
  - done.
  - vm_compute. done.
  - repeat (apply Forall_cons; split; [auto|]). apply Forall_nil_2.
Defined.

(** Down, down, up, Enter selects the first suggestion. *)
Example keyboard_example :
  selectedGene
    (fold_left (fun gs key => on_keydown ["Gdf9"; "Amh"; "Bgdf"; "Gdf15"] key gs)
               ["ArrowDown"; "ArrowDown"; "ArrowUp"; "Enter"]
               (showSuggestions ascii_lower ["Gdf9"; "Amh"; "Bgdf"; "Gdf15"] "gd" search_0))
  = Some "Gdf9".
Proof. vm_compute. reflexivity. Qed.

(** The discovery of four example columns: [age] is continuous, the others
    categorical, [cluster] (no readable attributes) with the array
    encoding. *)
Example discover_columns_example :
  let run := discover_columns example_encoding_type ["age"; "kind"; "phase"; "cluster"; "age"]
               (example_session 3 []) in
  names_continuous run.2 = ["age"] /\
  names_categorical run.2 = ["kind"; "phase"; "cluster"] /\
  columnMetadata run.1 !! "cluster"
  = Some {| cm_type := "categorical"; cm_encodingType := "array"; cm_path := "cluster" |}.
Proof. vm_compute. done. Qed.

Lemma load_gene_expression_range_witness :
  let cache' := gene_cache_of "Gdf9" gene_data in
  (getGeneExpression "Gdf9" gene_session).1 = Ok (Some gene_data) /\
  gc_geneName cache' = Some "Gdf9" /\ gc_data cache' = Some gene_data /\
  gc_min cache' = Fin 0 /\ gc_winsorizedMin cache' = Fin 0 /\
  gc_winsorizedMax cache' = gc_max cache' /\
  num_gt (gc_max cache') (Fin 0) = true /\
  (forall v, v ∈ gene_data -> num_gt v (Fin 0) = true -> num_le v (gc_max cache') = true) /\
  ((exists v, v ∈ gene_data /\ num_gt v (Fin 0) = true) -> gc_max cache' ∈ gene_data) /\
  ((forall v, v ∈ gene_data -> num_gt v (Fin 0) = false) -> gc_max cache' = Fin 1).
Proof.
  apply (load_gene_expression_range "Gdf9" initial_gene_cache gene_session gene_data
           (gene_cache_of "Gdf9" gene_data)).
  - done.
  - vm_compute. reflexivity.
Defined.

(** The scale of the example gene ends at its largest value, 2. *)
Example gene_cache_of_example : gc_winsorizedMax (gene_cache_of "Gdf9" gene_data) = Fin 2.
Proof. vm_compute. reflexivity. Qed.

Lemma gene_color_scale_witness :
  let result :=
    getColorForValue ascii_code_units ["age"; "depth"] (gene_cache_of "Gdf9" gene_data)
                     gene_session (VNum (Fin (3 # 2))) "gene:Gdf9" ∅ in
  result.2 = ∅ /\
  (exists r g b,
     result.1 = Color_rgb (Fin r) (Fin g) (Fin b) /\
     (0 <= r <= 1)%Q /\ (0 <= g <= 1)%Q /\ (0 <= b <= 1)%Q /\
     ((r = g /\ b = 1%Q) \/ (r = 1%Q /\ g = b))) /\
  (num_le (Fin (3 # 2)) (Fin 0) = true -> result.1 = Color_rgb (Fin 0) (Fin 0) (Fin 1)) /\
  (num_le (Fin 2) (Fin (3 # 2)) = true -> result.1 = Color_rgb (Fin 1) (Fin 0) (Fin 0)).
Proof.
  apply (gene_color_scale ascii_code_units ["age"; "depth"] (gene_cache_of "Gdf9" gene_data)
           gene_session (Fin (3 # 2)) "gene:Gdf9" ∅ 2).
  - reflexivity.
  - reflexivity.
  - vm_compute. reflexivity.
  - done.
  - vm_compute. reflexivity.
  - done.
Defined.

(** On the scale from 0 to 2, the value 1.5 is half way from white to red. *)
Example gene_color_scale_example :
  (getColorForValue ascii_code_units ["age"; "depth"] (gene_cache_of "Gdf9" gene_data)
                    gene_session (VNum (Fin (3 # 2))) "gene:Gdf9" ∅).1
  = Color_rgb (Fin 1) (Fin (1 # 2)) (Fin (1 # 2)).
Proof. vm_compute. reflexivity. Qed.

Lemma gradient_color_range_witness :
  let st := (ensureColumnLoaded "age" (example_session 6 [])).2 in
  let result :=
    getColorForValue ascii_code_units ["age"; "depth"] initial_gene_cache st
                     (VNum (Fin (inject_Z 3))) "age" ∅ in
  result.2 = ∅ /\
  exists h c,
    round64 (7 # 10) = Fin c /\
    result.1 = Color_hsl (Fin h) (round64 (8 # 10)) (Fin (1 # 2)) /\
    (0 <= h)%Q /\ (h <= c)%Q /\
    ((inject_Z 3 == inject_Z 1)%Q -> h = c) /\ ((inject_Z 3 == inject_Z 6)%Q -> h = 0%Q).
Proof.
  apply (gradient_color_range ascii_code_units ["age"; "depth"] initial_gene_cache
           (ensureColumnLoaded "age" (example_session 6 [])).2 "age" ∅
           {| range_min := num_of_Z 1; range_max := num_of_Z 6 |}
           (inject_Z 1) (inject_Z 6) (inject_Z 5) (inject_Z 3)).
  - reflexivity.
  - set_solver.
  - vm_compute. reflexivity.
  - reflexivity.
  - reflexivity.
  - done.
  - vm_compute. reflexivity.
  - done.
  - unfold Qle. simpl. lia.
  - unfold Qle. simpl. lia.
Defined.

Lemma categorical_color_kept_witness :
  let key := "kind" +:+ ":" +:+ String_of (VStr "A") in
  let result :=
    getColorForValue ascii_code_units ["age"; "depth"] initial_gene_cache
                     (example_session 4 []) (VStr "A") "kind" ∅ in
  result.2 !! key = Some result.1 /\
  (forall k, k <> key -> result.2 !! k = (∅ : gmap string color) !! k) /\
  (forall c, (∅ : gmap string color) !! key = Some c -> result = (c, ∅)) /\
  getColorForValue ascii_code_units ["age"; "depth"] initial_gene_cache
                   (example_session 4 []) (VStr "A") "kind" result.2
  = result /\
  ((∅ : gmap string color) !! key = None ->
   exists h s l,
     result.1 = Color_hsl (Fin h) (Fin s) (Fin l) /\
     (0 <= h <= 1)%Q /\ (0 <= s <= 1)%Q /\ (0 <= l <= 1)%Q).
Proof.
  apply (categorical_color_kept ascii_code_units ["age"; "depth"] initial_gene_cache
           (example_session 4 []) (VStr "A") "kind" ∅).
  - reflexivity.
  - reflexivity.
  - set_solver.
  - change (Forall (fun c => 0 <= c < 65536) [65]).
    apply Forall_cons. split; [lia|apply Forall_nil_2].
  - vm_compute. reflexivity.
Defined.

(** The colour that the hash gives the value "A": its only code unit is
    65. *)
Example hashed_color_example :
  hashed_color ascii_code_units (VStr "A")
  = Color_hsl (round64 (65 # 360)) (round64 (75 # 100)) (round64 (55 # 100)).
Proof. vm_compute. reflexivity. Qed.

Lemma named_source_selectable :
  selectable decimal_number [named_source; chunked_source] named_source.
Proof.
  split; [vm_compute; reflexivity|]. cbn [cs_columnName named_source].
  change (String.eqb "global_x" "") with false. cbv iota.
  split; [vm_compute; reflexivity|]. split; [vm_compute; reflexivity|].
  intros c' [->|[->|Hc']%elem_of_cons]%elem_of_cons Hemb Hname; try done.
  by apply elem_of_nil in Hc'.
Qed.

Lemma chunked_source_selectable :
  selectable decimal_number [named_source; chunked_source] chunked_source.
Proof.
  split; [vm_compute; reflexivity|]. cbn [cs_columnName chunked_source].
  split; [vm_compute; reflexivity|]. split; [vm_compute; reflexivity|].
  intros c' [->|[->|Hc']%elem_of_cons]%elem_of_cons Hemb Hidx; try done.
  by apply elem_of_nil in Hc'.
Qed.

Lemma option_value_round_trip_witness :
  let obsm := [named_source; chunked_source] in
  parseCoordSource decimal_number obsm (option_value named_source) = Some named_source /\
  parseCoordSource decimal_number obsm "none" = None /\
  parseCoordSource decimal_number obsm "" = None /\
  (forall value found,
     parseCoordSource decimal_number obsm value = Some found -> found ∈ obsm).
Proof.
  apply (option_value_round_trip decimal_number [named_source; chunked_source] named_source).
  - set_solver.
  - apply named_source_selectable.
Defined.

(** The options of the two example sources. *)
Example option_value_example :
  option_value named_source = "obsm:Global_Spatial:global_x" /\
  option_value chunked_source = "obsm:X_umap:0".
Proof. vm_compute. done. Qed.

(** A column whose name reads as a number is looked up by index: the option
    of the column named "1" of an embedding selects the second column. *)
Example option_value_numeric_name :
  let first := {| cs_source := "obsm"; cs_path := ""; cs_embedding := "E";
                  cs_columnIndex := 0; cs_columnName := Some "1" |} in
  let second := {| cs_source := "obsm"; cs_path := ""; cs_embedding := "E";
                   cs_columnIndex := 1; cs_columnName := Some "0" |} in
  parseCoordSource decimal_number [first; second] (option_value first) = Some second.
Proof. vm_compute. reflexivity. Qed.

Lemma chosen_coordinates_options_witness :
  let obsm := [named_source; chunked_source] in
  let st := example_session 3 [] in
  chosen_coordinates decimal_number obsm (option_value named_source)
                     (option_value chunked_source) "none" st
  = Some {| selectedXCoord := Some named_source; selectedYCoord := Some chunked_source;
            selectedZCoord := None |} /\
  (forall cz, cz ∈ obsm -> selectable decimal_number obsm cz ->
     chosen_coordinates decimal_number obsm (option_value named_source)
                        (option_value chunked_source) (option_value cz) st
     = Some {| selectedXCoord := Some named_source; selectedYCoord := Some chunked_source;
               selectedZCoord := Some cz |}) /\
  (parseCoordSource decimal_number obsm "obsm:X_pca:0" = None \/
   parseCoordSource decimal_number obsm "" = None ->
   chosen_coordinates decimal_number obsm "obsm:X_pca:0" "" "none" st = None) /\
  (forall st', zarrRoot st' = None ->
     chosen_coordinates decimal_number obsm "obsm:X_pca:0" "" "none" st' = None) /\
  (forall sel, chosen_coordinates decimal_number obsm "obsm:X_pca:0" "" "none" st = Some sel ->
     (exists x, selectedXCoord sel = Some x /\ x ∈ obsm) /\
     (exists y, selectedYCoord sel = Some y /\ y ∈ obsm) /\
     (forall z, selectedZCoord sel = Some z -> z ∈ obsm)).
Proof.
  apply (chosen_coordinates_options decimal_number [named_source; chunked_source]
           named_source chunked_source "obsm:X_pca:0" "" "none"
           (example_session 3 []) example_store).
  - reflexivity.
  - set_solver.
  - apply named_source_selectable.
  - set_solver.
  - apply chunked_source_selectable.
Defined.

(** The selection for the options of the two example sources, and the rows
    that the handler then loads from them. *)
Example chosen_coordinates_example :
  chosen_coordinates decimal_number [named_source; chunked_source]
    "obsm:Global_Spatial:global_x" "obsm:X_umap:0" "none" (example_session 3 [])
  = Some {| selectedXCoord := Some named_source; selectedYCoord := Some chunked_source;
            selectedZCoord := None |} /\
  chosen_coordinates decimal_number [named_source; chunked_source]
    "obsm:X_pca:0" "obsm:X_umap:0" "none" (example_session 3 []) = None.
Proof. split; vm_compute; reflexivity. Qed.

End MoreExamples.
